(* ===== verification/_CoqProject ===== *)
-Q . S2P
Prelude.v
Codestream.v
BitReader.v
Receiver.v
Spsc.v
Slots.v
Markers.v
Structs.v
MainHeader.v
HeaderSpec.v
HeaderTypes.v
Signature.v
PacketHeader.v
PacketSpec.v
PacketSafety.v
Progression.v
Geometry.v
GeometrySpec.v
TileHandler.v
TileSpec.v
TileSafety.v
Recovery.v
TileRestart.v
Create.v
FrameHandler.v
Ownership.v
System.v
EndToEnd.v
Stream.v
Resilience.v
Main.v
Pipeline.v
Wire.v
Text.v
Affinity.v
CommandLine.v
Console.v
Double.v
Lifecycle.v
Instr.v
Program.v
HandlerMap.v
Clock.v
Logs.v
FrameLog.v
