(* ===== verification/Prelude.v ===== *)
(** * A verification of rtp_decoder_test

    The program receives HTJ2K video over RTP (RFC 9828), puts the packets in order,
    and parses the codestream precinct by precinct while it arrives.  This library
    models its logic as Rocq functions over machine-width integers and proves what
    makes each part correct, up to a theorem that carries a stream of frames from the wire
    through both threads, the frame handler and the parser to the consumer, and one about
    [main].

    ** The program

    - [rtp::Receiver] (src/rtp_receiver.hpp, .cpp).  A receive thread stores each
      datagram in a slot of a ring (the slab), releases slots in sequence order
      through a jitter window, and hands jobs to a worker thread over a single
      producer single consumer queue.  The worker calls the hook; the slot stays
      reserved until the hook's owner calls [release_slab].
    - [main] (src/main.cpp) reads the arguments, reports where the network card's interrupt
      is served, connects the parts and starts and stops the receiver.
    - [rtp_receive_hook] (src/main.cpp) strips the 8-byte payload header and calls
      [frame_handler::pull_data].
    - [j2k::frame_handler] (src/frame_handler.hpp) is the frame state machine: main
      packets, body packets, end of frame, loss, the latch of the stream's geometry;
      it keeps the held slabs and the chain of chunks and calls the consumer's
      callbacks.
    - [tile_handler] (src/packet_parser/tile_handler.hpp) builds the tile structure
      once per stream, walks the precincts of each frame, recovers at resync signals
      and resets the structure between frames.
    - [codestream] (src/packet_parser/type.hpp) reads bytes and bits from the chain of
      chunks without copying; src/packet_parser/j2k_header.cpp parses main headers;
      src/packet_parser/j2k_packet.cpp builds the structure and parses packets;
      src/packet_parser/utils.cpp holds the arena, the log file and the frame dumps.

    ** The files

    - [Prelude]: integer widths, the outcome monad, shared lemmas and tactics.
    - [Codestream], [BitReader]: class [codestream], field by field; a pointer is an
      address in a byte memory.  Specification: one flat byte string and a position.
    - [Receiver]: class [Receiver], with one step per datagram, per worker round and
      per [release_slab].  [Spsc]: the job queue at the grain of single memory accesses
      of the two threads.  [Slots]: who holds a slot, exactly.
    - [Markers], [Structs]: the marker tables and the tile records of type.hpp.
    - [MainHeader]: [parse_main_header] and the marker routines, against a class
      [Reader] that the chain and a flat stream both implement.  [HeaderSpec]: encoder
      of headers, round trip.  [HeaderTypes]: totality, and what the tables can hold after
      any bytes.
    - [Signature]: [geometry_signature].
    - [PacketHeader]: [read_packet].  [PacketSpec]: encoder of HT packets, round trip,
      termination.  [PacketSafety]: HT packets on arbitrary bytes.
    - [Progression]: [prepare_precinct_structure] (PCRL and PRCL).
    - [Geometry]: [parepare_tcomp_structure], the tag trees and the [stackAlloc] arena.
      [GeometrySpec]: the structure it builds and its exact arena cost.
    - [TileHandler]: class [tile_handler].  [TileSpec]: what [parse] and [flush]
      deliver.  [TileSafety]: termination and bounds on arbitrary bytes.  [Recovery]:
      what they deliver behind a damaged packet.  [TileRestart]: [restart] between
      frames.  [Create]: what [create] builds from the tables of a supported stream, stated
      with formulas of its own ([std_layout]), with a decision procedure for the tables.
    - [FrameHandler]: class [frame_handler] over the interface [TileHandler] with its
      laws [TileLaws]; a callback invocation is an event of a trace.  [Ownership]: the
      chain is the packets handed in and not yet released.
    - [System]: [tile_handler] implements the interface, so all theorems of
      [FrameHandler] hold of the assembled program; their instances at concrete inputs.
    - [EndToEnd]: a frame through frame handler, tile handler, packet parser and chain.
      [Stream]: a whole stream, from the first header or a re-latch on, with resync points,
      each packet handled with the slab memory of its time.  [Resilience]: a stream
      disturbed by arbitrary packets.
    - [Main]: the receive hook.  [Pipeline]: receive thread, worker, hook and frame handler
      as one transition system.  [Wire]: [Pipeline] and [Stream] composed, from the
      datagrams to the consumer.
    - [Text]: the C++ text functions main.cpp uses.  [Affinity]: the IRQ report.
      [CommandLine]: the arguments.  [Lifecycle]: [Receiver]'s construction, [start],
      [stop] and destruction, as the system calls they make.  [Console]: the usage text
      and [print_SIZ].  [Program]: [main] from its arguments to its exit status.
    - [Instr]: [parse], [flush], [try_recover] and the furthest offset read of a
      PARSER_OVERSHOOT_INSTR build.
    - [HandlerMap]: the frame handler over two tile handlers, one simulating the other.
    - [Double]: IEEE doubles, exact on integers below 2^53, and how they are printed.
      [Clock]: the time measurements of [ACTION] (a tile handler that carries the figures
      along, under the unchanged [FrameHandler]) and the statistics lines of the hook.
    - [Logs]: log file and frame dumps over the C library's streams.  [FrameLog]: the
      parser and the frame handler of a build that logs and dumps.

    ** What the theorems show

    - From the wire to the consumer: whatever the threads interleave and however slots are
      reused, if the payloads the hook saw are the packets of intact frames, the consumer
      has seen exactly these frames (Wire).
    - Whole stream: from its first main header, or a header that forces a re-latch, a
      stream of any number of intact frames, each cut into packets anywhere and carrying
      resync points, reaches the consumer completely, in order and once, with every slab
      given back (Stream; one frame of a latched stream in EndToEnd).
    - The assembled program: under every interleaving of the two threads, as long as every
      payload has its 8-byte header, the chain the parser reads designates exactly the bytes of the datagrams it came from, a slot is
      reserved exactly as long as it is needed, and every run is a run of the receiver
      with a well-behaved owner (Pipeline).
    - Damage: behind a packet that cannot be parsed, the walk resumes at the next signal
      and delivers everything from there on exactly (Recovery); whatever arbitrary packets
      do to a latched stream, the next intact frames are delivered as if nothing had
      happened (Resilience).
    - Delivery: for every packet sequence the byte ranges of a frame are contiguous, no range
      and no second abort follows an abort, an intact completion is reported only for an
      unaborted frame (a completion that is not intact may follow an abort, which the
      comment of frame_handler.hpp excludes), and every slab comes back exactly once; the latch is reused,
      rebuilt or protected as the comments say (FrameHandler).
    - Receiver: under every interleaving frames arrive in order, each number delivered
      or counted once, and held memory is never overwritten; the queue is a race-free
      FIFO.
    - Parsing: chain reads refine flat reads; the bit reader inverts the bit stuffing;
      main headers and HT packets are decoded exactly and independently of the chunk
      boundaries; the precinct walk lists each precinct once; the structure has the
      extents the standard gives and precincts partition a resolution; [create] builds
      all of it for every supported stream (at most four levels: with five it reads past an
      array).
    - Robustness: header walk, packet parse, [parse] and [flush] terminate on any bytes, and
      the header tables keep their dimensions and value ranges; on HT streams packets and
      [flush] without pending signals access nothing out of bounds and the only
      out-of-bounds access of [parse] is characterised; [restart] renews any state a frame
      can leave in a structure whose six resolutions are sized.
    - Around it: sockets and threads are used and released correctly under every sequence
      of calls and every answer of the system, threads that cannot be created included (but
      the receive thread's [recv] may race with the [close] of [stop]); [main] makes exactly
      the calls its configuration asks for and its exit status says whether it could listen;
      arguments are read as written; the IRQ report is exact for CPUs below 64;
      instrumentation changes nothing and its counters balance; timing changes nothing, and
      the time reported is that of the calls of [parse] and [flush]; unless a log cannot be
      opened logging changes nothing, and the dumps are the completed frames.
    - Where the code does not do what it says, a theorem marked as a finding shows the
      behaviour at a concrete input or in general.

    ** Conventions

    [outcome] distinguishes a result, undefined behaviour ([UB]: an index outside an
    array, an uninitialised pointer, division by zero) and a model loop out of fuel
    ([NoFuel]).  Theorems that say a function returns exclude both.

    Integers the program computes with keep their width.  The frame and loss counters of the
    frame handler and the receiver ([total_frames], [trunc_frames], [relatches_] and the
    like), which only grow by one and are 64 bits wide, are unbounded: theorems about them
    hold up to 2^64 events.  A datagram and a round of the worker are single steps of the
    interleaving; the job queue between them is also modelled access by access ([Spsc]).

    Loops that are not structural have fuel, and theorems show it suffices: the marker
    walk has the number of bytes left plus one (each round reads a marker); [parse] and
    [flush] have the entries left in the walk plus the queued signals (a recovery never
    goes back and consumes a signal); tag-tree levels have 33 rounds (a 32-bit width
    halves to 1 in 32); the length-widening loops of the packet header 31 (at most 127
    passes); bit loops the bits left in the chain; the forced advance of the receiver
    65537 (the distance of two 16-bit numbers); the token search of the IRQ report the
    length of the line plus two (each round moves past an occurrence of a non-empty name);
    decimal printing 10 digits for an [int], 20 for a [size_t] and 400 for the integral
    part of a [double].

    Parameters stand for memory whose content the program leaves open: [uninit] (the
    memory a tile's components are constructed in) and [stale] (what an arena block held
    before).  The answers of the two resync callbacks are part of the input, as are those
    of the operating system: descriptors, failures, interface list, contents of /proc and
    /sys, clock readings, whether a file can be opened, and how a NaN is spelled.

    ** Not modelled

    Thread scheduling beyond interleaving (blocking in [recv], the worker's timed wait on
    its condition variable, memory orders weaker than the interleaving of single accesses);
    the [printf] diagnostics of the parsers and the receiver, the lines [main] prints while it
    starts and the wording of the IRQ report; the SOP/EPH lines of [read_packet], which the
    build compiles out;
    stdio buffering; DEBUG allocation counting, which nothing reads; [assert]s (the program
    is built without them); the parent links of tag trees, which [tag_tree_zero] nulls and
    nothing reads; tests and scripts.

    What remains is of no consequence to the program's results or is not code of the
    repository; no further part is planned. *)
From Stdlib Require Export ZArith Lia.
From stdpp Require Export base numbers functions relations list.

#[global] Open Scope Z_scope.

Declare Scope rtp_scope.
Delimit Scope rtp_scope with rtp.

(** ** Machine-width integers

    The program mixes [uint8_t], [uint16_t], [uint32_t], [size_t] (64 bits on
    the LP64 targets it is built for), [int16_t] and [int] (32 bits).  Values
    are kept in [Z]; each function below is the conversion to that width. *)
Definition u8 (x : Z) : Z := x mod 256.
Definition u16 (x : Z) : Z := x mod 65536.
Definition u32 (x : Z) : Z := x mod 4294967296.
Definition u64 (x : Z) : Z := x mod 18446744073709551616.
Definition i16 (x : Z) : Z := (x + 32768) mod 65536 - 32768.
Definition i32 (x : Z) : Z := (x + 2147483648) mod 4294967296 - 2147483648.

Definition is_byte (b : Z) : Prop := 0 ≤ b < 256.

(** Byte-addressed memory (the receiver's slab), read through pointers. *)
Definition memory : Type := Z → Z.
Definition byte_memory (m : memory) : Prop := ∀ a, is_byte (m a).

(** ** Effects

    [outcome] is what a run of a C++ function gives: a value, an access the
    language leaves undefined (an index outside a fixed array, a null or
    uninitialised pointer, a division by zero), or a model loop that ran out
    of fuel.  [M S A] threads the state [S]. *)
Inductive outcome (A : Type) : Type :=
  | Ret (a : A)
  | UB
  | NoFuel.
Arguments Ret {A} _.
Arguments UB {A}.
Arguments NoFuel {A}.

Definition M (S A : Type) : Type := S → outcome (A * S).

#[global] Instance M_ret S : MRet (M S) := λ A a s, Ret (a, s).
#[global] Instance M_bind S : MBind (M S) := λ A B k m s,
  match m s with
  | Ret (a, s') => k a s'
  | UB => UB
  | NoFuel => NoFuel
  end.

Definition get_st {S} : M S S := λ s, Ret (s, s).
Definition put_st {S} (s : S) : M S unit := λ _, Ret ((), s).
Definition modify {S} (f : S → S) : M S unit := λ s, Ret ((), f s).
Definition undefined {S A} : M S A := λ _, UB.
Definition out_of_fuel {S A} : M S A := λ _, NoFuel.
(** A C++ [assert]-free bound: continue when [b] holds, undefined otherwise. *)
Definition guard_ub {S} (b : bool) : M S unit := λ s, if b then Ret ((), s) else UB.

(** [for (i = lo; i < lo + n; ++i) body(i)] *)
Fixpoint for_n {S} (n : nat) (lo : Z) (body : Z → M S unit) : M S unit :=
  match n with
  | O => mret ()
  | S n' => body lo ≫= λ _, for_n n' (lo + 1) body
  end.

Definition outcome_map {A B} (f : A → B) (o : outcome A) : outcome B :=
  match o with Ret a => Ret (f a) | UB => UB | NoFuel => NoFuel end.

(** The run gives a value satisfying [P] (no undefined behaviour, enough fuel). *)
Definition returns {A} (o : outcome A) (P : A → Prop) : Prop :=
  match o with Ret a => P a | UB => False | NoFuel => False end.

(** ** Fixed-size C arrays: a list of the declared length *)
Definition arr_get {S} (l : list Z) (i : Z) : M S Z :=
  if (0 <=? i) && (i <? Z.of_nat (length l))
  then mret (l !!! Z.to_nat i) else undefined.

Definition arr_set {A} (l : list A) (i : Z) (x : A) : option (list A) :=
  if (0 <=? i) && (i <? Z.of_nat (length l))
  then Some (<[Z.to_nat i := x]> l) else None.

(** ** Automation *)
Create HintDb rtp.

Ltac wrap_unfold := unfold u8, u16, u32, u64, i16, i32, is_byte in *.

(** Linear arithmetic with [div] and [mod] by constants. *)
Ltac div_lia := Z.to_euclidean_division_equations; lia.
Ltac wrap_lia := wrap_unfold; div_lia.

(** Case split on the boolean Z comparisons of the goal and hypotheses. *)
Ltac zcases :=
  repeat match goal with
  | |- context [?a <? ?b] => destruct (Z.ltb_spec a b)
  | |- context [?a <=? ?b] => destruct (Z.leb_spec a b)
  | |- context [?a =? ?b] => destruct (Z.eqb_spec a b)
  | H : context [?a <? ?b] |- _ => destruct (Z.ltb_spec a b)
  | H : context [?a <=? ?b] |- _ => destruct (Z.leb_spec a b)
  | H : context [?a =? ?b] |- _ => destruct (Z.eqb_spec a b)
  end.

(** ** Lemmas on widths *)
Lemma u8_small x : 0 ≤ x < 256 → u8 x = x.
Proof. apply Z.mod_small. Qed.
Lemma u16_small x : 0 ≤ x < 65536 → u16 x = x.
Proof. apply Z.mod_small. Qed.
Lemma u32_small x : 0 ≤ x < 4294967296 → u32 x = x.
Proof. apply Z.mod_small. Qed.
Lemma u64_small x : 0 ≤ x < 18446744073709551616 → u64 x = x.
Proof. apply Z.mod_small. Qed.
Lemma u8_range x : 0 ≤ u8 x < 256.
Proof. wrap_lia. Qed.
Lemma u16_range x : 0 ≤ u16 x < 65536.
Proof. wrap_lia. Qed.
Lemma u32_range x : 0 ≤ u32 x < 4294967296.
Proof. wrap_lia. Qed.
Lemma u64_range x : 0 ≤ u64 x < 18446744073709551616.
Proof. wrap_lia. Qed.
Lemma i16_range x : -32768 ≤ i16 x < 32768.
Proof. wrap_lia. Qed.
#[export] Hint Resolve u8_range u16_range u32_range u64_range i16_range : rtp.

Lemma i32_small x : -2147483648 ≤ x < 2147483648 → i32 x = x.
Proof. wrap_lia. Qed.

(** The mask [x & (2^k - 1)] the ring indices use. *)
Lemma land_mask x k : 0 ≤ k → Z.land x (2 ^ k - 1) = x mod 2 ^ k.
Proof. intros. rewrite <- Z.land_ones by done. by rewrite Z.ones_equiv, Z.sub_1_r. Qed.

(** Big-endian concatenation of a byte: [(x << 8) | b]. *)
Lemma shiftl_lor_byte x b k :
  0 ≤ k → 0 ≤ b < 2 ^ k → Z.lor (Z.shiftl x k) b = x * 2 ^ k + b.
Proof.
  intros Hk Hb. rewrite <- Z.shiftl_mul_pow2 by done.
  assert (Z.land (Z.shiftl x k) b = 0) as Hd.
  { apply Z.bits_inj'; intros n Hn. rewrite Z.land_spec, Z.bits_0.
    destruct (Z.ltb_spec n k); [by rewrite Z.shiftl_spec_low|].
    destruct (Z.eq_dec b 0) as [->|]; [by rewrite Z.bits_0, andb_false_r|].
    rewrite (Z.bits_above_log2 b n), andb_false_r; [done|lia|].
    apply Z.log2_lt_pow2; [lia|]. eapply Z.lt_le_trans; [apply Hb|].
    apply Z.pow_le_mono_r; lia. }
  rewrite <- Z.lxor_lor by done. symmetry. by apply Z.add_nocarry_lxor.
Qed.

(** ** Lemmas on outcomes *)
Lemma returns_impl {A} (o : outcome A) (P Q : A → Prop) :
  returns o P → (∀ a, P a → Q a) → returns o Q.
Proof. destruct o; naive_solver. Qed.

Lemma returns_bind {S A B} (m : M S A) (k : A → M S B) s (P : A * S → Prop) Q :
  returns (m s) P → (∀ a s', P (a, s') → returns (k a s') Q) →
  returns ((m ≫= k) s) Q.
Proof. unfold mbind, M_bind. destruct (m s) as [[a s']| |]; naive_solver. Qed.

Lemma returns_ret {S A} (a : A) (s : S) Q : Q (a, s) → returns (mret (M := M S) a s) Q.
Proof. done. Qed.

(** Stepping through a computation. *)
Lemma bind_get {S A} (k : S → M S A) s : (get_st ≫= k) s = k s s.
Proof. done. Qed.
Lemma bind_modify {S A} (f : S → S) (k : () → M S A) s : (modify f ≫= k) s = k () (f s).
Proof. done. Qed.
Lemma bind_ret {S A B} (a : A) (k : A → M S B) s : (mret a ≫= k) s = k a s.
Proof. done. Qed.
Lemma bind_run {S A B} (m : M S A) (k : A → M S B) s a s' :
  m s = Ret (a, s') → (m ≫= k) s = k a s'.
Proof. unfold mbind, M_bind. by intros ->. Qed.

(** Loop invariant rule for [for_n]. *)
Lemma returns_for_n {S} n lo (body : Z → M S unit) s (I : Z → S → Prop) :
  I lo s →
  (∀ i s, lo ≤ i < lo + Z.of_nat n → I i s →
     returns (body i s) (λ r, I (i + 1) r.2)) →
  returns (for_n n lo body s) (λ r, I (lo + Z.of_nat n) r.2).
Proof.
  revert lo s. induction n as [|n IH]; intros lo s HI Hb; cbn [for_n].
  - apply returns_ret. simpl. by rewrite Z.add_0_r.
  - eapply returns_bind.
    + apply Hb; [lia | exact HI].
    + intros [] s' H. simpl in H.
      replace (lo + Z.of_nat (Datatypes.S n)) with (lo + 1 + Z.of_nat n) by lia.
      apply IH; [exact H|]. intros i s'' Hi. apply Hb. lia.
Qed.

Lemma arr_set_Some {A} (l : list A) i x :
  0 ≤ i < Z.of_nat (length l) → arr_set l i x = Some (<[Z.to_nat i := x]> l).
Proof. intros. unfold arr_set. by zcases; simpl; try lia. Qed.

Lemma arr_set_length {A} (l l' : list A) i x :
  arr_set l i x = Some l' → length l' = length l.
Proof. unfold arr_set. case_match; [|done]. intros [= <-]. apply length_insert. Qed.

(** A memory holding a given byte string at address 0 (concrete inputs). *)
Definition list_mem (l : list Z) : memory := λ a, nth (Z.to_nat a) l 0.
Definition is_byteb (b : Z) : bool := (0 <=? b) && (b <? 256).

Lemma list_mem_bytes l : forallb is_byteb l = true → byte_memory (list_mem l).
Proof.
  intros H a. unfold list_mem, is_byte. destruct (nth_in_or_default (Z.to_nat a) l 0) as [Hi| ->]; [|lia].
  rewrite forallb_forall in H. specialize (H _ Hi). unfold is_byteb in H.
  apply andb_true_iff in H as [H1 H2]. apply Z.leb_le in H1. apply Z.ltb_lt in H2. lia.
Qed.
