(* ===== verification/Codestream.v ===== *)
(** * Codestream: the zero-copy chain reader of packet_parser/type.hpp

    [codestream] is an ordered list of (base, len) chunks that point into the
    receiver's slab, with a cursor (chunk, offset) and the packet-header bit
    buffer.  This file holds the byte-level operations; [BitReader] has the
    bit-level ones.  The specification is a flat byte string with a position
    ([flat]); every operation is shown to refine its flat counterpart. *)
From S2P Require Import Prelude.

(** ** Data *)
Record Chunk := mkChunk { base : Z; len : Z }.

#[global] Instance Chunk_eq_dec : EqDecision Chunk.
Proof. solve_decision. Defined.

Record codestream := mkcs {
  chunks_ : list Chunk;
  staging_ : list (list Z);
  cur_chunk_ : nat;
  cur_offset_ : Z;
  consumed_before_cur_chunk_ : Z;
  cs_tmp : Z;
  cs_last : Z;
  cs_bits : Z
}.

(** What [const uint8_t *] values the class hands out point to. *)
Inductive pointer :=
  | Null
  | Addr (a : Z)           (* into a chunk *)
  | Staging (i : nat).     (* staging_[i].data() *)

Definition empty_codestream : codestream := mkcs [] [] 0 0 0 0 0 0.

Definition set_cursor (k : nat) (off consumed : Z) (cs : codestream) : codestream :=
  mkcs (chunks_ cs) (staging_ cs) k off consumed (cs_tmp cs) (cs_last cs) (cs_bits cs).
Definition set_bitbuf (t l b : Z) (cs : codestream) : codestream :=
  mkcs (chunks_ cs) (staging_ cs) (cur_chunk_ cs) (cur_offset_ cs)
       (consumed_before_cur_chunk_ cs) t l b.
Definition push_staging (v : list Z) (cs : codestream) : codestream :=
  mkcs (chunks_ cs) (staging_ cs ++ [v]) (cur_chunk_ cs) (cur_offset_ cs)
       (consumed_before_cur_chunk_ cs) (cs_tmp cs) (cs_last cs) (cs_bits cs).

(** ** Operations *)

(** The [while] of [advance] and of [reset]: skip the chunks the offset is
    past.  The loop visits each chunk at most once, so the number of chunks
    left is enough fuel ([advance_loop_fuel]). *)
Fixpoint advance_loop (fuel : nat) (cs : codestream) : codestream :=
  match fuel with
  | O => cs
  | S fuel' =>
      match chunks_ cs !! cur_chunk_ cs with
      | Some c =>
          if len c <=? cur_offset_ cs then
            advance_loop fuel'
              (set_cursor (S (cur_chunk_ cs)) (cur_offset_ cs - len c)
                 (u64 (consumed_before_cur_chunk_ cs + len c)) cs)
          else cs
      | None => cs
      end
  end.

Definition chunks_left (cs : codestream) : nat := length (chunks_ cs) - cur_chunk_ cs.

Definition advance (n : Z) (cs : codestream) : codestream :=
  let cs := set_cursor (cur_chunk_ cs) (u64 (cur_offset_ cs + n))
              (consumed_before_cur_chunk_ cs) cs in
  advance_loop (chunks_left cs) cs.

Definition append_chunk (b l : Z) (cs : codestream) : codestream :=
  mkcs (chunks_ cs ++ [mkChunk b l]) (staging_ cs) (cur_chunk_ cs) (cur_offset_ cs)
       (consumed_before_cur_chunk_ cs) (cs_tmp cs) (cs_last cs) (cs_bits cs).

Definition for_each_chunk {A} (fn : A → Z → Z → A) (cs : codestream) (a : A) : A :=
  fold_left (λ acc c, fn acc (base c) (len c)) (chunks_ cs) a.

Definition clear (cs : codestream) : codestream := mkcs [] [] 0 0 0 0 0 0.

Definition move_forward (n : Z) (cs : codestream) : codestream := advance n cs.

Definition get_address (cs : codestream) : pointer :=
  match chunks_ cs !! cur_chunk_ cs with
  | None => Null
  | Some c => Addr (base c + cur_offset_ cs)
  end.

Definition get_pos (cs : codestream) : Z :=
  u32 (consumed_before_cur_chunk_ cs + cur_offset_ cs).

(** [reset]: the bit buffer is dropped and the cursor walks from chunk 0;
    [remaining] of the source is the model's offset while it walks. *)
Definition reset (p : Z) (cs : codestream) : codestream :=
  let cs := set_cursor 0 p 0 (set_bitbuf 0 0 0 cs) in
  advance_loop (chunks_left cs) cs.

Section Reads.
Context (mem : memory).

Definition get_byte (cs : codestream) : Z * codestream :=
  match chunks_ cs !! cur_chunk_ cs with
  | None => (0, cs)
  | Some c =>
      let byte := mem (base c + cur_offset_ cs) in
      let off := u64 (cur_offset_ cs + 1) in
      if off =? len c then
        (byte, set_cursor (S (cur_chunk_ cs)) 0
                 (u64 (consumed_before_cur_chunk_ cs + len c)) cs)
      else (byte, set_cursor (cur_chunk_ cs) off (consumed_before_cur_chunk_ cs) cs)
  end.

Definition get_word (cs : codestream) : Z * codestream :=
  let '(hi, cs) := get_byte cs in
  let word := u16 (Z.shiftl hi 8) in
  let '(lo, cs) := get_byte cs in
  (Z.lor word lo, cs).

Definition get_dword (cs : codestream) : Z * codestream :=
  let '(hi, cs) := get_word cs in
  let dword := u32 (Z.shiftl hi 16) in
  let '(lo, cs) := get_word cs in
  (Z.lor dword lo, cs).

(** [n] bytes of memory from address [a] (the [memcpy] source). *)
Definition mem_bytes (a n : Z) : list Z := (λ i, mem (a + i)) <$> seqZ 0 n.

(** The copy loop of the slow path; [copied] bytes are done. *)
Fixpoint copy_loop (fuel : nat) (len_ copied : Z) (acc : list Z) (cs : codestream)
    : list Z * codestream :=
  match fuel with
  | O => (acc, cs)
  | S fuel' =>
      match chunks_ cs !! cur_chunk_ cs with
      | Some c =>
          if copied <? len_ then
            let avail := u64 (len c - cur_offset_ cs) in
            let to_copy := if len_ - copied <? avail then len_ - copied else avail in
            copy_loop fuel' len_ (copied + to_copy)
              (acc ++ mem_bytes (base c + cur_offset_ cs) to_copy)
              (advance to_copy cs)
          else (acc, cs)
      | None => (acc, cs)
      end
  end.

Definition take_contiguous (len_ : Z) (cs : codestream) : pointer * codestream :=
  match chunks_ cs !! cur_chunk_ cs with
  | None => (Null, cs)
  | Some c =>
      if len_ =? 0 then (Addr (base c + cur_offset_ cs), cs)
      else if u64 (cur_offset_ cs + len_) <=? len c then
        (Addr (base c + cur_offset_ cs), advance len_ cs)
      else
        let '(copied, cs') := copy_loop (S (chunks_left cs)) len_ 0 [] cs in
        (* the vector is value-initialised: what is not copied stays 0 *)
        (Staging (length (staging_ cs)), push_staging (resize (Z.to_nat len_) 0 copied) cs')
  end.

(** The [n] bytes a pointer handed out by the class designates. *)
Definition ptr_bytes (cs : codestream) (p : pointer) (n : Z) : option (list Z) :=
  match p with
  | Null => None
  | Addr a => Some (mem_bytes a n)
  | Staging i => staging_ cs !! i
  end.

(** ** Specification: a flat byte string with a position *)

Definition chunk_bytes (c : Chunk) : list Z := mem_bytes (base c) (len c).
Definition flat_bytes (l : list Chunk) : list Z := l ≫= chunk_bytes.

End Reads.

Definition total_len (l : list Chunk) : Z := foldr (λ c acc, len c + acc) 0 l.

(** The absolute position of the cursor ([get_pos] before its conversion). *)
Definition pos (cs : codestream) : Z := consumed_before_cur_chunk_ cs + cur_offset_ cs.

Record flat := mkflat {
  f_bytes : list Z;
  f_pos : Z;
  f_tmp : Z;
  f_last : Z;
  f_bits : Z
}.

Definition abs (mem : memory) (cs : codestream) : flat :=
  mkflat (flat_bytes mem (chunks_ cs)) (pos cs) (cs_tmp cs) (cs_last cs) (cs_bits cs).

Definition f_size (f : flat) : Z := Z.of_nat (length (f_bytes f)).
Definition f_seek (p : Z) (f : flat) : flat :=
  mkflat (f_bytes f) p (f_tmp f) (f_last f) (f_bits f).
Definition f_setbits (t l b : Z) (f : flat) : flat :=
  mkflat (f_bytes f) (f_pos f) t l b.

(** Past the end a read gives 0 and does not move. *)
Definition f_get_byte (f : flat) : Z * flat :=
  if f_pos f <? f_size f
  then (f_bytes f !!! Z.to_nat (f_pos f), f_seek (f_pos f + 1) f)
  else (0, f).

Definition f_get_word (f : flat) : Z * flat :=
  let '(hi, f) := f_get_byte f in
  let '(lo, f) := f_get_byte f in
  (hi * 256 + lo, f).

Definition f_get_dword (f : flat) : Z * flat :=
  let '(hi, f) := f_get_word f in
  let '(lo, f) := f_get_word f in
  (hi * 65536 + lo, f).

(** The next [n] bytes, short reads padded with zeros; none at the end. *)
Definition f_take (n : Z) (f : flat) : option (list Z) * flat :=
  if f_pos f <? f_size f then
    (Some (resize (Z.to_nat n) 0 (drop (Z.to_nat (f_pos f)) (f_bytes f))),
     f_seek (Z.min (f_pos f + n) (f_size f)) f)
  else (None, f).

(** ** Invariant: no empty chunk, and the cursor lies in its chunk *)
Record wf_cursor (cs : codestream) : Prop := {
  wf_nonempty : Forall (λ c, 0 < len c) (chunks_ cs);
  wf_index : (cur_chunk_ cs ≤ length (chunks_ cs))%nat;
  wf_consumed : consumed_before_cur_chunk_ cs = total_len (take (cur_chunk_ cs) (chunks_ cs));
  wf_offset : 0 ≤ cur_offset_ cs;
  wf_total : total_len (chunks_ cs) < 18446744073709551616
}.

Record wf (cs : codestream) : Prop := {
  wf_cur : wf_cursor cs;
  wf_inside : ∀ c, chunks_ cs !! cur_chunk_ cs = Some c → cur_offset_ cs < len c
}.

(** The operations below leave everything but the cursor alone. *)
Record moved (cs cs' : codestream) : Prop := {
  mv_chunks : chunks_ cs' = chunks_ cs;
  mv_staging : staging_ cs' = staging_ cs;
  mv_tmp : cs_tmp cs' = cs_tmp cs;
  mv_last : cs_last cs' = cs_last cs;
  mv_bits : cs_bits cs' = cs_bits cs
}.

(** ** Lemmas on chunk lists *)
Lemma total_len_app l k : total_len (l ++ k) = total_len l + total_len k.
Proof. induction l as [|c l IH]; simpl; [done|]. rewrite IH. lia. Qed.

Lemma total_len_nonneg l : Forall (λ c, 0 < len c) l → 0 ≤ total_len l.
Proof. induction 1; simpl; lia. Qed.

Lemma total_len_take_S l k c :
  l !! k = Some c → total_len (take (S k) l) = total_len (take k l) + len c.
Proof. intros H. rewrite (take_S_r _ _ _ H), total_len_app. simpl. lia. Qed.

Lemma total_len_take_le l k :
  Forall (λ c, 0 < len c) l → total_len (take k l) ≤ total_len l.
Proof.
  intros H. rewrite <- (take_drop k l) at 2. rewrite total_len_app.
  enough (0 ≤ total_len (drop k l)) by lia. apply total_len_nonneg. by apply Forall_drop.
Qed.

Lemma length_mem_bytes mem a n : length (mem_bytes mem a n) = Z.to_nat n.
Proof. unfold mem_bytes. by rewrite length_fmap, length_seqZ. Qed.

Lemma lookup_mem_bytes mem a n i :
  0 ≤ i < n → mem_bytes mem a n !! Z.to_nat i = Some (mem (a + i)).
Proof.
  intros. unfold mem_bytes. rewrite list_lookup_fmap, lookup_seqZ_lt by lia.
  simpl. do 2 f_equal. lia.
Qed.

Lemma mem_bytes_slice mem a n i k :
  0 ≤ i → 0 ≤ k → i + k ≤ n →
  take (Z.to_nat k) (drop (Z.to_nat i) (mem_bytes mem a n)) = mem_bytes mem (a + i) k.
Proof.
  intros. apply list_eq. intros j. destruct (decide (j < Z.to_nat k)%nat) as [Hj|Hj].
  - rewrite lookup_take_lt, lookup_drop by done.
    replace (Z.to_nat i + j)%nat with (Z.to_nat (i + Z.of_nat j)) by lia.
    rewrite lookup_mem_bytes by lia.
    replace j with (Z.to_nat (Z.of_nat j)) at 2 by lia.
    rewrite lookup_mem_bytes by lia. do 2 f_equal. lia.
  - rewrite !lookup_ge_None_2; [done|rewrite length_mem_bytes; lia|].
    rewrite length_take, length_drop, length_mem_bytes. lia.
Qed.

Lemma flat_bytes_app mem l k : flat_bytes mem (l ++ k) = flat_bytes mem l ++ flat_bytes mem k.
Proof. unfold flat_bytes. apply bind_app. Qed.

Lemma flat_bytes_cons mem c l : flat_bytes mem (c :: l) = chunk_bytes mem c ++ flat_bytes mem l.
Proof. done. Qed.

Lemma length_flat_bytes mem l :
  Forall (λ c, 0 < len c) l → Z.of_nat (length (flat_bytes mem l)) = total_len l.
Proof.
  induction 1 as [|c l Hc _ IH]; [done|]. rewrite flat_bytes_cons, length_app.
  unfold chunk_bytes. rewrite length_mem_bytes. simpl. lia.
Qed.

(** What the flat string holds from the cursor on: the rest of its chunk, then
    the later chunks. *)
Lemma flat_drop mem l k c off :
  Forall (λ c, 0 < len c) l → l !! k = Some c → 0 ≤ off ≤ len c →
  drop (Z.to_nat (total_len (take k l) + off)) (flat_bytes mem l)
  = mem_bytes mem (base c + off) (len c - off) ++ flat_bytes mem (drop (S k) l).
Proof.
  intros Hl Hk Hoff. rewrite <- (take_drop_middle _ _ _ Hk) at 2.
  rewrite flat_bytes_app, flat_bytes_cons.
  pose proof (length_flat_bytes mem (take k l) (Forall_take _ k _ Hl)) as Hlen.
  pose proof (total_len_nonneg (take k l) (Forall_take _ k _ Hl)).
  rewrite drop_app_ge by lia.
  replace (Z.to_nat (total_len (take k l) + off) - length (flat_bytes mem (take k l)))%nat
    with (Z.to_nat off) by lia.
  rewrite drop_app_le by (unfold chunk_bytes; rewrite length_mem_bytes; lia).
  f_equal. unfold chunk_bytes.
  rewrite <- (mem_bytes_slice mem (base c) (len c) off (len c - off)) by lia.
  rewrite take_ge; [done|]. rewrite length_drop, length_mem_bytes. lia.
Qed.

(** ** The cursor walk *)
Lemma moved_refl cs : moved cs cs.
Proof. by split. Qed.
Lemma moved_trans a b c : moved a b → moved b c → moved a c.
Proof. intros [] []. split; congruence. Qed.
Lemma moved_cursor k o d cs : moved cs (set_cursor k o d cs).
Proof. by split. Qed.
#[export] Hint Resolve moved_refl moved_trans moved_cursor : rtp.

Lemma wf_consumed_small cs c :
  wf_cursor cs → chunks_ cs !! cur_chunk_ cs = Some c →
  u64 (consumed_before_cur_chunk_ cs + len c)
  = total_len (take (S (cur_chunk_ cs)) (chunks_ cs)).
Proof.
  intros [Hne _ Hc _ Ht] Hk. rewrite (total_len_take_S _ _ _ Hk), Hc. apply u64_small.
  pose proof (total_len_take_le (chunks_ cs) (S (cur_chunk_ cs)) Hne) as H.
  rewrite (total_len_take_S _ _ _ Hk) in H.
  pose proof (total_len_nonneg _ (Forall_take _ (cur_chunk_ cs) _ Hne)).
  pose proof (Forall_lookup_1 _ _ _ _ Hne Hk) as Hp. simpl in Hp. lia.
Qed.

Lemma advance_loop_spec fuel cs :
  wf_cursor cs → (chunks_left cs ≤ fuel)%nat →
  wf (advance_loop fuel cs) ∧ pos (advance_loop fuel cs) = pos cs
  ∧ moved cs (advance_loop fuel cs).
Proof.
  unfold chunks_left. revert cs. induction fuel as [|fuel IH]; intros cs Hwf Hf; cbn [advance_loop].
  - split_and!; eauto with rtp. split; [done|]. intros c Hc.
    apply lookup_lt_Some in Hc. lia.
  - destruct (chunks_ cs !! cur_chunk_ cs) as [c|] eqn:Hk.
    2:{ split_and!; eauto with rtp. split; [done|]. congruence. }
    destruct (Z.leb_spec (len c) (cur_offset_ cs)).
    2:{ split_and!; eauto with rtp. split; [done|]. intros c' [= <-]%(eq_trans (eq_sym Hk)). lia. }
    rewrite (wf_consumed_small _ _ Hwf Hk).
    pose proof (lookup_lt_Some _ _ _ Hk).
    edestruct (IH (set_cursor (S (cur_chunk_ cs)) (cur_offset_ cs - len c)
      (total_len (take (S (cur_chunk_ cs)) (chunks_ cs))) cs)) as (H1 & H2 & H3).
    + destruct Hwf. split; simpl; try done; lia.
    + simpl. lia.
    + split_and!; [done| |eauto with rtp]. rewrite H2. unfold pos. simpl.
      rewrite (total_len_take_S _ _ _ Hk), (wf_consumed _ Hwf). lia.
Qed.

(** ** Each operation refines the flat one *)
Lemma abs_moved mem cs cs' :
  moved cs cs' → abs mem cs' = f_seek (pos cs') (abs mem cs).
Proof. intros []. unfold abs, f_seek; simpl. congruence. Qed.

Lemma f_size_abs mem cs : wf_cursor cs → f_size (abs mem cs) = total_len (chunks_ cs).
Proof. intros []. unfold f_size; simpl. by apply length_flat_bytes. Qed.

Lemma pos_at_end cs :
  wf cs → chunks_ cs !! cur_chunk_ cs = None → total_len (chunks_ cs) ≤ pos cs.
Proof.
  intros [[_ Hi Hc Ho _] _] Hk. apply lookup_ge_None in Hk. unfold pos.
  rewrite Hc, take_ge by lia. lia.
Qed.

Lemma pos_inside cs c :
  wf cs → chunks_ cs !! cur_chunk_ cs = Some c →
  0 ≤ pos cs < total_len (chunks_ cs)
  ∧ pos cs + (len c - cur_offset_ cs) = total_len (take (S (cur_chunk_ cs)) (chunks_ cs))
  ∧ total_len (take (S (cur_chunk_ cs)) (chunks_ cs)) ≤ total_len (chunks_ cs).
Proof.
  intros [[Hne Hi Hc Ho _] Hin] Hk. specialize (Hin _ Hk). unfold pos. rewrite Hc.
  pose proof (total_len_take_le _ (S (cur_chunk_ cs)) Hne).
  pose proof (total_len_nonneg _ (Forall_take _ (cur_chunk_ cs) _ Hne)).
  rewrite (total_len_take_S _ _ _ Hk) in *. lia.
Qed.

Lemma get_byte_spec mem cs :
  wf cs →
  wf (get_byte mem cs).2 ∧ moved cs (get_byte mem cs).2
  ∧ ((get_byte mem cs).1, abs mem (get_byte mem cs).2) = f_get_byte (abs mem cs).
Proof.
  intros Hwf. unfold get_byte, f_get_byte. rewrite (f_size_abs _ _ (wf_cur _ Hwf)). simpl.
  destruct (chunks_ cs !! cur_chunk_ cs) as [c|] eqn:Hk.
  2:{ pose proof (pos_at_end _ Hwf Hk). destruct (Z.ltb_spec (pos cs) (total_len (chunks_ cs)));
      [lia|]. eauto with rtp. }
  destruct (pos_inside _ _ Hwf Hk) as (Hp & He & Ht).
  pose proof Hwf as [[Hne Hi Hc Ho Htot] Hin]. specialize (Hin _ Hk).
  destruct (Z.ltb_spec (pos cs) (total_len (chunks_ cs))); [|lia].
  assert (mem (base c + cur_offset_ cs)
          = flat_bytes mem (chunks_ cs) !!! Z.to_nat (pos cs)) as Hb.
  { symmetry. apply list_lookup_total_correct.
    rewrite <- (Nat.add_0_r (Z.to_nat _)), <- lookup_drop. unfold pos. rewrite Hc.
    rewrite (flat_drop _ _ _ _ _ Hne Hk) by lia. rewrite lookup_app_l
      by (rewrite length_mem_bytes; lia).
    change 0%nat with (Z.to_nat 0). rewrite lookup_mem_bytes by lia. f_equal. f_equal. lia. }
  rewrite (wf_consumed_small _ _ (wf_cur _ Hwf) Hk), u64_small
    by (pose proof (total_len_nonneg _ (Forall_take _ (cur_chunk_ cs) _ Hne)); unfold pos in *; lia).
  destruct (Z.eqb_spec (cur_offset_ cs + 1) (len c)); cbn [fst snd].
  - split_and!; eauto with rtp.
    + split; [pose proof (lookup_lt_Some _ _ _ Hk); split; simpl; done || lia|].
      simpl. intros c' Hc'. eapply (Forall_lookup_1 _ _ _ _ Hne Hc').
    + rewrite Hb. f_equal. rewrite (abs_moved _ cs) by eauto with rtp. f_equal.
      unfold pos in *; simpl. lia.
  - split_and!; eauto with rtp.
    + split; [split; simpl; try done; lia|]. simpl. intros c' [= <-]%(eq_trans (eq_sym Hk)). lia.
    + rewrite Hb. f_equal. rewrite (abs_moved _ cs) by eauto with rtp. f_equal.
      unfold pos; simpl. lia.
Qed.

Lemma advance_spec mem n cs :
  wf cs → 0 ≤ n → cur_offset_ cs + n < 18446744073709551616 →
  wf (advance n cs) ∧ moved cs (advance n cs)
  ∧ abs mem (advance n cs) = f_seek (pos cs + n) (abs mem cs).
Proof.
  intros [Hwf _] Hn Hs. unfold advance.
  set (cs1 := set_cursor _ _ _ cs).
  assert (wf_cursor cs1) as H1.
  { destruct Hwf. split; simpl; try done. apply u64_range. }
  destruct (advance_loop_spec (chunks_left cs1) cs1 H1) as (H2 & H3 & H4); [done|].
  assert (moved cs (advance_loop (chunks_left cs1) cs1)) as H5 by eauto with rtp.
  split_and!; [done|done|]. rewrite (abs_moved _ cs) by done. f_equal.
  rewrite H3. unfold pos, cs1; simpl. rewrite u64_small; [lia|].
  pose proof (wf_offset _ Hwf). lia.
Qed.

Lemma reset_spec mem p cs :
  Forall (λ c, 0 < len c) (chunks_ cs) → total_len (chunks_ cs) < 18446744073709551616 →
  0 ≤ p →
  wf (reset p cs) ∧ staging_ (reset p cs) = staging_ cs ∧ chunks_ (reset p cs) = chunks_ cs
  ∧ abs mem (reset p cs) = mkflat (flat_bytes mem (chunks_ cs)) p 0 0 0.
Proof.
  intros Hne Ht Hp. unfold reset. set (cs1 := set_cursor _ _ _ _).
  destruct (advance_loop_spec (chunks_left cs1) cs1) as (H2 & H3 & H4);
    [split; simpl; [done|lia|done|done|done]|done|].
  split_and!; [done|apply H4|apply H4|].
  rewrite (abs_moved _ cs1 _ H4). unfold abs, f_seek; simpl. by rewrite H3.
Qed.

Lemma append_chunk_spec mem b l cs :
  wf cs → 0 < l → total_len (chunks_ cs) + l < 18446744073709551616 →
  pos cs < total_len (chunks_ cs) + l →
  wf (append_chunk b l cs)
  ∧ abs mem (append_chunk b l cs)
    = mkflat (flat_bytes mem (chunks_ cs) ++ mem_bytes mem b l) (pos cs)
        (cs_tmp cs) (cs_last cs) (cs_bits cs).
Proof.
  intros [[Hne Hi Hc Ho Ht] Hin] Hl Hs Hp. split.
  2:{ unfold abs; simpl. by rewrite flat_bytes_app, flat_bytes_cons, app_nil_r. }
  assert (take (cur_chunk_ cs) (chunks_ cs ++ [mkChunk b l]) = take (cur_chunk_ cs) (chunks_ cs))
    as Htk by (by rewrite take_app_le).
  split; [split; simpl|].
  - apply Forall_app; split; [done|]. by constructor.
  - rewrite length_app. simpl. lia.
  - by rewrite Htk.
  - done.
  - rewrite total_len_app. simpl. lia.
  - simpl. intros c [Hk|[Hk1 Hk]]%lookup_app_Some; [by apply Hin|].
    apply list_lookup_singleton_Some in Hk as [Hk <-]. simpl. unfold pos in Hp.
    rewrite Hc, take_ge in Hp by lia. lia.
Qed.

Lemma get_byte_range mem cs : byte_memory mem → is_byte (get_byte mem cs).1.
Proof.
  intros Hm. unfold get_byte. destruct (_ !! _); [|by vm_compute].
  case_match; apply Hm.
Qed.

Lemma get_word_spec mem cs :
  byte_memory mem → wf cs →
  wf (get_word mem cs).2 ∧ moved cs (get_word mem cs).2
  ∧ ((get_word mem cs).1, abs mem (get_word mem cs).2) = f_get_word (abs mem cs).
Proof.
  intros Hm Hwf. unfold get_word, f_get_word.
  pose proof (get_byte_spec mem cs Hwf) as (H1 & M1 & E1).
  pose proof (get_byte_range mem cs Hm) as R1.
  destruct (get_byte mem cs) as [hi cs1]; cbn [fst snd] in *.
  pose proof (get_byte_spec mem cs1 H1) as (H2 & M2 & E2).
  pose proof (get_byte_range mem cs1 Hm) as R2.
  destruct (get_byte mem cs1) as [lo cs2]; cbn [fst snd] in *.
  rewrite <- E1, <- E2. split_and!; eauto with rtp. f_equal.
  unfold is_byte in *. rewrite u16_small by (rewrite Z.shiftl_mul_pow2 by lia; lia).
  by apply (shiftl_lor_byte hi lo 8).
Qed.

Lemma get_word_range mem cs : byte_memory mem → 0 ≤ (get_word mem cs).1 < 65536.
Proof.
  intros Hm. unfold get_word.
  pose proof (get_byte_range mem cs Hm) as R1. destruct (get_byte mem cs) as [hi cs1].
  pose proof (get_byte_range mem cs1 Hm) as R2. destruct (get_byte mem cs1) as [lo cs2].
  cbn [fst snd] in *. unfold is_byte in *.
  rewrite u16_small by (rewrite Z.shiftl_mul_pow2 by lia; lia).
  rewrite (shiftl_lor_byte hi lo 8) by lia. lia.
Qed.

Lemma get_dword_spec mem cs :
  byte_memory mem → wf cs →
  wf (get_dword mem cs).2 ∧ moved cs (get_dword mem cs).2
  ∧ ((get_dword mem cs).1, abs mem (get_dword mem cs).2) = f_get_dword (abs mem cs).
Proof.
  intros Hm Hwf. unfold get_dword, f_get_dword.
  pose proof (get_word_spec mem cs Hm Hwf) as (H1 & M1 & E1).
  pose proof (get_word_range mem cs Hm) as R1.
  destruct (get_word mem cs) as [hi cs1]; cbn [fst snd] in *.
  pose proof (get_word_spec mem cs1 Hm H1) as (H2 & M2 & E2).
  pose proof (get_word_range mem cs1 Hm) as R2.
  destruct (get_word mem cs1) as [lo cs2]; cbn [fst snd] in *.
  rewrite <- E1, <- E2. split_and!; eauto with rtp. f_equal.
  rewrite u32_small by (rewrite Z.shiftl_mul_pow2 by lia; lia).
  by apply (shiftl_lor_byte hi lo 16).
Qed.

(** ** Contiguous reads *)
Lemma total_len_take_mono l i j :
  Forall (λ c, 0 < len c) l → (i ≤ j)%nat → total_len (take i l) ≤ total_len (take j l).
Proof.
  intros Hl Hij. replace (take i l) with (take i (take j l))
    by (rewrite take_take; f_equal; lia).
  apply total_len_take_le. by apply Forall_take.
Qed.

Lemma cursor_beyond cs k :
  wf cs → (k ≤ length (chunks_ cs))%nat → total_len (take k (chunks_ cs)) ≤ pos cs →
  (k ≤ cur_chunk_ cs)%nat.
Proof.
  intros Hwf Hk Hp. destruct (decide (k ≤ cur_chunk_ cs)%nat) as [|Hn]; [done|exfalso].
  destruct (lookup_lt_is_Some_2 (chunks_ cs) (cur_chunk_ cs)) as [c Hc]; [lia|].
  destruct (pos_inside _ _ Hwf Hc) as (_ & He & _).
  pose proof (total_len_take_mono (chunks_ cs) (S (cur_chunk_ cs)) k
    (wf_nonempty _ (wf_cur _ Hwf)) ltac:(lia)).
  pose proof (wf_inside _ Hwf _ Hc). lia.
Qed.

(** Moving inside the current chunk: the bytes passed over are the chunk's. *)
Lemma chunk_step mem cs c tc :
  wf cs → chunks_ cs !! cur_chunk_ cs = Some c → 0 ≤ tc ≤ len c - cur_offset_ cs →
  wf (advance tc cs) ∧ moved cs (advance tc cs) ∧ pos (advance tc cs) = pos cs + tc
  ∧ take (Z.to_nat tc) (drop (Z.to_nat (pos cs)) (flat_bytes mem (chunks_ cs)))
    = mem_bytes mem (base c + cur_offset_ cs) tc
  ∧ (tc = len c - cur_offset_ cs → (chunks_left (advance tc cs) < chunks_left cs)%nat).
Proof.
  intros Hwf Hk Htc. pose proof (wf_inside _ Hwf _ Hk) as Hin.
  pose proof (wf_cur _ Hwf) as [Hne Hi Hcon Ho Htot].
  destruct (pos_inside _ _ Hwf Hk) as (Hp & He & Ht).
  pose proof (total_len_nonneg _ (Forall_take _ (cur_chunk_ cs) _ Hne)) as Hnn.
  destruct (advance_spec mem tc cs Hwf) as (A1 & A2 & A3); [lia|unfold pos in *; lia|].
  assert (pos (advance tc cs) = pos cs + tc) as A4
    by (change (pos (advance tc cs)) with (f_pos (abs mem (advance tc cs))); by rewrite A3).
  split_and!; [done|done|done| |].
  - unfold pos. rewrite Hcon, (flat_drop _ _ _ _ _ Hne Hk) by lia.
    rewrite take_app_le by (rewrite length_mem_bytes; lia).
    rewrite <- (drop_0 (mem_bytes _ _ _)). change 0%nat with (Z.to_nat 0).
    rewrite mem_bytes_slice by lia. f_equal. lia.
  - intros Hfull. pose proof (cursor_beyond (advance tc cs) (S (cur_chunk_ cs)) A1) as Hcb.
    rewrite (mv_chunks _ _ A2), A4 in Hcb. unfold chunks_left. rewrite (mv_chunks _ _ A2).
    pose proof (lookup_lt_Some _ _ _ Hk). specialize (Hcb ltac:(lia) ltac:(lia)). lia.
Qed.

Lemma copy_loop_done mem fuel n copied acc cs :
  n ≤ copied → copy_loop mem fuel n copied acc cs = (acc, cs).
Proof.
  intros. destruct fuel; [done|]. cbn [copy_loop]. destruct (_ !! _); [|done].
  by rewrite (proj2 (Z.ltb_ge _ _)).
Qed.

Lemma copy_loop_spec mem fuel n copied acc cs :
  wf cs → 0 ≤ copied ≤ n → (chunks_left cs < fuel)%nat →
  let r := copy_loop mem fuel n copied acc cs in
  wf r.2 ∧ moved cs r.2
  ∧ r.1 = acc ++ take (Z.to_nat (n - copied))
                   (drop (Z.to_nat (pos cs)) (flat_bytes mem (chunks_ cs)))
  ∧ pos r.2 = if pos cs <? total_len (chunks_ cs)
              then Z.min (pos cs + (n - copied)) (total_len (chunks_ cs)) else pos cs.
Proof.
  revert copied acc cs. induction fuel as [|fuel IH]; intros copied acc cs Hwf Hc Hf; [lia|].
  cbn [copy_loop]. destruct (chunks_ cs !! cur_chunk_ cs) as [c|] eqn:Hk; cbn zeta.
  2:{ pose proof (pos_at_end _ Hwf Hk) as He. rewrite (proj2 (Z.ltb_ge _ _)) by done.
      rewrite drop_ge, take_nil, app_nil_r; eauto with rtp.
      rewrite <- (f_size_abs mem) in He by apply Hwf. unfold f_size in He; simpl in He. lia. }
  destruct (pos_inside _ _ Hwf Hk) as (Hp & He & Ht). rewrite (proj2 (Z.ltb_lt (pos cs) _)) by lia.
  destruct (Z.ltb_spec copied n).
  2:{ replace (n - copied) with 0 by lia. rewrite take_0, app_nil_r. cbn [fst snd].
      split_and!; eauto with rtp. lia. }
  pose proof (wf_inside _ Hwf _ Hk) as Hin. pose proof (wf_offset _ (wf_cur _ Hwf)).
  rewrite u64_small by (pose proof (wf_total _ (wf_cur _ Hwf));
    pose proof (wf_consumed _ (wf_cur _ Hwf));
    pose proof (total_len_nonneg _ (Forall_take _ (cur_chunk_ cs) _ (wf_nonempty _ (wf_cur _ Hwf))));
    unfold pos in *; lia).
  destruct (Z.ltb_spec (n - copied) (len c - cur_offset_ cs)).
  - destruct (chunk_step mem cs c (n - copied) Hwf Hk) as (A1 & A2 & A3 & A4 & _); [lia|].
    rewrite copy_loop_done by lia. cbn [fst snd]. rewrite A4. split_and!; [done..|]. lia.
  - set (tc := len c - cur_offset_ cs).
    destruct (chunk_step mem cs c tc Hwf Hk) as (A1 & A2 & A3 & A4 & A5); [unfold tc; lia|].
    destruct (IH (copied + tc) (acc ++ mem_bytes mem (base c + cur_offset_ cs) tc)
      (advance tc cs) A1) as (B1 & B2 & B3 & B4); [lia|specialize (A5 eq_refl); lia|].
    split_and!; [done|eauto with rtp| |].
    + rewrite B3, A3, (mv_chunks _ _ A2), <- app_assoc, <- A4. f_equal.
      replace (Z.to_nat (pos cs + tc)) with (Z.to_nat (pos cs) + Z.to_nat tc)%nat by lia.
      rewrite <- drop_drop.
      replace (Z.to_nat (n - copied))
        with (Z.to_nat tc + Z.to_nat (n - (copied + tc)))%nat by lia.
      by rewrite take_take_drop.
    + rewrite B4, A3, (mv_chunks _ _ A2). unfold tc. zcases; lia.
Qed.

Lemma take_contiguous_spec mem n cs :
  wf cs → 0 ≤ n → pos cs + n < 18446744073709551616 →
  let r := take_contiguous mem n cs in
  wf r.2 ∧ chunks_ r.2 = chunks_ cs
  ∧ (ptr_bytes mem r.2 r.1 n, abs mem r.2) = f_take n (abs mem cs).
Proof.
  intros Hwf Hn Hb. unfold take_contiguous, f_take. rewrite (f_size_abs _ _ (wf_cur _ Hwf)).
  cbn [f_pos f_bytes abs]. destruct (chunks_ cs !! cur_chunk_ cs) as [c|] eqn:Hk; cbn zeta.
  2:{ pose proof (pos_at_end _ Hwf Hk). by rewrite (proj2 (Z.ltb_ge _ _)). }
  destruct (pos_inside _ _ Hwf Hk) as (Hp & He & Ht). rewrite (proj2 (Z.ltb_lt (pos cs) _)) by lia.
  pose proof (wf_inside _ Hwf _ Hk) as Hin. pose proof (wf_offset _ (wf_cur _ Hwf)).
  pose proof (total_len_nonneg _ (Forall_take _ (cur_chunk_ cs) _ (wf_nonempty _ (wf_cur _ Hwf)))).
  pose proof (wf_consumed _ (wf_cur _ Hwf)) as Hcon.
  assert (Z.of_nat (length (flat_bytes mem (chunks_ cs))) = total_len (chunks_ cs)) as Hlen
    by apply length_flat_bytes, Hwf.
  destruct (Z.eqb_spec n 0) as [->|Hn0]; cbn [fst snd ptr_bytes].
  { split_and!; [done..|]. f_equal.
    - simpl. by rewrite resize_0.
    - rewrite Z.min_l by lia. by rewrite Z.add_0_r. }
  rewrite u64_small by (unfold pos in *; lia).
  destruct (Z.leb_spec (cur_offset_ cs + n) (len c)); cbn [fst snd ptr_bytes].
  - destruct (chunk_step mem cs c n Hwf Hk) as (A1 & A2 & A3 & A4 & _); [lia|].
    split_and!; [done|apply A2|]. f_equal.
    + f_equal. rewrite <- A4, resize_le; [done|]. rewrite length_drop. lia.
    + rewrite (abs_moved mem cs) by done. f_equal. lia.
  - pose proof (copy_loop_spec mem (S (chunks_left cs)) n 0 [] cs Hwf ltac:(lia) ltac:(lia))
      as (B1 & B2 & B3 & B4).
    destruct (copy_loop _ _ _ _ _ _) as [copied cs']; cbn [fst snd] in *.
    rewrite (proj2 (Z.ltb_lt (pos cs) _)), Z.sub_0_r in * by lia.
    split_and!; [|apply B2|].
    { destruct B1 as [[] Hin']. split; [by split|]. exact Hin'. }
    f_equal.
    + cbn [ptr_bytes push_staging staging_]. rewrite (mv_staging _ _ B2), lookup_app_r, Nat.sub_diag
        by done. simpl. f_equal. rewrite B3, app_nil_l.
      destruct (decide (Z.to_nat n ≤ length (drop (Z.to_nat (pos cs)) (flat_bytes mem (chunks_ cs))))%nat).
      * rewrite !resize_le by (rewrite ?length_take; lia). by rewrite take_take, Nat.min_id.
      * rewrite take_ge by lia. done.
    + transitivity (abs mem cs'); [done|]. rewrite (abs_moved mem cs) by done. by f_equal.
Qed.

(** What holds of the cursor whatever the distance. *)
Lemma advance_wf n cs : wf cs → wf (advance n cs) ∧ moved cs (advance n cs).
Proof.
  intros [Hwf _]. unfold advance. set (cs1 := set_cursor _ _ _ cs).
  assert (wf_cursor cs1) as H1 by (destruct Hwf; split; simpl; try done; apply u64_range).
  destruct (advance_loop_spec (chunks_left cs1) cs1 H1) as (H2 & _ & H4); [done|].
  split; [done|]. eauto with rtp.
Qed.

Lemma take_contiguous_wf mem n cs :
  wf cs →
  let cs' := (take_contiguous mem n cs).2 in
  wf cs' ∧ chunks_ cs' = chunks_ cs ∧ cs_tmp cs' = cs_tmp cs ∧ cs_bits cs' = cs_bits cs.
Proof.
  intros Hwf. unfold take_contiguous. destruct (chunks_ cs !! cur_chunk_ cs) as [c|]; [|done].
  destruct (n =? 0); [done|]. destruct (_ <=? len c); cbn [snd].
  { destruct (advance_wf n cs Hwf) as [? []]. done. }
  assert (let r := copy_loop mem (S (chunks_left cs)) n 0 [] cs in wf r.2 ∧ moved cs r.2) as [B1 []].
  { destruct (Z.leb_spec n 0); [rewrite copy_loop_done by done; eauto with rtp|].
    pose proof (copy_loop_spec mem (S (chunks_left cs)) n 0 [] cs Hwf ltac:(lia) ltac:(lia))
      as (B1 & B2 & _). done. }
  destruct (copy_loop _ _ _ _ _ _) as [l cs']. cbn [fst snd] in *.
  split_and!; try done. destruct B1 as [[] Hin]. split; [by split|exact Hin].
Qed.

(** The cursor position depends on the bytes only through their number, so two
    chains with the same bytes are read alike. *)
Definition same_stream (mem : memory) (cs1 cs2 : codestream) : Prop :=
  abs mem cs1 = abs mem cs2.
#[global] Instance same_stream_equiv mem : Equivalence (same_stream mem).
Proof. unfold same_stream. split; repeat intro; congruence. Qed.

(** ** Properties *)

(** C24: byte, word and double-word reads.  On a well-formed chain every read
    returns exactly what the same read of the concatenation of the chunks
    returns (big-endian for words; 0 without moving past the end), whatever the
    chunk boundaries, and leaves a well-formed chain over the same chunks. *)
Theorem reads_refine_flat mem cs :
  byte_memory mem → wf cs →
  let step {A} (op : codestream → A * codestream) (fop : flat → A * flat) :=
    wf (op cs).2 ∧ chunks_ (op cs).2 = chunks_ cs
    ∧ ((op cs).1, abs mem (op cs).2) = fop (abs mem cs) in
  step (get_byte mem) f_get_byte ∧ step (get_word mem) f_get_word
  ∧ step (get_dword mem) f_get_dword.
Proof.
  intros Hm Hwf. cbn zeta.
  destruct (get_byte_spec mem cs Hwf) as (? & [] & ?).
  destruct (get_word_spec mem cs Hm Hwf) as (? & [] & ?).
  destruct (get_dword_spec mem cs Hm Hwf) as (? & [] & ?).
  by split_and!.
Qed.

(** The bytes the reader has left. *)
Lemma left_pos mem cs :
  wf cs →
  let left := drop (Z.to_nat (pos cs)) (flat_bytes mem (chunks_ cs)) in
  left ≠ [] → Z.of_nat (length left) = total_len (chunks_ cs) - pos cs ∧ pos cs < total_len (chunks_ cs).
Proof.
  intros Hwf left Hl. assert (Z.of_nat (length (flat_bytes mem (chunks_ cs))) = total_len (chunks_ cs)) as Hlen
    by apply length_flat_bytes, Hwf.
  assert (0 < length left)%nat by (destruct left; cbn; [done|lia]). unfold left in *. rewrite length_drop in *.
  destruct (chunks_ cs !! cur_chunk_ cs) as [c|] eqn:Hk; [|pose proof (pos_at_end _ Hwf Hk); lia].
  destruct (pos_inside _ _ Hwf Hk) as (Hp & _). lia.
Qed.

Lemma take_at_end mem n cs :
  wf cs → drop (Z.to_nat (pos cs)) (flat_bytes mem (chunks_ cs)) = [] → take_contiguous mem n cs = (Null, cs).
Proof.
  intros Hwf Hl. unfold take_contiguous. destruct (chunks_ cs !! cur_chunk_ cs) as [c|] eqn:Hk; [|done].
  destruct (pos_inside _ _ Hwf Hk) as (Hp & _). apply (f_equal length) in Hl. rewrite length_drop in Hl. cbn in Hl.
  pose proof (length_flat_bytes mem (chunks_ cs) (wf_nonempty _ (wf_cur _ Hwf))). lia.
Qed.

Lemma take_in_chunk mem n cs c :
  wf cs → 0 ≤ n → pos cs + n < 18446744073709551616 → chunks_ cs !! cur_chunk_ cs = Some c → cur_offset_ cs + n ≤ len c →
  (take_contiguous mem n cs).1 = Addr (base c + cur_offset_ cs).
Proof.
  intros Hwf Hn Hb Hk Hc. unfold take_contiguous. rewrite Hk. destruct (n =? 0); [done|].
  pose proof (wf_offset _ (wf_cur _ Hwf)). pose proof (wf_consumed _ (wf_cur _ Hwf)) as Hcon.
  pose proof (total_len_nonneg _ (Forall_take _ (cur_chunk_ cs) _ (wf_nonempty _ (wf_cur _ Hwf)))).
  rewrite u64_small by (unfold pos in Hb; lia). by rewrite (proj2 (Z.leb_le _ _)).
Qed.

(** C25: code-block body access.  For a request that the rest of the stream can answer,
    [take_contiguous n] hands out a pointer to exactly the next [n] bytes of the
    concatenated chunks and advances past them: a pointer into the slab when they lie in
    the current chunk, a staging copy when they span several.  At the end of the stream
    it returns the null pointer and does not move.  (A longer request is
    [take_contiguous_pads].) *)
Theorem take_contiguous_flat mem n cs :
  wf cs → 0 ≤ n → pos cs + n < 18446744073709551616 →
  let r := take_contiguous mem n cs in
  let left := drop (Z.to_nat (pos cs)) (flat_bytes mem (chunks_ cs)) in
  wf r.2 ∧ chunks_ r.2 = chunks_ cs
  ∧ (left = [] → r = (Null, cs))
  ∧ (left ≠ [] → n ≤ Z.of_nat (length left) →
       ptr_bytes mem r.2 r.1 n = Some (take (Z.to_nat n) left)
       ∧ abs mem r.2 = f_seek (pos cs + n) (abs mem cs)
       ∧ ∀ c, chunks_ cs !! cur_chunk_ cs = Some c → cur_offset_ cs + n ≤ len c →
              r.1 = Addr (base c + cur_offset_ cs)).
Proof.
  intros Hwf Hn Hb. destruct (take_contiguous_spec mem n cs Hwf Hn Hb) as (W & C & E). cbn zeta.
  split; [done|]. split; [done|]. split; [by apply take_at_end|]. intros Hl Hle.
  destruct (left_pos mem cs Hwf Hl) as [Ll Lp].
  unfold f_take in E. rewrite (f_size_abs _ _ (wf_cur _ Hwf)) in E. cbn [f_pos f_bytes abs] in E.
  rewrite (proj2 (Z.ltb_lt _ _)) in E by lia. apply pair_eq in E as [E1 E2]. rewrite E1, E2.
  split; [f_equal; apply resize_le; lia|].
  split; [rewrite Z.min_l by lia; done|]. intros c Hk Hc. by apply take_in_chunk.
Qed.

(** A request longer than the rest of the stream (finding).  [take_contiguous] then hands
    out a staging buffer that holds the remaining bytes followed by zeros, and leaves the
    reader at the end; it does not return the null pointer its comment promises. *)
Theorem take_contiguous_pads mem n cs :
  wf cs → pos cs + n < 18446744073709551616 →
  let left := drop (Z.to_nat (pos cs)) (flat_bytes mem (chunks_ cs)) in
  left ≠ [] → Z.of_nat (length left) < n →
  let r := take_contiguous mem n cs in
  ptr_bytes mem r.2 r.1 n = Some (left ++ replicate (Z.to_nat n - length left) 0)
  ∧ abs mem r.2 = f_seek (total_len (chunks_ cs)) (abs mem cs).
Proof.
  intros Hwf Hb left Hl Hn. destruct (left_pos mem cs Hwf Hl) as [Ll Lp]. fold left in Ll.
  destruct (take_contiguous_spec mem n cs Hwf ltac:(lia) Hb) as (_ & _ & E).
  cbn zeta. unfold f_take in E. rewrite (f_size_abs _ _ (wf_cur _ Hwf)) in E. cbn [f_pos f_bytes abs] in E.
  rewrite (proj2 (Z.ltb_lt _ _)) in E by lia. apply pair_eq in E as [E1 E2]. rewrite E1, E2. fold left.
  split; [f_equal; by rewrite resize_ge by lia|]. rewrite Z.min_r by lia. done.
Qed.

(** Repositioning and growth.  [reset p] seeks to absolute byte [p] of the
    concatenated chunks from any cursor, even one that had run off its chunk,
    and clears the bit buffer; [append_chunk] extends the byte string at its
    end without moving the reader. *)
Theorem reset_append_flat mem cs p b l :
  Forall (λ c, 0 < len c) (chunks_ cs) → 0 ≤ p → 0 < l → p < total_len (chunks_ cs) + l →
  total_len (chunks_ cs) + l < 18446744073709551616 →
  wf (append_chunk b l (reset p cs))
  ∧ abs mem (append_chunk b l (reset p cs))
    = mkflat (flat_bytes mem (chunks_ cs) ++ mem_bytes mem b l) p 0 0 0.
Proof.
  intros Hne Hp Hl Hpl Ht.
  destruct (reset_spec mem p cs Hne ltac:(lia) Hp) as (R1 & R2 & R3 & R4).
  assert (pos (reset p cs) = p) as Rp
    by (change (pos (reset p cs)) with (f_pos (abs mem (reset p cs))); by rewrite R4).
  destruct (append_chunk_spec mem b l (reset p cs)) as [A1 A2]; rewrite ?R3, ?Rp; try done.
  split; [done|]. rewrite A2, R3, Rp. unfold abs in R4. by injection R4 as _ _ -> -> ->.
Qed.

(** [for_each_chunk] (used to dump or hand over a whole frame) visits the
    chunks in order, whatever the reader's position: writing each range yields
    exactly the frame's byte string. *)
Theorem for_each_chunk_flat mem cs :
  for_each_chunk (λ out b l, out ++ mem_bytes mem b l) cs []
  = flat_bytes mem (chunks_ cs).
Proof.
  unfold for_each_chunk. rewrite <- (app_nil_l (flat_bytes _ _)). generalize (@nil Z).
  induction (chunks_ cs) as [|c l IH]; intros acc; cbn [fold_left].
  - by rewrite app_nil_r.
  - by rewrite IH, flat_bytes_cons, app_assoc.
Qed.

(** An empty chunk breaks the reader (finding).  With an empty chunk in the
    chain [get_byte] reads the byte after that chunk's end and then stays inside
    it, so the following chunk's bytes are not what is returned: the invariant's
    "no empty chunk" clause is needed, and [append_chunk] does not enforce it. *)
Theorem empty_chunk_misreads :
  let mem : memory := λ a, a mod 256 in
  let cs := append_chunk 200 2 (append_chunk 100 0 (append_chunk 10 1 empty_codestream)) in
  let '(b1, cs1) := get_byte mem cs in
  let '(b2, cs2) := get_byte mem cs1 in
  flat_bytes mem (chunks_ cs) = [10; 200; 201] ∧ b1 = 10 ∧ b2 = 100.
Proof. vm_compute. done. Qed.

(** ** Witnesses: a two-chunk chain, three bytes, read across the boundary *)
Definition demo_mem : memory := λ a, a mod 256.
Definition demo_cs : codestream := append_chunk 200 2 (append_chunk 10 1 empty_codestream).

Lemma demo_mem_bytes : byte_memory demo_mem.
Proof. intros a. unfold demo_mem, is_byte. apply Z.mod_pos_bound. lia. Qed.

Lemma demo_cs_wf : wf demo_cs.
Proof.
  split; [split|]; simpl; try lia; [repeat constructor|].
  intros c [= <-]. simpl. lia.
Qed.

Lemma reads_refine_flat_witness :
  ((get_word demo_mem demo_cs).1, abs demo_mem (get_word demo_mem demo_cs).2)
    = f_get_word (abs demo_mem demo_cs)
  ∧ (get_word demo_mem demo_cs).1 = 10 * 256 + 200.
Proof.
  split; [|reflexivity].
  apply (reads_refine_flat demo_mem demo_cs demo_mem_bytes demo_cs_wf).
Defined.

(** Three bytes across the two chunks, then none left. *)
Lemma take_contiguous_flat_witness :
  (take_contiguous demo_mem 3 demo_cs).1 = Staging 0
  ∧ ptr_bytes demo_mem (take_contiguous demo_mem 3 demo_cs).2 (Staging 0) 3 = Some [10; 200; 201]
  ∧ abs demo_mem (take_contiguous demo_mem 3 demo_cs).2 = f_seek 3 (abs demo_mem demo_cs).
Proof.
  split; [reflexivity|].
  destruct (take_contiguous_flat demo_mem 3 demo_cs demo_cs_wf) as (_ & _ & _ & H); [vm_compute; congruence..|].
  destruct H as (H1 & H2 & _); [vm_compute; congruence..|]. split; [exact H1|exact H2].
Defined.

Lemma take_contiguous_pads_witness :
  ptr_bytes demo_mem (take_contiguous demo_mem 5 demo_cs).2 (Staging 0) 5 = Some [10; 200; 201; 0; 0].
Proof. apply (take_contiguous_pads demo_mem 5 demo_cs demo_cs_wf); vm_compute; congruence. Defined.

Lemma reset_append_flat_witness :
  abs demo_mem (append_chunk 50 2 (reset 2 demo_cs))
  = mkflat ([10; 200; 201] ++ [50; 51]) 2 0 0 0.
Proof.
  refine (proj2 (reset_append_flat demo_mem demo_cs 2 50 2 _ _ _ _ _));
    [repeat constructor | vm_compute; congruence..].
Defined.
