(* ===== verification/BitReader.v ===== *)
(** * BitReader: packet-header bit access of packet_parser/type.hpp

    [get_bit], [packetheader_get_bits] and [packetheader_flush_bits] read the
    bit-stuffed packet headers: after a 0xFF byte the next byte carries only 7
    bits.  The writer's side of that rule is [pack_bits]; reading what it
    packed gives the bits back and flushing lands on the byte after them. *)
From S2P Require Import Prelude Codestream.

(** ** Operations *)
Section Bits.
Context (mem : memory).

(** The refill both readers start with. *)
Definition fill (cs : codestream) : codestream :=
  if cs_bits cs =? 0 then
    let b := if cs_tmp cs =? 255 then 7 else 8 in
    let l := cs_tmp cs in
    let '(t, cs) := get_byte mem cs in
    set_bitbuf t l b cs
  else cs.

Definition get_bit (cs : codestream) : Z * codestream :=
  let cs := fill cs in
  let b := u8 (cs_bits cs - 1) in
  let cs := set_bitbuf (cs_tmp cs) (cs_last cs) b cs in
  (Z.land (Z.shiftr (cs_tmp cs) b) 1, cs).

(** [while (--n >= 0)]: [n] rounds; [res] is an [int]. *)
Fixpoint get_bits_loop (n : nat) (res : Z) (cs : codestream) : Z * codestream :=
  match n with
  | O => (res, cs)
  | S n' =>
      let res := i32 (Z.shiftl res 1) in
      let cs := fill cs in
      let b := u8 (cs_bits cs - 1) in
      let cs := set_bitbuf (cs_tmp cs) (cs_last cs) b cs in
      get_bits_loop n' (Z.lor res (Z.land (Z.shiftr (cs_tmp cs) b) 1)) cs
  end.
Definition packetheader_get_bits (n : Z) (cs : codestream) : Z * codestream :=
  get_bits_loop (Z.to_nat n) 0 cs.

End Bits.

Definition packetheader_flush_bits (cs : codestream) : codestream :=
  let cs := if cs_tmp cs =? 255 then advance 1 cs else cs in
  set_bitbuf 0 (cs_last cs) 0 cs.

(** ** Specification *)

(** The same readers on a flat string. *)
Definition f_fill (f : flat) : flat :=
  if f_bits f =? 0 then
    let '(t, f') := f_get_byte f in
    f_setbits t (f_tmp f) (if f_tmp f =? 255 then 7 else 8) f'
  else f.

Definition f_get_bit (f : flat) : bool * flat :=
  let f := f_fill f in
  (Z.testbit (f_tmp f) (f_bits f - 1), f_setbits (f_tmp f) (f_last f) (f_bits f - 1) f).

Fixpoint f_read_bits (n : nat) (f : flat) : list bool * flat :=
  match n with
  | O => ([], f)
  | S n' =>
      let '(b, f) := f_get_bit f in
      let '(l, f) := f_read_bits n' f in (b :: l, f)
  end.

Definition f_flush (f : flat) : flat :=
  f_setbits 0 (f_last f) 0 (if f_tmp f =? 255 then f_seek (f_pos f + 1) f else f).

(** [n] successive [get_bit] calls. *)
Fixpoint read_bits (mem : memory) (n : nat) (cs : codestream) : list bool * codestream :=
  match n with
  | O => ([], cs)
  | S n' =>
      let '(b, cs) := get_bit mem cs in
      let '(l, cs) := read_bits mem n' cs in ((b =? 1) :: l, cs)
  end.

(** The unsigned value of a big-endian bit string. *)
Definition bits_val (l : list bool) : Z := fold_left (λ acc b, 2 * acc + Z.b2z b) l 0.

(** One byte of a packet header that carries [g] bits (7 or 8), zero-padded. *)
Definition group_byte (g : nat) (l : list bool) : Z := bits_val (resize g false l).

(** The writer: bit stuffing of ISO/IEC 15444-1 B.10.1.  [ff] says whether the
    previous byte was 0xFF; a header may not end with 0xFF, so a trailing one is
    followed by a stuffed zero byte. *)
Fixpoint pack_groups (fuel : nat) (ff : bool) (l : list bool) : list Z :=
  match fuel with
  | O => []
  | S fuel' =>
      match l with
      | [] => if ff then [0] else []
      | _ =>
          let g := if ff then 7%nat else 8%nat in
          let b := group_byte g l in
          b :: pack_groups fuel' (b =? 255) (drop g l)
      end
  end.
Definition pack_bits (l : list bool) : list Z := pack_groups (S (length l)) false l.

(** The bit buffer between two reads. *)
Record wf_bits (f : flat) : Prop := {
  wfb_bits : 0 ≤ f_bits f ≤ 8;
  wfb_tmp : is_byte (f_tmp f)
}.

(** ** Refinement *)
Lemma f_fill_bits f : 0 ≤ f_bits f ≤ 8 → 1 ≤ f_bits (f_fill f) ≤ 8.
Proof.
  intros. unfold f_fill. destruct (Z.eqb_spec (f_bits f) 0); [|lia].
  destruct (f_get_byte f). simpl. zcases; lia.
Qed.

Lemma fill_spec mem cs :
  wf cs → wf (fill mem cs) ∧ chunks_ (fill mem cs) = chunks_ cs
  ∧ staging_ (fill mem cs) = staging_ cs
  ∧ abs mem (fill mem cs) = f_fill (abs mem cs).
Proof.
  intros Hwf. unfold fill, f_fill. cbn [f_bits f_tmp abs].
  destruct (cs_bits cs =? 0); [|done].
  pose proof (get_byte_spec mem cs Hwf) as (H1 & H2 & H3).
  destruct (get_byte mem cs) as [t cs1]; cbn [fst snd] in *. rewrite <- H3.
  split_and!; [|apply H2|apply H2|done]. destruct H1 as [[] Hin]. split; [by split|]. exact Hin.
Qed.

Lemma land_shiftr_1 x k : 0 ≤ k → Z.land (Z.shiftr x k) 1 = Z.b2z (Z.testbit x k).
Proof.
  intros. change 1 with (Z.ones 1). rewrite Z.land_ones by lia.
  by rewrite <- Z.bit0_mod, Z.shiftr_spec, Z.add_0_l by lia.
Qed.

Lemma wf_set_bitbuf t l b cs : wf cs → wf (set_bitbuf t l b cs).
Proof. intros [[] Hin]. split; [by split|]. exact Hin. Qed.

(** What both loops do for one bit, on the concrete reader. *)
Lemma take_bit_spec mem cs :
  wf cs → 0 ≤ cs_bits cs ≤ 8 →
  let cs1 := fill mem cs in
  let cs2 := set_bitbuf (cs_tmp cs1) (cs_last cs1) (u8 (cs_bits cs1 - 1)) cs1 in
  wf cs2 ∧ chunks_ cs2 = chunks_ cs ∧ staging_ cs2 = staging_ cs
  ∧ Z.land (Z.shiftr (cs_tmp cs2) (u8 (cs_bits cs1 - 1))) 1 = Z.b2z (f_get_bit (abs mem cs)).1
  ∧ abs mem cs2 = (f_get_bit (abs mem cs)).2 ∧ 0 ≤ cs_bits cs2 ≤ 8.
Proof.
  intros Hwf Hb. destruct (fill_spec mem cs Hwf) as (F1 & F2 & F2' & F3). cbn zeta.
  pose proof (f_fill_bits (abs mem cs) Hb) as Hfb. rewrite <- F3 in Hfb.
  change (f_bits (abs mem (fill mem cs))) with (cs_bits (fill mem cs)) in Hfb.
  rewrite u8_small by lia. unfold f_get_bit. cbn zeta. rewrite <- F3. cbn [fst snd].
  split_and!; try done; simpl; try lia.
  - by apply wf_set_bitbuf.
  - by rewrite land_shiftr_1 by lia.
Qed.

Lemma get_bit_spec mem cs :
  wf cs → 0 ≤ cs_bits cs ≤ 8 →
  wf (get_bit mem cs).2 ∧ chunks_ (get_bit mem cs).2 = chunks_ cs
  ∧ staging_ (get_bit mem cs).2 = staging_ cs
  ∧ (get_bit mem cs).1 = Z.b2z (f_get_bit (abs mem cs)).1
  ∧ abs mem (get_bit mem cs).2 = (f_get_bit (abs mem cs)).2
  ∧ 0 ≤ cs_bits (get_bit mem cs).2 ≤ 8.
Proof. apply take_bit_spec. Qed.

Lemma read_bits_spec mem n cs :
  wf cs → 0 ≤ cs_bits cs ≤ 8 →
  wf (read_bits mem n cs).2 ∧ chunks_ (read_bits mem n cs).2 = chunks_ cs
  ∧ ((read_bits mem n cs).1, abs mem (read_bits mem n cs).2) = f_read_bits n (abs mem cs)
  ∧ 0 ≤ cs_bits (read_bits mem n cs).2 ≤ 8.
Proof.
  revert cs. induction n as [|n IH]; intros cs Hwf Hb; [done|]. cbn [read_bits f_read_bits].
  destruct (get_bit_spec mem cs Hwf Hb) as (H1 & H2 & _ & H3 & H4 & H5).
  destruct (get_bit mem cs) as [b cs1], (f_get_bit (abs mem cs)) as [fb f1];
    cbn [fst snd] in *. subst f1.
  destruct (IH cs1 H1 H5) as (J1 & J2 & J3 & J4). destruct (read_bits mem n cs1) as [l cs2];
    cbn [fst snd] in *. rewrite <- J3. split_and!; [done|congruence| |lia..].
  f_equal. f_equal. subst b. by destruct fb.
Qed.

Lemma flush_spec mem cs :
  wf cs → cur_offset_ cs + 1 < 18446744073709551616 →
  wf (packetheader_flush_bits cs) ∧ chunks_ (packetheader_flush_bits cs) = chunks_ cs
  ∧ staging_ (packetheader_flush_bits cs) = staging_ cs
  ∧ abs mem (packetheader_flush_bits cs) = f_flush (abs mem cs).
Proof.
  intros Hwf Hs. unfold packetheader_flush_bits, f_flush. cbn [f_tmp abs].
  destruct (cs_tmp cs =? 255).
  - destruct (advance_spec mem 1 cs Hwf) as (A1 & A2 & A3); [lia|lia|].
    split_and!; [by apply wf_set_bitbuf|apply A2|apply A2|].
    change (abs mem (set_bitbuf 0 (cs_last (advance 1 cs)) 0 (advance 1 cs)))
      with (f_setbits 0 (cs_last (advance 1 cs)) 0 (abs mem (advance 1 cs))).
    by rewrite A3, (mv_last _ _ A2).
  - split_and!; [by apply wf_set_bitbuf|reflexivity..].
Qed.

(** ** Values of bit strings *)
Lemma bits_val_snoc l b : bits_val (l ++ [b]) = 2 * bits_val l + Z.b2z b.
Proof. unfold bits_val. by rewrite fold_left_app. Qed.

Lemma bits_val_range l : 0 ≤ bits_val l < 2 ^ Z.of_nat (length l).
Proof.
  induction l as [|b l IH] using rev_ind; [by vm_compute|].
  rewrite bits_val_snoc, length_app. simpl. rewrite Nat2Z.inj_add, Z.pow_add_r by lia.
  destruct b; simpl; lia.
Qed.

Lemma bits_val_testbit l i b :
  l !! i = Some b → Z.testbit (bits_val l) (Z.of_nat (length l) - 1 - Z.of_nat i) = b.
Proof.
  revert i. induction l as [|c l IH] using rev_ind; intros i Hi; [done|].
  rewrite bits_val_snoc, length_app, Nat2Z.inj_add.
  change (Z.of_nat (length [c])) with 1.
  destruct (decide (i < length l)%nat) as [Hl|Hl].
  - rewrite lookup_app_l in Hi by done.
    replace (Z.of_nat (length l) + 1 - 1 - Z.of_nat i)
      with (Z.succ (Z.of_nat (length l) - 1 - Z.of_nat i)) by lia.
    rewrite Z.testbit_succ_r by lia. by apply IH.
  - rewrite lookup_app_r in Hi by lia. apply list_lookup_singleton_Some in Hi as [Hi ->].
    replace (Z.of_nat (length l) + 1 - 1 - Z.of_nat i) with 0 by lia.
    by rewrite Z.testbit_0_r.
Qed.

Lemma length_read_bits mem k cs : length (read_bits mem k cs).1 = k.
Proof.
  revert cs. induction k as [|k IH]; intros cs; [done|]. cbn [read_bits].
  destruct (get_bit mem cs) as [b c]. specialize (IH c). destruct (read_bits mem k c).
  simpl in *. by f_equal.
Qed.

(** ** [packetheader_get_bits] is iterated [get_bit] *)
Lemma shiftl1_lor_bit x b : 0 ≤ x → Z.lor (Z.shiftl x 1) (Z.b2z b) = 2 * x + Z.b2z b.
Proof. intros. rewrite shiftl_lor_byte by (destruct b; simpl; lia). lia. Qed.

Lemma get_bits_loop_spec mem n res cs :
  wf cs → 0 ≤ cs_bits cs ≤ 8 →
  0 ≤ res → (res + 1) * 2 ^ Z.of_nat n ≤ 2147483648 →
  get_bits_loop mem n res cs
  = (fold_left (λ acc b, 2 * acc + Z.b2z b) (read_bits mem n cs).1 res,
     (read_bits mem n cs).2).
Proof.
  revert res cs. induction n as [|n IH]; intros res cs Hwf Hb Hr Hs; [done|].
  rewrite Nat2Z.inj_succ, Z.pow_succ_r in Hs by lia.
  assert (0 < 2 ^ Z.of_nat n) by lia.
  pose proof (take_bit_spec mem cs Hwf Hb) as (H1 & _ & _ & H3 & _ & H5).
  cbn [get_bits_loop read_bits]. unfold get_bit. cbn zeta in *.
  set (cs2 := set_bitbuf _ _ _ (fill mem cs)) in *. rewrite H3.
  set (b := (f_get_bit (abs mem cs)).1).
  rewrite i32_small, shiftl1_lor_bit by (rewrite ?Z.shiftl_mul_pow2 by lia; nia).
  rewrite IH by (try done; destruct b; simpl; nia).
  destruct (read_bits mem n cs2) as [l cs3]. cbn [fst snd fold_left].
  by destruct b.
Qed.

(** ** Reading what was packed *)
Lemma f_read_bits_app n m f :
  f_read_bits (n + m) f
  = ((f_read_bits n f).1 ++ (f_read_bits m (f_read_bits n f).2).1,
     (f_read_bits m (f_read_bits n f).2).2).
Proof.
  revert f. induction n as [|n IH]; intros f; cbn [f_read_bits Nat.add fst snd app].
  { by destruct (f_read_bits m f). }
  destruct (f_get_bit f) as [b f1]. rewrite IH.
  destruct (f_read_bits n f1) as [l f2]. simpl. by destruct (f_read_bits m f2).
Qed.

Lemma f_read_within m f :
  0 ≤ f_bits f → Z.of_nat m ≤ f_bits f →
  f_read_bits m f
  = ((λ i, Z.testbit (f_tmp f) (f_bits f - 1 - Z.of_nat i)) <$> seq 0 m,
     f_setbits (f_tmp f) (f_last f) (f_bits f - Z.of_nat m) f).
Proof.
  revert f. induction m as [|m IH]; intros f Hb Hm.
  { destruct f; simpl. unfold f_setbits; simpl. by rewrite Z.sub_0_r. }
  cbn [f_read_bits]. unfold f_get_bit, f_fill. rewrite (proj2 (Z.eqb_neq _ _)) by lia.
  rewrite IH by (simpl; lia). cbn [f_setbits f_tmp f_bits f_last seq fmap list_fmap].
  f_equal; [|unfold f_setbits; simpl; f_equal; lia].
  f_equal; [f_equal; lia|]. rewrite <- fmap_S_seq, <- list_fmap_compose.
  apply list_fmap_ext. intros i x _. simpl. f_equal. lia.
Qed.

Lemma f_read_fill m f :
  0 ≤ f_bits f ≤ 8 → f_read_bits (S m) f = f_read_bits (S m) (f_fill f).
Proof.
  intros Hb. cbn [f_read_bits]. enough (f_fill (f_fill f) = f_fill f) as E
    by (unfold f_get_bit; by rewrite E).
  pose proof (f_fill_bits f Hb). unfold f_fill at 1. by rewrite (proj2 (Z.eqb_neq _ _)) by lia.
Qed.

Lemma group_byte_testbit g l i b :
  (i < g)%nat → l !! i = Some b →
  Z.testbit (group_byte g l) (Z.of_nat g - 1 - Z.of_nat i) = b.
Proof.
  intros Hi Hl. unfold group_byte. rewrite <- (length_resize l g false) at 2.
  apply bits_val_testbit. rewrite lookup_resize; [done|done|]. by apply lookup_lt_Some in Hl.
Qed.

(** One group: the bits of [l] that fit in the byte at the cursor. *)
Lemma f_read_group f pre g l rest :
  l ≠ [] → f_bits f = 0 → g = (if f_tmp f =? 255 then 7%nat else 8%nat) →
  f_bytes f = pre ++ group_byte g l :: rest → f_pos f = Z.of_nat (length pre) →
  f_read_bits (g `min` length l) f
  = (take g l, mkflat (f_bytes f) (f_pos f + 1) (group_byte g l) (f_tmp f)
                 (Z.of_nat (g - length l))).
Proof.
  intros Hl Hb Hg Hbytes Hp.
  destruct (g `min` length l)%nat as [|m] eqn:Hm; [destruct l, g; simpl in *; by try case_match|].
  assert (f_fill f = mkflat (f_bytes f) (f_pos f + 1) (group_byte g l) (f_tmp f) (Z.of_nat g)) as Hf.
  { unfold f_fill, f_get_byte, f_size. rewrite Hb, Hbytes, Hp, length_app. simpl.
    rewrite (proj2 (Z.ltb_lt _ _)) by lia. rewrite Nat2Z.id.
    rewrite list_lookup_total_middle by done. unfold f_setbits, f_seek; simpl. rewrite Hbytes.
    f_equal. rewrite Hg. by destruct (_ =? 255). }
  rewrite f_read_fill, Hf by lia. rewrite f_read_within by (simpl; lia).
  rewrite <- Hm. unfold f_setbits; cbn [f_bytes f_pos f_tmp f_last f_bits]. f_equal; [|f_equal; lia].
  apply list_eq. intros i. rewrite list_lookup_fmap.
  destruct (decide (i < g `min` length l)%nat) as [Hi|Hi].
  - rewrite lookup_seq_lt, lookup_take_lt by lia. simpl.
    destruct (lookup_lt_is_Some_2 l i) as [b Hlb]; [lia|]. rewrite Hlb. f_equal.
    apply group_byte_testbit; [lia|done].
  - rewrite lookup_seq_ge by lia. symmetry. apply lookup_ge_None. rewrite length_take. lia.
Qed.

Lemma f_read_packed fuel l f pre post :
  (length l < fuel)%nat → (l = [] ∨ f_bits f = 0) →
  f_bytes f = pre ++ pack_groups fuel (f_tmp f =? 255) l ++ post →
  f_pos f = Z.of_nat (length pre) →
  (f_read_bits (length l) f).1 = l
  ∧ f_bytes (f_read_bits (length l) f).2 = f_bytes f
  ∧ f_pos (f_flush (f_read_bits (length l) f).2)
    = Z.of_nat (length pre + length (pack_groups fuel (f_tmp f =? 255) l)).
Proof.
  revert l f pre. induction fuel as [|fuel IH]; intros l f pre Hf Hb Hbytes Hp; [lia|].
  destruct l as [|b0 l0] eqn:El; cbn [pack_groups] in *.
  { split_and!; [done..|]. unfold f_flush. simpl.
    destruct (f_tmp f =? 255); simpl; rewrite Hp; lia. }
  destruct Hb as [|Hb]; [done|]. rewrite <- El in *.
  set (g := if f_tmp f =? 255 then 7%nat else 8%nat) in *.
  assert (0 < g)%nat by (unfold g; by case_match; lia).
  rewrite <- app_comm_cons in Hbytes.
  pose proof (f_read_group f pre g l _ ltac:(by subst) Hb eq_refl Hbytes Hp) as Hg.
  set (f1 := mkflat _ _ _ _ _) in Hg.
  replace (length l) with (g `min` length l + length (drop g l))%nat by (rewrite length_drop; lia).
  rewrite f_read_bits_app, Hg. cbn [fst snd].
  destruct (IH (drop g l) f1 (pre ++ [group_byte g l])) as (I1 & I2 & I3).
  - rewrite length_drop. subst l; simpl in *. lia.
  - destruct (decide (g ≤ length l)%nat); [right; simpl; lia|left; apply drop_ge; lia].
  - simpl. rewrite Hbytes, <- app_assoc. done.
  - simpl. rewrite length_app, Hp. simpl. lia.
  - split_and!; [by rewrite I1, take_drop|done|]. rewrite I3, length_app. simpl. lia.
Qed.

Lemma f_flush_pos f : f_pos f ≤ f_pos (f_flush f).
Proof. unfold f_flush. case_match; simpl; lia. Qed.

Lemma offset_bound cs :
  wf cs → pos cs ≤ total_len (chunks_ cs) → cur_offset_ cs + 1 < 18446744073709551616.
Proof.
  intros Hwf Hp. destruct (chunks_ cs !! cur_chunk_ cs) as [c|] eqn:Hk.
  - destruct (pos_inside _ _ Hwf Hk) as (H1 & H2 & H3).
    pose proof (wf_inside _ Hwf _ Hk). pose proof (wf_cur _ Hwf) as [Hne _ Hc _ Ht].
    pose proof (total_len_nonneg _ (Forall_take _ (cur_chunk_ cs) _ Hne)). unfold pos in *. lia.
  - pose proof (pos_at_end _ Hwf Hk). pose proof (wf_cur _ Hwf) as [Hne Hi Hc Ho Ht].
    apply lookup_ge_None in Hk. unfold pos in *. rewrite Hc, take_ge in * by lia. lia.
Qed.

(** ** Properties *)

Lemma get_bits_spec mem n cs :
  wf cs → 0 ≤ cs_bits cs ≤ 8 → 0 ≤ n ≤ 31 →
  packetheader_get_bits mem n cs
  = (bits_val (read_bits mem (Z.to_nat n) cs).1, (read_bits mem (Z.to_nat n) cs).2)
  ∧ 0 ≤ (packetheader_get_bits mem n cs).1 < 2 ^ n.
Proof.
  intros Hwf Hb Hn. unfold packetheader_get_bits.
  assert (2 ^ n ≤ 2147483648) by (change 2147483648 with (2 ^ 31); apply Z.pow_le_mono_r; lia).
  rewrite get_bits_loop_spec by (rewrite ?Z2Nat.id by lia; try done; lia).
  split; [done|]. cbn [fst].
  assert (length (read_bits mem (Z.to_nat n) cs).1 = Z.to_nat n) as Hl.
  { apply length_read_bits. }
  pose proof (bits_val_range (read_bits mem (Z.to_nat n) cs).1) as Hr.
  rewrite Hl, Z2Nat.id in Hr by lia. exact Hr.
Qed.

(** Multi-bit reads.  Up to 31 bits, [packetheader_get_bits n] returns the
    big-endian value of the next [n] bits (as [n] calls of [get_bit] would
    deliver them), below [2^n], and leaves the reader where those calls do. *)
Theorem get_bits_is_n_get_bit mem n cs :
  wf cs → 0 ≤ cs_bits cs ≤ 8 → 0 ≤ n ≤ 31 →
  packetheader_get_bits mem n cs
  = (bits_val (read_bits mem (Z.to_nat n) cs).1, (read_bits mem (Z.to_nat n) cs).2)
  ∧ 0 ≤ (packetheader_get_bits mem n cs).1 < 2 ^ n.
Proof. apply get_bits_spec. Qed.

(** C26: bit-stuffing round trip.  If the chain holds a packet header written
    with the standard's bit stuffing, then whatever its chunk boundaries the bit
    reader returns exactly the bits written, and [packetheader_flush_bits] then
    stands on the first byte after the header, skipping the stuffed byte that
    follows a final 0xFF. *)
Theorem packed_bits_roundtrip mem cs pre l post :
  wf cs → cs_tmp cs = 0 → cs_bits cs = 0 →
  flat_bytes mem (chunks_ cs) = pre ++ pack_bits l ++ post →
  pos cs = Z.of_nat (length pre) →
  let r := read_bits mem (length l) cs in
  r.1 = l
  ∧ pos (packetheader_flush_bits r.2) = Z.of_nat (length pre + length (pack_bits l))
  ∧ flat_bytes mem (chunks_ (packetheader_flush_bits r.2)) = pre ++ pack_bits l ++ post.
Proof.
  intros Hwf Ht Hb Hbytes Hp. cbn zeta.
  destruct (read_bits_spec mem (length l) cs Hwf ltac:(lia)) as (R1 & R2 & R3 & _).
  destruct (f_read_packed (S (length l)) l (abs mem cs) pre post) as (I1 & I2 & I3);
    [lia|by right|simpl; by rewrite Ht|done|].
  rewrite <- R3 in *. cbn [fst snd] in *. split; [done|].
  pose proof (f_flush_pos (abs mem (read_bits mem (length l) cs).2)) as Hle.
  rewrite I3 in Hle. cbn [f_tmp f_pos abs] in Hle, I3. rewrite Ht in Hle, I3.
  destruct (flush_spec mem _ R1) as (F1 & F2 & _ & F3).
  { apply offset_bound; [done|]. rewrite R2.
    rewrite <- (length_flat_bytes mem) by apply Hwf. rewrite Hbytes, !length_app.
    change (pack_groups _ _ _) with (pack_bits l) in Hle. lia. }
  split; [|by rewrite F2, R2]. rewrite <- F3 in I3. exact I3.
Qed.

(** ** Witnesses: a header whose first byte is 0xFF, split over two chunks *)
Definition demo_bits : list bool := replicate 9 true.
Definition demo_header : list Z := pack_bits demo_bits ++ [7].
Definition demo_hmem : memory := λ a, demo_header !!! Z.to_nat a.
Definition demo_hcs : codestream := append_chunk 1 2 (append_chunk 0 1 empty_codestream).

Lemma demo_hcs_wf : wf demo_hcs.
Proof.
  split; [split|]; simpl; try lia; [repeat constructor|]. intros c [= <-]. simpl. lia.
Qed.

Lemma get_bits_is_n_get_bit_witness :
  packetheader_get_bits demo_hmem 9 demo_hcs
  = (bits_val (read_bits demo_hmem 9 demo_hcs).1, (read_bits demo_hmem 9 demo_hcs).2)
  ∧ (packetheader_get_bits demo_hmem 9 demo_hcs).1 = 511.
Proof.
  split; [|reflexivity].
  refine (proj1 (get_bits_is_n_get_bit demo_hmem 9 demo_hcs demo_hcs_wf _ _)); simpl; lia.
Defined.

Lemma packed_bits_roundtrip_witness :
  (read_bits demo_hmem 9 demo_hcs).1 = demo_bits
  ∧ pos (packetheader_flush_bits (read_bits demo_hmem 9 demo_hcs).2) = 2
  ∧ demo_header = [255; 64; 7].
Proof.
  destruct (packed_bits_roundtrip demo_hmem demo_hcs [] demo_bits [7] demo_hcs_wf)
    as (H1 & H2 & _); [reflexivity..|]. split; [exact H1|]. split; [exact H2|reflexivity].
Defined.
