(* ===== verification/Receiver.v ===== *)
(** * Receiver: rtp_receiver.hpp / rtp_receiver.cpp

    The receive thread validates RTP datagrams, stores them in a ring of slab
    slots indexed by sequence number, releases them in order (with a bounded
    jitter window) through a single-producer single-consumer job queue, and the
    worker hands each job to the hook.  The worker keeps a slot's bytes until
    [release_slab] ([in_worker]).

    Functions are modelled whole; each runs on one thread.  What the two threads
    share is the queue (see [Spsc] for its interleavings) and the [in_worker]
    flags, which the receive thread only sets and the worker only clears.  The
    statistics counters (64-bit) are modelled without wrap-around. *)
From S2P Require Import Prelude.

Definition kRingSize : Z := 16384.
Definition kSlotBytes : Z := 9216.
Definition kJobQueueSize : Z := kRingSize.
Definition kRtpVersion : Z := 2.

Record Slot := mkSlot {
  filled : bool;
  s_seq : Z;
  s_hdr_len : Z;
  s_len : Z;
  in_worker : Z
}.

Record Job := mkJob {
  j_slab_idx : Z;
  j_len : Z;
  j_seq : Z;
  j_hdr_len : Z
}.

(** [rtp::Frame]; [f_payload] is the slab address of the payload. *)
Record Frame := mkFrame {
  f_seq : Z;
  f_timestamp : Z;
  f_ssrc : Z;
  f_marker : Z;
  f_payload_type : Z;
  f_payload : Z;
  f_payload_len : Z;
  f_slab_idx : Z
}.

(** The fields of [Receiver] that the two loops use. *)
Record receiver := mkRecv {
  ring_ : Z → Slot;
  slab_ : memory;
  started_ : bool;
  next_seq_ : Z;
  pending_ : Z;
  net_lost_packets_ : Z;
  slot_busy_drops_ : Z;
  queue_full_drops_ : Z;
  job_queue_ : Z → Job;
  job_head_ : Z;
  job_tail_ : Z;
  jitter_depth_ : Z
}.

Definition set_ring (f : Z → Slot) (r : receiver) : receiver :=
  mkRecv f (slab_ r) (started_ r) (next_seq_ r) (pending_ r) (net_lost_packets_ r)
    (slot_busy_drops_ r) (queue_full_drops_ r) (job_queue_ r) (job_head_ r) (job_tail_ r)
    (jitter_depth_ r).
Definition set_slab (m : memory) (r : receiver) : receiver :=
  mkRecv (ring_ r) m (started_ r) (next_seq_ r) (pending_ r) (net_lost_packets_ r)
    (slot_busy_drops_ r) (queue_full_drops_ r) (job_queue_ r) (job_head_ r) (job_tail_ r)
    (jitter_depth_ r).
Definition set_head (b : bool) (n p : Z) (r : receiver) : receiver :=
  mkRecv (ring_ r) (slab_ r) b n p (net_lost_packets_ r)
    (slot_busy_drops_ r) (queue_full_drops_ r) (job_queue_ r) (job_head_ r) (job_tail_ r)
    (jitter_depth_ r).
Definition set_drops (n b q : Z) (r : receiver) : receiver :=
  mkRecv (ring_ r) (slab_ r) (started_ r) (next_seq_ r) (pending_ r) n b q
    (job_queue_ r) (job_head_ r) (job_tail_ r) (jitter_depth_ r).
Definition set_queue (q : Z → Job) (h t : Z) (r : receiver) : receiver :=
  mkRecv (ring_ r) (slab_ r) (started_ r) (next_seq_ r) (pending_ r) (net_lost_packets_ r)
    (slot_busy_drops_ r) (queue_full_drops_ r) q h t (jitter_depth_ r).

Definition set_in_worker (i v : Z) (r : receiver) : receiver :=
  let s := ring_ r i in
  set_ring (<[i := mkSlot (filled s) (s_seq s) (s_hdr_len s) (s_len s) v]> (ring_ r)) r.
(** [filled = false; len = 0] *)
Definition empty_slot (i : Z) (r : receiver) : receiver :=
  let s := ring_ r i in
  set_ring (<[i := mkSlot false (s_seq s) (s_hdr_len s) 0 (in_worker s)]> (ring_ r)) r.

(** The state [start] leaves before the threads run; [ring0], [slab0] and
    [queue0] are what the arrays held before (their [seq], [hdr_len] and bytes
    are not reset). *)
Definition start (ring0 : Z → Slot) (slab0 : memory) (queue0 : Z → Job) (jitter : Z) : receiver :=
  mkRecv (λ i, mkSlot false (s_seq (ring0 i)) (s_hdr_len (ring0 i)) 0 0) slab0
    false 0 0 0 0 0 queue0 0 0 jitter.

(** ** SPSC job queue *)
Definition enqueue_job (j : Job) (r : receiver) : option receiver :=
  let tail := job_tail_ r in
  let next_tail := Z.land (tail + 1) (kJobQueueSize - 1) in
  if next_tail =? job_head_ r then None
  else Some (set_queue (<[tail := j]> (job_queue_ r)) (job_head_ r) next_tail r).

Definition dequeue_job (r : receiver) : option (Job * receiver) :=
  let head := job_head_ r in
  if head =? job_tail_ r then None
  else Some (job_queue_ r head,
             set_queue (job_queue_ r) (Z.land (head + 1) (kJobQueueSize - 1)) (job_tail_ r) r).

(** ** Receive thread *)
Definition dispatch (slab_idx len seq hdr_len : Z) (r : receiver) : receiver :=
  let r := set_in_worker slab_idx 1 r in
  match enqueue_job (mkJob slab_idx len seq hdr_len) r with
  | None =>
      let r := set_in_worker slab_idx 0 r in
      set_drops (net_lost_packets_ r) (slot_busy_drops_ r) (queue_full_drops_ r + 1) r
  | Some r => r
  end.

(** The step both loops share: hand the head slot to the worker, empty it. *)
Definition dispatch_head (i : Z) (r : receiver) : receiver :=
  let head := ring_ r i in
  let r := dispatch i (s_len head) (s_seq head) (s_hdr_len head) r in
  let r := empty_slot i r in
  set_head (started_ r) (next_seq_ r) (pending_ r - 1) r.

Definition head_index (r : receiver) : Z := Z.land (next_seq_ r) (kRingSize - 1).
Definition bump_seq (r : receiver) : receiver :=
  set_head (started_ r) (u16 (next_seq_ r + 1)) (pending_ r) r.
Definition head_ready (r : receiver) : bool :=
  let head := ring_ r (head_index r) in filled head && (s_seq head =? next_seq_ r).

(** One round of the force-advance loop of [handle_dgram]. *)
Definition advance_head (r : receiver) : receiver :=
  bump_seq
    (if head_ready r then dispatch_head (head_index r) r
     else set_drops (net_lost_packets_ r + 1) (slot_busy_drops_ r) (queue_full_drops_ r) r).

(** [while (diff >= static_cast<int16_t>(jitter_depth_))]; the difference takes
    65536 values, so a loop that has not stopped after that many rounds never
    does. *)
Fixpoint force_advance (fuel : nat) (seq : Z) (r : receiver) : outcome receiver :=
  match fuel with
  | O => NoFuel
  | S fuel' =>
      if i16 (jitter_depth_ r) <=? i16 (seq - next_seq_ r)
      then force_advance fuel' seq (advance_head r)
      else Ret r
  end.
Definition advance_fuel : nat := Z.to_nat 65537.

Fixpoint release_loop (fuel : nat) (r : receiver) : receiver :=
  match fuel with
  | O => r
  | S fuel' =>
      if head_ready r then release_loop fuel' (bump_seq (dispatch_head (head_index r) r)) else r
  end.
(** [while (pending_ > 0)]: every round lowers [pending_] by one. *)
Definition release_in_order (r : receiver) : receiver :=
  release_loop (Z.to_nat (pending_ r)) r.

Definition rd_u16 (p : list Z) (i : Z) : Z :=
  u16 (Z.lor (Z.shiftl (p !!! Z.to_nat i) 8) (p !!! Z.to_nat (i + 1))).

(** The RTP header checks at the top of [handle_dgram]:
    (header length, effective length, sequence number). *)
Definition parse_rtp (data : list Z) : option (Z * Z * Z) :=
  let len := Z.of_nat (length data) in
  let b0 := data !!! 0%nat in
  if negb (Z.shiftr b0 6 =? kRtpVersion) then None else
  let cc := Z.land b0 15 in
  let pad := Z.land (Z.shiftr b0 5) 1 in
  let ext := Z.land (Z.shiftr b0 4) 1 in
  let hdr := 12 + 4 * cc in
  if len <? hdr then None else
  match (if ext =? 0 then Some hdr
         else if len <? hdr + 4 then None
         else let hdr := hdr + (4 + 4 * rd_u16 data (hdr + 2)) in
              if len <? hdr then None else Some hdr) with
  | None => None
  | Some hdr =>
      let pad_len := if pad =? 0 then 0 else data !!! Z.to_nat (len - 1) in
      if negb (pad =? 0) && (len - hdr <? pad_len) then None else
      let effective_len := len - pad_len in
      if kSlotBytes <? effective_len then None else
      Some (hdr, effective_len, rd_u16 data 2)
  end.

(** [memcpy(slab + idx * kSlotBytes, data, n)] *)
Definition slab_write (idx : Z) (data : list Z) (n : Z) (m : memory) : memory :=
  λ a, let o := a - idx * kSlotBytes in
       if (0 <=? o) && (o <? n) then data !!! Z.to_nat o else m a.

Definition handle_dgram (data : list Z) (r : receiver) : outcome receiver :=
  match parse_rtp data with
  | None => Ret r
  | Some (hdr, effective_len, seq) =>
      let r := if started_ r then r else set_head true seq (pending_ r) r in
      if i16 (seq - next_seq_ r) <? 0 then Ret r else
      match force_advance advance_fuel seq r with
      | UB => UB
      | NoFuel => NoFuel
      | Ret r =>
          let idx := Z.land seq (kRingSize - 1) in
          let slot := ring_ r idx in
          if filled slot then
            if s_seq slot =? seq then Ret r
            else Ret (set_drops (net_lost_packets_ r + 1) (slot_busy_drops_ r)
                        (queue_full_drops_ r) r)
          else if negb (in_worker slot =? 0) then
            Ret (set_drops (net_lost_packets_ r) (slot_busy_drops_ r + 1)
                   (queue_full_drops_ r) r)
          else
            let r := set_slab (slab_write idx data effective_len (slab_ r)) r in
            let r := set_ring
              (<[idx := mkSlot true seq (u16 hdr) effective_len (in_worker slot)]> (ring_ r)) r in
            let r := set_head (started_ r) (next_seq_ r) (pending_ r + 1) r in
            Ret (release_in_order r)
      end
  end.

(** [recv_loop] for one datagram: the kernel delivers at most [kSlotBytes]
    bytes ([sizeof(buf)]); shorter than 12 are skipped. *)
Definition recv_one (dgram : list Z) (r : receiver) : outcome receiver :=
  let data := take (Z.to_nat kSlotBytes) dgram in
  if Z.of_nat (length data) <? 12 then Ret r else handle_dgram data r.

(** ** Worker thread *)
Definition rd_u32 (m : memory) (a : Z) : Z :=
  Z.lor (Z.lor (Z.lor (Z.shiftl (m a) 24) (Z.shiftl (m (a + 1)) 16))
           (Z.shiftl (m (a + 2)) 8)) (m (a + 3)).

Definition release_slab (slab_idx : Z) (r : receiver) : receiver :=
  if slab_idx <? kRingSize then set_in_worker slab_idx 0 r else r.

(** The frame the hook is called with, when there is a hook and the header
    length is sane; otherwise the slot is released on the spot. *)
Definition process_job (has_hook : bool) (j : Job) (r : receiver) : option Frame * receiver :=
  let data := j_slab_idx j * kSlotBytes in
  if (j_hdr_len j <=? j_len j) && has_hook then
    let b1 := slab_ r (data + 1) in
    (Some (mkFrame (j_seq j) (rd_u32 (slab_ r) (data + 4)) (rd_u32 (slab_ r) (data + 8))
             (Z.land (Z.shiftr b1 7) 1) (Z.land b1 127) (data + j_hdr_len j)
             (j_len j - j_hdr_len j) (j_slab_idx j)), r)
  else (None, set_in_worker (j_slab_idx j) 0 r).

(** One round of [worker_loop] that finds a job. *)
Definition work_one (has_hook : bool) (r : receiver) : option (option Frame * receiver) :=
  match dequeue_job r with
  | None => None
  | Some (j, r) => Some (process_job has_hook j r)
  end.

Definition total_drops (r : receiver) : Z :=
  net_lost_packets_ r + slot_busy_drops_ r + queue_full_drops_ r.

(** ** Specification *)

(** The jobs between head and tail, oldest first. *)
Definition queue_len (r : receiver) : Z := (job_tail_ r - job_head_ r) mod kJobQueueSize.
Definition queue_list (r : receiver) : list Job :=
  (λ k, job_queue_ r ((job_head_ r + k) mod kJobQueueSize)) <$> seqZ 0 (queue_len r).

Definition queue_ok (r : receiver) : Prop :=
  0 ≤ job_head_ r < kJobQueueSize ∧ 0 ≤ job_tail_ r < kJobQueueSize.

(** How many slots of the ring are filled. *)
Fixpoint nfilled (f : Z → Slot) (l : list Z) : Z :=
  match l with
  | [] => 0
  | i :: l => Z.b2z (filled (f i)) + nfilled f l
  end.

(** From [r] to [r'] the head moved [n] sequence numbers and the jobs [js] were
    queued: in sequence order, none twice, and every other number passed was
    counted as lost or as a full-queue drop. *)
Record advanced (n : Z) (js : list Job) (r r' : receiver) : Prop := {
  adv_nonneg : 0 ≤ n;
  adv_seq : next_seq_ r' = u16 (next_seq_ r + n);
  adv_jobs : queue_list r' = queue_list r ++ js;
  adv_order : (j_seq <$> js) `sublist_of` ((λ k, u16 (next_seq_ r + k)) <$> seqZ 0 n);
  adv_count : n = Z.of_nat (length js) + (net_lost_packets_ r' - net_lost_packets_ r)
                  + (queue_full_drops_ r' - queue_full_drops_ r);
  adv_fresh : Forall (λ j, in_worker (ring_ r (j_slab_idx j)) ≠ 1) js
}.

(** ** Queue lemmas *)
Lemma job_mask x : Z.land x (kJobQueueSize - 1) = x mod kJobQueueSize.
Proof. by apply (land_mask x 14). Qed.
Lemma ring_mask x : Z.land x (kRingSize - 1) = x mod kRingSize.
Proof. by apply (land_mask x 14). Qed.

Ltac q_lia := unfold kJobQueueSize, kRingSize in *; div_lia.

Lemma enqueue_list j r r' :
  queue_ok r → enqueue_job j r = Some r' →
  queue_ok r' ∧ queue_list r' = queue_list r ++ [j].
Proof.
  intros [Hh Ht]. unfold enqueue_job. rewrite job_mask.
  destruct (Z.eqb_spec ((job_tail_ r + 1) mod kJobQueueSize) (job_head_ r)); [done|].
  intros [= <-]. unfold queue_ok, queue_list, queue_len. simpl. split; [q_lia|].
  replace (((job_tail_ r + 1) mod kJobQueueSize - job_head_ r) mod kJobQueueSize)
    with ((job_tail_ r - job_head_ r) mod kJobQueueSize + 1) by q_lia.
  rewrite seqZ_app, fmap_app by q_lia. f_equal.
  - apply list_fmap_ext. intros i x Hx. apply lookup_seqZ in Hx as [-> Hi].
    rewrite fn_lookup_insert_ne; [done|]. q_lia.
  - simpl. f_equal. replace ((_ + _) mod kJobQueueSize) with (job_tail_ r) by q_lia.
    by rewrite fn_lookup_insert.
Qed.

Lemma dequeue_list j r r' :
  queue_ok r → dequeue_job r = Some (j, r') →
  queue_ok r' ∧ queue_list r = j :: queue_list r'.
Proof.
  intros [Hh Ht]. unfold dequeue_job. rewrite job_mask.
  destruct (Z.eqb_spec (job_head_ r) (job_tail_ r)); [done|].
  intros [= <- <-]. unfold queue_ok, queue_list, queue_len. simpl. split; [q_lia|].
  rewrite seqZ_cons by q_lia. cbn [fmap list_fmap]. f_equal; [f_equal; q_lia|].
  replace (Z.pred ((job_tail_ r - job_head_ r) mod kJobQueueSize))
    with ((job_tail_ r - (job_head_ r + 1) mod kJobQueueSize) mod kJobQueueSize) by q_lia.
  rewrite <- (fmap_add_seqZ 1 0), <- list_fmap_compose. apply list_fmap_ext. intros i x _. simpl.
  f_equal. q_lia.
Qed.

Lemma dequeue_None r : queue_ok r → dequeue_job r = None ↔ queue_list r = [].
Proof.
  intros [Hh Ht]. unfold dequeue_job, queue_list, queue_len.
  destruct (Z.eqb_spec (job_head_ r) (job_tail_ r)) as [E|E].
  - rewrite E, Z.sub_diag. done.
  - rewrite seqZ_cons by q_lia. done.
Qed.

Lemma enqueue_None j r :
  queue_ok r → enqueue_job j r = None ↔ Z.of_nat (length (queue_list r)) = kJobQueueSize - 1.
Proof.
  intros [Hh Ht]. unfold enqueue_job, queue_list, queue_len. rewrite job_mask, length_fmap, length_seqZ.
  destruct (Z.eqb_spec ((job_tail_ r + 1) mod kJobQueueSize) (job_head_ r)) as [E|E].
  - split; [|done]. intros _. q_lia.
  - split; [done|]. q_lia.
Qed.

(** ** Counting filled slots *)
Lemma nfilled_insert_notin f i s l : i ∉ l → nfilled (<[i := s]> f) l = nfilled f l.
Proof.
  induction l as [|k l IH]; intros Hi; simpl; [done|]. apply not_elem_of_cons in Hi as [Hk Hi].
  rewrite fn_lookup_insert_ne by done. by rewrite IH.
Qed.

Lemma nfilled_insert f i s l :
  NoDup l → i ∈ l →
  nfilled (<[i := s]> f) l = nfilled f l - Z.b2z (filled (f i)) + Z.b2z (filled s).
Proof.
  induction 1 as [|k l Hk Hl IH]; intros Hi; [by apply elem_of_nil in Hi|]. simpl.
  apply elem_of_cons in Hi as [->|Hi].
  - rewrite fn_lookup_insert, nfilled_insert_notin by done. lia.
  - rewrite fn_lookup_insert_ne, IH by (done || intros ->; done). lia.
Qed.

Lemma nfilled_insert_same f i s l :
  filled s = filled (f i) → nfilled (<[i := s]> f) l = nfilled f l.
Proof.
  intros Hs. induction l as [|k l IH]; simpl; [done|]. rewrite IH. f_equal.
  destruct (decide (i = k)) as [->|]; [by rewrite fn_lookup_insert, Hs|].
  by rewrite fn_lookup_insert_ne.
Qed.

Lemma nfilled_ext f g l : (∀ i, filled (f i) = filled (g i)) → nfilled f l = nfilled g l.
Proof. intros H. induction l as [|i l IH]; simpl; [done|]. by rewrite H, IH. Qed.

Lemma nfilled_nonneg f l : 0 ≤ nfilled f l.
Proof. induction l as [|i l IH]; simpl; [done|]. destruct (filled _); simpl; lia. Qed.

Lemma nfilled_pos f i l : i ∈ l → filled (f i) = true → 0 < nfilled f l.
Proof.
  intros Hi Hf. induction l as [|a l IH]; simpl; [by apply elem_of_nil in Hi|].
  pose proof (nfilled_nonneg f l). apply elem_of_cons in Hi as [->|Hi].
  - rewrite Hf. simpl. lia.
  - specialize (IH Hi). destruct (filled (f a)); simpl; lia.
Qed.
Arguments nfilled : simpl never.

(** ** One dispatch *)

(** What [dispatch_head] does to the state: the slot is emptied, and its bytes
    either belong to the worker ([w = 1], one more job) or were dropped. *)
Record dispatched (i : Z) (w : Z) (js : list Job) (r r' : receiver) : Prop := {
  d_ring : ∀ k, ring_ r' k = if decide (k = i)
    then mkSlot false (s_seq (ring_ r i)) (s_hdr_len (ring_ r i)) 0 w else ring_ r k;
  d_slab : slab_ r' = slab_ r;
  d_started : started_ r' = started_ r;
  d_next : next_seq_ r' = next_seq_ r;
  d_pending : pending_ r' = pending_ r - 1;
  d_lost : net_lost_packets_ r' = net_lost_packets_ r;
  d_busy : slot_busy_drops_ r' = slot_busy_drops_ r;
  d_jitter : jitter_depth_ r' = jitter_depth_ r;
  d_queue : queue_ok r';
  d_jobs : queue_list r' = queue_list r ++ js;
  d_which :
    (w = 1 ∧ js = [mkJob i (s_len (ring_ r i)) (s_seq (ring_ r i)) (s_hdr_len (ring_ r i))]
     ∧ queue_full_drops_ r' = queue_full_drops_ r)
    ∨ (w = 0 ∧ js = [] ∧ queue_full_drops_ r' = queue_full_drops_ r + 1)
}.

Lemma dispatch_head_spec i r :
  queue_ok r → ∃ w js, dispatched i w js r (dispatch_head i r).
Proof.
  intros Hq. unfold dispatch_head, dispatch. cbn zeta.
  set (j := mkJob _ _ _ _). set (r1 := set_in_worker i 1 r).
  assert (∀ k, ring_ (empty_slot i r1) k = if decide (k = i)
    then mkSlot false (s_seq (ring_ r i)) (s_hdr_len (ring_ r i)) 0 1 else ring_ r k) as Hring1.
  { intros k. simpl. destruct (decide (k = i)) as [->|Hne];
      [by rewrite !fn_lookup_insert|by rewrite !fn_lookup_insert_ne]. }
  destruct (enqueue_job j r1) as [r2|] eqn:He.
  - exists 1, [j]. destruct (enqueue_list j r1 r2 Hq He) as [Q1 Q2].
    unfold enqueue_job in He. case_match; [done|]. injection He as <-.
    split; try done; [by left].
  - exists 0, []. split; try done.
    + intros k. simpl. destruct (decide (k = i)) as [->|Hne];
        [by rewrite !fn_lookup_insert|by rewrite !fn_lookup_insert_ne].
    + by rewrite app_nil_r.
    + by right.
Qed.

(** States that keep the worker's slots: their flags and bytes. *)
Record keeps_worker (r r' : receiver) : Prop := {
  kw_flag : ∀ i, in_worker (ring_ r i) = 1 → in_worker (ring_ r' i) = 1;
  kw_bytes : ∀ i o, in_worker (ring_ r i) = 1 → 0 ≤ o < kSlotBytes →
    slab_ r' (i * kSlotBytes + o) = slab_ r (i * kSlotBytes + o)
}.

Lemma keeps_worker_refl r : keeps_worker r r.
Proof. by split. Qed.
Lemma keeps_worker_trans a b c : keeps_worker a b → keeps_worker b c → keeps_worker a c.
Proof.
  intros [F1 B1] [F2 B2]. split; [by eauto|]. intros i o Hi Ho.
  rewrite B2 by eauto. by apply B1.
Qed.
#[export] Hint Resolve keeps_worker_refl keeps_worker_trans : rtp.

Lemma advanced_refl r : 0 ≤ next_seq_ r < 65536 → advanced 0 [] r r.
Proof.
  intros. split; [lia| |by rewrite app_nil_r|done|simpl; lia|done]. rewrite u16_small; lia.
Qed.

Lemma u16_add_l x k : u16 (u16 x + k) = u16 (x + k).
Proof. wrap_lia. Qed.

Lemma advanced_trans n1 n2 js1 js2 r1 r2 r3 :
  keeps_worker r1 r2 →
  advanced n1 js1 r1 r2 → advanced n2 js2 r2 r3 → advanced (n1 + n2) (js1 ++ js2) r1 r3.
Proof.
  intros Hk [P1 S1 J1 O1 C1 F1] [P2 S2 J2 O2 C2 F2]. split; [lia| | | |rewrite length_app; lia|].
  - rewrite S2, S1, u16_add_l. f_equal. lia.
  - by rewrite J2, J1, app_assoc.
  - rewrite seqZ_app, !fmap_app by done. apply sublist_app; [done|].
    etrans; [exact O2|]. rewrite S1.
    replace (0 + n1) with (n1 + 0) by lia.
    rewrite <- (fmap_add_seqZ n1 0), <- list_fmap_compose. 
    apply eq_subrelation; [apply _|]. apply list_fmap_ext. intros i x _. simpl. rewrite u16_add_l. f_equal. lia.
  - apply Forall_app; split; [done|]. eapply Forall_impl; [exact F2|]. intros j Hj Hw.
    by apply Hj, (kw_flag _ _ Hk).
Qed.

Lemma head_index_mod r : head_index r = next_seq_ r mod kRingSize.
Proof. apply ring_mask. Qed.

(** ** The receiver's invariant *)
Section Invariant.

(** [Stored i seq hdr len]: what is known of the bytes stored in slot [i] for the
    packet [seq] (instantiated below with "they are a received datagram"). *)
Context (Stored : Z → Z → Z → Z → Prop).

(** A filled slot holds a sequence number of the jitter window, at its own
    index, owned by the receive thread, with a header inside its bytes. *)
Definition slot_ok (next jitter i : Z) (s : Slot) : Prop :=
  ∃ d, 0 ≤ d < jitter ∧ s_seq s = u16 (next + d) ∧ i = s_seq s mod kRingSize
    ∧ in_worker s = 0 ∧ (12 ≤ s_hdr_len s ≤ s_len s ∧ s_len s ≤ kSlotBytes)
    ∧ Stored i (s_seq s) (s_hdr_len s) (s_len s).

Definition job_ok (ring : Z → Slot) (j : Job) : Prop :=
  0 ≤ j_slab_idx j < kRingSize ∧ in_worker (ring (j_slab_idx j)) = 1
  ∧ (12 ≤ j_hdr_len j ≤ j_len j ∧ j_len j ≤ kSlotBytes)
  ∧ Stored (j_slab_idx j) (j_seq j) (j_hdr_len j) (j_len j).

Record recv_inv (r : receiver) : Prop := {
  ri_seq : 0 ≤ next_seq_ r < 65536;
  ri_jitter : 0 < jitter_depth_ r ≤ kRingSize;
  ri_window : ∀ i, filled (ring_ r i) = true →
    slot_ok (next_seq_ r) (jitter_depth_ r) i (ring_ r i);
  ri_pending : pending_ r = nfilled (ring_ r) (seqZ 0 kRingSize);
  ri_start : started_ r = false → ∀ i, filled (ring_ r i) = false;
  ri_queue : queue_ok r;
  ri_jobs : Forall (job_ok (ring_ r)) (queue_list r);
  ri_distinct : NoDup (j_slab_idx <$> queue_list r)
}.

(** Moving the window past its first number keeps the other slots in it. *)
Lemma slot_ok_bump next jitter i s :
  0 ≤ next < 65536 → jitter ≤ kRingSize → i ≠ next mod kRingSize →
  slot_ok next jitter i s → slot_ok (u16 (next + 1)) jitter i s.
Proof.
  intros Hn Hj Hi (d & Hd & Hs & Hidx & Hrest). exists (d - 1).
  refine (conj _ (conj _ (conj Hidx Hrest))).
  - destruct (decide (d = 0)) as [->|]; [|lia]. exfalso. apply Hi. rewrite Hidx, Hs.
    rewrite u16_small; [f_equal; lia|lia].
  - rewrite Hs, u16_add_l. f_equal. lia.
Qed.

Lemma filled_head_ready r :
  recv_inv r → filled (ring_ r (head_index r)) = true → head_ready r = true.
Proof.
  intros Hr Hf. unfold head_ready. rewrite Hf. simpl. apply Z.eqb_eq.
  destruct (ri_window _ Hr _ Hf) as (d & Hd & Hs & Hidx & _). rewrite Hs, head_index_mod in Hidx.
  pose proof (ri_seq _ Hr). pose proof (ri_jitter _ Hr). rewrite Hs.
  enough (d = 0) as -> by (rewrite u16_small; lia). unfold u16, kRingSize in *. div_lia.
Qed.

Lemma head_ready_true r :
  head_ready r = true → filled (ring_ r (head_index r)) = true
  ∧ s_seq (ring_ r (head_index r)) = next_seq_ r.
Proof. unfold head_ready. intros [? ?%Z.eqb_eq]%andb_true_iff. done. Qed.

Lemma bump_window r next' (f : Z → Slot) :
  recv_inv r → next' = u16 (next_seq_ r + 1) →
  (∀ k, k ≠ head_index r → f k = ring_ r k) → filled (f (head_index r)) = false →
  ∀ k, filled (f k) = true → slot_ok next' (jitter_depth_ r) k (f k).
Proof.
  intros Hr -> Hf Hh k Hk. destruct (decide (k = head_index r)) as [->|Hne]; [congruence|].
  rewrite Hf in Hk |- * by done. rewrite head_index_mod in Hne.
  apply slot_ok_bump; [apply Hr|apply Hr|done|]. by apply (ri_window _ Hr).
Qed.

Lemma head_index_range r : 0 ≤ head_index r < kRingSize.
Proof. rewrite head_index_mod. by apply Z.mod_pos_bound. Qed.

Section DispatchReady.
Context (r r' : receiver) (w : Z) (js : list Job).
Context (Hr : recv_inv r) (Hh : head_ready r = true).
Context (D : dispatched (head_index r) w js r r').

Lemma ready_slot :
  filled (ring_ r (head_index r)) = true ∧ s_seq (ring_ r (head_index r)) = next_seq_ r
  ∧ in_worker (ring_ r (head_index r)) = 0
  ∧ (12 ≤ s_hdr_len (ring_ r (head_index r)) ≤ s_len (ring_ r (head_index r))
     ∧ s_len (ring_ r (head_index r)) ≤ kSlotBytes)
  ∧ Stored (head_index r) (s_seq (ring_ r (head_index r))) (s_hdr_len (ring_ r (head_index r)))
      (s_len (ring_ r (head_index r))).
Proof.
  destruct (head_ready_true _ Hh) as [Hf Hs]. split; [done|]. split; [done|].
  destruct (ri_window _ Hr _ Hf) as (d & _ & _ & _ & Hrest). exact Hrest.
Qed.

Lemma ready_fresh : Forall (λ j, j_slab_idx j ≠ head_index r) (queue_list r).
Proof.
  destruct ready_slot as (_ & _ & Hw & _).
  eapply Forall_impl; [apply (ri_jobs _ Hr)|]. intros j (_ & H1 & _) E. rewrite E in H1. congruence.
Qed.

Lemma dispatched_pending : pending_ r' = nfilled (ring_ r') (seqZ 0 kRingSize).
Proof.
  destruct ready_slot as (Hf & _). rewrite (d_pending _ _ _ _ _ D), (ri_pending _ Hr).
  rewrite (nfilled_ext (ring_ r') (<[head_index r := mkSlot false 0 0 0 0]> (ring_ r))).
  - rewrite nfilled_insert, Hf; [cbn [filled Z.b2z]; lia|apply NoDup_seqZ|].
    apply elem_of_seqZ. pose proof (head_index_range r). lia.
  - intros k. rewrite (d_ring _ _ _ _ _ D). destruct (decide (k = head_index r)) as [->|];
      [by rewrite fn_lookup_insert|by rewrite fn_lookup_insert_ne].
Qed.

Lemma dispatched_jobs :
  Forall (job_ok (ring_ r')) (queue_list r')
  ∧ NoDup (j_slab_idx <$> queue_list r').
Proof.
  pose proof ready_fresh as Hfresh. destruct ready_slot as (_ & _ & _ & Hlen & HP).
  rewrite (d_jobs _ _ _ _ _ D), fmap_app. split.
  - apply Forall_app; split.
    + eapply Forall_impl; [apply Forall_and; split; [apply (ri_jobs _ Hr)|exact Hfresh]|].
      intros j [Hj Hne]. unfold job_ok. rewrite (d_ring _ _ _ _ _ D). by rewrite decide_False.
    + destruct (d_which _ _ _ _ _ D) as [(-> & -> & _)|(_ & -> & _)]; [|done].
      constructor; [|done]. unfold job_ok. simpl. rewrite (d_ring _ _ _ _ _ D), decide_True by done.
      exact (conj (head_index_range r) (conj eq_refl (conj Hlen HP))).
  - apply NoDup_app. split_and!; [apply Hr| |].
    + intros x (j & -> & Hj)%list_elem_of_fmap. rewrite Forall_forall in Hfresh.
      specialize (Hfresh _ Hj). destruct (d_which _ _ _ _ _ D) as [(_ & -> & _)|(_ & -> & _)];
        [|by intros ?%elem_of_nil]. simpl. by intros ?%list_elem_of_singleton.
    + destruct (d_which _ _ _ _ _ D) as [(_ & -> & _)|(_ & -> & _)]; [apply NoDup_singleton|constructor].
Qed.

Lemma dispatched_inv : recv_inv (bump_seq r').
Proof.
  destruct ready_slot as (Hf & _). destruct dispatched_jobs as [Hj Hd].
  split; simpl; try done.
  - apply u16_range.
  - rewrite (d_jitter _ _ _ _ _ D). apply Hr.
  - rewrite (d_jitter _ _ _ _ _ D). apply (bump_window r); [done| | |].
    + by rewrite (d_next _ _ _ _ _ D).
    + intros k Hk. rewrite (d_ring _ _ _ _ _ D). by case_decide.
    + rewrite (d_ring _ _ _ _ _ D). by rewrite decide_True.
  - apply dispatched_pending.
  - rewrite (d_started _ _ _ _ _ D). intros Hst. by rewrite (ri_start _ Hr Hst) in Hf.
  - apply D.
Qed.

Lemma dispatched_keeps : keeps_worker r (bump_seq r').
Proof.
  destruct ready_slot as (_ & _ & Hw & _).
  split; simpl; [|by rewrite (d_slab _ _ _ _ _ D)].
  intros k Hk. rewrite (d_ring _ _ _ _ _ D). case_decide; [subst; congruence|done].
Qed.

Lemma dispatched_advanced : advanced 1 js r (bump_seq r').
Proof.
  destruct ready_slot as (_ & Hs & Hw & _).
  split; simpl; [lia|by rewrite (d_next _ _ _ _ _ D)|apply D| | |].
  - destruct (d_which _ _ _ _ _ D) as [(_ & -> & _)|(_ & -> & _)]; [|apply sublist_nil_l].
    simpl. rewrite Hs, Z.add_0_r, u16_small by apply Hr. done.
  - rewrite (d_lost _ _ _ _ _ D).
    destruct (d_which _ _ _ _ _ D) as [(_ & -> & ->)|(_ & -> & ->)]; simpl; lia.
  - destruct (d_which _ _ _ _ _ D) as [(_ & -> & _)|(_ & -> & _)]; [|done].
    constructor; [|done]. simpl. lia.
Qed.

End DispatchReady.

(** What one or more rounds of the two loops do. *)
Record progressed (r r' : receiver) : Prop := {
  pg_inv : recv_inv r';
  pg_keeps : keeps_worker r r';
  pg_adv : ∃ n js, advanced n js r r';
  pg_jitter : jitter_depth_ r' = jitter_depth_ r;
  pg_started : started_ r' = started_ r;
  pg_slab : slab_ r' = slab_ r;
  pg_busy : slot_busy_drops_ r' = slot_busy_drops_ r
}.

Lemma progressed_refl r : recv_inv r → progressed r r.
Proof.
  intros Hr. split; eauto with rtp. exists 0, []. apply advanced_refl, Hr.
Qed.

Lemma progressed_trans a b c : progressed a b → progressed b c → progressed a c.
Proof.
  intros [_ K1 (n1 & j1 & A1) J1 S1 M1 B1] [I2 K2 (n2 & j2 & A2) J2 S2 M2 B2].
  split; eauto with rtp; try congruence. eexists _, _. by eapply advanced_trans.
Qed.

(** Dispatching a ready head is one step of the window. *)
Lemma dispatch_step r :
  recv_inv r → head_ready r = true →
  progressed r (bump_seq (dispatch_head (head_index r) r))
  ∧ pending_ (bump_seq (dispatch_head (head_index r) r)) = pending_ r - 1.
Proof.
  intros Hr Hh. destruct (dispatch_head_spec (head_index r) r (ri_queue _ Hr)) as (w & js & D).
  split; [split|]; simpl; try apply D.
  - by eapply dispatched_inv.
  - by eapply dispatched_keeps.
  - exists 1, js. by eapply dispatched_advanced.
Qed.

Lemma advance_head_step r : recv_inv r → progressed r (advance_head r).
Proof.
  intros Hr. unfold advance_head. destruct (head_ready r) eqn:Hh; [by apply dispatch_step|].
  split; [| |exists 1, []|done..]; [|by split|].
  - split; [apply u16_range|apply Hr| |apply Hr..].
    eapply (bump_window r); try done. destruct (filled _) eqn:Hf; [|done].
    pose proof (filled_head_ready _ Hr Hf). congruence.
  - split; simpl; try done; try lia; [by rewrite app_nil_r|apply sublist_nil_l].
Qed.

Lemma advance_fuel_pos : (0 < advance_fuel)%nat.
Proof. unfold advance_fuel. generalize 65537 as n, (eq_refl : (0 <? 65537) = true). lia. Qed.

Lemma force_advance_spec fuel seq r :
  recv_inv r → 0 ≤ seq < 65536 → 0 ≤ i16 (seq - next_seq_ r) < Z.of_nat fuel →
  ∃ r', force_advance fuel seq r = Ret r' ∧ progressed r r'
    ∧ 0 ≤ i16 (seq - next_seq_ r') < jitter_depth_ r'.
Proof.
  intros Hr Hs. revert r Hr. induction fuel as [|fuel IH]; intros r Hr Hd; [lia|].
  cbn [force_advance]. pose proof (ri_jitter _ Hr) as Hj.
  assert (i16 (jitter_depth_ r) = jitter_depth_ r) as -> by (unfold kRingSize in *; wrap_lia).
  destruct (Z.leb_spec (jitter_depth_ r) (i16 (seq - next_seq_ r))).
  - pose proof (advance_head_step _ Hr) as P. pose proof (pg_inv _ _ P) as Hr'.
    assert (next_seq_ (advance_head r) = u16 (next_seq_ r + 1)) as Hn.
    { unfold advance_head. destruct (head_ready r); [|done].
      change (next_seq_ (bump_seq ?x)) with (u16 (next_seq_ x + 1)).
      destruct (dispatch_head_spec (head_index r) r (ri_queue _ Hr)) as (w & js & D).
      by rewrite (d_next _ _ _ _ _ D). }
    destruct (IH (advance_head r) Hr') as (r' & E & P' & Hd').
    + rewrite Hn. unfold kRingSize in *. wrap_lia.
    + exists r'. split_and!; [done|by eapply progressed_trans|lia..].
  - exists r. split_and!; [done|by apply progressed_refl|lia..].
Qed.

Lemma release_loop_spec fuel r :
  recv_inv r → progressed r (release_loop fuel r)
  ∧ (pending_ r ≤ Z.of_nat fuel → head_ready (release_loop fuel r) = false).
Proof.
  revert r. induction fuel as [|fuel IH]; intros r Hr; cbn [release_loop].
  - split; [by apply progressed_refl|]. intros Hp. destruct (head_ready r) eqn:Hh; [|done].
    destruct (head_ready_true _ Hh) as [Hf _]. rewrite (ri_pending _ Hr) in Hp.
    pose proof (nfilled_pos (ring_ r) (head_index r) (seqZ 0 kRingSize)) as Hn.
    pose proof (head_index_range r). rewrite elem_of_seqZ in Hn. specialize (Hn ltac:(lia) Hf). lia.
  - destruct (head_ready r) eqn:Hh; [|by split; [apply progressed_refl|]].
    destruct (dispatch_step r Hr Hh) as [P Hp]. destruct (IH _ (pg_inv _ _ P)) as [P' Hd].
    split; [by eapply progressed_trans|]. intros. apply Hd. lia.
Qed.

(** ** Datagram validation *)
Lemma rd_u16_range p i : 0 ≤ rd_u16 p i < 65536.
Proof. apply u16_range. Qed.

Lemma parse_rtp_ok data hdr eff seq :
  Forall is_byte data → parse_rtp data = Some (hdr, eff, seq) →
  12 ≤ hdr ≤ eff ∧ eff ≤ kSlotBytes ∧ eff ≤ Z.of_nat (length data) ∧ 0 ≤ seq < 65536
  ∧ seq = rd_u16 data 2.
Proof.
  intros Hb. unfold parse_rtp. cbn zeta. set (b0 := data !!! 0%nat). set (l := Z.of_nat (length data)).
  destruct (negb _); [done|].
  assert (0 ≤ Z.land b0 15) as Hcc by (apply Z.land_nonneg; lia).
  destruct (Z.ltb_spec l (12 + 4 * Z.land b0 15)) as [|Hl]; [done|].
  set (oh := if _ =? 0 then _ else _). destruct oh as [h|] eqn:Hoh; [|done].
  assert (12 ≤ h ≤ l) as Hh.
  { unfold oh in Hoh. destruct (_ =? 0); [injection Hoh as <-; lia|].
    destruct (Z.ltb_spec l (12 + 4 * Z.land b0 15 + 4)); [done|].
    case_match; [done|]. injection Hoh as <-. rewrite Z.ltb_ge in *.
    pose proof (rd_u16_range data (12 + 4 * Z.land b0 15 + 2)). lia. }
  set (pad := Z.land _ 1). set (pl := if pad =? 0 then 0 else _).
  assert (0 ≤ pl) as Hpl.
  { unfold pl. destruct (pad =? 0); [lia|].
    destruct (lookup_lt_is_Some_2 data (Z.to_nat (l - 1))) as [b Hlk]; [lia|].
    rewrite (list_lookup_total_correct _ _ _ Hlk).
    pose proof (Forall_lookup_1 _ _ _ _ Hb Hlk) as Hbb. unfold is_byte in Hbb. lia. }
  destruct (Z.eqb_spec pad 0) as [Hp0|Hp0]; cbn [negb andb].
  - unfold pl in *. destruct (Z.ltb_spec kSlotBytes (l - 0)); [done|]. intros [= <- <- <-].
    split_and!; try lia; try done; apply rd_u16_range.
  - destruct (Z.ltb_spec (l - h) pl); [done|]. destruct (Z.ltb_spec kSlotBytes (l - pl)); [done|].
    intros [= <- <- <-]. split_and!; try lia; try done; apply rd_u16_range.
Qed.

(** ** Storing a packet *)
Definition store (idx seq hdr eff : Z) (data : list Z) (r : receiver) : receiver :=
  set_head (started_ r) (next_seq_ r) (pending_ r + 1)
    (set_ring (<[idx := mkSlot true seq (u16 hdr) eff (in_worker (ring_ r idx))]> (ring_ r))
       (set_slab (slab_write idx data eff (slab_ r)) r)).

Lemma store_spec idx seq hdr eff data r :
  recv_inv r → started_ r = true → 0 ≤ seq < 65536 → idx = seq mod kRingSize →
  0 ≤ i16 (seq - next_seq_ r) < jitter_depth_ r →
  filled (ring_ r idx) = false → in_worker (ring_ r idx) = 0 →
  12 ≤ hdr ≤ eff → eff ≤ kSlotBytes → Stored idx seq hdr eff →
  recv_inv (store idx seq hdr eff data r) ∧ keeps_worker r (store idx seq hdr eff data r).
Proof.
  intros Hr Hst Hs Hidx Hd Hf Hw Hlen Heff HP. pose proof (ri_seq _ Hr) as Hn.
  assert (0 ≤ idx < kRingSize) as Hi by (subst; by apply Z.mod_pos_bound).
  assert (u16 hdr = hdr) as Hh by (apply u16_small; unfold kSlotBytes in *; lia).
  split; [split; try apply Hr|split]; cbn [store set_head set_ring set_slab ring_ slab_ next_seq_
    jitter_depth_ pending_ started_].
  - intros i. destruct (decide (i = idx)) as [->|Hne].
    + rewrite fn_lookup_insert. intros _. exists (i16 (seq - next_seq_ r)). simpl.
      rewrite Hh. split_and!; try done; try lia. wrap_lia.
    + rewrite fn_lookup_insert_ne by done. by apply Hr.
  - rewrite (ri_pending _ Hr), nfilled_insert, Hf;
      [cbn [filled Z.b2z]; lia|apply NoDup_seqZ|apply elem_of_seqZ; lia].
  - congruence.
  - change (queue_list _) with (queue_list r). eapply Forall_impl; [apply (ri_jobs _ Hr)|].
    intros j (H1 & H2 & H3). split; [done|]. split; [|done].
    cbn [ring_]. rewrite fn_lookup_insert_ne; [done|]. intros E. rewrite <- E in H2. congruence.
  - intros i Hi1. rewrite fn_lookup_insert_ne; [done|]. intros ->. congruence.
  - intros i o Hi1 Ho. unfold slab_write.
    assert (i ≠ idx) as Hne by (intros ->; congruence).
    destruct (Z.leb_spec 0 (i * kSlotBytes + o - idx * kSlotBytes)); [|done].
    destruct (Z.ltb_spec (i * kSlotBytes + o - idx * kSlotBytes) eff); [|done].
    exfalso. unfold kSlotBytes in *. lia.
Qed.

End Invariant.

(** ** Whole datagrams *)

(** Slot [i] holds the first [len] bytes of one of the datagrams [rx], whose RTP
    header is [hdr] bytes long and carries [seq]. *)
Definition content (rx : list (list Z)) (m : memory) (i seq hdr len : Z) : Prop :=
  len ≤ kSlotBytes ∧
  ∃ data, data ∈ rx ∧ parse_rtp data = Some (hdr, len, seq)
    ∧ ∀ o, 0 ≤ o < len → m (i * kSlotBytes + o) = data !!! Z.to_nat o.

(** The first accepted datagram sets the head. *)
Definition first_seq (data : list Z) (r : receiver) : receiver :=
  match parse_rtp data with
  | Some (_, _, seq) => if started_ r then r else set_head true seq (pending_ r) r
  | None => r
  end.

Lemma recv_inv_mono P Q r :
  recv_inv P r →
  (∀ i seq hdr len, filled (ring_ r i) = true ∨ in_worker (ring_ r i) = 1 →
     P i seq hdr len → Q i seq hdr len) →
  recv_inv Q r.
Proof.
  intros [H1 H2 H3 H4 H5 H6 H7 H8] HPQ. split; try done.
  - intros i Hi. destruct (H3 i Hi) as (d & ? & ? & ? & ? & ? & ?). exists d. eauto 10.
  - eapply Forall_impl; [exact H7|]. intros j (? & ? & ? & ?). unfold job_ok. eauto 10.
Qed.

Lemma content_mono rx data m m' i seq hdr len :
  (∀ o, 0 ≤ o < kSlotBytes → m' (i * kSlotBytes + o) = m (i * kSlotBytes + o)) →
  content rx m i seq hdr len → content (data :: rx) m' i seq hdr len.
Proof.
  intros Hm (Hl & d & Hd & Hp & Hb). split; [done|]. exists d.
  split; [by apply elem_of_cons; right|]. split; [done|]. intros o Ho. rewrite Hm by lia. by apply Hb.
Qed.

Lemma slab_write_other idx data n m i o :
  i ≠ idx → 0 ≤ n ≤ kSlotBytes → 0 ≤ o < kSlotBytes →
  slab_write idx data n m (i * kSlotBytes + o) = m (i * kSlotBytes + o).
Proof.
  intros Hne Hn Ho. unfold slab_write.
  destruct (Z.leb_spec 0 (i * kSlotBytes + o - idx * kSlotBytes)); [|done].
  destruct (Z.ltb_spec (i * kSlotBytes + o - idx * kSlotBytes) n); [|done].
  exfalso. unfold kSlotBytes in *. lia.
Qed.

Lemma slab_write_same idx data n m o :
  0 ≤ o < n → slab_write idx data n m (idx * kSlotBytes + o) = data !!! Z.to_nat o.
Proof.
  intros Ho. unfold slab_write. replace (idx * kSlotBytes + o - idx * kSlotBytes) with o by lia.
  rewrite (proj2 (Z.leb_le _ _)), (proj2 (Z.ltb_lt _ _)) by lia. done.
Qed.

Lemma first_seq_inv P data r hdr eff seq :
  recv_inv P r → Forall is_byte data → parse_rtp data = Some (hdr, eff, seq) →
  recv_inv P (first_seq data r) ∧ keeps_worker r (first_seq data r)
  ∧ started_ (first_seq data r) = true ∧ slab_ (first_seq data r) = slab_ r.
Proof.
  intros Hr Hb Hp. unfold first_seq. rewrite Hp. destruct (started_ r) eqn:Hs; [by eauto with rtp|].
  split_and!; try done. destruct (parse_rtp_ok _ _ _ _ Hb Hp) as (_ & _ & _ & Hseq & _).
  pose proof (ri_start _ _ Hr Hs) as Hnf. split; simpl; try apply Hr; try done.
  intros i Hi. congruence.
Qed.

(** The tail of [handle_dgram]: store the packet at its slot and release. *)
Lemma store_release rx data r hdr eff seq :
  recv_inv (content rx (slab_ r)) r → started_ r = true → Forall is_byte data →
  parse_rtp data = Some (hdr, eff, seq) → 0 ≤ i16 (seq - next_seq_ r) < jitter_depth_ r →
  let idx := seq mod kRingSize in
  filled (ring_ r idx) = false → in_worker (ring_ r idx) = 0 →
  let r' := release_in_order (store idx seq hdr eff data r) in
  recv_inv (content (data :: rx) (slab_ r')) r' ∧ keeps_worker r r'
  ∧ (∃ n js, advanced n js r r') ∧ head_ready r' = false ∧ started_ r' = true.
Proof.
  intros Hr Hst Hb Hp Hd idx Hf Hw. destruct (parse_rtp_ok _ _ _ _ Hb Hp) as (Hh & He & Hl & Hs & _).
  set (m' := slab_write idx data eff (slab_ r)).
  assert (recv_inv (content (data :: rx) m') r) as Hr'.
  { eapply recv_inv_mono; [exact Hr|]. intros i q h l Hi. apply content_mono. intros o Ho.
    apply slab_write_other; [|lia|done]. intros ->. destruct Hi; congruence. }
  destruct (store_spec _ idx seq hdr eff data r Hr' Hst Hs eq_refl Hd Hf Hw Hh He) as [S1 S2].
  { split; [done|]. exists data. split; [by apply elem_of_cons; left|]. split; [done|].
    intros o Ho. by apply slab_write_same. }
  destruct (release_loop_spec _ (Z.to_nat (pending_ (store idx seq hdr eff data r))) _ S1)
    as [P1 P2]. cbn zeta. fold (release_in_order (store idx seq hdr eff data r)) in *.
  split_and!; [rewrite (pg_slab _ _ _ P1); apply P1|eauto using pg_keeps with rtp| | |].
  - destruct (pg_adv _ _ _ P1) as (n & js & [A1 A2 A3 A4 A5 A6]). exists n, js. split; try done.
    eapply Forall_impl; [exact A6|]. intros j Hj. simpl in Hj.
    destruct (decide (j_slab_idx j = idx)) as [->|]; [by rewrite Hw|].
    by rewrite fn_lookup_insert_ne in Hj.
  - apply P2. rewrite Z2Nat.id; [done|]. rewrite (ri_pending _ _ S1). apply nfilled_nonneg.
  - by rewrite (pg_started _ _ _ P1).
Qed.

Lemma handle_dgram_spec rx data r :
  recv_inv (content rx (slab_ r)) r → Forall is_byte data →
  ∃ r', handle_dgram data r = Ret r'
    ∧ recv_inv (content (data :: rx) (slab_ r')) r' ∧ keeps_worker r r'
    ∧ (∃ n js, advanced n js (first_seq data r) r')
    ∧ (started_ r' = false → r' = r).
Proof.
  intros Hr Hb. unfold handle_dgram. destruct (parse_rtp data) as [[[hdr eff] seq]|] eqn:Hp.
  2:{ exists r. unfold first_seq. rewrite Hp. split_and!; eauto with rtp.
      - eapply recv_inv_mono; [done|]. intros. by eapply content_mono.
      - exists 0, []. apply advanced_refl, Hr. }
  destruct (first_seq_inv _ _ _ _ _ _ Hr Hb Hp) as (F1 & F2 & F3 & F4).
  destruct (parse_rtp_ok _ _ _ _ Hb Hp) as (Hh & He & Hl & Hs & _).
  set (r0 := first_seq data r) in *.
  replace (if started_ r then r else set_head true seq (pending_ r) r) with r0
    by (unfold r0, first_seq; by rewrite Hp). cbn zeta.
  assert (∀ rf, recv_inv (content rx (slab_ rf)) rf → recv_inv (content (data :: rx) (slab_ rf)) rf)
    as Hweak by (intros rf ?; eapply recv_inv_mono; [done|]; intros; by eapply content_mono).
  destruct (Z.ltb_spec (i16 (seq - next_seq_ r0)) 0) as [Hneg|Hpos].
  { exists r0. split_and!; [done|apply Hweak; by rewrite F4|done| |congruence].
    exists 0, []. apply advanced_refl, F1. }
  destruct (force_advance_spec _ advance_fuel seq r0 F1 Hs) as (r1 & -> & P & Hd).
  { pose proof (i16_range (seq - next_seq_ r0)). unfold advance_fuel. rewrite Z2Nat.id; lia. }
  pose proof (pg_inv _ _ _ P) as I1. rewrite <- F4, <- (pg_slab _ _ _ P) in I1.
  pose proof (pg_keeps _ _ _ P) as K1. pose proof (pg_started _ _ _ P) as St. destruct (pg_adv _ _ _ P) as (n & js & A).
  rewrite ring_mask. destruct (filled (ring_ r1 (seq mod kRingSize))) eqn:Hf.
  { destruct (Z.eqb_spec (s_seq (ring_ r1 (seq mod kRingSize))) seq) as [Hq|[]].
    - exists r1. split_and!; [done|by apply Hweak|eauto with rtp|by exists n, js|congruence].
    - destruct (ri_window _ _ I1 _ Hf) as (d & Hd1 & Hd2 & Hd3 & _).
      pose proof (ri_jitter _ _ I1). pose proof (ri_seq _ _ I1). rewrite Hd2 in *.
      unfold kRingSize in *. wrap_lia. }
  destruct (Z.eqb_spec (in_worker (ring_ r1 (seq mod kRingSize))) 0) as [Hw|Hw]; cbn [negb].
  - destruct (store_release rx data r1 hdr eff seq I1) as (R1 & R2 & (n2 & js2 & R3) & _ & R4);
      try done; [congruence|].
    eexists. split_and!; [done|done|eauto with rtp| |intros Hc; by pose proof (eq_trans (eq_sym R4) Hc)].
    eexists _, _. by eapply advanced_trans.
  - eexists. split_and!; [done| |eapply keeps_worker_trans; [exact F2|]; by destruct K1| |simpl; congruence].
    + destruct (Hweak _ I1). by split.
    + exists n, js. by destruct A.
Qed.

(** ** The two threads as a transition system

    [rs_held]: frames the hook was called with whose slab is not yet released;
    [rs_out]: every frame delivered, in order; [rs_rx]: the datagrams received. *)
Record rstate := mkRs {
  rs_recv : receiver;
  rs_held : list Frame;
  rs_out : list Frame;
  rs_rx : list (list Z)
}.

Inductive rstep : rstate → rstate → Prop :=
  | step_recv dgram r r' held out rx :
      Forall is_byte dgram → recv_one dgram r = Ret r' →
      rstep (mkRs r held out rx)
            (mkRs r' held out (take (Z.to_nat kSlotBytes) dgram :: rx))
  | step_work f r r' held out rx :
      work_one true r = Some (Some f, r') →
      rstep (mkRs r held out rx) (mkRs r' (f :: held) (out ++ [f]) rx)
  | step_drop r r' held out rx :
      work_one true r = Some (None, r') →
      rstep (mkRs r held out rx) (mkRs r' held out rx)
  | step_release k f r held out rx :
      held !! k = Some f →
      rstep (mkRs r held out rx) (mkRs (release_slab (f_slab_idx f) r) (delete k held) out rx).

(** A held frame designates a received datagram, byte for byte. *)
Definition frame_ok (rx : list (list Z)) (r : receiver) (f : Frame) : Prop :=
  0 ≤ f_slab_idx f < kRingSize ∧ in_worker (ring_ r (f_slab_idx f)) = 1
  ∧ ∃ hdr len, 12 ≤ hdr ≤ len
    ∧ content rx (slab_ r) (f_slab_idx f) (f_seq f) hdr len
    ∧ f_payload f = f_slab_idx f * kSlotBytes + hdr ∧ f_payload_len f = len - hdr.

Record rs_inv (s : rstate) : Prop := {
  si_recv : recv_inv (content (rs_rx s) (slab_ (rs_recv s))) (rs_recv s);
  si_held : Forall (frame_ok (rs_rx s) (rs_recv s)) (rs_held s);
  si_distinct : NoDup ((f_slab_idx <$> rs_held s) ++ (j_slab_idx <$> queue_list (rs_recv s)));
  si_fresh : started_ (rs_recv s) = false →
    rs_out s = [] ∧ queue_list (rs_recv s) = []
    ∧ net_lost_packets_ (rs_recv s) = 0 ∧ queue_full_drops_ (rs_recv s) = 0;
  si_order : ∃ s0 n,
    ((f_seq <$> rs_out s) ++ (j_seq <$> queue_list (rs_recv s)))
      `sublist_of` ((λ k, u16 (s0 + k)) <$> seqZ 0 n)
    ∧ 0 ≤ n ∧ next_seq_ (rs_recv s) = u16 (s0 + n)
    ∧ n = Z.of_nat (length (rs_out s)) + Z.of_nat (length (queue_list (rs_recv s)))
          + net_lost_packets_ (rs_recv s) + queue_full_drops_ (rs_recv s)
}.

Lemma recv_one_spec rx dgram r :
  recv_inv (content rx (slab_ r)) r → Forall is_byte dgram →
  let data := take (Z.to_nat kSlotBytes) dgram in
  ∃ r', recv_one dgram r = Ret r' ∧ recv_inv (content (data :: rx) (slab_ r')) r'
    ∧ keeps_worker r r' ∧ (started_ r' = false → r' = r)
    ∧ ∃ n js r0, advanced n js r0 r' ∧ (r0 = r ∨ started_ r = false ∧ r0 = first_seq data r).
Proof.
  intros Hr Hb data. unfold recv_one. fold data. case_match.
  - exists r. split_and!; eauto with rtp.
    + eapply recv_inv_mono; [done|]. intros. by eapply content_mono.
    + exists 0, [], r. split; [apply advanced_refl, Hr|by left].
  - destruct (handle_dgram_spec rx data r Hr) as (r' & E & I & K & (n & js & A) & St);
      [by apply Forall_take|].
    exists r'. split_and!; [done..|]. exists n, js, (first_seq data r). split; [done|].
    destruct (started_ r) eqn:Hs; [left|by right]. unfold first_seq.
    destruct (parse_rtp data) as [[[]]|]; by rewrite ?Hs.
Qed.

Lemma frame_ok_keeps rx data r r' f :
  keeps_worker r r' → frame_ok rx r f → frame_ok (data :: rx) r' f.
Proof.
  intros K (H1 & H2 & hdr & len & H3 & H4 & H5). split; [done|].
  split; [by apply (kw_flag _ _ K)|]. exists hdr, len. split_and!; try done; try lia.
  eapply content_mono; [|done]. intros o Ho. by apply (kw_bytes _ _ K).
Qed.

Lemma advanced_distinct n js r0 r r' held :
  advanced n js r0 r' → queue_list r0 = queue_list r → ring_ r0 = ring_ r →
  Forall (λ f, in_worker (ring_ r (f_slab_idx f)) = 1) held →
  NoDup ((f_slab_idx <$> held) ++ (j_slab_idx <$> queue_list r)) →
  NoDup (j_slab_idx <$> queue_list r') →
  NoDup ((f_slab_idx <$> held) ++ (j_slab_idx <$> queue_list r')).
Proof.
  intros A Hq Hring Hh Hd Hd'. apply NoDup_app in Hd as (D1 & D2 & _).
  apply NoDup_app. split_and!; [done| |done].
  rewrite (adv_jobs _ _ _ _ A), Hq. intros x Hx. rewrite fmap_app, elem_of_app.
  intros [Hx2|(j & -> & Hj)%list_elem_of_fmap]; [by apply (D2 x)|].
  apply list_elem_of_fmap in Hx as (f & E & Hf).
  pose proof (adv_fresh _ _ _ _ A) as Hfr. rewrite Forall_forall in Hfr. specialize (Hfr _ Hj).
  rewrite Forall_forall in Hh. specialize (Hh _ Hf). rewrite Hring, E in Hfr. done.
Qed.

(** ** The invariant holds in every reachable state *)
Lemma first_seq_fields data r :
  queue_list (first_seq data r) = queue_list r ∧ ring_ (first_seq data r) = ring_ r
  ∧ net_lost_packets_ (first_seq data r) = net_lost_packets_ r
  ∧ queue_full_drops_ (first_seq data r) = queue_full_drops_ r.
Proof. unfold first_seq. destruct (parse_rtp data) as [[[]]|]; [destruct (started_ r)|]; done. Qed.

Lemma order_extend out q js s0 n m next :
  0 ≤ n → 0 ≤ m → next = u16 (s0 + n) →
  (out ++ q) `sublist_of` ((λ k, u16 (s0 + k)) <$> seqZ 0 n) →
  js `sublist_of` ((λ k, u16 (next + k)) <$> seqZ 0 m) →
  (out ++ (q ++ js)) `sublist_of` ((λ k, u16 (s0 + k)) <$> seqZ 0 (n + m)).
Proof.
  intros Hn Hm -> H1 H2. rewrite seqZ_app, fmap_app, app_assoc by done.
  apply sublist_app; [done|]. etrans; [exact H2|]. replace (0 + n) with (n + 0) by lia.
  rewrite <- (fmap_add_seqZ n 0), <- list_fmap_compose.
  apply eq_subrelation; [apply _|]. apply list_fmap_ext. intros i x _. simpl.
  rewrite u16_add_l. f_equal. lia.
Qed.

Lemma inv_step_recv dgram s r' :
  rs_inv s → Forall is_byte dgram → recv_one dgram (rs_recv s) = Ret r' →
  rs_inv (mkRs r' (rs_held s) (rs_out s) (take (Z.to_nat kSlotBytes) dgram :: rs_rx s)).
Proof.
  intros [I1 I2 I3 I4 (s0 & n & I5 & I6 & I7 & I8)] Hb E.
  destruct (recv_one_spec (rs_rx s) dgram _ I1 Hb) as (r1 & E1 & J & K & St & m & js & r0 & A & Hr0).
  rewrite E in E1. injection E1 as <-. set (data := take _ dgram) in *.
  destruct (first_seq_fields data (rs_recv s)) as (Q1 & Q2 & Q3 & Q4).
  assert (queue_list r0 = queue_list (rs_recv s) ∧ ring_ r0 = ring_ (rs_recv s)
    ∧ net_lost_packets_ r0 = net_lost_packets_ (rs_recv s)
    ∧ queue_full_drops_ r0 = queue_full_drops_ (rs_recv s)) as (R1 & R2 & R3 & R4)
    by (destruct Hr0 as [->|[_ ->]]; done).
  pose proof (adv_count _ _ _ _ A) as Hcnt. pose proof (adv_nonneg _ _ _ _ A) as Hm.
  split; simpl; [done| | | |].
  - eapply Forall_impl; [exact I2|]. intros f. by apply frame_ok_keeps.
  - eapply advanced_distinct; [done..| |done|apply J].
    eapply Forall_impl; [exact I2|]. intros f (_ & Hw & _). done.
  - intros Hst. rewrite (St Hst) in Hst |- *. by apply I4.
  - rewrite (adv_jobs _ _ _ _ A), R1, fmap_app, length_app.
    destruct Hr0 as [->|[Hst ->]].
    + exists s0, (n + m). split_and!; [|lia| |lia].
      * eapply order_extend; [done..|apply A].
      * rewrite (adv_seq _ _ _ _ A), I7, u16_add_l. f_equal. lia.
    + destruct (I4 Hst) as (-> & -> & Z1 & Z2). exists (next_seq_ (first_seq data (rs_recv s))), m.
      split_and!; [apply A|lia|apply A|simpl; lia].
Qed.

Lemma work_one_spec P r ofr r' :
  recv_inv P r → work_one true r = Some (ofr, r') →
  ∃ j, queue_list r = j :: queue_list r' ∧ job_ok P (ring_ r) j
    ∧ recv_inv P r' ∧ ring_ r' = ring_ r ∧ slab_ r' = slab_ r ∧ started_ r' = started_ r
    ∧ next_seq_ r' = next_seq_ r ∧ net_lost_packets_ r' = net_lost_packets_ r
    ∧ queue_full_drops_ r' = queue_full_drops_ r
    ∧ ofr = (process_job true j r).1 ∧ (j_hdr_len j ≤ j_len j).
Proof.
  intros Hr. unfold work_one. destruct (dequeue_job r) as [[j r1]|] eqn:Hd; [|done].
  destruct (dequeue_list j r r1 (ri_queue _ _ Hr) Hd) as [Q1 Q2].
  unfold dequeue_job in Hd. case_match; [done|]. injection Hd as <- <-.
  set (j := job_queue_ r (job_head_ r)) in *. set (r1 := set_queue _ _ _ r) in *.
  pose proof (ri_jobs _ _ Hr) as Hj. rewrite Q2 in Hj. apply Forall_cons in Hj as [Hj1 Hj2].
  assert (j_hdr_len j ≤ j_len j) as Hle by (destruct Hj1 as (_ & _ & Hl & _); lia).
  intros Hp. exists j. unfold process_job in *. rewrite (proj2 (Z.leb_le _ _) Hle) in *. simpl in *.
  injection Hp as <- <-. split_and!; try done; try apply Hj1.
  pose proof (ri_distinct _ _ Hr) as Hdi. rewrite Q2 in Hdi.
  split; try apply Hr; try done. by apply NoDup_cons in Hdi as [_ ?].
Qed.

Lemma inv_step_work f s r' :
  rs_inv s → work_one true (rs_recv s) = Some (Some f, r') →
  rs_inv (mkRs r' (f :: rs_held s) (rs_out s ++ [f]) (rs_rx s)).
Proof.
  intros [I1 I2 I3 I4 (s0 & n & I5 & I6 & I7 & I8)] Hw.
  destruct (work_one_spec _ _ _ _ I1 Hw)
    as (j & Q & J & I & E1 & E2 & E3 & E4 & E5 & E6 & Hf & Hle).
  unfold process_job in Hf. rewrite (proj2 (Z.leb_le _ _) Hle) in Hf. simpl in Hf.
  injection Hf as Hf. assert (f_slab_idx f = j_slab_idx j ∧ f_seq f = j_seq j) as [Fi Fs] by by subst.
  rewrite Q in *. split; simpl.
  - by rewrite E2.
  - apply Forall_cons; split.
    + destruct J as (J1 & J2 & J3 & J4). unfold frame_ok. rewrite Fi, Fs, E1, E2.
      split; [done|]. split; [done|]. exists (j_hdr_len j), (j_len j). subst f. split_and!; try done; lia.
    + eapply Forall_impl; [exact I2|]. unfold frame_ok. by rewrite E1, E2.
  - rewrite Fi. eapply NoDup_Permutation_proper; [|exact I3]. simpl. by rewrite Permutation_middle.
  - rewrite E3. intros Hst. by destruct (I4 Hst) as (_ & ? & _).
  - exists s0, n. rewrite fmap_app, length_app, <- app_assoc, E4, E5, E6. simpl. rewrite Fs.
    split_and!; try done. simpl in I8. lia.
Qed.

Lemma inv_step_release k f s :
  rs_inv s → rs_held s !! k = Some f →
  rs_inv (mkRs (release_slab (f_slab_idx f) (rs_recv s)) (delete k (rs_held s)) (rs_out s) (rs_rx s)).
Proof.
  intros [I1 I2 I3 I4 I5] Hk. pose proof (Forall_lookup_1 _ _ _ _ I2 Hk) as (Hi & Hw & _).
  unfold release_slab. rewrite (proj2 (Z.ltb_lt _ _)) by lia. set (i := f_slab_idx f) in *.
  assert (NoDup (i :: (f_slab_idx <$> delete k (rs_held s)) ++ (j_slab_idx <$> queue_list (rs_recv s))))
    as Hnd.
  { rewrite (delete_Permutation _ _ _ Hk) in I3. exact I3. }
  apply NoDup_cons in Hnd as [Hni Hnd]. rewrite elem_of_app in Hni.
  assert (∀ x, x ≠ i → ring_ (set_in_worker i 0 (rs_recv s)) x = ring_ (rs_recv s) x) as Hother
    by (intros x Hx; simpl; by rewrite fn_lookup_insert_ne).
  split; [| | |done|done]; cbn [rs_recv rs_held rs_rx].
  - split; try apply I1; simpl.
    + intros x Hx. destruct (decide (x = i)) as [->|Hx'];
        [|rewrite fn_lookup_insert_ne in Hx |- * by done; by apply I1].
      rewrite fn_lookup_insert in Hx |- *. simpl in Hx.
      destruct (ri_window _ _ I1 _ Hx) as (d & _ & _ & _ & Hw' & _). congruence.
    + rewrite (ri_pending _ _ I1). symmetry. by apply nfilled_insert_same.
    + intros Hst x. destruct (decide (x = i)) as [->|];
        [rewrite fn_lookup_insert|rewrite fn_lookup_insert_ne by done]; by apply (ri_start _ _ I1).
    + apply Forall_forall. intros j Hj. pose proof (ri_jobs _ _ I1) as Hjobs.
      rewrite Forall_forall in Hjobs. specialize (Hjobs j Hj). unfold job_ok in *.
      rewrite fn_lookup_insert_ne; [done|]. intros E. apply Hni. right. rewrite E.
      by apply list_elem_of_fmap_2.
  - apply Forall_forall. intros g Hg. rewrite (delete_Permutation _ _ _ Hk) in I2.
    rewrite Forall_forall in I2. specialize (I2 g ltac:(by apply elem_of_cons; right)).
    unfold frame_ok in *. rewrite Hother; [done|]. intros E. apply Hni. left. rewrite <- E.
    by apply list_elem_of_fmap_2.
  - done.
Qed.

Lemma rs_inv_step s s' : rs_inv s → rstep s s' → rs_inv s'.
Proof.
  intros Hs Hst. destruct Hst as [dgram r r' held out rx Hb E|f r r' held out rx E
    |r r' held out rx E|k f r held out rx Hk].
  - by apply (inv_step_recv dgram _ r' Hs).
  - by apply (inv_step_work f _ r' Hs).
  - exfalso. destruct (work_one_spec _ _ _ _ (si_recv _ Hs) E) as (j & H). simpl in H.
    destruct_and! H. unfold process_job in *. rewrite (proj2 (Z.leb_le _ _)) in * by done. done.
  - by apply (inv_step_release k f _ Hs).
Qed.

Definition start_state (ring0 : Z → Slot) (slab0 : memory) (queue0 : Z → Job) (jitter : Z) : rstate :=
  mkRs (start ring0 slab0 queue0 jitter) [] [] [].

Lemma nfilled_none f l : (∀ i, filled (f i) = false) → nfilled f l = 0.
Proof.
  intros Hf. induction l as [|i l IH]; [done|].
  change (nfilled f (i :: l)) with (Z.b2z (filled (f i)) + nfilled f l). by rewrite Hf, IH.
Qed.

Lemma rs_inv_start ring0 slab0 queue0 jitter :
  0 < jitter ≤ kRingSize → rs_inv (start_state ring0 slab0 queue0 jitter).
Proof.
  intros Hj.
  assert (queue_list (start ring0 slab0 queue0 jitter) = []) as Hq by done.
  split; simpl; try rewrite Hq; try done; [|constructor|].
  - split; try done; apply NoDup_nil_2.
  - exists 0, 0. done.
Qed.

Lemma rs_inv_reachable ring0 slab0 queue0 jitter s :
  0 < jitter ≤ kRingSize → rtc rstep (start_state ring0 slab0 queue0 jitter) s → rs_inv s.
Proof.
  intros Hj. apply (rtc_ind_r rs_inv); [by apply rs_inv_start|]. eauto using rs_inv_step.
Qed.

(** ** Properties *)

(** C9: in-order, exactly-once delivery with full accounting.  In every state
    the two threads can reach, the sequence numbers of the frames handed to the
    hook, followed by those still queued, form a subsequence of one consecutive
    run s0, s0+1, ... (mod 2^16) that ends just before the head: nothing is
    delivered twice or out of order.  Every number of the run that is not there
    was counted once, as a network loss or as a full-queue drop. *)
Theorem delivery_in_order ring0 slab0 queue0 jitter s :
  0 < jitter ≤ kRingSize → rtc rstep (start_state ring0 slab0 queue0 jitter) s →
  ∃ s0 n, 0 ≤ n
    ∧ ((f_seq <$> rs_out s) ++ (j_seq <$> queue_list (rs_recv s)))
        `sublist_of` ((λ k, u16 (s0 + k)) <$> seqZ 0 n)
    ∧ next_seq_ (rs_recv s) = u16 (s0 + n)
    ∧ n = Z.of_nat (length (rs_out s) + length (queue_list (rs_recv s)))
          + net_lost_packets_ (rs_recv s) + queue_full_drops_ (rs_recv s).
Proof.
  intros Hj Hs. destruct (si_order _ (rs_inv_reachable _ _ _ _ _ Hj Hs)) as (s0 & n & H1 & H2 & H3 & H4).
  exists s0, n. split_and!; try done. lia.
Qed.

(** C10: zero-copy safety.  While the hook's owner holds a frame (until
    [release_slab]), the receive thread never touches its slab: the payload
    pointer still designates exactly the payload bytes of a datagram that was
    received with that sequence number, the payload lies inside the slot, and
    no two held or queued packets share a slot. *)
Theorem held_frames_intact ring0 slab0 queue0 jitter s f :
  0 < jitter ≤ kRingSize → rtc rstep (start_state ring0 slab0 queue0 jitter) s →
  f ∈ rs_held s →
  (∃ data hdr len, data ∈ rs_rx s ∧ parse_rtp data = Some (hdr, len, f_seq f)
    ∧ f_payload f = f_slab_idx f * kSlotBytes + hdr ∧ f_payload_len f = len - hdr
    ∧ 0 ≤ f_payload_len f ∧ len ≤ kSlotBytes
    ∧ ∀ o, 0 ≤ o < f_payload_len f →
        slab_ (rs_recv s) (f_payload f + o) = data !!! Z.to_nat (hdr + o))
  ∧ NoDup ((f_slab_idx <$> rs_held s) ++ (j_slab_idx <$> queue_list (rs_recv s))).
Proof.
  intros Hj Hs Hf. pose proof (rs_inv_reachable _ _ _ _ _ Hj Hs) as [_ I2 I3 _ _].
  split; [|done]. rewrite Forall_forall in I2.
  destruct (I2 _ Hf) as (_ & _ & hdr & len & Hl & (Hk & data & Hd & Hp & Hb) & E1 & E2).
  exists data, hdr, len. split_and!; try done; try lia. intros o Ho.
  rewrite E1, <- Z.add_assoc. apply Hb. lia.
Qed.

(** The state in which [handle_dgram] looks at the slot of a packet in or ahead of the
    window: the forced advance has ended, and the slot holds nothing or this packet. *)
Lemma store_point rx data r hdr eff seq :
  recv_inv (content rx (slab_ r)) r → Forall is_byte data → parse_rtp data = Some (hdr, eff, seq) →
  let r0 := if started_ r then r else set_head true seq (pending_ r) r in
  0 ≤ i16 (seq - next_seq_ r0) →
  ∃ r1, force_advance advance_fuel seq r0 = Ret r1
    ∧ let slot := ring_ r1 (Z.land seq (kRingSize - 1)) in filled slot = true → s_seq slot = seq.
Proof.
  intros Hr Hb Hp r0 H0. destruct (first_seq_inv _ _ _ _ _ _ Hr Hb Hp) as (F1 & F2 & F3 & F4).
  destruct (parse_rtp_ok _ _ _ _ Hb Hp) as (_ & _ & _ & Hs & _).
  assert (first_seq data r = r0) as E0 by (unfold r0, first_seq; by rewrite Hp). rewrite E0 in *.
  destruct (force_advance_spec _ advance_fuel seq r0 F1 Hs) as (r1 & E & P & Hd).
  { pose proof (i16_range (seq - next_seq_ r0)). unfold advance_fuel. rewrite Z2Nat.id; lia. }
  exists r1. split; [done|]. cbn zeta. rewrite ring_mask. intros Hf. pose proof (pg_inv _ _ _ P) as I1.
  destruct (ri_window _ _ I1 _ Hf) as (d & Hd1 & Hd2 & Hd3 & _).
  pose proof (ri_jitter _ _ I1). pose proof (ri_seq _ _ I1). rewrite Hd2 in *. unfold kRingSize in *. wrap_lia.
Qed.

(** C22: the receive thread never hangs and never loses a storable packet to
    slot aliasing.  With a jitter depth between 1 and the ring's size, in every reachable
    state, handling any datagram returns: in particular the force-advance loop ends.  And
    where [handle_dgram] looks at the packet's slot, after that loop, whether it had
    anything to skip or not, a filled slot holds this very packet (a duplicate): the
    "alias" branch that would count a loss is dead. *)
Theorem recv_returns_no_alias ring0 slab0 queue0 jitter s dgram :
  0 < jitter ≤ kRingSize → rtc rstep (start_state ring0 slab0 queue0 jitter) s →
  Forall is_byte dgram →
  (∃ r', recv_one dgram (rs_recv s) = Ret r')
  ∧ ∀ hdr len seq, parse_rtp (take (Z.to_nat kSlotBytes) dgram) = Some (hdr, len, seq) →
      let r := rs_recv s in
      let r0 := if started_ r then r else set_head true seq (pending_ r) r in
      0 ≤ i16 (seq - next_seq_ r0) →
      ∃ r1, force_advance advance_fuel seq r0 = Ret r1
        ∧ let slot := ring_ r1 (Z.land seq (kRingSize - 1)) in filled slot = true → s_seq slot = seq.
Proof.
  intros Hj Hs Hb. pose proof (rs_inv_reachable _ _ _ _ _ Hj Hs) as [I1 _ _ _ _]. split.
  - destruct (recv_one_spec _ dgram _ I1 Hb) as (r' & E & _). by exists r'.
  - intros hdr len seq Hp. eapply store_point; [exact I1|by apply Forall_take|exact Hp].
Qed.

(** Nothing deliverable is left behind.  A valid packet of the jitter window
    whose slot is free is stored and everything that became consecutive is
    released in the same call: afterwards the head slot holds no deliverable
    packet, the packet was not counted as a busy-slot drop, and every slot the
    worker owns keeps its flag and its bytes. *)
Theorem store_flushes_head rx data r hdr eff seq :
  recv_inv (content rx (slab_ r)) r → started_ r = true → Forall is_byte data →
  parse_rtp data = Some (hdr, eff, seq) → 0 ≤ i16 (seq - next_seq_ r) < jitter_depth_ r →
  filled (ring_ r (seq mod kRingSize)) = false → in_worker (ring_ r (seq mod kRingSize)) = 0 →
  ∃ r', handle_dgram data r = Ret r' ∧ head_ready r' = false ∧ keeps_worker r r'
    ∧ slot_busy_drops_ r' = slot_busy_drops_ r.
Proof.
  intros Hr Hst Hb Hp Hd Hf Hw. destruct (store_release rx data r hdr eff seq Hr Hst Hb Hp Hd Hf Hw)
    as (R1 & R2 & R3 & R4 & R5).
  exists (release_in_order (store (seq mod kRingSize) seq hdr eff data r)).
  split_and!; try done.
  - unfold handle_dgram. rewrite Hp, Hst. cbn zeta. rewrite (proj2 (Z.ltb_ge _ _)) by lia.
    assert (force_advance advance_fuel seq r = Ret r) as ->.
    { destruct advance_fuel as [|k] eqn:Hk; [pose proof advance_fuel_pos; lia|]. cbn [force_advance].
      pose proof (ri_jitter _ _ Hr).
      assert (i16 (jitter_depth_ r) = jitter_depth_ r) as -> by (unfold kRingSize in *; wrap_lia).
      by rewrite (proj2 (Z.leb_gt _ _)) by lia. }
    rewrite ring_mask, Hf. unfold store. by rewrite Hw.
  - unfold release_in_order. generalize (Z.to_nat (pending_ (store (seq mod kRingSize) seq hdr eff data r))).
    intros n. change (slot_busy_drops_ r) with
      (slot_busy_drops_ (store (seq mod kRingSize) seq hdr eff data r)).
    generalize (store (seq mod kRingSize) seq hdr eff data r). clear.
    induction n as [|n IH]; intros r; [done|]. cbn [release_loop]. case_match; [|done].
    rewrite IH. unfold bump_seq, dispatch_head, dispatch. simpl. by destruct (enqueue_job _ _) eqn:E;
      [unfold enqueue_job in E; case_match; [done|]; injection E as <-|].
Qed.

(** ** Witnesses: one packet received and handed to the hook *)
Definition demo_dgram : list Z := [128; 224; 0; 5; 0; 0; 0; 1; 0; 0; 0; 2; 9; 8; 7].
Definition demo_ring : Z → Slot := λ _, mkSlot false 0 0 0 0.
Definition demo_queue : Z → Job := λ _, mkJob 0 0 0 0.
Definition demo_slab : memory := λ _, 0.
Definition demo_start : rstate := start_state demo_ring demo_slab demo_queue 64.
Definition demo_r1 : receiver :=
  match recv_one demo_dgram (rs_recv demo_start) with Ret r => r | _ => rs_recv demo_start end.
Definition demo_frame : Frame := mkFrame 5 1 2 1 96 (5 * 9216 + 12) 3 5.
Definition demo_r2 : receiver :=
  match work_one true demo_r1 with Some (_, r) => r | None => demo_r1 end.
Definition demo_held : rstate :=
  mkRs demo_r2 [demo_frame] [demo_frame] [take (Z.to_nat kSlotBytes) demo_dgram].

Lemma demo_dgram_bytes : Forall is_byte demo_dgram.
Proof. unfold is_byte. repeat constructor; lia. Qed.

Lemma demo_recv : recv_one demo_dgram (rs_recv demo_start) = Ret demo_r1.
Proof.
  unfold demo_r1.
  assert ((match recv_one demo_dgram (rs_recv demo_start) with Ret _ => true | _ => false end) = true)
    as H by (vm_compute; reflexivity).
  destruct (recv_one demo_dgram (rs_recv demo_start)); done.
Qed.

Lemma demo_work : work_one true demo_r1 = Some (Some demo_frame, demo_r2).
Proof.
  unfold demo_r2. assert (fst <$> work_one true demo_r1 = Some (Some demo_frame)) as H
    by (vm_compute; reflexivity).
  destruct (work_one true demo_r1) as [[]|]; simpl in H; congruence.
Qed.

Lemma demo_reachable : rtc rstep demo_start demo_held.
Proof.
  eapply rtc_l; [apply (step_recv demo_dgram _ demo_r1); [apply demo_dgram_bytes|apply demo_recv]|].
  eapply rtc_l; [apply (step_work demo_frame _ demo_r2), demo_work|]. apply rtc_refl.
Qed.

Lemma delivery_in_order_witness :
  rtc rstep demo_start demo_held ∧ f_seq <$> rs_out demo_held = [5]
  ∧ ∃ s0 n, 0 ≤ n
    ∧ ((f_seq <$> rs_out demo_held) ++ (j_seq <$> queue_list (rs_recv demo_held)))
        `sublist_of` ((λ k, u16 (s0 + k)) <$> seqZ 0 n)
    ∧ next_seq_ (rs_recv demo_held) = u16 (s0 + n)
    ∧ n = Z.of_nat (length (rs_out demo_held) + length (queue_list (rs_recv demo_held)))
          + net_lost_packets_ (rs_recv demo_held) + queue_full_drops_ (rs_recv demo_held).
Proof.
  split; [exact demo_reachable|]. split; [reflexivity|].
  apply (delivery_in_order demo_ring demo_slab demo_queue 64 demo_held);
    [unfold kRingSize; lia|exact demo_reachable].
Defined.

Lemma held_frames_intact_witness :
  demo_frame ∈ rs_held demo_held
  ∧ ∃ data hdr len, data ∈ rs_rx demo_held ∧ parse_rtp data = Some (hdr, len, 5)
    ∧ f_payload demo_frame = 5 * kSlotBytes + hdr.
Proof.
  assert (demo_frame ∈ rs_held demo_held) as Hin by (apply elem_of_cons; left; reflexivity).
  split; [exact Hin|].
  destruct (held_frames_intact demo_ring demo_slab demo_queue 64 demo_held demo_frame)
    as [(data & hdr & len & H1 & H2 & H3 & _) _];
    [unfold kRingSize; lia|exact demo_reachable|exact Hin|].
  exists data, hdr, len. split; [exact H1|]. split; [exact H2|exact H3].
Defined.

(** Packet 7 arrives before packet 6 and waits in its slot; then a copy of it arrives. *)
Definition early_dgram : list Z := [128; 224; 0; 7; 0; 0; 0; 1; 0; 0; 0; 2; 9; 8; 7].
Definition early_r : receiver :=
  match recv_one early_dgram demo_r2 with Ret r => r | _ => demo_r2 end.
Definition early_held : rstate :=
  mkRs early_r [demo_frame] [demo_frame] [take (Z.to_nat kSlotBytes) early_dgram; take (Z.to_nat kSlotBytes) demo_dgram].
Lemma early_dgram_bytes : Forall is_byte early_dgram.
Proof. unfold is_byte. repeat constructor; lia. Qed.
Lemma early_reachable : rtc rstep demo_start early_held.
Proof.
  eapply rtc_r; [exact demo_reachable|]. apply (step_recv early_dgram _ early_r); [exact early_dgram_bytes|].
  unfold early_r. assert ((match recv_one early_dgram demo_r2 with Ret _ => true | _ => false end) = true) as H
    by (vm_compute; reflexivity).
  cbn [demo_held rs_recv]. destruct (recv_one early_dgram demo_r2); done.
Qed.

Lemma recv_returns_no_alias_witness :
  filled (ring_ (rs_recv early_held) 7) = true
  ∧ (∃ r', recv_one early_dgram (rs_recv early_held) = Ret r')
  ∧ ∃ r1, force_advance advance_fuel 7 (rs_recv early_held) = Ret r1
    ∧ let slot := ring_ r1 (Z.land 7 (kRingSize - 1)) in filled slot = true → s_seq slot = 7.
Proof.
  split; [vm_compute; reflexivity|].
  destruct (recv_returns_no_alias demo_ring demo_slab demo_queue 64 early_held early_dgram) as [H1 H2];
    [unfold kRingSize; lia|exact early_reachable|exact early_dgram_bytes|].
  split; [exact H1|].
  assert (parse_rtp (take (Z.to_nat kSlotBytes) early_dgram) = Some (12, 15, 7)) as Hp by (vm_compute; reflexivity).
  specialize (H2 12 15 7 Hp). cbn zeta in H2.
  assert (started_ (rs_recv early_held) = true ∧ i16 (7 - next_seq_ (rs_recv early_held)) = 1) as [Hst Hn]
    by (vm_compute; split; reflexivity).
  rewrite Hst, Hn in H2. apply H2. lia.
Defined.

(** The state after the first packet set the head: the packet itself arrives. *)
Definition demo_first : receiver := first_seq demo_dgram (rs_recv demo_start).

Lemma demo_first_inv : recv_inv (content [] (slab_ demo_first)) demo_first.
Proof.
  apply (first_seq_inv _ demo_dgram (rs_recv demo_start) 12 15 5); [|exact demo_dgram_bytes|done].
  apply (si_recv demo_start), rs_inv_start. unfold kRingSize. lia.
Qed.

Lemma store_flushes_head_witness :
  ∃ r', handle_dgram demo_dgram demo_first = Ret r' ∧ head_ready r' = false
    ∧ keeps_worker demo_first r' ∧ slot_busy_drops_ r' = slot_busy_drops_ demo_first.
Proof.
  apply (store_flushes_head [] demo_dgram demo_first 12 15 5);
    [exact demo_first_inv|reflexivity|exact demo_dgram_bytes|reflexivity
    |vm_compute; split; congruence|reflexivity|reflexivity].
Defined.
