(* ===== verification/Spsc.v ===== *)
(** * Spsc: the job queue of rtp_receiver.cpp under interleaving

    [enqueue_job] runs on the receive thread and [dequeue_job] on the worker.
    Here each is split at its accesses to shared memory: the load of the other
    side's index, the access to the array cell, and the store that publishes
    the own index.  The steps of the two threads interleave freely (the
    acquire/release pairs order each cell access with the index store). *)
From S2P Require Import Prelude Receiver.

(** ** Steps *)
Inductive producer_pc :=
  | PIdle
  | PWrite (j : Job) (tail next_tail : Z)   (* not full: about to write the cell *)
  | PPublish (j : Job) (next_tail : Z).     (* cell written: about to store the tail *)

Inductive consumer_pc :=
  | CIdle
  | CRead (head : Z)                        (* not empty: about to copy the cell *)
  | CPublish (j : Job) (head : Z).          (* cell copied: about to store the head *)

Record spsc := mkSpsc {
  cells : Z → Job;
  q_head : Z;
  q_tail : Z;
  ppc : producer_pc;
  cpc : consumer_pc;
  enqueued : list Job;    (* jobs published so far, oldest first *)
  dequeued : list Job     (* jobs taken so far, oldest first *)
}.

Definition next_index (i : Z) : Z := Z.land (i + 1) (kJobQueueSize - 1).

Inductive spsc_step : spsc → spsc → Prop :=
  | p_full c h t k e d :
      next_index t = h →
      spsc_step (mkSpsc c h t PIdle k e d) (mkSpsc c h t PIdle k e d)
  | p_check j c h t k e d :
      next_index t ≠ h →
      spsc_step (mkSpsc c h t PIdle k e d) (mkSpsc c h t (PWrite j t (next_index t)) k e d)
  | p_write j i n c h t k e d :
      spsc_step (mkSpsc c h t (PWrite j i n) k e d)
                (mkSpsc (<[i := j]> c) h t (PPublish j n) k e d)
  | p_publish j n c h t k e d :
      spsc_step (mkSpsc c h t (PPublish j n) k e d) (mkSpsc c h n PIdle k (e ++ [j]) d)
  | c_empty c h t p e d :
      h = t →
      spsc_step (mkSpsc c h t p CIdle e d) (mkSpsc c h t p CIdle e d)
  | c_check c h t p e d :
      h ≠ t →
      spsc_step (mkSpsc c h t p CIdle e d) (mkSpsc c h t p (CRead h) e d)
  | c_read i c h t p e d :
      spsc_step (mkSpsc c h t p (CRead i) e d) (mkSpsc c h t p (CPublish (c i) i) e d)
  | c_publish j i c h t p e d :
      spsc_step (mkSpsc c h t p (CPublish j i) e d)
                (mkSpsc c (next_index i) t p CIdle e (d ++ [j])).

Definition spsc_init (c : Z → Job) : spsc := mkSpsc c 0 0 PIdle CIdle [] [].

(** ** Invariant *)
Definition span (c : Z → Job) (h n : Z) : list Job :=
  (λ k, c ((h + k) mod kJobQueueSize)) <$> seqZ 0 n.
Definition q_len (s : spsc) : Z := (q_tail s - q_head s) mod kJobQueueSize.

Record spsc_inv (s : spsc) : Prop := {
  sp_head : 0 ≤ q_head s < kJobQueueSize;
  sp_tail : 0 ≤ q_tail s < kJobQueueSize;
  (* FIFO: what was published is what was taken, then what is stored *)
  sp_fifo : enqueued s = dequeued s ++ span (cells s) (q_head s) (q_len s);
  sp_prod : match ppc s with
            | PIdle => True
            | PWrite j i n => i = q_tail s ∧ n = next_index i ∧ q_len s < kJobQueueSize - 1
            | PPublish j n => n = next_index (q_tail s) ∧ cells s (q_tail s) = j
                              ∧ q_len s < kJobQueueSize - 1
            end;
  sp_cons : match cpc s with
            | CIdle => True
            | CRead i => i = q_head s ∧ 0 < q_len s
            | CPublish j i => i = q_head s ∧ 0 < q_len s ∧ cells s i = j
            end
}.

Lemma next_index_mod i : next_index i = (i + 1) mod kJobQueueSize.
Proof. apply job_mask. Qed.

Lemma span_snoc c h n : 0 ≤ n → span c h (n + 1) = span c h n ++ [c ((h + n) mod kJobQueueSize)].
Proof. intros. unfold span. rewrite seqZ_app, fmap_app by lia. done. Qed.

Lemma span_cons c h n :
  0 ≤ n → span c h (n + 1) = c (h mod kJobQueueSize) :: span c ((h + 1) mod kJobQueueSize) n.
Proof.
  intros. unfold span. rewrite seqZ_cons by lia. cbn [fmap list_fmap]. f_equal; [f_equal; f_equal; lia|].
  replace (Z.pred (n + 1)) with n by lia. replace (Z.succ 0) with (1 + 0) by done.
  rewrite <- (fmap_add_seqZ 1 0), <- list_fmap_compose. apply list_fmap_ext.
  intros i x _. simpl. f_equal. q_lia.
Qed.

Lemma span_insert c h n i j :
  0 ≤ n < kJobQueueSize → 0 ≤ h < kJobQueueSize → 0 ≤ i < kJobQueueSize →
  n ≤ (i - h) mod kJobQueueSize → span (<[i := j]> c) h n = span c h n.
Proof.
  intros Hn Hh Hi Hd. unfold span. apply list_fmap_ext. intros k x Hx.
  apply lookup_seqZ in Hx as [-> Hk]. rewrite fn_lookup_insert_ne; [done|]. q_lia.
Qed.

Lemma spsc_inv_init c : spsc_inv (spsc_init c).
Proof. split; done. Qed.

Lemma spsc_inv_step s s' : spsc_inv s → spsc_step s s' → spsc_inv s'.
Proof.
  intros [H1 H2 H3 H4 H5] Hst. unfold q_len in *.
  destruct Hst as [c h t k e d Hf|j c h t k e d Hf|j i n c h t k e d|j n c h t k e d
    |c h t p e d Hf|c h t p e d Hf|i c h t p e d|j i c h t p e d];
    try rewrite next_index_mod in Hf;
    cbn [cells q_head q_tail ppc cpc enqueued dequeued] in *; try done.
  - split; unfold q_len; simpl; try done. rewrite ?next_index_mod. split_and!; try done. q_lia.
  - destruct H4 as (-> & -> & Hl). split; unfold q_len; simpl; try done.
    + rewrite span_insert by q_lia. done.
    + rewrite fn_lookup_insert. done.
    + destruct k as [|i|j' i]; [done|exact H5|]. destruct H5 as (-> & Hl' & <-). split_and!; try done.
      rewrite fn_lookup_insert_ne; [done|]. q_lia.
  - destruct H4 as (-> & Hj & Hl). rewrite ?next_index_mod.
    assert (((t + 1) mod kJobQueueSize - h) mod kJobQueueSize
      = (t - h) mod kJobQueueSize + 1) as E by q_lia.
    split; unfold q_len; simpl; try done; rewrite ?E; try q_lia.
    + rewrite span_snoc, H3, <- app_assoc by q_lia. do 3 f_equal. rewrite <- Hj. f_equal. q_lia.
    + destruct k; try done; destruct_and!; split_and!; try done; q_lia.
  - split; unfold q_len; simpl; try done. split; [done|]. q_lia.
  - destruct H5 as (-> & Hl). split; unfold q_len; simpl; try done.
  - destruct H5 as (-> & Hl & Hj). rewrite (next_index_mod h).
    assert ((t - h) mod kJobQueueSize = (t - (h + 1) mod kJobQueueSize) mod kJobQueueSize + 1) as E
      by q_lia.
    split; unfold q_len; simpl; try done; try q_lia.
    + rewrite H3, E, span_cons, <- app_assoc, Z.mod_small, Hj by q_lia. done.
    + destruct p; try done; destruct_and!; split_and!; try done; q_lia.
Qed.

Lemma spsc_inv_reachable c s : rtc spsc_step (spsc_init c) s → spsc_inv s.
Proof. apply (rtc_ind_r spsc_inv); [apply spsc_inv_init|]. eauto using spsc_inv_step. Qed.

(** ** Properties *)

(** C23: the job queue is a race-free FIFO.  Under every interleaving of the two
    threads' steps, the jobs taken are a prefix of the jobs published and what
    remains is exactly what the array holds between head and tail (at most
    16383 jobs); and the cell the producer is about to write is never the one
    the consumer is about to copy. *)
Theorem spsc_fifo_race_free c s :
  rtc spsc_step (spsc_init c) s →
  enqueued s = dequeued s ++ span (cells s) (q_head s) (q_len s)
  ∧ q_len s ≤ kJobQueueSize - 1
  ∧ ∀ j i n h, ppc s = PWrite j i n → cpc s = CRead h → i ≠ h.
Proof.
  intros Hs. pose proof (spsc_inv_reachable _ _ Hs) as [H1 H2 H3 H4 H5].
  split_and!; [done|unfold q_len; q_lia|]. intros j i n h Hp Hc. rewrite Hp in H4. rewrite Hc in H5.
  destruct H4 as (-> & _ & Hl), H5 as (-> & Hl'). unfold q_len in *. intros E. q_lia.
Qed.

(** The whole-function model is this queue.  Running the producer's three
    steps with no consumer step in between has exactly the effect of
    [enqueue_job] (refusing when full), and the consumer's that of
    [dequeue_job] (refusing when empty). *)
Theorem queue_functions_are_steps r e d :
  let st (r : receiver) e d := mkSpsc (job_queue_ r) (job_head_ r) (job_tail_ r) PIdle CIdle e d in
  (∀ j, match enqueue_job j r with
        | Some r' => rtc spsc_step (st r e d) (st r' (e ++ [j]) d)
        | None => next_index (job_tail_ r) = job_head_ r
        end)
  ∧ match dequeue_job r with
    | Some (j, r') => rtc spsc_step (st r e d) (st r' e (d ++ [j]))
    | None => job_head_ r = job_tail_ r
    end.
Proof.
  cbn zeta. split.
  - intros j. unfold enqueue_job. fold (next_index (job_tail_ r)).
    destruct (Z.eqb_spec (next_index (job_tail_ r)) (job_head_ r)) as [E|E]; [done|].
    eapply rtc_l; [by apply (p_check j)|]. eapply rtc_l; [apply p_write|].
    eapply rtc_l; [apply p_publish|]. apply rtc_refl.
  - unfold dequeue_job. destruct (Z.eqb_spec (job_head_ r) (job_tail_ r)) as [E|E]; [done|].
    eapply rtc_l; [by apply c_check|]. eapply rtc_l; [apply c_read|].
    eapply rtc_l; [apply c_publish|]. apply rtc_refl.
Qed.

(** ** Witness: one job published, the consumer about to copy it *)
Definition demo_job : Job := mkJob 5 15 5 12.
Definition demo_cells : Z → Job := λ _, mkJob 0 0 0 0.
Definition demo_spsc : spsc :=
  mkSpsc (<[0 := demo_job]> demo_cells) 0 1 PIdle (CRead 0) [demo_job] [].

Lemma demo_spsc_reachable : rtc spsc_step (spsc_init demo_cells) demo_spsc.
Proof.
  eapply rtc_l; [by apply (p_check demo_job)|]. eapply rtc_l; [apply p_write|].
  eapply rtc_l; [apply p_publish|]. eapply rtc_l; [by apply c_check|]. apply rtc_refl.
Qed.

Lemma spsc_fifo_race_free_witness :
  rtc spsc_step (spsc_init demo_cells) demo_spsc
  ∧ enqueued demo_spsc = dequeued demo_spsc ++ span (cells demo_spsc) 0 (q_len demo_spsc).
Proof.
  split; [exact demo_spsc_reachable|].
  exact (proj1 (spsc_fifo_race_free demo_cells demo_spsc demo_spsc_reachable)).
Defined.
