(* ===== verification/Slots.v ===== *)
(** * Slots: a slot's [in_worker] flag is never left set

    The flag is raised when a slot is dispatched and lowered by [release_slab] (or when
    the job queue is full).  Every raised flag belongs to a job in the queue or to a
    frame the hook's owner holds: the ring cannot lose slots. *)
From S2P Require Import Prelude Receiver.

(** Raised flags are those of the slots [lent] out and of the queued jobs. *)
Record flags_owned (lent : list Z) (r : receiver) : Prop := {
  fo_queue : queue_ok r;
  fo_owned : ∀ i, in_worker (ring_ r i) ≠ 0 → i ∈ lent ∨ i ∈ (j_slab_idx <$> queue_list r)
}.

Section Recv.
Context (lent : list Z).
Implicit Types r : receiver.

(** States with the same flags and the same queue. *)
Lemma owned_same r r' :
  flags_owned lent r → (∀ i, in_worker (ring_ r' i) = in_worker (ring_ r i)) →
  queue_list r' = queue_list r → queue_ok r' → flags_owned lent r'.
Proof. intros [Hq Ho] Hf Hl Hq'. split; [done|]. intros i. rewrite Hf, Hl. apply Ho. Qed.

Lemma owned_dispatch i r : flags_owned lent r → flags_owned lent (dispatch_head i r).
Proof.
  intros [Hq Ho]. destruct (dispatch_head_spec i r Hq) as (w & js & D). split; [apply D|].
  intros k. rewrite (d_ring _ _ _ _ _ D), (d_jobs _ _ _ _ _ D), fmap_app, elem_of_app.
  destruct (decide (k = i)) as [->|]; [|intros Hk; specialize (Ho k Hk); tauto].
  intros Hk. destruct (d_which _ _ _ _ _ D) as [(_ & -> & _)|(-> & _)]; [|done].
  right. right. cbn. by apply list_elem_of_singleton.
Qed.

Lemma owned_bump r : flags_owned lent r → flags_owned lent (bump_seq r).
Proof. intros Ho. by apply (owned_same r); [| | |apply Ho]. Qed.

Lemma owned_advance r : flags_owned lent r → flags_owned lent (advance_head r).
Proof.
  intros Ho. unfold advance_head. apply owned_bump. destruct (head_ready r); [by apply owned_dispatch|].
  by apply (owned_same r); [| | |apply Ho].
Qed.

Lemma owned_force fuel seq r r' :
  flags_owned lent r → force_advance fuel seq r = Ret r' → flags_owned lent r'.
Proof.
  revert r. induction fuel as [|fuel IH]; intros r Ho; cbn [force_advance]; [done|].
  destruct (_ <=? _); [|by intros [= <-]]. by apply IH, owned_advance.
Qed.

Lemma owned_release_loop fuel r : flags_owned lent r → flags_owned lent (release_loop fuel r).
Proof.
  revert r. induction fuel as [|fuel IH]; intros r Ho; cbn [release_loop]; [done|].
  destruct (head_ready r); [|done]. by apply IH, owned_bump, owned_dispatch.
Qed.

Lemma owned_recv dgram r r' : flags_owned lent r → recv_one dgram r = Ret r' → flags_owned lent r'.
Proof.
  intros Ho. unfold recv_one. destruct (_ <? 12); [by intros [= <-]|]. unfold handle_dgram.
  destruct (parse_rtp _) as [[[hdr eff] seq]|]; [|by intros [= <-]]. cbn zeta. set (r0 := if started_ r then _ else _).
  assert (flags_owned lent r0) as Ho0 by (unfold r0; destruct (started_ r); [done|]; by apply (owned_same r); [| | |apply Ho]).
  destruct (_ <? 0); [by intros [= <-]|]. destruct (force_advance _ _ r0) as [r1| |] eqn:E; [|done|done].
  apply owned_force in E; [|done].
  destruct (filled _); [destruct (_ =? seq)|]; [by intros [= <-]| |].
  { intros [= <-]. by apply (owned_same r1); [| | |apply E]. }
  destruct (negb _); intros [= <-].
  { by apply (owned_same r1); [| | |apply E]. }
  apply owned_release_loop. apply (owned_same r1); [done| |done|apply E]. intros i. cbn.
  set (idx := Z.land seq _). destruct (decide (i = idx)) as [->|]; [by rewrite fn_lookup_insert|by rewrite fn_lookup_insert_ne].
Qed.

Lemma owned_work r f r' :
  flags_owned lent r → work_one true r = Some (Some f, r') → flags_owned (f_slab_idx f :: lent) r'.
Proof.
  intros [Hq Ho]. unfold work_one. destruct (dequeue_job r) as [[j r1]|] eqn:Ed; [|done].
  destruct (dequeue_list j r r1 Hq Ed) as [Q1 Q2]. unfold dequeue_job in Ed. case_match; [done|].
  injection Ed as Ej <-. unfold process_job. destruct (_ && _); [|done]. intros [= <- <-]. split; [done|].
  intros i Hi. specialize (Ho i Hi). rewrite Q2 in Ho. cbn [f_slab_idx fmap list_fmap] in *. rewrite elem_of_cons in *.
  tauto.
Qed.

Lemma owned_drop r r' : flags_owned lent r → work_one true r = Some (None, r') → flags_owned lent r'.
Proof.
  intros [Hq Ho]. unfold work_one. destruct (dequeue_job r) as [[j r1]|] eqn:Ed; [|done].
  destruct (dequeue_list j r r1 Hq Ed) as [Q1 Q2]. unfold dequeue_job in Ed. case_match; [done|].
  injection Ed as Ej <-. unfold process_job. destruct (_ && _); [done|]. intros [= <-]. split; [done|].
  intros i. cbn. destruct (decide (i = j_slab_idx j)) as [->|Hne].
  { by rewrite fn_lookup_insert. }
  rewrite fn_lookup_insert_ne by done. intros Hi. specialize (Ho i Hi). rewrite Q2 in Ho.
  cbn [fmap list_fmap] in *. rewrite elem_of_cons in Ho. tauto.
Qed.

Lemma owned_release i r : 0 ≤ i < kRingSize → flags_owned (i :: lent) r → flags_owned lent (release_slab i r).
Proof.
  intros Hi [Hq Ho]. unfold release_slab. rewrite (proj2 (Z.ltb_lt _ _)) by lia. split; [done|].
  intros x. cbn. destruct (decide (x = i)) as [->|Hne]; [by rewrite fn_lookup_insert|].
  rewrite fn_lookup_insert_ne by done. intros Hx. specialize (Ho x Hx). rewrite elem_of_cons in Ho. tauto.
Qed.
End Recv.

#[export] Instance flags_owned_perm : Proper ((≡ₚ) ==> eq ==> iff) flags_owned.
Proof.
  intros l l' Hl r ? <-. split; intros [Hq Ho]; (split; [done|]); intros i Hi; [rewrite <- Hl|rewrite Hl]; by apply Ho.
Qed.

(** In every reachable state of the receiver the raised flags are accounted for. *)
Lemma flags_owned_step s s' :
  rs_inv s → flags_owned (f_slab_idx <$> rs_held s) (rs_recv s) → rstep s s' →
  flags_owned (f_slab_idx <$> rs_held s') (rs_recv s').
Proof.
  intros Hinv Ho Hst. destruct Hst as [dgram r r' held out rx Hb E|f r r' held out rx E
    |r r' held out rx E|k f r held out rx Hk]; cbn in *.
  - by eapply owned_recv.
  - by eapply owned_work.
  - by eapply owned_drop.
  - apply owned_release.
    + pose proof (Forall_lookup_1 _ _ _ _ (si_held _ Hinv) Hk) as (Hi & _). exact Hi.
    + rewrite <- fmap_cons. by rewrite <- (delete_Permutation _ _ _ Hk).
Qed.

Lemma flags_owned_reachable ring0 slab0 queue0 jitter s :
  0 < jitter ≤ kRingSize → rtc rstep (start_state ring0 slab0 queue0 jitter) s →
  flags_owned (f_slab_idx <$> rs_held s) (rs_recv s).
Proof.
  intros Hj Hs. enough (rs_inv s ∧ flags_owned (f_slab_idx <$> rs_held s) (rs_recv s)) by tauto.
  revert s Hs. apply (rtc_ind_r (λ s, rs_inv s ∧ flags_owned (f_slab_idx <$> rs_held s) (rs_recv s))).
  - split; [by apply rs_inv_start|]. split; [by vm_compute|]. done.
  - intros s1 s2 _ Hst [Hi Ho]. split; [by eapply rs_inv_step|by eapply flags_owned_step].
Qed.
