(* ===== verification/Markers.v ===== *)
(** * Markers: marker codes and marker-segment structs of packet_parser/type.hpp

    C arrays are lists of the declared length; an index outside is undefined
    behaviour ([UB]).  Structs that the C++ value-initialises start as zeros. *)
From S2P Require Import Prelude.

Definition MAX_NUM_COMPONENTS : Z := 3.
Definition MAX_DWT_LEVEL : Z := 5.

(** [#define ceildiv_int(a, b) ((a) + ((b) - 1)) / (b)] on non-negative values *)
Definition ceildiv_int (a b : Z) : Z := (a + (b - 1)) / b.

(** [enum j2kmarker] *)
Definition SOC : Z := 0xFF4F.
Definition SOT : Z := 0xFF90.
Definition SOD : Z := 0xFF93.
Definition EOC : Z := 0xFFD9.
Definition SIZ : Z := 0xFF51.
Definition CAP : Z := 0xFF50.
Definition COD : Z := 0xFF52.
Definition COC : Z := 0xFF53.
Definition QCD : Z := 0xFF5C.
Definition QCC : Z := 0xFF5D.
Definition DFS : Z := 0xFF72.
Definition ATK : Z := 0xFF79.

(** [enum DWT_direction], [enum porder] *)
Definition BOTH : Z := 1.
Definition HORZ : Z := 2.
Definition VERT : Z := 3.
Definition PCRL : Z := 3.
Definition PRCL : Z := 5.

Definition EXIT_SUCCESS : Z := 0.
Definition EXIT_FAILURE : Z := 1.

Record siz_marker := mkSiz {
  Rsiz : Z; Xsiz : Z; Ysiz : Z; XOsiz : Z; YOsiz : Z;
  XTsiz : Z; YTsiz : Z; XTOsiz : Z; YTOsiz : Z; Csiz : Z;
  Ssiz : list Z; XRsiz : list Z; YRsiz : list Z
}.

Record cod_marker := mkCod {
  cod_max_precinct : Z; cod_use_SOP : Z; cod_use_EPH : Z;
  cod_use_h_offset : Z; cod_use_v_offset : Z; cod_use_blkcoder_extension : Z;
  cod_progression_order : Z; cod_num_layers : Z; cod_mct : Z;
  cod_NL : Z; cod_cbw : Z; cod_cbh : Z; cod_cbs : Z; cod_transform : Z; cod_SSO : Z;
  cod_prw : list Z; cod_prh : list Z
}.

Record coc_marker := mkCoc {
  coc_idx : Z;
  coc_max_precinct : Z; coc_use_SOP : Z; coc_use_EPH : Z;
  coc_use_h_offset : Z; coc_use_v_offset : Z; coc_use_blkcoder_extension : Z;
  coc_progression_order : Z; coc_num_layers : Z; coc_mct : Z;
  coc_NL : Z; coc_cbw : Z; coc_cbh : Z; coc_cbs : Z; coc_transform : Z; coc_SSO : Z;
  coc_prw : list Z; coc_prh : list Z;
  coc_step_x : Z; coc_step_y : Z
}.

Record qcd_marker := mkQcd {
  qcd_type : Z; num_guard_bits : Z; exponent : list Z; mantissa : list Z
}.

Record dfs_marker := mkDfs {
  dfs_idx : Z; Idfs : Z;
  dfs_type : list Z; h_orient : list Z; v_orient : list Z;
  hor_depth : list Z; ver_depth : list Z
}.

Definition zeros (n : Z) : list Z := replicate (Z.to_nat n) 0.

Definition siz0 : siz_marker :=
  mkSiz 0 0 0 0 0 0 0 0 0 0 (zeros MAX_NUM_COMPONENTS) (zeros MAX_NUM_COMPONENTS)
    (zeros MAX_NUM_COMPONENTS).
Definition cod0 : cod_marker :=
  mkCod 0 0 0 0 0 0 0 0 0 0 0 0 0 0 0 (zeros (MAX_DWT_LEVEL + 1)) (zeros (MAX_DWT_LEVEL + 1)).
Definition coc0 : coc_marker :=
  mkCoc 0 0 0 0 0 0 0 0 0 0 0 0 0 0 0 0 (zeros (MAX_DWT_LEVEL + 1)) (zeros (MAX_DWT_LEVEL + 1)) 0 0.
Definition qcd0 : qcd_marker :=
  mkQcd 0 0 (zeros (MAX_DWT_LEVEL * 3 + 1)) (zeros (MAX_DWT_LEVEL * 3 + 1)).
Definition dfs0 : dfs_marker :=
  mkDfs 0 0 (zeros (MAX_DWT_LEVEL + 1)) (zeros (MAX_DWT_LEVEL + 1)) (zeros (MAX_DWT_LEVEL + 1))
    (zeros (MAX_DWT_LEVEL + 1)) (zeros (MAX_DWT_LEVEL + 1)).
