(* ===== verification/Structs.v ===== *)
(** * Structs: the tile / component / resolution / precinct / code-block structs
    of packet_parser/type.hpp

    Arrays in the parser's arena are lists.  The tag-tree node's [temp_val] and
    [parent] are left out: nothing reads the former, and [tag_tree_zero] nulls the
    latter right after [tag_tree_init] sets it. *)
From S2P Require Import Prelude Codestream Markers.

Record geometry := mkGeo { x0 : Z; y0 : Z; x1 : Z; y1 : Z }.

Record blk_ := mkBlk {
  blk_coord : geometry;
  blk_data : pointer;
  pass_lengths0 : Z; pass_lengths1 : Z;
  blk_length : Z;
  Scup : Z;
  modes : Z;
  blk_incl : Z; lblock : Z; blk_zbp : Z; npasses : Z; ht_plhd : Z
}.

Record tagtree_node := mkNode { val : Z; vis : Z }.

Record pband_ := mkPband {
  pb_incl : list tagtree_node;
  pb_zbp : list tagtree_node;
  pb_blk : list blk_
}.

Record prec_ := mkPrec {
  pr_pband : list pband_;
  pr_coord : geometry;
  res_num : Z;
  pr_num_bands : Z;
  ncbw : Z; ncbh : Z;
  use_SOP : Z; use_EPH : Z
}.

Record res_ := mkRes {
  band : list geometry;          (* band_ has only its coordinates; three entries *)
  res_prec : list prec_;
  res_idx : Z;
  res_coord : geometry;
  npw : Z; nph : Z;
  transform_direction : Z;
  res_num_bands : Z
}.

Record tcomp_ := mkTcomp {
  tc_res : list res_;            (* MAX_DWT_LEVEL + 1 entries *)
  tc_idx : Z;
  tc_coord : geometry;
  sub_x : Z; sub_y : Z
}.

(** [crp_status] is declared here as in the source; the frame handler's events use it. *)
Record crp_status := mkCrp { crp_c : Z; crp_r : Z; crp_p : Z }.

#[global] Instance crp_status_eq : EqDecision crp_status.
Proof. solve_decision. Defined.

Record tile_ := mkTile {
  tcomp : list tcomp_;           (* MAX_NUM_COMPONENTS entries *)
  tile_idx : Z;
  tile_coord : geometry;
  num_components : Z;
  tile_progression_order : Z;
  crp : list crp_status;
  crp_idx : Z;
  is_crp_complete : bool
}.

Section BlkSetters.
Implicit Types b : blk_.

Definition set_modes (m plhd : Z) b : blk_ :=
  mkBlk (blk_coord b) (blk_data b) (pass_lengths0 b) (pass_lengths1 b) (blk_length b) (Scup b)
    m (blk_incl b) (lblock b) (blk_zbp b) (npasses b) plhd.
Definition set_included (i z l : Z) b : blk_ :=
  mkBlk (blk_coord b) (blk_data b) (pass_lengths0 b) (pass_lengths1 b) (blk_length b) (Scup b)
    (modes b) i l z (npasses b) (ht_plhd b).
Definition set_lblock (l : Z) b : blk_ :=
  mkBlk (blk_coord b) (blk_data b) (pass_lengths0 b) (pass_lengths1 b) (blk_length b) (Scup b)
    (modes b) (blk_incl b) l (blk_zbp b) (npasses b) (ht_plhd b).
Definition set_pass0 (n : Z) b : blk_ :=
  mkBlk (blk_coord b) (blk_data b) n (pass_lengths1 b) (blk_length b) (Scup b)
    (modes b) (blk_incl b) (lblock b) (blk_zbp b) (npasses b) (ht_plhd b).
Definition set_pass1 (n : Z) b : blk_ :=
  mkBlk (blk_coord b) (blk_data b) (pass_lengths0 b) n (blk_length b) (Scup b)
    (modes b) (blk_incl b) (lblock b) (blk_zbp b) (npasses b) (ht_plhd b).
Definition set_npasses (n : Z) b : blk_ :=
  mkBlk (blk_coord b) (blk_data b) (pass_lengths0 b) (pass_lengths1 b) (blk_length b) (Scup b)
    (modes b) (blk_incl b) (lblock b) (blk_zbp b) n (ht_plhd b).
Definition set_length (n : Z) b : blk_ :=
  mkBlk (blk_coord b) (blk_data b) (pass_lengths0 b) (pass_lengths1 b) n (Scup b)
    (modes b) (blk_incl b) (lblock b) (blk_zbp b) (npasses b) (ht_plhd b).
Definition set_data (p : pointer) (sc : Z) b : blk_ :=
  mkBlk (blk_coord b) p (pass_lengths0 b) (pass_lengths1 b) (blk_length b) sc
    (modes b) (blk_incl b) (lblock b) (blk_zbp b) (npasses b) (ht_plhd b).

End BlkSetters.

Definition set_pbands (l : list pband_) (p : prec_) : prec_ :=
  mkPrec l (pr_coord p) (res_num p) (pr_num_bands p) (ncbw p) (ncbh p) (use_SOP p) (use_EPH p).
Definition set_precs (l : list prec_) (r : res_) : res_ :=
  mkRes (band r) l (res_idx r) (res_coord r) (npw r) (nph r) (transform_direction r) (res_num_bands r).
Definition set_ress (l : list res_) (t : tcomp_) : tcomp_ :=
  mkTcomp l (tc_idx t) (tc_coord t) (sub_x t) (sub_y t).
Definition set_tcomps (l : list tcomp_) (t : tile_) : tile_ :=
  mkTile l (tile_idx t) (tile_coord t) (num_components t) (tile_progression_order t) (crp t)
    (crp_idx t) (is_crp_complete t).
Definition set_crp (l : list crp_status) (b : bool) (t : tile_) : tile_ :=
  mkTile (tcomp t) (tile_idx t) (tile_coord t) (num_components t) (tile_progression_order t) l
    (crp_idx t) b.
Definition set_crp_idx (i : Z) (t : tile_) : tile_ :=
  mkTile (tcomp t) (tile_idx t) (tile_coord t) (num_components t) (tile_progression_order t) (crp t)
    i (is_crp_complete t).
