(* ===== verification/MainHeader.v ===== *)
(** * MainHeader: the marker walk of packet_parser/j2k_header.cpp

    [parse_main_header] and its per-marker parsers.  The state [hdr] is what the
    C++ functions write through their pointers plus the two file-level
    capability words.  The return codes of the per-marker parsers are computed
    but, as in the source, ignored by [parse_main_header].

    The parsers use the codestream only through its read methods, so they are
    written against the interface [Reader].  The class [codestream] implements
    it ([chain_reader]), and so does the byte string that is left to read
    ([stream_reader]), which is what the theorems compute with;
    [parse_main_header_sim] carries results from one to the other. *)
From S2P Require Import Prelude Codestream Markers.

(** ** What the parsers need of the codestream *)
Class Reader (R : Type) := {
  r_byte : R → Z * R;
  r_word : R → Z * R;
  r_dword : R → Z * R;
  r_pos : R → Z;             (* [get_pos] *)
  r_left : R → nat           (* bytes still to read (fuel only) *)
}.

#[global] Instance chain_reader (mem : memory) : Reader codestream := {
  r_byte := get_byte mem;
  r_word := get_word mem;
  r_dword := get_dword mem;
  r_pos := get_pos;
  r_left := λ cs, Z.to_nat (total_len (chunks_ cs) - pos cs)
}.

Record hdr (R : Type) := mkHdr {
  h_cs : R;
  h_siz : siz_marker;
  h_cod : cod_marker;
  h_cocs : list coc_marker;
  h_qcd : qcd_marker;
  h_dfs : dfs_marker;
  g_Ccap15 : Z;
  g_Ccap2 : Z
}.
Arguments mkHdr {R} _ _ _ _ _ _ _ _.
Arguments h_cs {R} _. Arguments h_siz {R} _. Arguments h_cod {R} _.
Arguments h_cocs {R} _. Arguments h_qcd {R} _. Arguments h_dfs {R} _.
Arguments g_Ccap15 {R} _. Arguments g_Ccap2 {R} _.

Section Fields.
Context {R : Type}.

Definition set_hcs (cs : R) (s : hdr R) : hdr R :=
  mkHdr cs (h_siz s) (h_cod s) (h_cocs s) (h_qcd s) (h_dfs s) (g_Ccap15 s) (g_Ccap2 s).
Definition set_siz (x : siz_marker) (s : hdr R) : hdr R :=
  mkHdr (h_cs s) x (h_cod s) (h_cocs s) (h_qcd s) (h_dfs s) (g_Ccap15 s) (g_Ccap2 s).
Definition set_cod (x : cod_marker) (s : hdr R) : hdr R :=
  mkHdr (h_cs s) (h_siz s) x (h_cocs s) (h_qcd s) (h_dfs s) (g_Ccap15 s) (g_Ccap2 s).
Definition set_cocs (x : list coc_marker) (s : hdr R) : hdr R :=
  mkHdr (h_cs s) (h_siz s) (h_cod s) x (h_qcd s) (h_dfs s) (g_Ccap15 s) (g_Ccap2 s).
Definition set_qcd (x : qcd_marker) (s : hdr R) : hdr R :=
  mkHdr (h_cs s) (h_siz s) (h_cod s) (h_cocs s) x (h_dfs s) (g_Ccap15 s) (g_Ccap2 s).
Definition set_dfs (x : dfs_marker) (s : hdr R) : hdr R :=
  mkHdr (h_cs s) (h_siz s) (h_cod s) (h_cocs s) (h_qcd s) x (g_Ccap15 s) (g_Ccap2 s).
Definition set_cap15 (x : Z) (s : hdr R) : hdr R :=
  mkHdr (h_cs s) (h_siz s) (h_cod s) (h_cocs s) (h_qcd s) (h_dfs s) x (g_Ccap2 s).
Definition set_cap2 (x : Z) (s : hdr R) : hdr R :=
  mkHdr (h_cs s) (h_siz s) (h_cod s) (h_cocs s) (h_qcd s) (h_dfs s) (g_Ccap15 s) x.

(** Array stores into a struct field. *)
Definition store_at {A} (l : list A) (i : Z) (x : A) : M (hdr R) (list A) :=
  match arr_set l i x with Some l' => mret l' | None => undefined end.

End Fields.

Section Header.
Context `{Reader R}.

Definition lift_cs {A} (op : R → A * R) : M (hdr R) A :=
  λ s, let '(a, cs) := op (h_cs s) in Ret (a, set_hcs cs s).
Definition rd_byte : M (hdr R) Z := lift_cs r_byte.
Definition rd_word : M (hdr R) Z := lift_cs r_word.
Definition rd_dword : M (hdr R) Z := lift_cs r_dword.

Definition bit_of (v k : Z) : Z := Z.land (Z.shiftr v k) 1.
Definition not_bit0 (v : Z) : Z := if Z.land v 1 =? 0 then 1 else 0.

(** ** SIZ *)
Definition siz_component (c : Z) : M (hdr R) unit :=
  ss ← rd_byte;
  s ← get_st;
  l ← store_at (Ssiz (h_siz s)) c ss;
  xr ← rd_byte;
  lx ← store_at (XRsiz (h_siz s)) c xr;
  yr ← rd_byte;
  ly ← store_at (YRsiz (h_siz s)) c yr;
  modify (λ s, let z := h_siz s in
    set_siz (mkSiz (Rsiz z) (Xsiz z) (Ysiz z) (XOsiz z) (YOsiz z) (XTsiz z) (YTsiz z)
               (XTOsiz z) (YTOsiz z) (Csiz z) l lx ly) s).

Definition parse_SIZ : M (hdr R) Z :=
  _len ← rd_word;
  rsiz ← rd_word;
  xs ← rd_dword; ys ← rd_dword;
  xo ← rd_dword; yo ← rd_dword;
  xt ← rd_dword; yt ← rd_dword;
  xto ← rd_dword; yto ← rd_dword;
  cs ← rd_word;
  modify (λ s, let z := h_siz s in
    set_siz (mkSiz rsiz xs ys xo yo xt yt xto yto cs (Ssiz z) (XRsiz z) (YRsiz z)) s) ;;
  if negb (cs =? 3) then mret EXIT_FAILURE else
  for_n (Z.to_nat cs) 0 siz_component ;;
  mret EXIT_SUCCESS.

(** ** COD and COC *)

(** [for (i = 0; i < n; ++i) { tmp = get_byte(); prw[i] = ..; prh[i] = ..; }] *)
Fixpoint rd_precincts (n : nat) (i : Z) (prw prh : list Z) : M (hdr R) (list Z * list Z) :=
  match n with
  | O => mret (prw, prh)
  | S n' =>
      tmp ← rd_byte;
      w ← store_at prw i (Z.land tmp 15);
      h ← store_at prh i (Z.land (Z.shiftr tmp 4) 15);
      rd_precincts n' (i + 1) w h
  end.

Definition parse_COD : M (hdr R) Z :=
  _len ← rd_word;
  v ← rd_byte;
  po ← rd_byte;
  nl ← rd_word;
  mct ← rd_byte;
  NL ← rd_byte;
  cbw ← rd_byte;
  cbh ← rd_byte;
  s ← get_st;
  let c := h_cod s in
  let cod tr cbs prw prh :=
    mkCod (not_bit0 v) (bit_of v 1) (bit_of v 2) (bit_of v 3) (bit_of v 4) (bit_of v 5)
      po nl mct NL (u8 (cbw + 2)) (u8 (cbh + 2)) cbs tr (cod_SSO c) prw prh in
  if 4 <? u8 (cbh + 2) then
    modify (set_cod (cod (cod_transform c) (cod_cbs c) (cod_prw c) (cod_prh c))) ;;
    mret EXIT_FAILURE
  else
    cbs ← rd_byte;
    tr ← rd_byte;
    (if negb (Z.land (Rsiz (h_siz s)) 16 =? 0) then _sso ← rd_word; mret () else mret ()) ;;
    pr ← rd_precincts (Z.to_nat (NL + 1)) 0 (cod_prw c) (cod_prh c);
    modify (set_cod (cod tr cbs pr.1 pr.2)) ;;
    mret EXIT_SUCCESS.

(** The element-by-element copy of the precinct sizes, [i <= NL]. *)
Fixpoint copy_arr (n : nat) (i : Z) (src dst : list Z) : M (hdr R) (list Z) :=
  match n with
  | O => mret dst
  | S n' =>
      x ← arr_get src i;
      dst' ← store_at dst i x;
      copy_arr n' (i + 1) src dst'
  end.

Definition copy_cod (k : Z) : M (hdr R) unit :=
  s ← get_st;
  let d := h_cod s in
  match h_cocs s !! Z.to_nat k with
  | None => undefined
  | Some o =>
      w ← copy_arr (Z.to_nat (cod_NL d + 1)) 0 (cod_prw d) (coc_prw o);
      h ← copy_arr (Z.to_nat (cod_NL d + 1)) 0 (cod_prh d) (coc_prh o);
      modify (λ s, set_cocs (<[Z.to_nat k :=
        mkCoc (coc_idx o) (cod_max_precinct d) (cod_use_SOP d) (cod_use_EPH d)
          (cod_use_h_offset d) (cod_use_v_offset d) (cod_use_blkcoder_extension d)
          (cod_progression_order d) (cod_num_layers d) (cod_mct d) (cod_NL d) (cod_cbw d)
          (cod_cbh d) (cod_cbs d) (cod_transform d) (cod_SSO d) w h
          (coc_step_x o) (coc_step_y o)]> (h_cocs s)) s)
  end.

(** The precinct loop of COC also tracks the smallest exponents. *)
Fixpoint rd_coc_precincts (n : nat) (i : Z) (prw prh : list Z) (sx sy : Z)
    : M (hdr R) (list Z * list Z * Z * Z) :=
  match n with
  | O => mret (prw, prh, sx, sy)
  | S n' =>
      tmp ← rd_byte;
      let x := Z.land tmp 15 in
      let y := Z.land (Z.shiftr tmp 4) 15 in
      w ← store_at prw i x;
      h ← store_at prh i y;
      rd_coc_precincts n' (i + 1) w h (if x <? sx then x else sx) (if y <? sy then y else sy)
  end.

Definition parse_COC : M (hdr R) Z :=
  l0 ← rd_word;
  let len := u16 (l0 - 2) in
  c ← rd_byte;
  s ← get_st;
  match (if c <? MAX_NUM_COMPONENTS then h_cocs s !! Z.to_nat c else None) with
  | None => undefined                     (* &cocs[v] outside the array *)
  | Some o =>
      v ← rd_byte;
      NL ← rd_byte;
      cbw ← rd_byte;
      cbh ← rd_byte;
      let coc cbs tr prw prh sx sy :=
        mkCoc c (not_bit0 v) (bit_of v 1) (bit_of v 2) (bit_of v 3) (bit_of v 4) (bit_of v 5)
          (coc_progression_order o) (coc_num_layers o) (coc_mct o)
          NL (u8 (cbw + 2)) (u8 (cbh + 2)) cbs tr (coc_SSO o) prw prh sx sy in
      let put x := modify (λ s, set_cocs (<[Z.to_nat c := x]> (h_cocs s)) s) in
      if 4 <? u8 (cbh + 2) then
        put (coc (coc_cbs o) (coc_transform o) (coc_prw o) (coc_prh o) (coc_step_x o) (coc_step_y o)) ;;
        mret EXIT_FAILURE
      else
        cbs ← rd_byte;
        tr ← rd_byte;
        (* seven single bytes were read; the SSO word is not subtracted *)
        let len := u16 (len - 7) in
        (if negb (Z.land (Rsiz (h_siz s)) 16 =? 0) then _sso ← rd_word; mret () else mret ()) ;;
        pr ← rd_coc_precincts (Z.to_nat len) 0 (coc_prw o) (coc_prh o) 16 16;
        let '(prw, prh, sx, sy) := pr in
        put (coc cbs tr prw prh sx sy) ;;
        mret EXIT_SUCCESS
  end.

(** ** DFS *)
Fixpoint rd_dfs_bits (n : nat) (bits : Z) : M (hdr R) Z :=
  match n with
  | O => mret bits
  | S n' => b ← rd_byte; rd_dfs_bits n' (Z.lor (u64 (Z.shiftl bits 8)) b)
  end.

Definition ho : list Z := [0; 0; 0; 1].
Definition vo : list Z := [0; 0; 1; 0].

(** [for (i = Idfs; i > 0; --i)] *)
Fixpoint dfs_types (i : nat) (bits : Z) (ty h v : list Z) : M (hdr R) (list Z * list Z * list Z) :=
  match i with
  | O => mret (ty, h, v)
  | S i' =>
      let t := Z.land bits 3 in
      ty' ← store_at ty (Z.of_nat i) t;
      h' ← store_at h (Z.of_nat i) (ho !!! Z.to_nat t);
      v' ← store_at v (Z.of_nat i) (vo !!! Z.to_nat t);
      dfs_types i' (Z.shiftr bits 2) ty' h' v'
  end.

(** [D = #{ l in 1..lev | !orient[l] }] *)
Fixpoint get_depth (orient : list Z) (lev : nat) : Z :=
  match lev with
  | O => 0
  | S l => get_depth orient l + (if orient !!! S l =? 0 then 1 else 0)
  end.

Fixpoint dfs_depths (n : nat) (lev : Z) (orient dst : list Z) : M (hdr R) (list Z) :=
  match n with
  | O => mret dst
  | S n' =>
      dst' ← store_at dst lev (get_depth orient (Z.to_nat lev));
      dfs_depths n' (lev + 1) orient dst'
  end.

Definition parse_DFS : M (hdr R) Z :=
  len ← rd_word;
  if len <? 5 then mret EXIT_FAILURE else
  idx ← rd_word;
  n ← rd_byte;
  bits ← rd_dfs_bits (Z.to_nat (len - 5)) 0;
  let bits := Z.shiftr bits (ceildiv_int (2 * n) 8 * 8 - 2 * n) in
  s ← get_st;
  let d := h_dfs s in
  r ← dfs_types (Z.to_nat n) bits (dfs_type d) (h_orient d) (v_orient d);
  let '(ty, h, v) := r in
  hd ← dfs_depths (Z.to_nat (n + 1)) 0 h (hor_depth d);
  vd ← dfs_depths (Z.to_nat (n + 1)) 0 v (ver_depth d);
  modify (set_dfs (mkDfs idx n ty h v hd vd)) ;;
  mret EXIT_SUCCESS.

(** ** QCD *)
Definition qcd_store (reversible : bool) (k : Z) : M (hdr R) unit :=
  if reversible then
    b ← rd_byte;
    s ← get_st;
    e ← store_at (exponent (h_qcd s)) k (Z.shiftr b 3);
    modify (set_qcd (mkQcd (qcd_type (h_qcd s)) (num_guard_bits (h_qcd s)) e (mantissa (h_qcd s))))
  else
    w ← rd_word;
    s ← get_st;
    e ← store_at (exponent (h_qcd s)) k (u8 (Z.shiftr w 11));
    m ← store_at (mantissa (h_qcd s)) k (Z.land w 0x7FF);
    modify (set_qcd (mkQcd (qcd_type (h_qcd s)) (num_guard_bits (h_qcd s)) e m)).

Definition qcd_level (reversible : bool) (i : Z) : M (hdr R) unit :=
  s ← get_st;
  t ← arr_get (dfs_type (h_dfs s)) i;
  if t =? BOTH
  then for_n 3 0 (λ b, qcd_store reversible (3 * (i - 1) + b + 1))
  else qcd_store reversible (3 * (i - 1) + 1).

Definition parse_QCD : M (hdr R) Z :=
  _len ← rd_word;
  sq ← rd_byte;
  let ty := Z.land sq 31 in
  modify (λ s, set_qcd (mkQcd ty (Z.land (Z.shiftr sq 5) 7) (exponent (h_qcd s))
                          (mantissa (h_qcd s))) s) ;;
  s ← get_st;
  let NL := if ty =? 1 then 1 else cod_NL (h_cod s) in
  qcd_store (ty =? 0) 0 ;;
  for_n (Z.to_nat NL) 1 (qcd_level (ty =? 0)) ;;
  mret EXIT_SUCCESS.

(** ** CAP and skipped markers *)
Definition skip_marker : M (hdr R) Z :=
  len ← rd_word;
  for_n (Z.to_nat (len - 2)) 0 (λ _, _b ← rd_byte; mret ()) ;;
  mret EXIT_SUCCESS.

(** The 32 capability bits; the result counts the words read. *)
Fixpoint cap_words (n : nat) (i Pcap read_words : Z) : M (hdr R) Z :=
  match n with
  | O => mret read_words
  | S n' =>
      if Z.testbit Pcap (31 - i) then
        v ← rd_word;
        (if i =? 1 then modify (set_cap2 v) else mret ()) ;;
        (if i =? 14 then modify (set_cap15 v) else mret ()) ;;
        cap_words n' (i + 1) Pcap (read_words + 1)
      else cap_words n' (i + 1) Pcap read_words
  end.

Definition parse_CAP : M (hdr R) Z :=
  Lcap ← rd_word;
  Pcap ← rd_dword;
  let expected_words := if 6 <=? Lcap then (Lcap - 6) / 2 else 0 in
  read_words ← cap_words 32 0 Pcap 0;
  for_n (Z.to_nat (expected_words - read_words)) 0 (λ _, _w ← rd_word; mret ()) ;;
  mret EXIT_SUCCESS.

(** ** The walk *)
Definition marker_segment (marker : Z) : M (hdr R) Z :=
  if marker =? SIZ then parse_SIZ
  else if marker =? CAP then parse_CAP
  else if marker =? COD then
    ret ← parse_COD;
    copy_cod 0 ;; copy_cod 1 ;; copy_cod 2 ;; mret ret
  else if marker =? QCD then parse_QCD
  else if marker =? COC then parse_COC
  else if marker =? DFS then parse_DFS
  else skip_marker.

(** [while ((marker = get_word()) != SOD)]; [false] is the lost-framing exit. *)
Fixpoint header_loop (fuel : nat) : M (hdr R) bool :=
  match fuel with
  | O => out_of_fuel
  | S fuel' =>
      marker ← rd_word;
      if marker =? SOD then mret true
      else if negb (Z.land marker 0xFF00 =? 0xFF00) || (marker =? EOC) then mret false
      else _ret ← marker_segment marker; header_loop fuel'
  end.

(** Each accepted marker takes at least one byte ([header_loop_fuel]), so the
    number of bytes left bounds the rounds. *)
Definition header_fuel (s : hdr R) : nat := S (r_left (h_cs s)).

Definition parse_main_header : M (hdr R) Z :=
  w ← rd_word;
  if negb (w =? SOC) then mret 0 else
  modify (set_cap15 0) ;;
  modify (set_cap2 0) ;;
  s ← get_st;
  ok ← header_loop (header_fuel s);
  if ok : bool then s ← get_st; mret (r_pos (h_cs s)) else mret 0.

End Header.

Definition get_Ccap15 {R} (s : hdr R) : Z := g_Ccap15 s.

(** ** The byte string still to be read, as a reader *)
Record stream := mkStream { rem : list Z; rpos : Z }.

Definition s_byte (t : stream) : Z * stream :=
  match rem t with
  | [] => (0, t)
  | b :: l => (b, mkStream l (rpos t + 1))
  end.
Definition s_word (t : stream) : Z * stream :=
  let '(hi, t) := s_byte t in
  let '(lo, t) := s_byte t in
  (hi * 256 + lo, t).
Definition s_dword (t : stream) : Z * stream :=
  let '(hi, t) := s_word t in
  let '(lo, t) := s_word t in
  (hi * 65536 + lo, t).

#[global] Instance stream_reader : Reader stream := {
  r_byte := s_byte;
  r_word := s_word;
  r_dword := s_dword;
  r_pos := λ t, u32 (rpos t);
  r_left := λ t, length (rem t)
}.

(** The chain and the stream stand at the same place. *)
Record at_stream (mem : memory) (cs : codestream) (t : stream) : Prop := {
  as_wf : wf cs;
  as_rem : rem t = drop (Z.to_nat (pos cs)) (flat_bytes mem (chunks_ cs));
  as_pos : rpos t = pos cs
}.

Section Simulation.
Context (mem : memory) (Hmem : byte_memory mem).

Lemma at_stream_byte cs t :
  at_stream mem cs t →
  (get_byte mem cs).1 = (s_byte t).1 ∧ at_stream mem (get_byte mem cs).2 (s_byte t).2.
Proof.
  intros [Hwf Hr Hp]. destruct (get_byte_spec mem cs Hwf) as (H1 & M1 & E1).
  destruct (get_byte mem cs) as [b cs']; cbn [fst snd] in *.
  unfold f_get_byte in E1. rewrite (f_size_abs _ _ (wf_cur _ Hwf)) in E1. cbn [abs f_pos f_bytes] in E1.
  pose proof (length_flat_bytes mem _ (wf_nonempty _ (wf_cur _ Hwf))) as Hlen.
  pose proof (wf_cur _ Hwf) as [Hne _ Hc Ho _].
  pose proof (total_len_nonneg _ (Forall_take _ (cur_chunk_ cs) _ Hne)).
  assert (0 ≤ pos cs) by (unfold pos; lia).
  pose proof (f_equal fst E1) as Eb. pose proof (f_equal (λ r, f_pos r.2) E1) as Ep.
  change (f_pos (b, abs mem cs').2) with (pos cs') in Ep.
  unfold s_byte. destruct (Z.ltb_spec (pos cs) (total_len (chunks_ cs))); simpl in Eb, Ep.
  - destruct (lookup_lt_is_Some_2 (flat_bytes mem (chunks_ cs)) (Z.to_nat (pos cs))) as [x Hx]; [lia|].
    rewrite Hr, (drop_S _ _ _ Hx), Eb. cbn [fst snd]. rewrite (list_lookup_total_correct _ _ _ Hx).
    split; [done|]. split; cbn [rem rpos]; [done| |lia].
    rewrite (mv_chunks _ _ M1), Ep. f_equal. lia.
  - rewrite drop_ge in Hr by lia. rewrite Hr. cbn [fst snd].
    split; [done|]. split; [done| |by rewrite Ep].
    rewrite Ep, (mv_chunks _ _ M1), Hr, drop_ge by lia. done.
Qed.

Lemma at_stream_word cs t :
  at_stream mem cs t →
  (get_word mem cs).1 = (s_word t).1 ∧ at_stream mem (get_word mem cs).2 (s_word t).2.
Proof.
  intros H. destruct (at_stream_byte cs t H) as [E1 H1].
  pose proof (get_byte_range mem cs Hmem) as R1. unfold get_word, s_word.
  destruct (get_byte mem cs) as [hi cs1], (s_byte t) as [hi' t1]; cbn [fst snd] in *. subst hi'.
  destruct (at_stream_byte cs1 t1 H1) as [E2 H2]. pose proof (get_byte_range mem cs1 Hmem) as R2.
  destruct (get_byte mem cs1) as [lo cs2], (s_byte t1) as [lo' t2]; cbn [fst snd] in *. subst lo'.
  split; [|done]. unfold is_byte in *.
  rewrite u16_small by (rewrite Z.shiftl_mul_pow2 by lia; lia). by apply (shiftl_lor_byte hi lo 8).
Qed.

Lemma at_stream_dword cs t :
  at_stream mem cs t →
  (get_dword mem cs).1 = (s_dword t).1 ∧ at_stream mem (get_dword mem cs).2 (s_dword t).2.
Proof.
  intros H. destruct (at_stream_word cs t H) as [E1 H1].
  pose proof (get_word_range mem cs Hmem) as R1. unfold get_dword, s_dword.
  destruct (get_word mem cs) as [hi cs1], (s_word t) as [hi' t1]; cbn [fst snd] in *. subst hi'.
  destruct (at_stream_word cs1 t1 H1) as [E2 H2]. pose proof (get_word_range mem cs1 Hmem) as R2.
  destruct (get_word mem cs1) as [lo cs2], (s_word t1) as [lo' t2]; cbn [fst snd] in *. subst lo'.
  split; [|done].
  rewrite u32_small by (rewrite Z.shiftl_mul_pow2 by lia; lia). by apply (shiftl_lor_byte hi lo 16).
Qed.

(** *** Simulation of whole computations *)
Definition swap_cs {R R'} (c : R') (s : hdr R) : hdr R' :=
  mkHdr c (h_siz s) (h_cod s) (h_cocs s) (h_qcd s) (h_dfs s) (g_Ccap15 s) (g_Ccap2 s).

Definition hdr_rel (s : hdr codestream) (t : hdr stream) : Prop :=
  at_stream mem (h_cs s) (h_cs t) ∧ t = swap_cs (h_cs t) s.

Definition sim {A} (m : M (hdr codestream) A) (n : M (hdr stream) A) : Prop :=
  ∀ s t, hdr_rel s t →
  match m s, n t with
  | Ret (a, s'), Ret (b, t') => a = b ∧ hdr_rel s' t'
  | UB, UB => True
  | NoFuel, NoFuel => True
  | _, _ => False
  end.

Lemma sim_ret {A} (a : A) : sim (mret a) (mret a).
Proof. by intros s t H. Qed.
Lemma sim_ub {A} : sim (undefined (A := A)) undefined.
Proof. done. Qed.
Lemma sim_nofuel {A} : sim (out_of_fuel (A := A)) out_of_fuel.
Proof. done. Qed.
Lemma sim_bind {A B} (m : M _ A) (n : M _ A) (k : A → M _ B) (l : A → M _ B) :
  sim m n → (∀ a, sim (k a) (l a)) → sim (m ≫= k) (n ≫= l).
Proof.
  intros Hm Hk s t H. specialize (Hm s t H). unfold mbind, M_bind.
  destruct (m s) as [[a s']| |], (n t) as [[b t']| |]; try done.
  destruct Hm as [-> Hr]. by apply Hk.
Qed.
(** Reading the state: the two sides agree on everything but the reader. *)
Lemma sim_get {B} (k : hdr codestream → M _ B) (l : hdr stream → M _ B) :
  (∀ s c, sim (k s) (l (swap_cs c s))) → sim (get_st ≫= k) (get_st ≫= l).
Proof.
  intros Hk s t [Ha Ht]. pose proof (Hk s (h_cs t) s t (conj Ha Ht)) as H.
  rewrite <- Ht in H. exact H.
Qed.
Lemma sim_modify f g :
  (∀ s c, g (swap_cs c s) = swap_cs c (f s)) → (∀ s, h_cs (f s) = h_cs s) →
  sim (modify f) (modify g).
Proof.
  intros Hfg Hf s t [Ha Ht]. split; [done|]. rewrite Ht, Hfg. split; [|done].
  cbn [swap_cs h_cs]. by rewrite Hf.
Qed.
Lemma sim_lift {A} (op : codestream → A * codestream) (op' : stream → A * stream) :
  (∀ cs t, at_stream mem cs t → (op cs).1 = (op' t).1 ∧ at_stream mem (op cs).2 (op' t).2) →
  sim (lift_cs op) (lift_cs op').
Proof.
  intros Hop s t [Ha Ht]. unfold lift_cs. destruct (Hop _ _ Ha) as [E1 E2].
  destruct (op (h_cs s)) as [a cs'], (op' (h_cs t)) as [b t']. simpl in *. split; [done|].
  split; [done|]. by rewrite Ht.
Qed.
Lemma sim_for_n n lo b c : (∀ i, sim (b i) (c i)) → sim (for_n n lo b) (for_n n lo c).
Proof.
  intros Hb. revert lo. induction n as [|n IH]; intros lo; cbn [for_n].
  - apply sim_ret.
  - apply sim_bind; [done|]. intros _. apply IH.
Qed.
Lemma sim_store_at {A} (l : list A) i x : sim (store_at l i x) (store_at l i x).
Proof. unfold store_at. destruct (arr_set l i x); [apply sim_ret|apply sim_ub]. Qed.
Lemma sim_arr_get l i : sim (arr_get l i) (arr_get l i).
Proof. unfold arr_get. case_match; [apply sim_ret|apply sim_ub]. Qed.
Lemma sim_byte : sim (rd_byte (H := chain_reader mem)) rd_byte.
Proof. apply sim_lift. intros cs t. apply at_stream_byte. Qed.
Lemma sim_word : sim (rd_word (H := chain_reader mem)) rd_word.
Proof. apply sim_lift. intros cs t. apply at_stream_word. Qed.
Lemma sim_dword : sim (rd_dword (H := chain_reader mem)) rd_dword.
Proof. apply sim_lift. intros cs t. apply at_stream_dword. Qed.

(** One step of a simulation proof, by the shape of the computation. *)
Ltac sim_step :=
  lazymatch goal with
  | |- sim (get_st ≫= _) _ => apply sim_get; intros ??; cbn [swap_cs h_siz h_cod h_cocs h_qcd h_dfs]
  | |- sim (_ ≫= _) _ => apply sim_bind; [|intros ?]
  | |- sim (mret _) _ => apply sim_ret
  | |- sim undefined _ => apply sim_ub
  | |- sim (store_at _ _ _) _ => apply sim_store_at
  | |- sim (arr_get _ _) _ => apply sim_arr_get
  | |- sim rd_byte _ => apply sim_byte
  | |- sim rd_word _ => apply sim_word
  | |- sim rd_dword _ => apply sim_dword
  | |- sim (modify _) _ => apply sim_modify; intros; reflexivity
  | |- sim (for_n _ _ _) _ => apply sim_for_n; intros ?
  | |- sim (if ?b then _ else _) _ => destruct b
  | |- sim (match ?x with _ => _ end) _ => destruct x
  | |- sim (let '(_, _) := ?x in _) _ => destruct x
  end.
Ltac sim_solve := cbn zeta; repeat (sim_step; cbn zeta).

Lemma sim_precincts n i w h : sim (rd_precincts (H := chain_reader mem) n i w h) (rd_precincts n i w h).
Proof. revert i w h. induction n as [|n IH]; intros; cbn [rd_precincts]; sim_solve. apply IH. Qed.
Lemma sim_coc_precincts n i w h x y :
  sim (rd_coc_precincts (H := chain_reader mem) n i w h x y) (rd_coc_precincts n i w h x y).
Proof.
  revert i w h x y. induction n as [|n IH]; intros; cbn [rd_coc_precincts]; sim_solve. apply IH.
Qed.
Lemma sim_copy_arr n i a b : sim (copy_arr n i a b) (copy_arr n i a b).
Proof. revert i b. induction n as [|n IH]; intros; cbn [copy_arr]; sim_solve. apply IH. Qed.
Lemma sim_dfs_bits n b : sim (rd_dfs_bits (H := chain_reader mem) n b) (rd_dfs_bits n b).
Proof. revert b. induction n as [|n IH]; intros; cbn [rd_dfs_bits]; sim_solve. apply IH. Qed.
Lemma sim_dfs_types i b x y z : sim (dfs_types i b x y z) (dfs_types i b x y z).
Proof. revert b x y z. induction i as [|i IH]; intros; cbn [dfs_types]; sim_solve. apply IH. Qed.
Lemma sim_dfs_depths n i a b : sim (dfs_depths n i a b) (dfs_depths n i a b).
Proof. revert i b. induction n as [|n IH]; intros; cbn [dfs_depths]; sim_solve. apply IH. Qed.
Lemma sim_cap_words n i p k : sim (cap_words (H := chain_reader mem) n i p k) (cap_words n i p k).
Proof.
  revert i k. induction n as [|n IH]; intros; cbn [cap_words]; sim_solve; apply IH.
Qed.

Lemma sim_marker_segment m : sim (marker_segment (H := chain_reader mem) m) (marker_segment m).
Proof.
  unfold marker_segment, parse_SIZ, siz_component, parse_CAP, parse_COD, copy_cod, parse_QCD,
    qcd_level, qcd_store, parse_COC, parse_DFS, skip_marker.
  sim_solve; first [apply sim_precincts | apply sim_coc_precincts | apply sim_copy_arr
    | apply sim_dfs_bits | apply sim_dfs_types | apply sim_dfs_depths | apply sim_cap_words | idtac].
Qed.

Lemma sim_header_loop n : sim (header_loop (H := chain_reader mem) n) (header_loop n).
Proof.
  induction n as [|n IH]; cbn [header_loop]; [apply sim_nofuel|].
  sim_solve; [apply sim_marker_segment|apply IH].
Qed.

(** The reader's own observations, inside a computation. *)
Lemma sim_observe {A B} (f : codestream → A) (g : stream → A) (k : A → M _ B) (l : A → M _ B) :
  (∀ cs t, at_stream mem cs t → f cs = g t) → (∀ a, sim (k a) (l a)) →
  sim (s ← get_st; k (f (h_cs s))) (t ← get_st; l (g (h_cs t))).
Proof.
  intros Hfg Hk s t [Ha Ht]. unfold mbind, M_bind, get_st. rewrite (Hfg _ _ Ha).
  by apply Hk.
Qed.

End Simulation.

Lemma at_stream_left mem cs t :
  at_stream mem cs t → Z.to_nat (total_len (chunks_ cs) - pos cs) = length (rem t).
Proof.
  intros [Hwf -> _]. rewrite length_drop.
  pose proof (length_flat_bytes mem _ (wf_nonempty _ (wf_cur _ Hwf))).
  pose proof (wf_cur _ Hwf) as [Hne _ Hc Ho _].
  pose proof (total_len_nonneg _ (Forall_take _ (cur_chunk_ cs) _ Hne)).
  assert (0 ≤ pos cs) by (unfold pos; lia). lia.
Qed.

Lemma sim_parse_main_header mem :
  byte_memory mem →
  sim mem (parse_main_header (H := chain_reader mem)) parse_main_header.
Proof.
  intros Hm. unfold parse_main_header. apply sim_bind; [by apply sim_word|intros w].
  case_match; [apply sim_ret|].
  apply sim_bind; [by apply sim_modify|intros _]. apply sim_bind; [by apply sim_modify|intros _].
  unfold header_fuel.
  apply (sim_observe mem r_left r_left
    (λ n, ok ← header_loop (S n); if ok : bool then s ← get_st; mret (r_pos (h_cs s)) else mret 0)
    (λ n, ok ← header_loop (S n); if ok : bool then s ← get_st; mret (r_pos (h_cs s)) else mret 0)).
  { intros cs t Ht. by apply (at_stream_left mem). }
  intros n. apply sim_bind; [by apply sim_header_loop|]. intros []; [|apply sim_ret].
  apply (sim_observe mem r_pos r_pos (λ p, mret p) (λ p, mret p)); [|intros; apply sim_ret].
  intros cs t Ht. cbn [r_pos chain_reader stream_reader]. unfold get_pos. f_equal.
  by rewrite (as_pos _ _ _ Ht).
Qed.
