(* ===== verification/HeaderSpec.v ===== *)
(** * HeaderSpec: what [parse_main_header] guarantees

    Three layers on top of [MainHeader]: the lengths of the arrays of the tables the
    parser fills (their value ranges are in HeaderTypes), with termination of the marker walk on every input; an encoder of
    main headers (marker segments as data, their bytes, and what each one means
    for the tables); and the round trip, that parsing the encoding of any valid
    sequence of segments fills the tables with exactly what the segments say and
    stops right after SOD. *)
From S2P Require Import Prelude Codestream Markers MainHeader.

(** ** The arrays keep their declared length; the reader never moves back *)
Record tables_wf {R} (s : hdr R) : Prop := {
  tw_Ssiz : length (Ssiz (h_siz s)) = 3%nat;
  tw_XRsiz : length (XRsiz (h_siz s)) = 3%nat;
  tw_YRsiz : length (YRsiz (h_siz s)) = 3%nat;
  tw_cod : length (cod_prw (h_cod s)) = 6%nat ∧ length (cod_prh (h_cod s)) = 6%nat;
  tw_cocs : length (h_cocs s) = 3%nat;
  tw_coc : Forall (λ o, length (coc_prw o) = 6%nat ∧ length (coc_prh o) = 6%nat) (h_cocs s);
  tw_qcd : length (exponent (h_qcd s)) = 16%nat ∧ length (mantissa (h_qcd s)) = 16%nat;
  tw_dfs : length (dfs_type (h_dfs s)) = 6%nat ∧ length (h_orient (h_dfs s)) = 6%nat
           ∧ length (v_orient (h_dfs s)) = 6%nat ∧ length (hor_depth (h_dfs s)) = 6%nat
           ∧ length (ver_depth (h_dfs s)) = 6%nat
}.

Section Keeps.
Context `{Reader R}.

(** A read takes at most what is left, and never adds to it. *)
Class ReaderLaws : Prop := {
  byte_left r : (r_left (r_byte r).2 ≤ r_left r)%nat;
  word_left r : (r_left (r_word r).2 ≤ r_left r)%nat;
  dword_left r : (r_left (r_dword r).2 ≤ r_left r)%nat;
  word_nonzero r : (r_word r).1 ≠ 0 → (r_left (r_word r).2 < r_left r)%nat
}.
Context `{ReaderLaws}.

Definition keeps {A} (m : M (hdr R) A) (Q : A → Prop) : Prop :=
  ∀ s, tables_wf s →
  match m s with
  | Ret (a, s') => tables_wf s' ∧ (r_left (h_cs s') ≤ r_left (h_cs s))%nat ∧ Q a
  | UB => True
  | NoFuel => False
  end.

Lemma keeps_ret {A} (a : A) (Q : A → Prop) : Q a → keeps (mret a) Q.
Proof. by intros HQ s Hs. Qed.
Lemma keeps_ub {A} (Q : A → Prop) : keeps undefined Q.
Proof. by intros s Hs. Qed.
Lemma keeps_bind {A B} (m : M _ A) (k : A → M _ B) (P : A → Prop) (Q : B → Prop) :
  keeps m P → (∀ a, P a → keeps (k a) Q) → keeps (m ≫= k) Q.
Proof.
  intros Hm Hk s Hs. specialize (Hm s Hs). unfold mbind, M_bind.
  destruct (m s) as [[a s']| |]; [|done|done]. destruct Hm as (Hs' & Hl & Ha).
  specialize (Hk a Ha s' Hs'). destruct (k a s') as [[b s'']| |]; [|done|done].
  destruct Hk as (? & ? & ?). split_and!; [done|lia|done].
Qed.
Lemma keeps_get {B} (k : hdr R → M _ B) (Q : B → Prop) :
  (∀ s, tables_wf s → keeps (k s) Q) → keeps (get_st ≫= k) Q.
Proof. intros Hk s Hs. by apply Hk. Qed.
Lemma keeps_modify f :
  (∀ s, tables_wf s → tables_wf (f s)) → (∀ s, h_cs (f s) = h_cs s) →
  keeps (modify f) (λ _, True).
Proof. intros Hf Hc s Hs. cbn. rewrite Hc. split_and!; [by apply Hf|done|done]. Qed.
Lemma keeps_lift {A} (op : R → A * R) :
  (∀ r, (r_left (op r).2 ≤ r_left r)%nat) → keeps (lift_cs op) (λ _, True).
Proof.
  intros Hop s [] . unfold lift_cs. specialize (Hop (h_cs s)). destruct (op (h_cs s)) as [a c].
  split_and!; [by split|done|done].
Qed.
Lemma keeps_byte : keeps rd_byte (λ _, True).
Proof. apply keeps_lift, byte_left. Qed.
Lemma keeps_word : keeps rd_word (λ _, True).
Proof. apply keeps_lift, word_left. Qed.
Lemma keeps_dword : keeps rd_dword (λ _, True).
Proof. apply keeps_lift, dword_left. Qed.
Lemma keeps_for_n n lo b : (∀ i, keeps (b i) (λ _, True)) → keeps (for_n n lo b) (λ _, True).
Proof.
  intros Hb. revert lo. induction n as [|n IH]; intros lo; cbn [for_n]; [by apply keeps_ret|].
  eapply keeps_bind; [apply Hb|]. intros _ _. apply IH.
Qed.
Lemma keeps_store {A} (l : list A) i x : keeps (store_at l i x) (λ l', length l' = length l).
Proof.
  unfold store_at. destruct (arr_set l i x) eqn:E; [|apply keeps_ub].
  apply keeps_ret. by eapply arr_set_length.
Qed.
Lemma keeps_arr_get l i : keeps (arr_get l i) (λ _, True).
Proof. unfold arr_get. case_match; [by apply keeps_ret|apply keeps_ub]. Qed.

Ltac keep_step :=
  lazymatch goal with
  | |- keeps (get_st ≫= _) _ => apply keeps_get; intros ?s ?Hs; cbn beta
  | |- keeps (rd_byte ≫= _) _ => eapply keeps_bind; [apply keeps_byte|intros ? _]
  | |- keeps (rd_word ≫= _) _ => eapply keeps_bind; [apply keeps_word|intros ? _]
  | |- keeps (rd_dword ≫= _) _ => eapply keeps_bind; [apply keeps_dword|intros ? _]
  | |- keeps (store_at _ _ _ ≫= _) _ => eapply keeps_bind; [apply keeps_store|intros ? ?; cbn beta in *]
  | |- keeps (arr_get _ _ ≫= _) _ => eapply keeps_bind; [apply keeps_arr_get|intros ? _]
  | |- keeps (for_n _ _ _ ≫= _) _ => eapply keeps_bind; [apply keeps_for_n; intros ?|intros ? _]
  | |- keeps (modify _ ≫= _) _ => eapply keeps_bind; [apply keeps_modify; [|done]|intros ? _]
  | |- keeps (modify _) _ => apply keeps_modify; [|done]
  | |- keeps (for_n _ _ _) _ => apply keeps_for_n; intros ?
  | |- keeps (mret _) _ => apply keeps_ret; try done
  | |- keeps undefined _ => apply keeps_ub
  | |- keeps (if ?b then _ else _) _ => destruct b
  end.
Ltac keep_solve := cbn zeta; repeat (keep_step; cbn zeta).
(** [tables_wf] of an updated state, from the lengths in the context. *)
Ltac tables_solve :=
  let s := fresh "s" in let H := fresh "H" in
  intros s H; destruct H; repeat match goal with H : tables_wf _ |- _ => destruct H end;
  destruct_and?; split; cbn; try done; repeat split; try congruence.

Lemma keeps_siz_component c : keeps (siz_component c) (λ _, True).
Proof. unfold siz_component. keep_solve. tables_solve. Qed.
Lemma keeps_parse_SIZ : keeps parse_SIZ (λ _, True).
Proof. unfold parse_SIZ. keep_solve; [tables_solve|apply keeps_siz_component]. Qed.

Lemma keeps_precincts n i w h :
  keeps (rd_precincts n i w h) (λ r, length r.1 = length w ∧ length r.2 = length h).
Proof.
  revert i w h. induction n as [|n IH]; intros; cbn [rd_precincts]; keep_solve.
  match goal with H : length ?x = length w, H' : length ?y = length h |- _ => rewrite <- H, <- H' end.
  apply IH.
Qed.
Lemma keeps_coc_precincts n i w h x y :
  keeps (rd_coc_precincts n i w h x y)
    (λ r, length r.1.1.1 = length w ∧ length r.1.1.2 = length h).
Proof.
  revert i w h x y. induction n as [|n IH]; intros; cbn [rd_coc_precincts]; keep_solve.
  match goal with H : length ?x = length w, H' : length ?y = length h |- _ => rewrite <- H, <- H' end.
  apply IH.
Qed.
Lemma keeps_copy_arr n i a b : keeps (copy_arr n i a b) (λ r, length r = length b).
Proof.
  revert i b. induction n as [|n IH]; intros; cbn [copy_arr]; keep_solve.
  match goal with H : length ?x = length b |- _ => rewrite <- H end. apply IH.
Qed.

Lemma keeps_parse_COD : keeps parse_COD (λ _, True).
Proof.
  unfold parse_COD. keep_solve; [tables_solve|].
  eapply (keeps_bind _ _ (λ _, True)); [keep_solve|intros _ _].
  eapply keeps_bind; [apply keeps_precincts|]. intros [w h] [Hw Hh]; cbn in Hw, Hh.
  keep_solve. tables_solve.
Qed.

Lemma Forall_insert_keep {A} (P : A → Prop) (l : list A) i x : P x → Forall P l → Forall P (<[i:=x]> l).
Proof. intros Hx Hl. by apply Forall_insert. Qed.

Lemma keeps_copy_cod k : keeps (copy_cod k) (λ _, True).
Proof.
  unfold copy_cod. keep_solve. destruct (h_cocs s !! Z.to_nat k) as [o|] eqn:Ho; [|apply keeps_ub].
  destruct (Forall_lookup_1 _ _ _ _ (tw_coc _ Hs) Ho).
  eapply keeps_bind; [apply keeps_copy_arr|]. intros w Hw; cbn beta in Hw.
  eapply keeps_bind; [apply keeps_copy_arr|]. intros h Hh; cbn beta in Hh. keep_solve.
  intros s' []. split; cbn; try done; [by rewrite length_insert|].
  apply Forall_insert_keep; [|done]. simpl. lia.
Qed.

Lemma keeps_parse_COC : keeps parse_COC (λ _, True).
Proof.
  unfold parse_COC. keep_solve.
  destruct (if _ <? _ then _ else _) as [o|] eqn:Ho; [|apply keeps_ub].
  assert (length (coc_prw o) = 6%nat ∧ length (coc_prh o) = 6%nat) as [Hw Hh].
  { case_match; [|done]. by apply (Forall_lookup_1 _ _ _ _ (tw_coc _ Hs) Ho). }
  keep_solve.
  - intros s' []. split; cbn; try done; [by rewrite length_insert|]. by apply Forall_insert_keep.
  - eapply (keeps_bind _ _ (λ _, True)); [keep_solve|intros _ _].
    eapply keeps_bind; [apply keeps_coc_precincts|]. intros [[[w h] x] y] [Hw' Hh']; cbn in Hw', Hh'.
    keep_solve. intros s' []. split; cbn; try done; [by rewrite length_insert|].
    apply Forall_insert_keep; [|done]. simpl. lia.
Qed.

Lemma keeps_dfs_bits n b : keeps (rd_dfs_bits n b) (λ _, True).
Proof. revert b. induction n as [|n IH]; intros; cbn [rd_dfs_bits]; keep_solve. apply IH. Qed.
Lemma keeps_dfs_types i b x y z :
  keeps (dfs_types i b x y z)
    (λ r, length r.1.1 = length x ∧ length r.1.2 = length y ∧ length r.2 = length z).
Proof.
  revert b x y z. induction i as [|i IH]; intros; cbn [dfs_types]; keep_solve.
  match goal with H : length ?a = length x, H' : length ?b = length y, H'' : length ?c = length z
    |- _ => rewrite <- H, <- H', <- H'' end. apply IH.
Qed.
Lemma keeps_dfs_depths n i a b : keeps (dfs_depths n i a b) (λ r, length r = length b).
Proof.
  revert i b. induction n as [|n IH]; intros; cbn [dfs_depths]; keep_solve.
  match goal with H : length ?x = length b |- _ => rewrite <- H end. apply IH.
Qed.
Lemma keeps_parse_DFS : keeps parse_DFS (λ _, True).
Proof.
  unfold parse_DFS. keep_solve. eapply keeps_bind; [apply keeps_dfs_bits|intros bits _].
  keep_solve. eapply keeps_bind; [apply keeps_dfs_types|].
  intros [[ty h] v] (? & ? & ?); cbn in *.
  eapply keeps_bind; [apply keeps_dfs_depths|]. intros hd Hhd; cbn beta in Hhd.
  eapply keeps_bind; [apply keeps_dfs_depths|]. intros vd Hvd; cbn beta in Hvd.
  keep_solve. tables_solve.
Qed.

Lemma keeps_qcd_store b k : keeps (qcd_store b k) (λ _, True).
Proof. unfold qcd_store. keep_solve; tables_solve. Qed.
Lemma keeps_parse_QCD : keeps parse_QCD (λ _, True).
Proof.
  unfold parse_QCD. keep_solve; [tables_solve|].
  eapply (keeps_bind _ _ (λ _, True)); [apply keeps_qcd_store|intros _ _].
  keep_solve. unfold qcd_level. keep_solve; apply keeps_qcd_store.
Qed.

Lemma keeps_cap_words n i p k : keeps (cap_words n i p k) (λ _, True).
Proof.
  revert i k. induction n as [|n IH]; intros; cbn [cap_words]; keep_solve; [|apply IH].
  eapply (keeps_bind _ _ (λ _, True)); [keep_solve; tables_solve|intros _ _].
  eapply (keeps_bind _ _ (λ _, True)); [keep_solve; tables_solve|intros _ _]. apply IH.
Qed.
Lemma keeps_parse_CAP : keeps parse_CAP (λ _, True).
Proof.
  unfold parse_CAP. keep_solve. eapply keeps_bind; [apply keeps_cap_words|intros ? _]. keep_solve.
Qed.
Lemma keeps_skip_marker : keeps skip_marker (λ _, True).
Proof. unfold skip_marker. keep_solve. Qed.

Lemma keeps_marker_segment m : keeps (marker_segment m) (λ _, True).
Proof.
  unfold marker_segment. repeat case_match; auto using keeps_parse_SIZ, keeps_parse_CAP,
    keeps_parse_QCD, keeps_parse_COC, keeps_parse_DFS, keeps_skip_marker.
  eapply keeps_bind; [apply keeps_parse_COD|intros r _].
  do 3 (eapply keeps_bind; [apply keeps_copy_cod|intros _ _]). by apply keeps_ret.
Qed.

(** Every round of the walk that goes on has consumed a byte: the number of
    bytes left is enough fuel. *)
Lemma header_loop_fuel fuel s :
  tables_wf s → (r_left (h_cs s) < fuel)%nat →
  match header_loop fuel s with
  | Ret (_, s') => tables_wf s' ∧ (r_left (h_cs s') ≤ r_left (h_cs s))%nat
  | UB => True
  | NoFuel => False
  end.
Proof.
  revert s. induction fuel as [|fuel IH]; intros s Hs Hf; [lia|]. cbn [header_loop].
  pose proof (keeps_word s Hs) as Hw. pose proof (word_nonzero (h_cs s)) as Hz.
  unfold mbind, M_bind in *. unfold rd_word, lift_cs in *.
  destruct (r_word (h_cs s)) as [w c]. destruct Hw as (Hs1 & Hl1 & _). cbn [snd fst] in Hz.
  destruct (Z.eqb_spec w SOD); [by split|].
  destruct (_ || _) eqn:Hbad; [by split|].
  pose proof (keeps_marker_segment w _ Hs1) as Hm.
  destruct (marker_segment w (set_hcs c s)) as [[r s2]| |]; [|done|done].
  destruct Hm as (Hs2 & Hl2 & _). cbn [h_cs set_hcs] in *.
  assert (w ≠ 0) as Hw0 by (intros ->; done). specialize (Hz Hw0).
  specialize (IH s2 Hs2 ltac:(lia)). destruct (header_loop fuel s2) as [[r' s3]| |]; [|done|done].
  destruct IH. split; [done|lia].
Qed.

Lemma keeps_header : keeps (s ← get_st; header_loop (header_fuel s)) (λ _, True).
Proof.
  intros s Hs. pose proof (header_loop_fuel (header_fuel s) s Hs ltac:(unfold header_fuel; lia)) as Hl.
  change ((s ← get_st; header_loop (header_fuel s)) s) with (header_loop (header_fuel s) s).
  destruct (header_loop (header_fuel s) s) as [[r s']| |]; [|done|done]. by destruct Hl.
Qed.

Lemma parse_main_header_keeps : keeps parse_main_header (λ _, True).
Proof.
  unfold parse_main_header. keep_step. keep_step; [by apply keeps_ret|].
  keep_step; [tables_solve|]. keep_step; [tables_solve|].
  enough (keeps (ok ← (s ← get_st; header_loop (header_fuel s));
    if ok : bool then s ← get_st; mret (r_pos (h_cs s)) else mret 0) (λ _, True)) as Hk by apply Hk.
  eapply keeps_bind; [apply keeps_header|intros ok _]. keep_solve.
Qed.

End Keeps.
Arguments ReaderLaws R {_}.

(** Both readers satisfy the laws the invariant rests on. *)
Lemma s_byte_left t : (length (rem (s_byte t).2) ≤ length (rem t))%nat
  ∧ ((s_byte t).1 ≠ 0 → (length (rem (s_byte t).2) < length (rem t))%nat).
Proof. unfold s_byte. destruct (rem t) as [|b l] eqn:E; simpl; rewrite ?E; simpl; lia. Qed.

Lemma s_word_left t : (length (rem (s_word t).2) ≤ length (rem t))%nat
  ∧ ((s_word t).1 ≠ 0 → (length (rem (s_word t).2) < length (rem t))%nat).
Proof.
  unfold s_word. pose proof (s_byte_left t) as [L1 N1]. destruct (s_byte t) as [hi t1].
  pose proof (s_byte_left t1) as [L2 N2]. destruct (s_byte t1) as [lo t2]. cbn [fst snd] in *.
  split; [lia|]. intros Hn. destruct (decide (hi = 0)) as [->|]; [|specialize (N1 n); lia].
  destruct (decide (lo = 0)) as [->|]; [lia|]. specialize (N2 n). lia.
Qed.

#[global] Instance stream_reader_laws : ReaderLaws stream.
Proof.
  split; intros r; cbn [r_left r_byte r_word r_dword stream_reader].
  - apply s_byte_left.
  - apply s_word_left.
  - unfold s_dword. pose proof (s_word_left r) as [L1 _]. destruct (s_word r) as [hi t1].
    pose proof (s_word_left t1) as [L2 _]. destruct (s_word t1) as [lo t2]. simpl in *. lia.
  - apply s_word_left.
Qed.

(** ** From the stream back to the chain *)
Definition stream_of (mem : memory) (cs : codestream) : stream :=
  mkStream (drop (Z.to_nat (pos cs)) (flat_bytes mem (chunks_ cs))) (pos cs).

Lemma at_stream_of mem cs : wf cs → at_stream mem cs (stream_of mem cs).
Proof. by split. Qed.

Lemma tables_wf_swap {R R'} (c : R') (s : hdr R) : tables_wf s → tables_wf (swap_cs c s).
Proof. intros []. by split. Qed.

(** Parsing the chain gives what parsing the bytes left to read gives. *)
Lemma parse_chain mem s :
  byte_memory mem → wf (h_cs s) →
  let t := swap_cs (stream_of mem (h_cs s)) s in
  match parse_main_header (H := chain_reader mem) s, parse_main_header t with
  | Ret (a, s'), Ret (b, t') => a = b ∧ hdr_rel mem s' t'
  | UB, UB => True
  | NoFuel, NoFuel => True
  | _, _ => False
  end.
Proof.
  intros Hm Hwf. apply (sim_parse_main_header mem Hm). split; [|done]. by apply at_stream_of.
Qed.

(** ** Main headers as data *)

(** The tables without a reader. *)
Definition tables : Type := hdr ().
Definition on (l : list Z) (p : Z) (t : tables) : hdr stream := swap_cs (mkStream l p) t.

Inductive segment :=
  | SegSIZ (z : siz_marker)
  | SegCAP (caps : list (option Z)) (extra : list Z)   (* Part 1..32, unknown words *)
  | SegCOD (c : cod_marker) (sso : Z)
  | SegCOC (c : coc_marker)
  | SegQCD (ty guard : Z) (vals : list Z)              (* one step size per subband *)
  | SegDFS (idx : Z) (types : list Z)
  | SegOther (marker : Z) (payload : list Z).

Definition be16 (w : Z) : list Z := [w / 256; w mod 256].
Definition be32 (d : Z) : list Z := be16 (d / 65536) ++ be16 (d mod 65536).
Definition w16 (w : Z) : Prop := 0 ≤ w < 65536.
Definition w32 (d : Z) : Prop := 0 ≤ d < 4294967296.

Definition enc_S (max_precinct sop eph ho vo ext : Z) : Z :=
  (1 - max_precinct) + 2 * sop + 4 * eph + 8 * ho + 16 * vo + 32 * ext.
Definition enc_prec (prw prh : list Z) : list Z := zip_with (λ w h, w + 16 * h) prw prh.
Definition has_sso (t : tables) : bool := negb (Z.land (Rsiz (h_siz t)) 16 =? 0).

Definition pcap_of (caps : list (option Z)) : Z :=
  foldl (λ acc o, 2 * acc + (if o : option Z then 1 else 0)) 0 caps.
Definition present (caps : list (option Z)) : list Z := omap id caps.

(** The DFS string: two bits per level, first level first, zero-padded to bytes. *)
Definition types_val (types : list Z) : Z := foldl (λ acc t, 4 * acc + t) 0 types.
Fixpoint be_bytes (n : nat) (v : Z) : list Z :=
  match n with
  | O => []
  | S n' => v / 256 ^ Z.of_nat n' :: be_bytes n' (v mod 256 ^ Z.of_nat n')
  end.
Definition dfs_len (n : Z) : Z := ceildiv_int (2 * n) 8.
Definition dfs_string (types : list Z) : list Z :=
  let n := Z.of_nat (length types) in
  be_bytes (Z.to_nat (dfs_len n)) (types_val types * 2 ^ (dfs_len n * 8 - 2 * n)).

(** Marker segment without its marker code and length field. *)
Definition seg_payload (t : tables) (g : segment) : list Z :=
  match g with
  | SegSIZ z =>
      be16 (Rsiz z) ++ be32 (Xsiz z) ++ be32 (Ysiz z) ++ be32 (XOsiz z) ++ be32 (YOsiz z)
      ++ be32 (XTsiz z) ++ be32 (YTsiz z) ++ be32 (XTOsiz z) ++ be32 (YTOsiz z)
      ++ be16 (Csiz z)
      ++ (zip_with pair (zip_with pair (Ssiz z) (XRsiz z)) (YRsiz z)
            ≫= λ '((a, b), c), [a; b; c])
  | SegCAP caps extra =>
      be32 (pcap_of caps) ++ ((present caps ++ extra) ≫= be16)
  | SegCOD c sso =>
      [enc_S (cod_max_precinct c) (cod_use_SOP c) (cod_use_EPH c) (cod_use_h_offset c)
         (cod_use_v_offset c) (cod_use_blkcoder_extension c); cod_progression_order c]
      ++ be16 (cod_num_layers c)
      ++ [cod_mct c; cod_NL c; cod_cbw c - 2; cod_cbh c - 2; cod_cbs c; cod_transform c]
      ++ (if has_sso t then be16 sso else [])
      ++ enc_prec (cod_prw c) (cod_prh c)
  | SegCOC c =>
      [coc_idx c;
       enc_S (coc_max_precinct c) (coc_use_SOP c) (coc_use_EPH c) (coc_use_h_offset c)
         (coc_use_v_offset c) (coc_use_blkcoder_extension c);
       coc_NL c; coc_cbw c - 2; coc_cbh c - 2; coc_cbs c; coc_transform c]
      ++ enc_prec (coc_prw c) (coc_prh c)
  | SegQCD ty guard vals =>
      [ty + 32 * guard] ++ (if ty =? 0 then vals else vals ≫= be16)
  | SegDFS idx types => be16 idx ++ [Z.of_nat (length types)] ++ dfs_string types
  | SegOther _ payload => payload
  end.

Definition seg_marker (g : segment) : Z :=
  match g with
  | SegSIZ _ => SIZ | SegCAP _ _ => CAP | SegCOD _ _ => COD | SegCOC _ => COC
  | SegQCD _ _ _ => QCD | SegDFS _ _ => DFS | SegOther m _ => m
  end.

Definition seg_bytes (t : tables) (g : segment) : list Z :=
  be16 (seg_marker g) ++ be16 (2 + Z.of_nat (length (seg_payload t g))) ++ seg_payload t g.

(** *** What a segment says *)
(** [new] stored over [old] from index [i] on. *)
Definition overwrite_at {A} (i : nat) (new old : list A) : list A :=
  take i old ++ new ++ drop (i + length new) old.
Definition overwrite {A} : list A → list A → list A := overwrite_at 0.

Definition coc_of_cod (d : cod_marker) (o : coc_marker) : coc_marker :=
  let n := Z.to_nat (cod_NL d + 1) in
  mkCoc (coc_idx o) (cod_max_precinct d) (cod_use_SOP d) (cod_use_EPH d)
    (cod_use_h_offset d) (cod_use_v_offset d) (cod_use_blkcoder_extension d)
    (cod_progression_order d) (cod_num_layers d) (cod_mct d) (cod_NL d) (cod_cbw d)
    (cod_cbh d) (cod_cbs d) (cod_transform d) (cod_SSO d)
    (overwrite (take n (cod_prw d)) (coc_prw o)) (overwrite (take n (cod_prh d)) (coc_prh o))
    (coc_step_x o) (coc_step_y o).

Definition apply_cod (t : tables) (c : cod_marker) : tables :=
  let d := h_cod t in
  let d' := mkCod (cod_max_precinct c) (cod_use_SOP c) (cod_use_EPH c) (cod_use_h_offset c)
    (cod_use_v_offset c) (cod_use_blkcoder_extension c) (cod_progression_order c)
    (cod_num_layers c) (cod_mct c) (cod_NL c) (cod_cbw c) (cod_cbh c) (cod_cbs c)
    (cod_transform c) (cod_SSO d)
    (overwrite (cod_prw c) (cod_prw d)) (overwrite (cod_prh c) (cod_prh d)) in
  set_cocs (coc_of_cod d' <$> h_cocs t) (set_cod d' t).

Definition coc_of (c o : coc_marker) : coc_marker :=
  mkCoc (coc_idx c) (coc_max_precinct c) (coc_use_SOP c) (coc_use_EPH c)
    (coc_use_h_offset c) (coc_use_v_offset c) (coc_use_blkcoder_extension c)
    (coc_progression_order o) (coc_num_layers o) (coc_mct o) (coc_NL c) (coc_cbw c)
    (coc_cbh c) (coc_cbs c) (coc_transform c) (coc_SSO o)
    (overwrite (coc_prw c) (coc_prw o)) (overwrite (coc_prh c) (coc_prh o))
    (foldl Z.min 16 (coc_prw c)) (foldl Z.min 16 (coc_prh c)).

(** The component's entry is replaced; order, layers and MCT stay those of COD. *)
Definition apply_coc (t : tables) (c : coc_marker) : tables :=
  match h_cocs t !! Z.to_nat (coc_idx c) with
  | Some o => set_cocs (<[Z.to_nat (coc_idx c) := coc_of c o]> (h_cocs t)) t
  | None => t
  end.

(** The subband slots of QCD, in codestream order: LL, then per level the three
    subbands of a two-way split or the single one of a one-way split. *)
Definition level_slots (types : list Z) (i : Z) : list Z :=
  if types !!! Z.to_nat i =? BOTH
  then [3 * (i - 1) + 1; 3 * (i - 1) + 2; 3 * (i - 1) + 3]
  else [3 * (i - 1) + 1].
Definition qcd_slots (types : list Z) (NL : Z) : list Z :=
  0 :: (seqZ 1 NL ≫= level_slots types).

Definition put_step (rev : bool) (q : qcd_marker) (kv : Z * Z) : qcd_marker :=
  let '(k, v) := kv in
  if rev
  then mkQcd (qcd_type q) (num_guard_bits q) (<[Z.to_nat k := v / 8]> (exponent q)) (mantissa q)
  else mkQcd (qcd_type q) (num_guard_bits q) (<[Z.to_nat k := v / 2048]> (exponent q))
         (<[Z.to_nat k := v mod 2048]> (mantissa q)).

Definition apply_qcd (t : tables) (ty guard : Z) (vals : list Z) : tables :=
  set_qcd (foldl (put_step (ty =? 0))
    (mkQcd ty guard (exponent (h_qcd t)) (mantissa (h_qcd t)))
    (zip (qcd_slots (dfs_type (h_dfs t)) (cod_NL (h_cod t))) vals)) t.

(** Levels [1..lev] that split in this direction. *)
Definition depth_of (orient : list Z) (types : list Z) (lev : nat) : Z :=
  Z.of_nat (length (filter (λ t, orient !!! Z.to_nat t = 0) (take lev types))).

Definition apply_dfs (t : tables) (idx : Z) (types : list Z) : tables :=
  let d := h_dfs t in
  let n := length types in
  set_dfs (mkDfs idx (Z.of_nat n)
    (overwrite_at 1 types (dfs_type d))
    (overwrite_at 1 ((λ y, ho !!! Z.to_nat y) <$> types) (h_orient d))
    (overwrite_at 1 ((λ y, vo !!! Z.to_nat y) <$> types) (v_orient d))
    (overwrite (depth_of ho types <$> seq 0 (S n)) (hor_depth d))
    (overwrite (depth_of vo types <$> seq 0 (S n)) (ver_depth d))) t.

Definition seg_apply (t : tables) (g : segment) : tables :=
  match g with
  | SegSIZ z => set_siz z t
  | SegCAP caps _ =>
      set_cap15 (default (g_Ccap15 t) (mjoin (caps !! 14%nat)))
        (set_cap2 (default (g_Ccap2 t) (mjoin (caps !! 1%nat))) t)
  | SegCOD c _ => apply_cod t c
  | SegCOC c => apply_coc t c
  | SegQCD ty guard vals => apply_qcd t ty guard vals
  | SegDFS idx types => apply_dfs t idx types
  | SegOther _ _ => t
  end.

(** *** The segments the parser supports *)
Definition is_bit (b : Z) : Prop := 0 ≤ b ≤ 1.
Definition nibbles (l : list Z) : Prop := Forall (λ x, 0 ≤ x < 16) l.

Definition seg_valid (t : tables) (g : segment) : Prop :=
  2 + Z.of_nat (length (seg_payload t g)) < 65536 ∧
  match g with
  | SegSIZ z =>
      w16 (Rsiz z) ∧ w32 (Xsiz z) ∧ w32 (Ysiz z) ∧ w32 (XOsiz z) ∧ w32 (YOsiz z)
      ∧ w32 (XTsiz z) ∧ w32 (YTsiz z) ∧ w32 (XTOsiz z) ∧ w32 (YTOsiz z) ∧ Csiz z = 3
      ∧ length (Ssiz z) = 3%nat ∧ length (XRsiz z) = 3%nat ∧ length (YRsiz z) = 3%nat
  | SegCAP caps extra => length caps = 32%nat ∧ Forall w16 (present caps) ∧ Forall w16 extra
  | SegCOD c sso =>
      cod_max_precinct c = 0                 (* Scod bit 0: explicit precinct sizes *)
      ∧ is_bit (cod_use_SOP c) ∧ is_bit (cod_use_EPH c) ∧ is_bit (cod_use_h_offset c)
      ∧ is_bit (cod_use_v_offset c) ∧ is_bit (cod_use_blkcoder_extension c)
      ∧ w16 (cod_num_layers c) ∧ 0 ≤ cod_NL c ≤ MAX_DWT_LEVEL ∧ 2 ≤ cod_cbw c < 256
      ∧ 2 ≤ cod_cbh c ≤ 4 ∧ w16 sso
      ∧ Z.of_nat (length (cod_prw c)) = cod_NL c + 1
      ∧ Z.of_nat (length (cod_prh c)) = cod_NL c + 1
      ∧ nibbles (cod_prw c) ∧ nibbles (cod_prh c)
  | SegCOC c =>
      has_sso t = false ∧ 0 ≤ coc_idx c < MAX_NUM_COMPONENTS ∧ is_bit (coc_max_precinct c)
      ∧ is_bit (coc_use_SOP c) ∧ is_bit (coc_use_EPH c) ∧ is_bit (coc_use_h_offset c)
      ∧ is_bit (coc_use_v_offset c) ∧ is_bit (coc_use_blkcoder_extension c)
      ∧ 2 ≤ coc_cbw c < 256 ∧ 2 ≤ coc_cbh c ≤ 4
      ∧ length (coc_prw c) = length (coc_prh c)
      ∧ Z.of_nat (length (coc_prw c)) ≤ MAX_DWT_LEVEL + 1
      ∧ nibbles (coc_prw c) ∧ nibbles (coc_prh c)
  | SegQCD ty guard vals =>
      0 ≤ ty < 32 ∧ ty ≠ 1 ∧ 0 ≤ guard < 8
      ∧ 0 ≤ cod_NL (h_cod t) ≤ MAX_DWT_LEVEL
      ∧ length vals = length (qcd_slots (dfs_type (h_dfs t)) (cod_NL (h_cod t)))
      ∧ (if ty =? 0 then Forall is_byte vals else Forall w16 vals)
  | SegDFS idx types =>
      w16 idx ∧ Z.of_nat (length types) ≤ MAX_DWT_LEVEL ∧ Forall (λ y, 0 ≤ y < 4) types
  | SegOther m payload =>
      0xFF00 ≤ m < 0x10000 ∧ m ∉ [SOD; EOC; SIZ; CAP; COD; COC; QCD; DFS]
  end.

Fixpoint header_valid (t : tables) (l : list segment) : Prop :=
  match l with [] => True | g :: l => seg_valid t g ∧ header_valid (seg_apply t g) l end.
Fixpoint segs_bytes (t : tables) (l : list segment) : list Z :=
  match l with [] => [] | g :: l => seg_bytes t g ++ segs_bytes (seg_apply t g) l end.
Definition main_header (t : tables) (l : list segment) : list Z :=
  be16 SOC ++ segs_bytes t l ++ be16 SOD.
Definition reset_caps (t : tables) : tables := set_cap2 0 (set_cap15 0 t).

(** ** Running the parsers on a stream *)
Implicit Types (t : tables) (l : list Z) (p : Z).

Lemma bind_byte {A} b l p t (k : Z → M (hdr stream) A) :
  (rd_byte ≫= k) (on (b :: l) p t) = k b (on l (p + 1) t).
Proof. done. Qed.
Lemma bind_word {A} w l p t (k : Z → M (hdr stream) A) :
  (rd_word ≫= k) (on (be16 w ++ l) p t) = k w (on l (p + 2) t).
Proof.
  unfold mbind, M_bind, rd_word, lift_cs. cbn. f_equal; [div_lia|].
  unfold on, swap_cs, set_hcs. cbn. do 2 f_equal. lia.
Qed.
Lemma bind_dword {A} d l p t (k : Z → M (hdr stream) A) :
  (rd_dword ≫= k) (on (be32 d ++ l) p t) = k d (on l (p + 4) t).
Proof.
  unfold mbind, M_bind, rd_dword, lift_cs. cbn. f_equal; [div_lia|].
  unfold on, swap_cs, set_hcs. cbn. do 2 f_equal. lia.
Qed.
Lemma bind_store {S A B} (l : list A) i x (k : list A → M (hdr S) B) s :
  0 ≤ i < Z.of_nat (length l) → (store_at l i x ≫= k) s = k (<[Z.to_nat i := x]> l) s.
Proof. intros. unfold store_at. by rewrite arr_set_Some. Qed.
Lemma bind_arr_get {S B} (l : list Z) i (k : Z → M (hdr S) B) s :
  0 ≤ i < Z.of_nat (length l) → (arr_get l i ≫= k) s = k (l !!! Z.to_nat i) s.
Proof. intros. unfold arr_get. by zcases; simpl; try lia. Qed.

Lemma on_cons b l1 l2 : (b :: l1) ++ l2 = b :: (l1 ++ l2).
Proof. done. Qed.

(** Step through the reads at the head of a parser. *)
Ltac run_step :=
  first [ rewrite bind_word | rewrite bind_dword | rewrite bind_byte | rewrite bind_get
        | rewrite bind_modify | rewrite bind_ret | rewrite bind_store by (cbn; lia)
        | rewrite bind_arr_get by (cbn; lia) ].
Ltac run_steps := repeat (run_step; cbn beta).
Ltac destruct_list3 l := destruct l as [|? [|? [|? []]]]; try done.

Lemma run_pos {A} (o : outcome (A * hdr stream)) a l p q (t : tables) :
  o = Ret (a, on l p t) → p = q → o = Ret (a, on l q t).
Proof. by intros -> ->. Qed.
Lemma run_eq {A} (o : outcome (A * hdr stream)) a l p q (t t' : tables) :
  o = Ret (a, on l p t) → p = q → t = t' → o = Ret (a, on l q t').
Proof. by intros -> -> ->. Qed.
Ltac run_end := eapply run_pos; [reflexivity|].

Lemma set_siz_on x l p t : set_siz x (on l p t) = on l p (set_siz x t).
Proof. done. Qed.

Lemma for_n_3 {S} (body : Z → M S ()) s0 s1 s2 s3 :
  body 0 s0 = Ret ((), s1) → body 1 s1 = Ret ((), s2) → body 2 s2 = Ret ((), s3) →
  for_n 3 0 body s0 = Ret ((), s3).
Proof.
  intros H0 H1 H2. cbn [for_n]. rewrite (bind_run _ _ _ _ _ H0).
  change (0 + 1) with 1. rewrite (bind_run _ _ _ _ _ H1).
  change (1 + 1) with 2. by rewrite (bind_run _ _ _ _ _ H2).
Qed.

(** *** SIZ *)
Lemma run_siz_component c a b d rest p t z :
  h_siz t = z → 0 ≤ c < 3 → length (Ssiz z) = 3%nat → length (XRsiz z) = 3%nat →
  length (YRsiz z) = 3%nat →
  siz_component c (on (a :: b :: d :: rest) p t)
  = Ret ((), on rest (p + 3) (set_siz (mkSiz (Rsiz z) (Xsiz z) (Ysiz z) (XOsiz z) (YOsiz z)
      (XTsiz z) (YTsiz z) (XTOsiz z) (YTOsiz z) (Csiz z) (<[Z.to_nat c := a]> (Ssiz z))
      (<[Z.to_nat c := b]> (XRsiz z)) (<[Z.to_nat c := d]> (YRsiz z))) t)).
Proof.
  intros <- Hc L1 L2 L3. unfold siz_component. run_steps. run_end. lia.
Qed.

Lemma run_SIZ t z rest p n :
  tables_wf t → seg_valid t (SegSIZ z) →
  parse_SIZ (on (be16 n ++ seg_payload t (SegSIZ z) ++ rest) p t)
  = Ret (EXIT_SUCCESS, on rest (p + 2 + Z.of_nat (length (seg_payload t (SegSIZ z)))) (set_siz z t)).
Proof.
  intros Ht [_ Hv]. destruct Hv as (?&?&?&?&?&?&?&?&?&H3&L1&L2&L3).
  pose proof (tw_Ssiz _ Ht) as T1. pose proof (tw_XRsiz _ Ht) as T2. pose proof (tw_YRsiz _ Ht) as T3.
  destruct z as [rs x y xo yo xt yt xto yto cs ss xr yr]; cbn in H3, L1, L2, L3. subst cs.
  destruct_list3 ss. destruct_list3 xr. destruct_list3 yr.
  unfold parse_SIZ. cbn [seg_payload Rsiz Xsiz Ysiz XOsiz YOsiz XTsiz YTsiz XTOsiz YTOsiz Csiz Ssiz XRsiz YRsiz].
  rewrite <- !app_assoc. run_steps. cbn [negb Z.eqb Pos.eqb].
  destruct t as [[] [? ? ? ? ? ? ? ? ? ? u v w] cod cocs qcd dfs cap15 cap2]. cbn in T1, T2, T3.
  destruct_list3 u. destruct_list3 v. destruct_list3 w.
  change (Z.to_nat 3) with 3%nat. rewrite set_siz_on. cbn [app].
  erewrite bind_run;
    [|eapply for_n_3; (eapply run_siz_component; [reflexivity|lia|reflexivity..])].
  run_end. cbn. lia.
Qed.

(** *** Arrays filled in order *)
Lemma overwrite_at_step {A} i (x : A) new old :
  (i < length old)%nat →
  overwrite_at (S i) new (<[i:=x]> old) = overwrite_at i (x :: new) old.
Proof.
  intros Hi. unfold overwrite_at.
  rewrite (take_S_r _ _ x) by (by apply list_lookup_insert_eq).
  rewrite take_insert_ge, drop_insert_lt, <- app_assoc by lia. cbn [app length].
  do 4 f_equal. lia.
Qed.

Lemma length_overwrite_at {A} i (new old : list A) :
  (i + length new ≤ length old)%nat → length (overwrite_at i new old) = length old.
Proof. intros. unfold overwrite_at. rewrite !length_app, length_take, length_drop. lia. Qed.

(** Filled from the far end instead. *)
Lemma overwrite_at_snoc {A} i (x : A) new old :
  (i + length new < length old)%nat →
  overwrite_at i new (<[(i + length new)%nat := x]> old) = overwrite_at i (new ++ [x]) old.
Proof.
  intros Hi. unfold overwrite_at. rewrite take_insert_ge by lia.
  rewrite (drop_S _ x) by (apply list_lookup_insert_eq; lia).
  rewrite drop_insert_lt, length_app by lia. rewrite <- app_assoc. cbn [app length].
  do 4 f_equal. lia.
Qed.

Lemma lookup_overwrite_at {A} i (new old : list A) k :
  (i + length new ≤ length old)%nat → (k < length new)%nat →
  overwrite_at i new old !! (i + k)%nat = new !! k.
Proof.
  intros Hi Hk. unfold overwrite_at. rewrite lookup_app_r by (rewrite length_take; lia).
  rewrite length_take, lookup_app_l by lia. f_equal. lia.
Qed.

Lemma overwrite_at_nil {A} i (old : list A) : overwrite_at i [] old = old.
Proof. unfold overwrite_at. cbn. by rewrite Nat.add_0_r, take_drop. Qed.

Lemma nibble_pair w h : 0 ≤ w < 16 → 0 ≤ h < 16 →
  Z.land (w + 16 * h) 15 = w ∧ Z.land (Z.shiftr (w + 16 * h) 4) 15 = h.
Proof.
  intros Hw Hh. change 15 with (2 ^ 4 - 1). split.
  - rewrite (land_mask (w + 16 * h) 4) by lia. div_lia.
  - rewrite (land_mask _ 4), Z.shiftr_div_pow2 by lia. div_lia.
Qed.

(** *** COD *)
Lemma run_precincts w h i W H rest p t :
  length w = length h → nibbles w → nibbles h →
  (i + length w ≤ length W)%nat → (i + length w ≤ length H)%nat →
  rd_precincts (length w) (Z.of_nat i) W H (on (enc_prec w h ++ rest) p t)
  = Ret ((overwrite_at i w W, overwrite_at i h H), on rest (p + Z.of_nat (length w)) t).
Proof.
  revert h i W H p. induction w as [|a w IH]; intros [|b h] i W H p Hl Hw Hh LW LH; try done.
  { cbn [length rd_precincts]. rewrite !overwrite_at_nil. by rewrite Z.add_0_r. }
  inversion Hw; inversion Hh; subst. cbn [length rd_precincts].
  change (enc_prec (a :: w) (b :: h) ++ rest) with ((a + 16 * b) :: (enc_prec w h ++ rest)).
  rewrite bind_byte. destruct (nibble_pair a b) as [-> ->]; [done..|].
  cbn [length] in LW, LH. rewrite bind_store, bind_store by lia.
  replace (Z.of_nat i + 1) with (Z.of_nat (S i)) by lia. rewrite Nat2Z.id.
  rewrite IH; rewrite ?length_insert; try done; [|by injection Hl|lia..].
  rewrite !overwrite_at_step by lia. do 3 f_equal. lia.
Qed.

Lemma run_copy_arr n i src dst (s : hdr stream) :
  (i + n ≤ length src)%nat → (i + n ≤ length dst)%nat →
  copy_arr n (Z.of_nat i) src dst s = Ret (overwrite_at i (take n (drop i src)) dst, s).
Proof.
  revert i dst. induction n as [|n IH]; intros i dst Hs Hd; cbn [copy_arr].
  { by rewrite take_0, overwrite_at_nil. }
  rewrite bind_arr_get, bind_store by lia.
  replace (Z.of_nat i + 1) with (Z.of_nat (S i)) by lia. rewrite Nat2Z.id.
  rewrite IH by (rewrite ?length_insert; lia).
  destruct (lookup_lt_is_Some_2 src i) as [x Hx]; [lia|].
  rewrite (list_lookup_total_correct _ _ _ Hx), overwrite_at_step by lia.
  by rewrite (drop_S _ _ _ Hx).
Qed.

Lemma bit_of_enc a b c d e f :
  is_bit a → is_bit b → is_bit c → is_bit d → is_bit e → is_bit f →
  let v := enc_S a b c d e f in
  not_bit0 v = a ∧ bit_of v 1 = b ∧ bit_of v 2 = c ∧ bit_of v 3 = d ∧ bit_of v 4 = e
  ∧ bit_of v 5 = f.
Proof.
  unfold is_bit. intros.
  assert (a = 0 ∨ a = 1) as [-> | ->] by lia; assert (b = 0 ∨ b = 1) as [-> | ->] by lia;
  assert (c = 0 ∨ c = 1) as [-> | ->] by lia; assert (d = 0 ∨ d = 1) as [-> | ->] by lia;
  assert (e = 0 ∨ e = 1) as [-> | ->] by lia; assert (f = 0 ∨ f = 1) as [-> | ->] by lia;
  vm_compute; done.
Qed.

Lemma length_enc_prec w h : length w = length h → length (enc_prec w h) = length w.
Proof. intros Hl. unfold enc_prec. rewrite length_zip_with. lia. Qed.

(** The SSO word is read and dropped. *)
Lemma bind_sso {A} (b : bool) sso l p t (k : () → M (hdr stream) A) :
  ((if b then _ ← rd_word; mret () else mret ()) ≫= k) (on ((if b then be16 sso else []) ++ l) p t)
  = k () (on l (p + if b then 2 else 0) t).
Proof.
  destruct b; [|by rewrite bind_ret, Z.add_0_r].
  erewrite bind_run by (rewrite bind_word; reflexivity). done.
Qed.

Definition cod_of (t : tables) (c : cod_marker) : cod_marker := h_cod (apply_cod t c).

Lemma run_COD t c sso rest p n :
  tables_wf t → seg_valid t (SegCOD c sso) →
  parse_COD (on (be16 n ++ seg_payload t (SegCOD c sso) ++ rest) p t)
  = Ret (EXIT_SUCCESS,
         on rest (p + 2 + Z.of_nat (length (seg_payload t (SegCOD c sso)))) (set_cod (cod_of t c) t)).
Proof.
  intros Ht [_ Hv]. destruct Hv as (H0&B1&B2&B3&B4&B5&Hlay&HNL&Hw&Hh&Hs&L1&L2&N1&N2).
  destruct (tw_cod _ Ht) as [T1 T2].
  destruct (bit_of_enc (cod_max_precinct c) (cod_use_SOP c) (cod_use_EPH c) (cod_use_h_offset c)
    (cod_use_v_offset c) (cod_use_blkcoder_extension c)) as (E0&E1&E2&E3&E4&E5); try done.
  { rewrite H0. done. }
  unfold parse_COD. cbn [seg_payload]. rewrite <- !app_assoc. cbn [app]. run_steps. cbn zeta.
  rewrite E0, E1, E2, E3, E4, E5.
  replace (u8 (cod_cbw c - 2 + 2)) with (cod_cbw c) by (rewrite u8_small; lia).
  replace (u8 (cod_cbh c - 2 + 2)) with (cod_cbh c) by (rewrite u8_small; lia).
  destruct (Z.ltb_spec 4 (cod_cbh c)); [lia|]. run_steps.
  change (negb (Z.land (Rsiz (h_siz (on _ _ t))) 16 =? 0)) with (has_sso t).
  replace (Z.to_nat (cod_NL c + 1)) with (length (cod_prw c)) by lia.
  unfold MAX_DWT_LEVEL in *. rewrite bind_sso.
  erewrite bind_run by
    (apply (run_precincts (cod_prw c) (cod_prh c) 0); [lia|done|done|cbn; lia|cbn; lia]).
  run_end. destruct (has_sso t); repeat (cbn [length be16]; rewrite ?length_app, ?length_enc_prec by lia);
    lia.
Qed.

Lemma run_copy_cod (k : nat) o (s : hdr stream) :
  length (cod_prw (h_cod s)) = 6%nat ∧ length (cod_prh (h_cod s)) = 6%nat →
  length (coc_prw o) = 6%nat ∧ length (coc_prh o) = 6%nat →
  0 ≤ cod_NL (h_cod s) ≤ 5 → h_cocs s !! k = Some o →
  copy_cod (Z.of_nat k) s
  = Ret ((), set_cocs (<[k := coc_of_cod (h_cod s) o]> (h_cocs s)) s).
Proof.
  intros [T1 T2] [O1 O2] HNL Ho. unfold copy_cod. rewrite bind_get. cbn zeta.
  rewrite Nat2Z.id, Ho. do 2 erewrite bind_run by (apply (run_copy_arr _ 0); lia). done.
Qed.

Lemma run_COD_segment t c sso rest p n :
  tables_wf t → seg_valid t (SegCOD c sso) →
  marker_segment COD (on (be16 n ++ seg_payload t (SegCOD c sso) ++ rest) p t)
  = Ret (EXIT_SUCCESS,
         on rest (p + 2 + Z.of_nat (length (seg_payload t (SegCOD c sso))))
           (seg_apply t (SegCOD c sso))).
Proof.
  intros Ht Hv. change (marker_segment COD)
    with (ret ← parse_COD; copy_cod 0 ;; copy_cod 1 ;; copy_cod 2 ;; mret (M := M (hdr stream)) ret).
  rewrite (bind_run _ _ _ _ _ (run_COD t c sso rest p n Ht Hv)).
  destruct Hv as [_ (_&_&_&_&_&_&_&HNL&_&_&_&L1&L2&_&_)]. unfold MAX_DWT_LEVEL in *.
  set (q := p + 2 + _). destruct (tw_cod _ Ht) as [T1 T2].
  assert (length (cod_prw (cod_of t c)) = 6%nat ∧ length (cod_prh (cod_of t c)) = 6%nat) as HL.
  { unfold cod_of, apply_cod, overwrite. cbn [h_cod set_cocs set_cod cod_prw cod_prh].
    rewrite !length_overwrite_at; lia. }
  pose proof (tw_cocs _ Ht) as H3. pose proof (tw_coc _ Ht) as HO.
  destruct t as [[] siz cod cocs qcd dfs cap15 cap2]; cbn [h_cocs] in *. destruct_list3 cocs.
  inversion HO as [|??? HO1]; inversion HO1 as [|??? HO2]; inversion HO2; subst.
  erewrite bind_run by (eapply (run_copy_cod 0); [exact HL| |exact HNL|reflexivity]; done).
  erewrite bind_run by (eapply (run_copy_cod 1); [exact HL| |exact HNL|reflexivity]; done).
  erewrite bind_run by (eapply (run_copy_cod 2); [exact HL| |exact HNL|reflexivity]; done).
  reflexivity.
Qed.

(** *** COC *)
Lemma min_if x y : (if x <? y then x else y) = Z.min y x.
Proof. zcases; lia. Qed.

Lemma run_coc_precincts w h i W H sx sy rest p t :
  length w = length h → nibbles w → nibbles h →
  (i + length w ≤ length W)%nat → (i + length w ≤ length H)%nat →
  rd_coc_precincts (length w) (Z.of_nat i) W H sx sy (on (enc_prec w h ++ rest) p t)
  = Ret ((overwrite_at i w W, overwrite_at i h H, foldl Z.min sx w, foldl Z.min sy h),
         on rest (p + Z.of_nat (length w)) t).
Proof.
  revert h i W H sx sy p. induction w as [|a w IH]; intros [|b h] i W H sx sy p Hl Hw Hh LW LH; try done.
  { cbn [length rd_coc_precincts]. rewrite !overwrite_at_nil. by rewrite Z.add_0_r. }
  inversion Hw; inversion Hh; subst. cbn [length rd_coc_precincts].
  change (enc_prec (a :: w) (b :: h) ++ rest) with ((a + 16 * b) :: (enc_prec w h ++ rest)).
  rewrite bind_byte. destruct (nibble_pair a b) as [-> ->]; [done..|]. cbn zeta.
  cbn [length] in LW, LH. rewrite bind_store, bind_store by lia.
  replace (Z.of_nat i + 1) with (Z.of_nat (S i)) by lia. rewrite Nat2Z.id.
  rewrite IH; rewrite ?length_insert; try done; [|by injection Hl|lia..].
  rewrite !overwrite_at_step, !min_if by lia. cbn [foldl]. do 3 f_equal. lia.
Qed.

Lemma run_COC t c rest p :
  tables_wf t → seg_valid t (SegCOC c) →
  let n := 2 + Z.of_nat (length (seg_payload t (SegCOC c))) in
  parse_COC (on (be16 n ++ seg_payload t (SegCOC c) ++ rest) p t)
  = Ret (EXIT_SUCCESS, on rest (p + n) (seg_apply t (SegCOC c))).
Proof.
  intros Ht [Hn Hv] n. destruct Hv as (Hs&Hi&B0&B1&B2&B3&B4&B5&Hw&Hh&L1&L2&N1&N2).
  assert (n = 9 + Z.of_nat (length (coc_prw c))) as Hnn.
  { unfold n. cbn [seg_payload app length]. rewrite length_enc_prec by done. lia. }
  destruct (lookup_lt_is_Some_2 (h_cocs t) (Z.to_nat (coc_idx c))) as [o Ho].
  { rewrite (tw_cocs _ Ht). unfold MAX_NUM_COMPONENTS in Hi. lia. }
  destruct (Forall_lookup_1 _ _ _ _ (tw_coc _ Ht) Ho) as [O1 O2].
  destruct (bit_of_enc (coc_max_precinct c) (coc_use_SOP c) (coc_use_EPH c) (coc_use_h_offset c)
    (coc_use_v_offset c) (coc_use_blkcoder_extension c)) as (E0&E1&E2&E3&E4&E5); try done.
  unfold parse_COC. cbn [seg_payload app]. run_steps. cbn zeta.
  change (h_cocs (on _ _ t)) with (h_cocs t). rewrite (proj2 (Z.ltb_lt _ _)), Ho by lia. run_steps.
  rewrite E0, E1, E2, E3, E4, E5.
  replace (u8 (coc_cbw c - 2 + 2)) with (coc_cbw c) by (rewrite u8_small; lia).
  replace (u8 (coc_cbh c - 2 + 2)) with (coc_cbh c) by (rewrite u8_small; lia).
  destruct (Z.ltb_spec 4 (coc_cbh c)); [lia|]. run_steps.
  change (negb (Z.land (Rsiz (h_siz (on _ _ t))) 16 =? 0)) with (has_sso t). rewrite Hs, bind_ret.
  unfold MAX_DWT_LEVEL in *.
  replace (Z.to_nat (u16 (u16 (n - 2) - 7))) with (length (coc_prw c))
    by (rewrite (u16_small (n - 2)), u16_small; lia).
  erewrite bind_run by
    (apply (run_coc_precincts (coc_prw c) (coc_prh c) 0); [done|done|done|lia|lia]).
  cbn [seg_apply]. unfold apply_coc. rewrite Ho. run_end. lia.
Qed.

(** *** DFS *)
Lemma run_dfs_bits n acc v rest p t :
  0 ≤ acc → 0 ≤ v < 256 ^ Z.of_nat n → acc * 256 ^ Z.of_nat n + v < 18446744073709551616 →
  rd_dfs_bits n acc (on (be_bytes n v ++ rest) p t)
  = Ret (acc * 256 ^ Z.of_nat n + v, on rest (p + Z.of_nat n) t).
Proof.
  revert acc v p. induction n as [|n IH]; intros acc v p Ha Hv Hb; cbn [rd_dfs_bits be_bytes app].
  { cbn in Hv. replace (acc * 256 ^ Z.of_nat 0 + v) with acc by (cbn; lia). run_end. lia. }
  rewrite bind_byte. replace (256 ^ Z.of_nat (S n)) with (256 * 256 ^ Z.of_nat n) in *
    by (rewrite Nat2Z.inj_succ, Z.pow_succ_r by lia; lia).
  set (B := 256 ^ Z.of_nat n) in *. assert (0 < B) by (unfold B; apply Z.pow_pos_nonneg; lia).
  pose proof (Z.div_mod v B ltac:(lia)) as Hdm. pose proof (Z.mod_pos_bound v B ltac:(lia)).
  assert (0 ≤ v / B < 256) by (split; [apply Z.div_pos; lia|apply Z.div_lt_upper_bound; lia]).
  assert (0 ≤ acc * 256 < 18446744073709551616) by nia.
  rewrite u64_small by (rewrite Z.shiftl_mul_pow2 by lia; lia).
  rewrite (shiftl_lor_byte acc (v / B) 8) by lia. change (2 ^ 8) with 256.
  rewrite IH by (fold B; nia). fold B. replace ((acc * 256 + v / B) * B + v mod B)
    with (acc * (256 * B) + v) by nia. do 3 f_equal. lia.
Qed.

Lemma types_val_range types :
  Forall (λ y, 0 ≤ y < 4) types → 0 ≤ types_val types < 4 ^ Z.of_nat (length types).
Proof.
  induction types as [|y types IH] using rev_ind; intros H; [cbn; lia|].
  apply Forall_app in H as [H1 H2]. inversion H2; subst. specialize (IH H1).
  unfold types_val in *. rewrite foldl_app, length_app. cbn [foldl length].
  rewrite Nat2Z.inj_add, Z.pow_add_r by lia. change (4 ^ Z.of_nat 1) with 4. lia.
Qed.

Lemma run_dfs_types types ty h v (s : hdr stream) :
  Forall (λ y, 0 ≤ y < 4) types → (length types < length ty)%nat →
  (length types < length h)%nat → (length types < length v)%nat →
  dfs_types (length types) (types_val types) ty h v s
  = Ret ((overwrite_at 1 types ty, overwrite_at 1 ((λ y, ho !!! Z.to_nat y) <$> types) h,
          overwrite_at 1 ((λ y, vo !!! Z.to_nat y) <$> types) v), s).
Proof.
  revert ty h v. induction types as [|y types IH] using rev_ind; intros ty h v HF L1 L2 L3.
  { cbn [length dfs_types fmap list_fmap]. by rewrite !overwrite_at_nil. }
  apply Forall_app in HF as [H1 H2]. inversion H2 as [|?? Hy]; subst. rewrite !length_app in *.
  cbn [length] in *. replace (length types + 1)%nat with (S (length types)) in * by lia.
  cbn [dfs_types]. cbn zeta. unfold types_val. rewrite foldl_app. cbn [foldl].
  fold (types_val types). change 3 with (2 ^ 2 - 1). rewrite land_mask, Z.shiftr_div_pow2 by lia.
  replace ((4 * types_val types + y) mod 2 ^ 2) with y by div_lia.
  replace ((4 * types_val types + y) / 2 ^ 2) with (types_val types) by div_lia.
  rewrite !bind_store by lia. rewrite Nat2Z.id.
  rewrite IH; rewrite ?length_insert; try done; [|lia..].
  rewrite !fmap_app. cbn [fmap list_fmap].
  rewrite <- (overwrite_at_snoc 1 _ _ ty), <- (overwrite_at_snoc 1 _ _ h),
    <- (overwrite_at_snoc 1 _ _ v) by (rewrite ?length_fmap; lia).
  by rewrite !length_fmap.
Qed.

Lemma get_depth_of (or : list Z) types old lev :
  (length types < length old)%nat → (lev ≤ length types)%nat →
  get_depth (overwrite_at 1 ((λ y, or !!! Z.to_nat y) <$> types) old) lev = depth_of or types lev.
Proof.
  intros Ho. induction lev as [|l IH]; intros Hl; [done|]. cbn [get_depth]. rewrite IH by lia.
  destruct (lookup_lt_is_Some_2 types l) as [y Hy]; [lia|].
  unfold depth_of. rewrite (take_S_r _ _ _ Hy), filter_app, length_app.
  rewrite (list_lookup_total_correct _ (S l) (or !!! Z.to_nat y)).
  2:{ rewrite (lookup_overwrite_at 1) by (rewrite length_fmap; lia).
      by rewrite list_lookup_fmap, Hy. }
  rewrite Nat2Z.inj_add. f_equal. rewrite filter_cons, filter_nil. case_decide; zcases; done.
Qed.

Lemma depths_of (or : list Z) types old :
  (length types < length old)%nat →
  get_depth (overwrite_at 1 ((λ y, or !!! Z.to_nat y) <$> types) old) <$> seq 0 (S (length types))
  = depth_of or types <$> seq 0 (S (length types)).
Proof.
  intros Ho. apply list_fmap_ext. intros i x Hx. apply lookup_seq in Hx as [-> Hi].
  apply get_depth_of; lia.
Qed.

Lemma run_dfs_depths n i orient dst (s : hdr stream) :
  (i + n ≤ length dst)%nat →
  dfs_depths n (Z.of_nat i) orient dst s
  = Ret (overwrite_at i (get_depth orient <$> seq i n) dst, s).
Proof.
  revert i dst. induction n as [|n IH]; intros i dst Hd; cbn [dfs_depths].
  { cbn [seq fmap list_fmap]. by rewrite overwrite_at_nil. }
  rewrite bind_store by lia. replace (Z.of_nat i + 1) with (Z.of_nat (S i)) by lia.
  rewrite Nat2Z.id, IH by (rewrite length_insert; lia).
  by rewrite overwrite_at_step by lia.
Qed.

Lemma length_be_bytes n v : length (be_bytes n v) = n.
Proof. revert v. induction n as [|n IH]; intros v; [done|]. cbn. by rewrite IH. Qed.

Lemma dfs_string_bits types rest p t :
  Forall (λ y, 0 ≤ y < 4) types → (length types ≤ 5)%nat →
  let n := Z.of_nat (length types) in
  let v := types_val types * 2 ^ (dfs_len n * 8 - 2 * n) in
  rd_dfs_bits (Z.to_nat (dfs_len n)) 0 (on (dfs_string types ++ rest) p t)
    = Ret (v, on rest (p + dfs_len n) t)
  ∧ Z.shiftr v (dfs_len n * 8 - 2 * n) = types_val types.
Proof.
  intros HF Hl n v. pose proof (types_val_range types HF) as Hr. fold n in Hr.
  assert (0 ≤ n ≤ 5) as Hn by (unfold n; lia).
  assert (0 ≤ dfs_len n * 8 - 2 * n ∧ 0 ≤ dfs_len n ≤ 2) as [Hd Hd2]
    by (unfold dfs_len, ceildiv_int; div_lia).
  assert (0 ≤ v < 256 ^ dfs_len n) as Hv.
  { unfold v. change 256 with (2 ^ 8). rewrite <- Z.pow_mul_r by lia.
    replace (8 * dfs_len n) with (2 * n + (dfs_len n * 8 - 2 * n)) by lia.
    rewrite Z.pow_add_r, Z.pow_mul_r by lia. change (2 ^ 2) with 4.
    assert (0 < 2 ^ (dfs_len n * 8 - 2 * n)) by (apply Z.pow_pos_nonneg; lia). nia. }
  assert (256 ^ dfs_len n ≤ 256 ^ 2) by (apply Z.pow_le_mono_r; lia).
  split.
  - unfold dfs_string. fold n v. rewrite run_dfs_bits; rewrite ?Z2Nat.id by lia; try lia.
    by rewrite Z.mul_0_l, Z.add_0_l.
  - unfold v. rewrite Z.shiftr_div_pow2 by lia. apply Z.div_mul.
    pose proof (Z.pow_pos_nonneg 2 (dfs_len n * 8 - 2 * n)). lia.
Qed.

Lemma run_DFS t idx types rest p :
  tables_wf t → seg_valid t (SegDFS idx types) →
  let n := 2 + Z.of_nat (length (seg_payload t (SegDFS idx types))) in
  parse_DFS (on (be16 n ++ seg_payload t (SegDFS idx types) ++ rest) p t)
  = Ret (EXIT_SUCCESS, on rest (p + n) (seg_apply t (SegDFS idx types))).
Proof.
  intros Ht [_ (Hi & Hl & HF)] n. unfold MAX_DWT_LEVEL in Hl.
  destruct (tw_dfs _ Ht) as (D1&D2&D3&D4&D5).
  assert (0 ≤ dfs_len (Z.of_nat (length types))) as Hd by (unfold dfs_len, ceildiv_int; div_lia).
  assert (n = 5 + dfs_len (Z.of_nat (length types))) as Hn.
  { unfold n. cbn [seg_payload]. rewrite !length_app. unfold dfs_string.
    rewrite length_be_bytes. cbn [length be16]. lia. }
  destruct (dfs_string_bits types rest (p + 2 + 2 + 1) t HF ltac:(lia)) as [E1 E2].
  unfold parse_DFS. cbn [seg_payload]. rewrite <- !app_assoc. run_step.
  rewrite (proj2 (Z.ltb_ge n 5)) by lia. run_step. cbn [app]. run_step.
  replace (Z.to_nat (n - 5)) with (Z.to_nat (dfs_len (Z.of_nat (length types)))) by lia.
  rewrite (bind_run _ _ _ _ _ E1). cbn zeta. run_step.
  change (ceildiv_int (2 * Z.of_nat (length types)) 8) with (dfs_len (Z.of_nat (length types))).
  rewrite E2, Nat2Z.id. erewrite bind_run by (apply run_dfs_types; [done|cbn; lia..]).
  replace (Z.to_nat (Z.of_nat (length types) + 1)) with (S (length types)) by lia. cbn beta iota.
  do 2 erewrite bind_run by (apply (run_dfs_depths _ 0); cbn; lia).
  cbn [on swap_cs h_dfs]. rewrite !depths_of by lia. run_end. lia.
Qed.

(** *** QCD *)
Definition enc_step (rev : bool) (v : Z) : list Z := if rev then [v] else be16 v.
Definition qcd_ok (q : qcd_marker) : Prop :=
  length (exponent q) = 16%nat ∧ length (mantissa q) = 16%nat.

Lemma put_step_ok rev q kv : qcd_ok q → qcd_ok (put_step rev q kv).
Proof. intros []. destruct kv, rev; split; cbn; by rewrite ?length_insert. Qed.

Lemma steps_ok rev kvs q : qcd_ok q → qcd_ok (foldl (put_step rev) q kvs).
Proof. revert q. induction kvs; intros; cbn; auto using put_step_ok. Qed.

Lemma run_qcd_store rev k v rest p t :
  qcd_ok (h_qcd t) → 0 ≤ k < 16 → w16 v →
  qcd_store rev k (on (enc_step rev v ++ rest) p t)
  = Ret ((), on rest (p + Z.of_nat (length (enc_step rev v))) (set_qcd (put_step rev (h_qcd t) (k, v)) t)).
Proof.
  intros [L1 L2] Hk Hv. unfold qcd_store, enc_step. destruct rev; cbn [app].
  - run_steps. rewrite Z.shiftr_div_pow2 by lia. run_end. cbn. lia.
  - run_step. unfold w16 in Hv. rewrite Z.shiftr_div_pow2, u8_small by div_lia.
    change 0x7FF with (2 ^ 11 - 1). rewrite land_mask by lia. run_steps. run_end. cbn. lia.
Qed.

Lemma level_slots_cases types i :
  (types !!! Z.to_nat i = BOTH
   ∧ level_slots types i = [3 * (i - 1) + 1; 3 * (i - 1) + 2; 3 * (i - 1) + 3])
  ∨ (types !!! Z.to_nat i ≠ BOTH ∧ level_slots types i = [3 * (i - 1) + 1]).
Proof. unfold level_slots. zcases; auto. Qed.

Lemma run_qcd_level rev i vs rest p t :
  qcd_ok (h_qcd t) → length (dfs_type (h_dfs t)) = 6%nat → 1 ≤ i ≤ 5 → Forall w16 vs →
  length vs = length (level_slots (dfs_type (h_dfs t)) i) →
  qcd_level rev i (on ((vs ≫= enc_step rev) ++ rest) p t)
  = Ret ((), on rest (p + Z.of_nat (length (vs ≫= enc_step rev)))
      (set_qcd (foldl (put_step rev) (h_qcd t) (zip (level_slots (dfs_type (h_dfs t)) i) vs)) t)).
Proof.
  intros Hq Hd Hi HF Hl. unfold qcd_level. rewrite bind_get, bind_arr_get by (cbn; lia).
  change (dfs_type (h_dfs (on _ _ t))) with (dfs_type (h_dfs t)).
  destruct (level_slots_cases (dfs_type (h_dfs t)) i) as [[E ES] | [E ES]]; rewrite ES in *.
  - rewrite E, Z.eqb_refl. destruct_list3 vs. inversion HF as [|?? Ha HF1]; subst.
    inversion HF1 as [|?? Hb HF2]; subst. inversion HF2 as [|?? Hc]; subst.
    cbn [mbind list_bind]. rewrite app_nil_r, <- !app_assoc.
    eapply run_eq.
    + eapply for_n_3.
      * replace (3 * (i - 1) + 0 + 1) with (3 * (i - 1) + 1) by lia. apply run_qcd_store; [done|lia|done].
      * replace (3 * (i - 1) + 1 + 1) with (3 * (i - 1) + 2) by lia.
        apply run_qcd_store; [by apply put_step_ok|lia|done].
      * replace (3 * (i - 1) + 2 + 1) with (3 * (i - 1) + 3) by lia.
        apply run_qcd_store; [by do 2 apply put_step_ok|lia|done].
    + rewrite !length_app. lia.
    + reflexivity.
  - rewrite (proj2 (Z.eqb_neq _ _)) by done. destruct vs as [|a []]; try done.
    inversion HF; subst. cbn [mbind list_bind]. rewrite app_nil_r.
    by apply run_qcd_store; [|lia|].
Qed.

Lemma run_qcd_levels rev n i vs rest p t :
  qcd_ok (h_qcd t) → length (dfs_type (h_dfs t)) = 6%nat → 1 ≤ i → i + Z.of_nat n ≤ 6 → Forall w16 vs →
  length vs = length (seqZ i (Z.of_nat n) ≫= level_slots (dfs_type (h_dfs t))) →
  for_n n i (qcd_level rev) (on ((vs ≫= enc_step rev) ++ rest) p t)
  = Ret ((), on rest (p + Z.of_nat (length (vs ≫= enc_step rev)))
      (set_qcd (foldl (put_step rev) (h_qcd t)
                  (zip (seqZ i (Z.of_nat n) ≫= level_slots (dfs_type (h_dfs t))) vs)) t)).
Proof.
  revert i vs p t. induction n as [|n IH]; intros i vs p t Hq Hd Hi Hn HF Hl.
  { cbn [for_n]. destruct vs; [|done]. destruct t. run_end. cbn. lia. }
  rewrite seqZ_cons in * by lia. replace (Z.pred (Z.of_nat (S n))) with (Z.of_nat n) in * by lia.
  replace (Z.succ i) with (i + 1) in * by lia.
  rewrite bind_cons in *. rewrite length_app in Hl. set (sl := level_slots _ i) in *.
  rewrite <- (take_drop (length sl) vs). rewrite <- (take_drop (length sl) vs) in HF.
  apply Forall_app in HF as [HF1 HF2]. rewrite bind_app, <- app_assoc. cbn [for_n].
  erewrite bind_run by (apply run_qcd_level; [done|done|lia|done|rewrite length_take; fold sl; lia]).
  rewrite IH; [|by apply steps_ok|done|lia|lia|done|rewrite length_drop; cbn; lia].
  rewrite zip_with_app by (rewrite length_take; lia). rewrite foldl_app. eapply run_eq; [done| |done].
  rewrite length_app. lia.
Qed.

Lemma bind_singleton (l : list Z) : l ≫= (λ v, [v]) = l.
Proof. induction l as [|x l IH]; [done|]. rewrite bind_cons, IH. done. Qed.

Lemma run_QCD t ty guard vals rest p n :
  tables_wf t → seg_valid t (SegQCD ty guard vals) →
  parse_QCD (on (be16 n ++ seg_payload t (SegQCD ty guard vals) ++ rest) p t)
  = Ret (EXIT_SUCCESS, on rest (p + 2 + Z.of_nat (length (seg_payload t (SegQCD ty guard vals))))
           (seg_apply t (SegQCD ty guard vals))).
Proof.
  intros Ht [_ (Hty & Hty1 & Hg & HNL & Hl & HF)]. unfold MAX_DWT_LEVEL in HNL.
  pose proof (tw_dfs _ Ht) as (HD & _). pose proof (tw_qcd _ Ht) as Hq.
  assert (Forall w16 vals) as HF16.
  { case_match; [|done]. eapply Forall_impl; [exact HF|]. unfold is_byte, w16. lia. }
  assert ((if ty =? 0 then vals else vals ≫= be16) = vals ≫= enc_step (ty =? 0)) as Henc.
  { unfold enc_step. destruct (ty =? 0); [by rewrite bind_singleton|done]. }
  destruct vals as [|v vs]; [done|]. inversion HF16 as [|?? Hv HF']; subst.
  unfold qcd_slots in Hl. cbn [length] in Hl. injection Hl as Hl.
  unfold parse_QCD. cbn [seg_payload]. rewrite Henc, bind_cons. cbn [app]. run_steps. cbn zeta.
  replace (Z.land (ty + 32 * guard) 31) with ty
    by (change 31 with (2 ^ 5 - 1); rewrite land_mask by lia; div_lia).
  replace (Z.land (Z.shiftr (ty + 32 * guard) 5) 7) with guard
    by (change 7 with (2 ^ 3 - 1); rewrite land_mask, Z.shiftr_div_pow2 by lia; div_lia).
  rewrite (proj2 (Z.eqb_neq ty 1)) by done.
  change (set_qcd ?q (on ?l ?p t)) with (on l p (set_qcd q t)). rewrite <- !app_assoc.
  erewrite bind_run by (apply run_qcd_store; [done|lia|done]).
  change (cod_NL (h_cod (on _ _ _))) with (cod_NL (h_cod t)).
  erewrite bind_run.
  2:{ apply run_qcd_levels; [by apply put_step_ok|done|lia|lia|done|].
      cbn [set_qcd h_dfs]. by rewrite Z2Nat.id by lia. }
  eapply run_eq; [reflexivity|cbn [length]; rewrite !length_app; lia|].
  cbn [seg_apply set_qcd h_dfs h_qcd]. unfold apply_qcd, qcd_slots. rewrite Z2Nat.id by lia. done.
Qed.

(** *** CAP *)
Lemma pcap_bit caps j o :
  caps !! j = Some o →
  Z.testbit (pcap_of caps) (Z.of_nat (length caps) - 1 - Z.of_nat j)
  = (if o : option Z then true else false).
Proof.
  revert j. induction caps as [|x caps IH] using rev_ind; intros j Hj; [done|].
  unfold pcap_of. rewrite foldl_app, length_app. cbn [foldl length]. fold (pcap_of caps).
  destruct (decide (j < length caps)%nat).
  - rewrite lookup_app_l in Hj by done.
    replace (Z.of_nat (length caps + 1) - 1 - Z.of_nat j)
      with (Z.succ (Z.of_nat (length caps) - 1 - Z.of_nat j)) by lia.
    rewrite <- (IH _ Hj). destruct x; [apply Z.testbit_odd_succ; lia|].
    rewrite Z.add_0_r. apply Z.testbit_even_succ. lia.
  - pose proof (lookup_lt_Some _ _ _ Hj) as Hb. rewrite length_app in Hb. cbn in Hb.
    replace j with (length caps + 0)%nat in * by lia. rewrite lookup_app_r in Hj by lia.
    replace (length caps + 0 - length caps)%nat with 0%nat in Hj by lia. injection Hj as ->.
    replace (_ - 1 - _) with 0 by lia.
    destruct o; [apply Z.testbit_odd_0|rewrite Z.add_0_r; apply Z.testbit_even_0].
Qed.

(** The capability words from index [i] on. *)
Definition caps_from (i : nat) (cs : list (option Z)) (t : tables) : tables :=
  set_cap15 (default (g_Ccap15 t) (if (i <=? 14)%nat then mjoin (cs !! (14 - i)%nat) else None))
    (set_cap2 (default (g_Ccap2 t) (if (i <=? 1)%nat then mjoin (cs !! (1 - i)%nat) else None)) t).

Lemma caps_from_nil i t : caps_from i [] t = t.
Proof. unfold caps_from. destruct t. by repeat case_match. Qed.

Definition cap_put (i : nat) (o : option Z) (t : tables) : tables :=
  match o with
  | Some v => (if (Z.of_nat i =? 14) then set_cap15 v else id)
                ((if (Z.of_nat i =? 1) then set_cap2 v else id) t)
  | None => t
  end.

Lemma caps_from_cons i o cs t : caps_from i (o :: cs) t = caps_from (S i) cs (cap_put i o t).
Proof.
  unfold caps_from, cap_put. destruct t as [? ? ? ? ? ? a b].
  do 16 (destruct i as [|i]; [destruct o; reflexivity|]).
  rewrite (proj2 (Z.eqb_neq _ 14)), (proj2 (Z.eqb_neq _ 1)) by lia. by destruct o.
Qed.

Lemma run_cap_words cs i pcap rw rest p t :
  (∀ j o, cs !! j = Some o →
     Z.testbit pcap (31 - (Z.of_nat i + Z.of_nat j)) = (if o : option Z then true else false)) →
  cap_words (length cs) (Z.of_nat i) pcap rw (on ((present cs ≫= be16) ++ rest) p t)
  = Ret (rw + Z.of_nat (length (present cs)),
         on rest (p + 2 * Z.of_nat (length (present cs))) (caps_from i cs t)).
Proof.
  revert i rw p t. induction cs as [|o cs IH]; intros i rw p t Hb; cbn [length cap_words].
  { rewrite caps_from_nil. cbn. rewrite !Z.add_0_r. run_end. lia. }
  pose proof (Hb 0%nat o eq_refl) as H0. rewrite Z.add_0_r in H0. rewrite H0, caps_from_cons.
  replace (Z.of_nat i + 1) with (Z.of_nat (S i)) by lia.
  assert (∀ j o, cs !! j = Some o → Z.testbit pcap (31 - (Z.of_nat (S i) + Z.of_nat j))
    = (if o : option Z then true else false)) as Hb'.
  { intros j o' Hj. rewrite <- (Hb (S j) o' Hj). f_equal. lia. }
  destruct o as [v|]; [|by apply IH].
  change (present (Some v :: cs)) with (v :: present cs). rewrite bind_cons, <- app_assoc.
  rewrite bind_word. set (l := (present cs ≫= be16) ++ rest). cbn [length].
  assert (∀ k, ((if Z.of_nat i =? 1 then modify (set_cap2 v) else mret ()) ;;
     (if Z.of_nat i =? 14 then modify (set_cap15 v) else mret ()) ;; k) (on l (p + 2) t)
     = (k : M (hdr stream) Z) (on l (p + 2) (cap_put i (Some v) t))) as Hk.
  { intros k. unfold cap_put. by do 2 case_match. }
  rewrite Hk. unfold l. rewrite IH by done. do 2 f_equal; [lia|]. f_equal. lia.
Qed.

Lemma run_words ws rest p t :
  for_n (length ws) 0 (λ _, _ ← rd_word; mret ()) (on ((ws ≫= be16) ++ rest) p t)
  = Ret ((), on rest (p + 2 * Z.of_nat (length ws)) t).
Proof.
  generalize 0. revert p. induction ws as [|w ws IH]; intros p i; cbn [length for_n].
  { run_end. lia. }
  rewrite bind_cons, <- app_assoc. erewrite bind_run by (rewrite bind_word; reflexivity).
  rewrite IH. run_end. lia.
Qed.

Lemma length_words ws : length (ws ≫= be16) = (2 * length ws)%nat.
Proof. induction ws as [|w ws IH]; [done|]. rewrite bind_cons, length_app, IH. cbn. lia. Qed.

Lemma run_CAP t caps extra rest p :
  seg_valid t (SegCAP caps extra) →
  let n := 2 + Z.of_nat (length (seg_payload t (SegCAP caps extra))) in
  parse_CAP (on (be16 n ++ seg_payload t (SegCAP caps extra) ++ rest) p t)
  = Ret (EXIT_SUCCESS, on rest (p + n) (seg_apply t (SegCAP caps extra))).
Proof.
  intros [_ (Hl & HF1 & HF2)] n.
  assert (n = 6 + 2 * (Z.of_nat (length (present caps)) + Z.of_nat (length extra))) as Hn.
  { unfold n. cbn [seg_payload]. rewrite length_app, length_words, length_app. cbn [length be32 be16 app]. lia. }
  unfold parse_CAP. cbn [seg_payload]. rewrite <- !app_assoc, bind_app, <- app_assoc. run_steps. cbn zeta.
  rewrite (proj2 (Z.leb_le 6 n)) by lia.
  replace ((n - 6) / 2) with (Z.of_nat (length (present caps)) + Z.of_nat (length extra)) by div_lia.
  erewrite bind_run.
  2:{ rewrite <- Hl. apply (run_cap_words caps 0).
      intros j o Hj. rewrite <- (pcap_bit _ _ _ Hj), Hl. f_equal. }
  replace (Z.to_nat _) with (length extra) by lia.
  erewrite bind_run by apply run_words. eapply run_eq; [reflexivity|lia|done].
Qed.

(** *** Other markers *)
Lemma run_skip l rest p t :
  let n := 2 + Z.of_nat (length l) in
  skip_marker (on (be16 n ++ l ++ rest) p t) = Ret (EXIT_SUCCESS, on rest (p + n) t).
Proof.
  intros n. unfold skip_marker. rewrite bind_word.
  replace (Z.to_nat (n - 2)) with (length l) by (unfold n; lia).
  erewrite bind_run; [run_end; reflexivity|]. unfold n. generalize 0. clear n.
  replace (p + (2 + Z.of_nat (length l))) with (p + 2 + Z.of_nat (length l)) by lia.
  generalize (p + 2). clear p. induction l as [|b l IH]; intros p i; cbn [length for_n app].
  { run_end. cbn. lia. }
  erewrite bind_run by (rewrite bind_byte; reflexivity). rewrite IH. run_end. lia.
Qed.

(** ** Any segment, then any header *)
Lemma run_segment t g rest p :
  tables_wf t → seg_valid t g →
  let n := 2 + Z.of_nat (length (seg_payload t g)) in
  marker_segment (seg_marker g) (on (be16 n ++ seg_payload t g ++ rest) p t)
  = Ret (EXIT_SUCCESS, on rest (p + n) (seg_apply t g)).
Proof.
  intros Ht Hv n. destruct g as [z|caps extra|c sso|c|ty gd vals|idx types|m l].
  - eapply run_pos; [by apply run_SIZ|unfold n; lia].
  - by apply run_CAP.
  - eapply run_pos; [by apply run_COD_segment|unfold n; lia].
  - by apply run_COC.
  - eapply run_pos; [by apply run_QCD|unfold n; lia].
  - by apply run_DFS.
  - destruct Hv as [_ [_ Hm]]. cbn [seg_marker seg_payload seg_apply] in *.
    rewrite !not_elem_of_cons in Hm. destruct Hm as (?&?&?&?&?&?&?&?&?).
    unfold marker_segment. repeat rewrite (proj2 (Z.eqb_neq m _)) by done. apply run_skip.
Qed.

Lemma seg_apply_wf t g : tables_wf t → seg_valid t g → tables_wf (seg_apply t g).
Proof.
  intros Ht Hv. pose proof (keeps_marker_segment (R := stream) (seg_marker g)
    (on (be16 (2 + Z.of_nat (length (seg_payload t g))) ++ seg_payload t g ++ []) 0 t)
    (tables_wf_swap _ _ Ht)) as Hk.
  rewrite (run_segment t g [] 0 Ht Hv) in Hk. destruct Hk as [Hw _].
  apply (tables_wf_swap ()) in Hw. destruct (seg_apply t g) as [[]]. exact Hw.
Qed.

Lemma seg_marker_ok t g :
  seg_valid t g →
  (seg_marker g =? SOD) = false
  ∧ negb (Z.land (seg_marker g) 0xFF00 =? 0xFF00) || (seg_marker g =? EOC) = false.
Proof.
  intros [_ Hv]. destruct g as [| | | | | |m l]; [by vm_compute..|].
  destruct Hv as [Hm Hn]. rewrite !not_elem_of_cons in Hn. destruct Hn as (?&?&_). cbn [seg_marker].
  rewrite !(proj2 (Z.eqb_neq m _)) by done. split; [done|]. rewrite orb_false_r.
  replace (Z.land m 0xFF00) with 0xFF00; [done|].
  replace m with (Z.lor (Z.shiftl 0xFF 8) (m - 0xFF00))
    by (rewrite shiftl_lor_byte by lia; lia).
  rewrite Z.land_lor_distr_l. replace (Z.land (m - 65280) 65280) with 0; [done|].
  change 65280 with (Z.shiftl 255 8) at 2. symmetry. apply Z.bits_inj'. intros k Hk.
  rewrite Z.land_spec, Z.bits_0. destruct (Z.ltb_spec k 8).
  { by rewrite Z.shiftl_spec_low, andb_false_r. }
  destruct (decide (m - 65280 = 0)) as [->|]; [by rewrite Z.bits_0|].
  rewrite (Z.bits_above_log2 (m - 65280)); [done|lia|].
  apply Z.log2_lt_pow2; [lia|]. apply Z.lt_le_trans with (2 ^ 8); [lia|].
  apply Z.pow_le_mono_r; lia.
Qed.

Lemma run_header_loop segs t fuel rest p :
  tables_wf t → header_valid t segs → (length segs < fuel)%nat →
  header_loop fuel (on (segs_bytes t segs ++ be16 SOD ++ rest) p t)
  = Ret (true, on rest (p + Z.of_nat (length (segs_bytes t segs)) + 2) (foldl seg_apply t segs)).
Proof.
  revert t fuel p. induction segs as [|g segs IH]; intros t [|fuel] p Ht Hv Hf; try (cbn in Hf; lia).
  { cbn [segs_bytes header_loop]. rewrite app_nil_l, bind_word, Z.eqb_refl. run_end. cbn. lia. }
  destruct Hv as [Hg Hv]. cbn [segs_bytes header_loop]. unfold seg_bytes at 1. rewrite <- !app_assoc.
  rewrite bind_word. destruct (seg_marker_ok t g Hg) as [-> ->].
  rewrite (bind_run _ _ _ _ _ (run_segment t g _ _ Ht Hg)).
  rewrite IH; [|by apply seg_apply_wf|done|cbn in Hf; lia].
  run_end. unfold seg_bytes. rewrite !length_app. cbn [length be16]. lia.
Qed.

Lemma segs_bytes_length segs t : (length segs ≤ length (segs_bytes t segs))%nat.
Proof.
  revert t. induction segs as [|g segs IH]; intros t; cbn; [lia|].
  rewrite length_app. specialize (IH (seg_apply t g)). lia.
Qed.

Lemma run_main_header segs t rest p :
  tables_wf t → header_valid (reset_caps t) segs →
  let l := main_header (reset_caps t) segs in
  parse_main_header (on (l ++ rest) p t)
  = Ret (u32 (p + Z.of_nat (length l)),
         on rest (p + Z.of_nat (length l)) (foldl seg_apply (reset_caps t) segs)).
Proof.
  intros Ht Hv l. unfold l, main_header. rewrite <- !app_assoc. unfold parse_main_header.
  rewrite bind_word, Z.eqb_refl. cbn [negb]. rewrite !bind_modify, bind_get.
  change (set_cap2 0 (set_cap15 0 (on ?l ?p t))) with (on l p (reset_caps t)).
  erewrite bind_run.
  2:{ apply run_header_loop; [by destruct Ht|done|]. unfold header_fuel. cbn [on swap_cs h_cs r_left stream_reader rem].
      rewrite length_app. pose proof (segs_bytes_length segs (reset_caps t)). lia. }
  cbv beta iota. rewrite bind_get. rewrite !length_app. cbn [length be16].
  unfold mret, M_ret. cbn [on swap_cs h_cs r_pos stream_reader rpos].
  do 2 f_equal; [f_equal; lia|]. unfold on. do 2 f_equal. lia.
Qed.


(** Storing past the end of the precinct arrays. *)
Lemma rd_precincts_ub n i W H (s : hdr stream) :
  length H = length W → 0 ≤ i ≤ Z.of_nat (length W) → Z.of_nat (length W) < i + Z.of_nat n →
  rd_precincts n i W H s = UB.
Proof.
  revert i W H s. induction n as [|n IH]; intros i W H s HL Hi Hn; [lia|]. cbn [rd_precincts].
  unfold mbind at 1, M_bind at 1, rd_byte at 1, lift_cs. destruct (r_byte (h_cs s)) as [b c].
  destruct (decide (i = Z.of_nat (length W))) as [->|].
  - unfold store_at, arr_set. by rewrite HL, Z.ltb_irrefl, andb_false_r.
  - rewrite !bind_store by lia. apply IH; rewrite ?length_insert; lia.
Qed.

Lemma bind_lift_ub {A B} (op : stream → A * stream) (k : A → M _ B) s :
  (∀ a c, k a (set_hcs c s) = UB) → (lift_cs op ≫= k) s = UB.
Proof. intros Hk. unfold mbind, M_bind, lift_cs. by destruct (op (h_cs s)). Qed.

Lemma bind_skip_ub {B} (b : bool) (k : () → M (hdr stream) B) s :
  (∀ c, k () (set_hcs c s) = UB) →
  ((if b then _ ← rd_word; mret () else mret ()) ≫= k) s = UB.
Proof.
  intros Hk. destruct b.
  - unfold mbind, M_bind, rd_word, lift_cs. destruct (r_word (h_cs s)). apply Hk.
  - specialize (Hk (h_cs s)). by destruct s.
Qed.

(** A header laid out on a chain. *)
Lemma header_chain_run mem s segs rest :
  byte_memory mem → wf (h_cs s) → tables_wf s →
  let t := reset_caps (swap_cs () s) in
  header_valid t segs →
  drop (Z.to_nat (pos (h_cs s))) (flat_bytes mem (chunks_ (h_cs s))) = main_header t segs ++ rest →
  let stop := pos (h_cs s) + Z.of_nat (length (main_header t segs)) in
  ∃ cs', parse_main_header (H := chain_reader mem) s
         = Ret (u32 stop, swap_cs cs' (foldl seg_apply t segs))
       ∧ wf cs' ∧ pos cs' = stop
       ∧ drop (Z.to_nat (pos cs')) (flat_bytes mem (chunks_ cs')) = rest.
Proof.
  intros Hm Hwf Ht t Hv Hb stop. pose proof (parse_chain mem s Hm Hwf) as Hs. cbn zeta in Hs.
  unfold stream_of in Hs. rewrite Hb in Hs.
  pose proof (run_main_header segs (swap_cs () s) rest (pos (h_cs s)) (tables_wf_swap _ _ Ht) Hv) as Hr.
  cbn zeta in Hr. fold t in Hr. fold stop in Hr.
  change (on ?l ?p (swap_cs () s)) with (swap_cs (mkStream l p) s) in Hr. rewrite Hr in Hs.
  destruct (parse_main_header s) as [[a s']| |]; try done.
  destruct Hs as [-> [[W R P] E]]. exists (h_cs s'). split_and!; try done.
  do 2 f_equal. destruct s'. unfold on, swap_cs in E. cbn in E. by injection E as <- <- <- <- <- <- <-.
Qed.

(** ** Properties *)

(** C15: main-header round trip.  Take any sequence of supported marker segments
    (SIZ, CAP, COD, COC, QCD, DFS and markers to skip) in any order, encode it
    between SOC and SOD, and lay the bytes out over the chain of RTP chunks in
    any way: [parse_main_header] returns the offset just after SOD, leaves the
    reader there, and the tables hold exactly what the segments say, later
    segments overriding earlier ones. *)
Theorem main_header_roundtrip mem s segs rest :
  byte_memory mem → wf (h_cs s) → tables_wf s →
  let t := reset_caps (swap_cs () s) in
  header_valid t segs →
  drop (Z.to_nat (pos (h_cs s))) (flat_bytes mem (chunks_ (h_cs s))) = main_header t segs ++ rest →
  let stop := pos (h_cs s) + Z.of_nat (length (main_header t segs)) in
  ∃ cs', parse_main_header (H := chain_reader mem) s
         = Ret (u32 stop, swap_cs cs' (foldl seg_apply t segs))
       ∧ wf cs' ∧ pos cs' = stop
       ∧ drop (Z.to_nat (pos cs')) (flat_bytes mem (chunks_ cs')) = rest.
Proof. apply header_chain_run. Qed.

(** Chunk boundaries do not matter.  Two chains that hold the same bytes,
    read from the same position, give the same return value, the same tables,
    the same undefined accesses; and the readers stop at the same position. *)
Theorem main_header_same_stream mem1 mem2 cs1 cs2 (t : tables) :
  byte_memory mem1 → byte_memory mem2 → wf cs1 → wf cs2 → abs mem1 cs1 = abs mem2 cs2 →
  match parse_main_header (H := chain_reader mem1) (swap_cs cs1 t),
        parse_main_header (H := chain_reader mem2) (swap_cs cs2 t) with
  | Ret (a, s1), Ret (b, s2) =>
      a = b ∧ swap_cs () s1 = swap_cs () s2 ∧ pos (h_cs s1) = pos (h_cs s2)
  | UB, UB => True
  | NoFuel, NoFuel => True
  | _, _ => False
  end.
Proof.
  intros M1 M2 W1 W2 He. pose proof (parse_chain mem1 (swap_cs cs1 t) M1 W1) as H1.
  pose proof (parse_chain mem2 (swap_cs cs2 t) M2 W2) as H2. cbn zeta in H1, H2.
  assert (stream_of mem1 cs1 = stream_of mem2 cs2) as Es.
  { unfold stream_of. unfold abs in He. by injection He as -> -> _ _ _. }
  cbn [swap_cs h_cs] in H1, H2. rewrite Es in H1.
  change (swap_cs ?c (swap_cs ?d t)) with (swap_cs c t) in H1, H2.
  destruct (parse_main_header (swap_cs (stream_of mem2 cs2) t)) as [[b t']| |],
    (parse_main_header (swap_cs cs1 t)) as [[a1 s1]| |],
    (parse_main_header (swap_cs cs2 t)) as [[a2 s2]| |]; try done.
  destruct H1 as [-> [A1 E1]], H2 as [-> [A2 E2]]. split_and!; [done| |].
  - rewrite E1 in E2. unfold swap_cs in E2 |- *. by injection E2 as -> -> -> -> -> -> ->.
  - rewrite <- (as_pos _ _ _ A1). apply (as_pos _ _ _ A2).
Qed.

(** Unchecked indices (finding).  A COC segment whose component index is not
    0, 1 or 2 writes outside [cocs], and a COD segment announcing more than five
    decomposition levels (the code only prints a message; Part-2 streams use
    values from 128 on) writes outside [prw]/[prh], whatever follows them. *)
Theorem header_unchecked_indices (t : tables) n rest p :
  tables_wf t →
  (∀ idx, MAX_NUM_COMPONENTS ≤ idx < 256 → parse_COC (on (be16 n ++ idx :: rest) p t) = UB)
  ∧ (∀ scod po layers mct NL cbw cbh, MAX_DWT_LEVEL < NL < 256 → 0 ≤ cbh ≤ 2 →
       parse_COD (on (be16 n ++ [scod; po] ++ be16 layers ++ [mct; NL; cbw; cbh] ++ rest) p t) = UB).
Proof.
  unfold MAX_NUM_COMPONENTS, MAX_DWT_LEVEL. intros Ht. split.
  - intros idx Hi. unfold parse_COC. run_steps. cbn zeta. unfold MAX_NUM_COMPONENTS.
    by rewrite (proj2 (Z.ltb_ge _ _)) by lia.
  - intros scod po layers mct NL cbw cbh HNL Hc. unfold parse_COD. cbn [app]. run_steps. cbn zeta.
    rewrite u8_small, (proj2 (Z.ltb_ge _ _)) by lia. destruct (tw_cod _ Ht) as [T1 T2].
    assert (∀ s w h, length w = 6%nat → length h = 6%nat →
      rd_precincts (R := stream) (Z.to_nat (NL + 1)) 0 w h s = UB) as Hub
      by (intros; apply rd_precincts_ub; lia).
    apply bind_lift_ub; intros b1 c1. apply bind_lift_ub; intros b2 c2.
    apply bind_skip_ub; intros c3. unfold mbind, M_bind. by rewrite Hub.
Qed.

(** Derived quantisation (finding).  A scalar-derived QCD segment carries one
    step size; the parser reads at least one more word (three more when the
    first level splits both ways), so the following marker code is swallowed
    and the walk goes on inside the next segment. *)
Theorem qcd_derived_swallows_next (t : tables) guard v next rest p :
  tables_wf t → 0 ≤ guard < 8 → w16 v → w16 next →
  dfs_type (h_dfs t) !!! 1%nat ≠ BOTH →
  ∃ t', parse_QCD (on (be16 5 ++ [1 + 32 * guard] ++ be16 v ++ be16 next ++ rest) p t)
        = Ret (EXIT_SUCCESS, on rest (p + 7) t').
Proof.
  intros Ht Hg Hv Hn HB. pose proof (tw_dfs _ Ht) as (HD & _). pose proof (tw_qcd _ Ht) as Hq.
  eexists. unfold parse_QCD. cbn [app]. run_steps. cbn zeta.
  replace (Z.land (1 + 32 * guard) 31) with 1
    by (change 31 with (2 ^ 5 - 1); rewrite land_mask by lia; div_lia).
  change (set_qcd ?q (on ?l ?p t)) with (on l p (set_qcd q t)). cbn [Z.eqb Pos.eqb].
  erewrite bind_run by (apply (run_qcd_store false); [exact Hq|lia|done]).
  erewrite bind_run.
  2:{ apply (run_qcd_levels false 1 1 [next] rest); [by apply put_step_ok|done|lia|lia|by constructor|].
      cbn [set_qcd h_dfs]. rewrite seqZ_cons by lia. change (seqZ _ _) with (@nil Z).
      rewrite bind_cons, app_nil_r. destruct (level_slots_cases (dfs_type (h_dfs t)) 1) as [[] | [? ->]]; done. }
  run_end. cbn. lia.
Qed.

(** ** Witnesses: a six-segment header cut into three chunks *)
Definition demo_tables : tables := mkHdr () siz0 cod0 [coc0; coc0; coc0] qcd0 dfs0 7 7.
Definition demo_siz : siz_marker :=
  mkSiz 0x4000 3840 2160 0 0 3840 2160 0 0 3 [9; 9; 9] [1; 2; 2] [1; 1; 1].
Definition demo_cod : cod_marker :=
  mkCod 0 0 1 0 0 0 PRCL 1 0 2 8 3 0x48 1 0 [7; 8; 8] [2; 3; 4].
Definition demo_coc : coc_marker :=
  mkCoc 2 0 0 1 0 0 0 0 0 0 130 7 3 0x48 1 0 [7; 6; 8] [2; 3; 4] 0 0.
Definition demo_caps : list (option Z) :=
  [None; Some 0x4000] ++ replicate 12 None ++ [Some 33] ++ replicate 17 None.
Definition demo_segs : list segment :=
  [SegSIZ demo_siz; SegCAP demo_caps []; SegDFS 2 [1; 2]; SegCOD demo_cod 0; SegCOC demo_coc;
   SegQCD 2 1 [0x8801; 0x8802; 0x8803; 0x8804; 0x9005]; SegOther 0xFF64 [0; 1; 2]].
Definition demo_header : list Z := main_header (reset_caps demo_tables) demo_segs ++ [0xDE; 0xAD].
Definition demo_chain : codestream :=
  append_chunk 90 (Z.of_nat (length demo_header) - 90) (append_chunk 41 49 (append_chunk 0 41 empty_codestream)).

Lemma demo_chain_wf : wf demo_chain.
Proof.
  split; [split|]; try (vm_compute; congruence).
  - vm_compute. repeat constructor.
  - apply Nat.le_0_l.
  - intros c [= <-]. done.
Qed.

Lemma demo_tables_wf {R} (c : R) : tables_wf (swap_cs c demo_tables).
Proof. split; cbn; try done. repeat constructor. Qed.

Lemma demo_segs_valid : header_valid (reset_caps demo_tables) demo_segs.
Proof.
  unfold demo_segs. repeat (apply conj || exact I || constructor); try (vm_compute; congruence).
  rewrite !not_elem_of_cons. split_and!; try (vm_compute; congruence). apply not_elem_of_nil.
Qed.

Lemma main_header_roundtrip_witness :
  ∃ cs', parse_main_header (H := chain_reader (list_mem demo_header)) (swap_cs demo_chain demo_tables)
         = Ret (126, swap_cs cs' (foldl seg_apply (reset_caps demo_tables) demo_segs)).
Proof.
  destruct (main_header_roundtrip (list_mem demo_header) (swap_cs demo_chain demo_tables)
    demo_segs [0xDE; 0xAD]) as (cs' & H & _).
  - apply list_mem_bytes. reflexivity.
  - exact demo_chain_wf.
  - apply demo_tables_wf.
  - exact demo_segs_valid.
  - vm_compute. reflexivity.
  - exists cs'. exact H.
Defined.

Lemma main_header_same_stream_witness :
  let cs2 := append_chunk 0 (Z.of_nat (length demo_header)) empty_codestream in
  match parse_main_header (H := chain_reader (list_mem demo_header)) (swap_cs demo_chain demo_tables),
        parse_main_header (H := chain_reader (list_mem demo_header)) (swap_cs cs2 demo_tables) with
  | Ret (a, s1), Ret (b, s2) =>
      a = b ∧ swap_cs () s1 = swap_cs () s2 ∧ pos (h_cs s1) = pos (h_cs s2)
  | UB, UB => True
  | NoFuel, NoFuel => True
  | _, _ => False
  end.
Proof.
  apply (main_header_same_stream (list_mem demo_header) (list_mem demo_header)).
  - apply list_mem_bytes. reflexivity.
  - apply list_mem_bytes. reflexivity.
  - exact demo_chain_wf.
  - split; [split|]; try (vm_compute; congruence).
    + repeat constructor.
    + apply Nat.le_0_l.
    + intros c [= <-]. done.
  - vm_compute. reflexivity.
Defined.

Lemma header_unchecked_indices_witness :
  parse_COC (on (be16 9 ++ 3 :: []) 0 demo_tables) = UB.
Proof.
  apply (header_unchecked_indices demo_tables 9 [] 0 (demo_tables_wf ())).
  unfold MAX_NUM_COMPONENTS. lia.
Defined.

Lemma qcd_derived_swallows_next_witness :
  ∃ t', parse_QCD (on (be16 5 ++ [1 + 32 * 1] ++ be16 0x8000 ++ be16 COC ++ [0; 12]) 0 demo_tables)
        = Ret (EXIT_SUCCESS, on [0; 12] (0 + 7) t').
Proof.
  apply (qcd_derived_swallows_next demo_tables 1 0x8000 COC [0; 12] 0 (demo_tables_wf ()));
    vm_compute; try (split; congruence); congruence.
Defined.
