(* ===== verification/HeaderTypes.v ===== *)
(** * HeaderTypes: what the marker walk can leave in the tables

    Whatever bytes a chain holds, a walk over it terminates, leaves every array at its
    declared length ([tables_wf] of HeaderSpec) and every entry within the bits it is read
    from ([typed]): words and bytes at their width, flags 0 or 1, precinct exponents below
    16, step sizes of 5 and 11 bits, split types below 4, and the depth of level [l] at most
    [l]. *)
From S2P Require Import Prelude Codestream Markers MainHeader HeaderSpec.

Definition below (n v : Z) : Prop := 0 ≤ v < n.

(** [D] of level [l] counts among [l] levels. *)
Definition depths (l : list Z) : Prop := ∀ i d, l !! i = Some d → 0 ≤ d ≤ Z.of_nat i.

Definition siz_typed (z : siz_marker) : Prop :=
  below 65536 (Rsiz z) ∧ below 65536 (Csiz z)
  ∧ Forall (below 4294967296) [Xsiz z; Ysiz z; XOsiz z; YOsiz z; XTsiz z; YTsiz z; XTOsiz z; YTOsiz z]
  ∧ Forall (below 256) (Ssiz z) ∧ Forall (below 256) (XRsiz z) ∧ Forall (below 256) (YRsiz z).

Definition cod_typed (c : cod_marker) : Prop :=
  Forall (below 2) [cod_max_precinct c; cod_use_SOP c; cod_use_EPH c; cod_use_h_offset c; cod_use_v_offset c;
                    cod_use_blkcoder_extension c]
  ∧ Forall (below 256) [cod_progression_order c; cod_mct c; cod_NL c; cod_cbw c; cod_cbh c; cod_cbs c; cod_transform c]
  ∧ Forall (below 65536) [cod_num_layers c; cod_SSO c]
  ∧ Forall (below 16) (cod_prw c) ∧ Forall (below 16) (cod_prh c).

Definition coc_typed (c : coc_marker) : Prop :=
  Forall (below 2) [coc_max_precinct c; coc_use_SOP c; coc_use_EPH c; coc_use_h_offset c; coc_use_v_offset c;
                    coc_use_blkcoder_extension c]
  ∧ Forall (below 256) [coc_idx c; coc_progression_order c; coc_mct c; coc_NL c; coc_cbw c; coc_cbh c; coc_cbs c;
                        coc_transform c]
  ∧ Forall (below 65536) [coc_num_layers c; coc_SSO c]
  ∧ Forall (below 16) (coc_prw c) ∧ Forall (below 16) (coc_prh c)
  ∧ below 17 (coc_step_x c) ∧ below 17 (coc_step_y c).

Definition qcd_typed (q : qcd_marker) : Prop :=
  below 32 (qcd_type q) ∧ below 8 (num_guard_bits q) ∧ Forall (below 32) (exponent q) ∧ Forall (below 2048) (mantissa q).

Definition dfs_typed (d : dfs_marker) : Prop :=
  below 65536 (dfs_idx d) ∧ below 256 (Idfs d) ∧ Forall (below 4) (dfs_type d)
  ∧ Forall (below 2) (h_orient d) ∧ Forall (below 2) (v_orient d) ∧ depths (hor_depth d) ∧ depths (ver_depth d).

Record typed {R} (s : hdr R) : Prop := {
  ty_siz : siz_typed (h_siz s);
  ty_cod : cod_typed (h_cod s);
  ty_cocs : Forall coc_typed (h_cocs s);
  ty_qcd : qcd_typed (h_qcd s);
  ty_dfs : dfs_typed (h_dfs s);
  ty_cap15 : below 65536 (g_Ccap15 s);
  ty_cap2 : below 65536 (g_Ccap2 s)
}.

Section Update.
Context {R : Type}.
Implicit Types s : hdr R.
Lemma typed_set_siz z s : typed s → siz_typed z → typed (set_siz z s).
Proof. by intros [] ?; split. Qed.
Lemma typed_set_cod c s : typed s → cod_typed c → typed (set_cod c s).
Proof. by intros [] ?; split. Qed.
Lemma typed_set_coc k c s : typed s → coc_typed c → typed (set_cocs (<[k := c]> (h_cocs s)) s).
Proof. by intros [] ?; split; [..|apply Forall_insert| | | |]. Qed.
Lemma typed_set_qcd q s : typed s → qcd_typed q → typed (set_qcd q s).
Proof. by intros [] ?; split. Qed.
Lemma typed_set_dfs d s : typed s → dfs_typed d → typed (set_dfs d s).
Proof. by intros [] ?; split. Qed.
Lemma typed_set_cap15 v s : typed s → below 65536 v → typed (set_cap15 v s).
Proof. by intros [] ?; split. Qed.
Lemma typed_set_cap2 v s : typed s → below 65536 v → typed (set_cap2 v s).
Proof. by intros [] ?; split. Qed.
End Update.

(** ** Bits *)
Lemma below_land n x m : n = 2 ^ m → 0 ≤ m → below n (Z.land x (n - 1)).
Proof. intros -> Hm. rewrite land_mask by done. apply Z.mod_pos_bound. lia. Qed.
Lemma below_shiftr n k m v : 0 ≤ k → n ≤ m * 2 ^ k → below n v → below m (Z.shiftr v k).
Proof.
  intros Hk Hn [H1 H2]. rewrite Z.shiftr_div_pow2 by done. split; [apply Z.div_pos; lia|]. apply Z.div_lt_upper_bound; lia.
Qed.
Lemma below_mono n m v : n ≤ m → below n v → below m v.
Proof. unfold below. lia. Qed.
Lemma below_u8 v : below 256 (u8 v).
Proof. apply Z.mod_pos_bound. lia. Qed.
Lemma below_bit v k : below 2 (bit_of v k).
Proof. apply (below_land 2 _ 1); lia. Qed.
Lemma below_not_bit v : below 2 (not_bit0 v).
Proof. unfold not_bit0, below. case_match; lia. Qed.
Lemma below_orient l t : Forall (below 2) l → below 2 (l !!! t).
Proof.
  intros Hl. destruct (l !! t) as [x|] eqn:E.
  - rewrite (list_lookup_total_correct _ _ _ E). by eapply Forall_lookup_1.
  - rewrite list_lookup_total_alt, E. unfold below. cbn. lia.
Qed.

(** ** The walk *)
Section Gives.
Context (mem : memory) (Hmem : byte_memory mem).
#[local] Notation S := (hdr codestream).
#[local] Instance the_chain : Reader codestream := chain_reader mem.

Definition gives {A} (m : M S A) (Q : A → Prop) : Prop :=
  ∀ s, typed s → match m s with Ret (a, s') => typed s' ∧ Q a | _ => True end.

Lemma gives_ret {A} (a : A) (Q : A → Prop) : Q a → gives (mret a) Q.
Proof. by intros HQ s Hs. Qed.
Lemma gives_ub {A} (Q : A → Prop) : gives undefined Q.
Proof. by intros s Hs. Qed.
Lemma gives_bind {A B} (m : M S A) (k : A → M S B) (P : A → Prop) (Q : B → Prop) :
  gives m P → (∀ a, P a → gives (k a) Q) → gives (m ≫= k) Q.
Proof.
  intros Hm Hk s Hs. specialize (Hm s Hs). unfold mbind, M_bind. destruct (m s) as [[a s']| |]; [|done|done].
  destruct Hm as [Hs' Ha]. by apply Hk.
Qed.
Lemma gives_get {B} (k : S → M S B) (Q : B → Prop) : (∀ s, typed s → gives (k s) Q) → gives (get_st ≫= k) Q.
Proof. intros Hk s Hs. by apply Hk. Qed.
Lemma gives_modify f : (∀ s, typed s → typed (f s)) → gives (modify f) (λ _, True).
Proof. intros Hf s Hs. by split; [apply Hf|]. Qed.
Lemma gives_lift {A} (op : codestream → A * codestream) (Q : A → Prop) : (∀ c, Q (op c).1) → gives (lift_cs op) Q.
Proof.
  intros Hop s []. unfold lift_cs. specialize (Hop (h_cs s)). destruct (op (h_cs s)) as [a c]. by split.
Qed.
Lemma gives_byte : gives rd_byte (below 256).
Proof. apply gives_lift. intros c. by apply get_byte_range. Qed.
Lemma gives_word : gives rd_word (below 65536).
Proof. apply gives_lift. intros c. by apply get_word_range. Qed.
Lemma gives_dword : gives rd_dword (below 4294967296).
Proof.
  apply gives_lift. intros c. cbn. unfold get_dword, below. pose proof (get_word_range mem c Hmem).
  destruct (get_word mem c) as [hi c1]. pose proof (get_word_range mem c1 Hmem). destruct (get_word mem c1) as [lo c2].
  cbn [fst snd] in *. rewrite u32_small by (rewrite Z.shiftl_mul_pow2 by lia; lia). rewrite (shiftl_lor_byte hi lo 16) by lia. lia.
Qed.
Lemma gives_for_n n lo b : (∀ i, gives (b i) (λ _, True)) → gives (for_n n lo b) (λ _, True).
Proof.
  intros Hb. revert lo. induction n as [|n IH]; intros lo; cbn [for_n]; [by apply gives_ret|].
  eapply gives_bind; [apply Hb|]. intros _ _. apply IH.
Qed.
Lemma gives_store (P : Z → Prop) l i x : Forall P l → P x → gives (store_at l i x) (Forall P).
Proof.
  intros Hl Hx. unfold store_at, arr_set. destruct (_ && _); [|apply gives_ub]. apply gives_ret. by apply Forall_insert.
Qed.
Lemma gives_arr_get (P : Z → Prop) l i : Forall P l → gives (arr_get l i) P.
Proof.
  intros Hl. unfold arr_get. destruct (_ && _) eqn:E; [|apply gives_ub]. apply gives_ret.
  apply andb_true_iff in E as [E1 E2]. apply Z.leb_le in E1. apply Z.ltb_lt in E2.
  apply Forall_lookup_total_1; [done|lia].
Qed.
Lemma gives_skip (b : bool) : gives (if b then _ ← rd_word; mret () else mret ()) (λ _, True).
Proof. destruct b; [|by apply gives_ret]. eapply gives_bind; [apply gives_word|]. intros. by apply gives_ret. Qed.

Ltac give_step :=
  lazymatch goal with
  | |- gives (get_st ≫= _) _ => apply gives_get; intros ?s ?Hs; cbn beta
  | |- gives (rd_byte ≫= _) _ => eapply gives_bind; [apply gives_byte|intros ? ?]
  | |- gives (rd_word ≫= _) _ => eapply gives_bind; [apply gives_word|intros ? ?]
  | |- gives (rd_dword ≫= _) _ => eapply gives_bind; [apply gives_dword|intros ? ?]
  | |- gives (for_n _ _ _ ≫= _) _ => eapply gives_bind; [apply gives_for_n; intros ?|intros ? _]
  | |- gives (modify _ ≫= _) _ => eapply gives_bind; [apply gives_modify|intros ? _]
  | |- gives (modify _) _ => apply gives_modify
  | |- gives (for_n _ _ _) _ => apply gives_for_n; intros ?
  | |- gives (mret _) _ => apply gives_ret; try done
  | |- gives undefined _ => apply gives_ub
  | |- gives (store_at _ _ _ ≫= _) _ => eapply gives_bind; [eapply gives_store; [eassumption|solve [auto with ranges]]|intros ? ?]
  | |- gives ((if _ then _ ← rd_word; mret () else mret ()) ≫= _) _ => eapply gives_bind; [apply gives_skip|intros ? _]
  | |- gives (if ?b then _ else _) _ => destruct b
  end.
Ltac give := cbn zeta; repeat (give_step; cbn zeta).
(** [typed] of the fields of an updated table, from the ranges in the context. *)
Ltac ranges := repeat match goal with |- _ ∧ _ => split | |- Forall _ (_ :: _) => apply Forall_cons; split | |- Forall _ [] => apply Forall_nil_2 end;
  cbn; first [assumption|solve [auto with ranges]].

(** The ranges of the fields listed in [F]. *)
Ltac each F := repeat (apply Forall_cons_1 in F as [? F]).

Create HintDb ranges.
#[local] Hint Resolve below_u8 below_bit below_not_bit : ranges.
#[local] Hint Extern 4 (below _ (Z.land _ 1)) => apply (below_land 2 _ 1); lia : ranges.
#[local] Hint Extern 4 (below _ (Z.land _ 3)) => apply (below_land 4 _ 2); lia : ranges.
#[local] Hint Extern 4 (below _ (Z.land _ 7)) => apply (below_land 8 _ 3); lia : ranges.
#[local] Hint Extern 4 (below _ (Z.land _ 15)) => apply (below_land 16 _ 4); lia : ranges.
#[local] Hint Extern 4 (below _ (Z.land _ 31)) => apply (below_land 32 _ 5); lia : ranges.
#[local] Hint Extern 4 (below _ (Z.land _ 2047)) => apply (below_land 2048 _ 11); lia : ranges.

Lemma gives_siz_component c : gives (siz_component c) (λ _, True).
Proof.
  unfold siz_component. give_step. give_step. destruct (ty_siz _ Hs) as (_ & _ & _ & Z1 & Z2 & Z3). give.
  intros s1 Hs1. apply typed_set_siz; [done|]. destruct (ty_siz _ Hs1) as (? & ? & F & _). unfold siz_typed. cbn. split_and!; done.
Qed.
Lemma gives_SIZ : gives parse_SIZ (λ _, True).
Proof. unfold parse_SIZ. give; [|apply gives_siz_component].
  intros s1 Hs1. apply typed_set_siz; [done|]. destruct (ty_siz _ Hs1) as (_ & _ & _ & ? & ? & ?). unfold siz_typed. ranges. Qed.

Lemma gives_precincts n i w h :
  Forall (below 16) w → Forall (below 16) h →
  gives (rd_precincts n i w h) (λ r, Forall (below 16) r.1 ∧ Forall (below 16) r.2).
Proof. revert i w h. induction n as [|n IH]; intros i w h Hw Hh; cbn [rd_precincts]; give. by apply IH. Qed.
Lemma gives_coc_precincts n i w h x y :
  Forall (below 16) w → Forall (below 16) h → below 17 x → below 17 y →
  gives (rd_coc_precincts n i w h x y)
    (λ r, Forall (below 16) r.1.1.1 ∧ Forall (below 16) r.1.1.2 ∧ below 17 r.1.2 ∧ below 17 r.2).
Proof.
  revert i w h x y. induction n as [|n IH]; intros i w h x y Hw Hh Hx Hy; cbn [rd_coc_precincts]; give.
  assert (∀ v, below 17 (Z.land v 15)) as H17 by (intros v; apply (below_mono 16); [lia|auto with ranges]).
  apply IH; try done; by case_match.
Qed.

Lemma gives_COD : gives parse_COD (λ _, True).
Proof.
  unfold parse_COD. do 8 give_step. give_step. destruct (ty_cod _ Hs) as (_ & F2 & F3 & F4 & F5).
  assert (below 256 (cod_cbs (h_cod s)) ∧ below 256 (cod_transform (h_cod s)) ∧ below 65536 (cod_SSO (h_cod s))) as (C1 & C2 & C3).
  { rewrite Forall_forall in F2, F3. split_and!; [apply F2|apply F2|apply F3]; set_solver. }
  cbn zeta. destruct (4 <? _).
  - give. intros s1 Hs1. apply typed_set_cod; [done|]. unfold cod_typed. ranges.
  - give. eapply gives_bind; [by apply gives_precincts|]. intros [w h] [Hw Hh]. give.
    intros s1 Hs1. apply typed_set_cod; [done|]. unfold cod_typed. ranges.
Qed.

Lemma gives_copy_arr n i a b : Forall (below 16) a → Forall (below 16) b → gives (copy_arr n i a b) (Forall (below 16)).
Proof.
  intros Ha. revert i b. induction n as [|n IH]; intros i b Hb; cbn [copy_arr]; [by apply gives_ret|].
  eapply gives_bind; [by apply gives_arr_get|]. intros x Hx. give. by apply IH.
Qed.
Lemma gives_copy_cod k : gives (copy_cod k) (λ _, True).
Proof.
  unfold copy_cod. give_step. destruct (ty_cod _ Hs) as (F1 & F2 & F3 & F4 & F5). cbn zeta.
  destruct (h_cocs s !! Z.to_nat k) as [o|] eqn:E; [|apply gives_ub].
  pose proof (Forall_lookup_1 _ _ _ _ (ty_cocs _ Hs) E) as (_ & G2 & _ & G4 & G5 & G6 & G7).
  eapply gives_bind; [by apply gives_copy_arr|]. intros w Hw. eapply gives_bind; [by apply gives_copy_arr|]. intros h Hh.
  give. intros s1 Hs1. apply typed_set_coc; [done|]. apply Forall_inv in G2.
  each F1. each F2. each F3. unfold coc_typed. ranges.
Qed.

Lemma gives_COC : gives parse_COC (λ _, True).
Proof.
  unfold parse_COC. do 3 give_step. cbn zeta.
  destruct (if _ <? _ then h_cocs s !! _ else None) as [o|] eqn:E; [|apply gives_ub].
  assert (coc_typed o) as (_ & G2 & G3 & G4 & G5 & G6 & G7).
  { destruct (_ <? _); [|done]. exact (Forall_lookup_1 _ _ _ _ (ty_cocs _ Hs) E). }
  each G2. each G3. do 4 give_step. destruct (4 <? _).
  - give. intros s1 Hs1. apply typed_set_coc; [done|]. unfold coc_typed. ranges.
  - give. eapply gives_bind; [by apply gives_coc_precincts; unfold below; try lia|]. intros [[[w h] x] y] (Hw & Hh & Hx & Hy). give.
    intros s1 Hs1. apply typed_set_coc; [done|]. unfold coc_typed. ranges.
Qed.

Lemma gives_dfs_bits n b : gives (rd_dfs_bits n b) (λ _, True).
Proof. revert b. induction n as [|n IH]; intros b; cbn [rd_dfs_bits]; give. apply IH. Qed.
Lemma gives_dfs_types i bits ty h v :
  Forall (below 4) ty → Forall (below 2) h → Forall (below 2) v →
  gives (dfs_types i bits ty h v) (λ r, Forall (below 4) r.1.1 ∧ Forall (below 2) r.1.2 ∧ Forall (below 2) r.2).
Proof.
  assert (Forall (below 2) ho ∧ Forall (below 2) vo) as [Ho Hv] by (by split; repeat constructor).
  pose proof (below_orient ho) as B1. pose proof (below_orient vo) as B2.
  revert bits ty h v. induction i as [|i IH]; intros bits ty h v H1 H2 H3; cbn [dfs_types]; give. by apply IH.
Qed.
Lemma get_depth_bound o l : 0 ≤ get_depth o l ≤ Z.of_nat l.
Proof. induction l as [|l IH]; cbn [get_depth]; [lia|]. case_match; lia. Qed.
Lemma gives_dfs_depths n lev o dst : depths dst → gives (dfs_depths n lev o dst) depths.
Proof.
  revert lev dst. induction n as [|n IH]; intros lev dst Hd; cbn [dfs_depths]; [by apply gives_ret|].
  eapply gives_bind; [|intros d' Hd'; by apply IH]. unfold store_at, arr_set. destruct (_ && _) eqn:E; [|apply gives_ub].
  apply gives_ret. intros i d [(-> & <- & _)|[_ Hl]]%list_lookup_insert_Some; [apply get_depth_bound|by apply Hd].
Qed.
Lemma gives_DFS : gives parse_DFS (λ _, True).
Proof.
  unfold parse_DFS. give. eapply gives_bind; [apply gives_dfs_bits|]. intros bits _. give_step.
  destruct (ty_dfs _ Hs) as (_ & _ & D1 & D2 & D3 & D4 & D5).
  eapply gives_bind; [by apply gives_dfs_types|]. intros [[ty h] v] (Ht & Hh & Hv).
  eapply gives_bind; [by apply gives_dfs_depths|]. intros hd Hhd. eapply gives_bind; [by apply gives_dfs_depths|]. intros vd Hvd.
  give. intros s1 Hs1. apply typed_set_dfs; [done|]. unfold dfs_typed. ranges.
Qed.

Lemma gives_qcd_store rev k : gives (qcd_store rev k) (λ _, True).
Proof.
  unfold qcd_store. destruct rev; give_step; give_step; destruct (ty_qcd _ Hs) as (Q1 & Q2 & Q3 & Q4).
  - assert (below 32 (Z.shiftr a 3)) by (by apply (below_shiftr 256)). give.
    intros s1 Hs1. apply typed_set_qcd; [done|]. unfold qcd_typed. ranges.
  - assert (below 32 (Z.shiftr a 11)) as Hb by (by apply (below_shiftr 65536)).
    assert (below 32 (u8 (Z.shiftr a 11))) by (unfold below in *; by rewrite u8_small by lia). give.
    intros s1 Hs1. apply typed_set_qcd; [done|]. unfold qcd_typed. ranges.
Qed.
Lemma gives_qcd_level rev i : gives (qcd_level rev i) (λ _, True).
Proof.
  unfold qcd_level. give_step. eapply gives_bind; [apply (gives_arr_get (λ _, True)), Forall_true; done|]. intros t _.
  give; apply gives_qcd_store.
Qed.
Lemma gives_QCD : gives parse_QCD (λ _, True).
Proof.
  unfold parse_QCD. give.
  - intros s1 Hs1. apply typed_set_qcd; [done|]. destruct (ty_qcd _ Hs1) as (_ & _ & Q3 & Q4). unfold qcd_typed. ranges.
  - eapply gives_bind; [apply gives_qcd_store|]. intros _ _. give. apply gives_qcd_level.
Qed.

Lemma gives_cap_words n i p k : gives (cap_words n i p k) (λ _, True).
Proof.
  revert i k. induction n as [|n IH]; intros i k; cbn [cap_words]; [by apply gives_ret|].
  destruct (Z.testbit _ _); [|apply IH]. give_step.
  eapply gives_bind; [|intros _ _; eapply gives_bind; [|intros _ _; apply IH]].
  - destruct (i =? 1); give. intros s1 Hs1. by apply typed_set_cap2.
  - destruct (i =? 14); give. intros s1 Hs1. by apply typed_set_cap15.
Qed.
Lemma gives_CAP : gives parse_CAP (λ _, True).
Proof. unfold parse_CAP. give. eapply gives_bind; [apply gives_cap_words|]. intros w _. give. Qed.
Lemma gives_skip_marker : gives skip_marker (λ _, True).
Proof. unfold skip_marker. give. Qed.

Lemma gives_segment m : gives (marker_segment m) (λ _, True).
Proof.
  unfold marker_segment.
  repeat match goal with |- gives (if ?b then _ else _) _ => destruct b end;
    [apply gives_SIZ|apply gives_CAP| |apply gives_QCD|apply gives_COC|apply gives_DFS|apply gives_skip_marker].
  eapply gives_bind; [apply gives_COD|]. intros r _. do 3 (eapply gives_bind; [apply gives_copy_cod|intros _ _]). by apply gives_ret.
Qed.
Lemma gives_loop n : gives (header_loop n) (λ _, True).
Proof.
  induction n as [|n IH]; cbn [header_loop]; [done|]. give. eapply gives_bind; [apply gives_segment|]. intros _ _. apply IH.
Qed.
Lemma gives_main_header : gives parse_main_header (λ _, True).
Proof.
  unfold parse_main_header. give; [intros s1 Hs1; by apply typed_set_cap15|intros s1 Hs1; by apply typed_set_cap2|].
  eapply gives_bind; [apply gives_loop|]. intros ok _. give.
Qed.
End Gives.

(** C27: the marker walk terminates and keeps the tables in shape.  On every chain, whatever
    bytes it holds (corrupt, truncated or desynchronised), a walk started from tables in
    shape never runs out of the number of rounds given by the bytes left, and when it
    returns every array still has its declared length ([tables_wf]), every entry lies in the
    range of the bits it is read from ([typed]), and the reader is in a valid state.  A walk
    that does not return makes an undefined access (see the findings on unchecked indices). *)
Theorem main_header_total mem s :
  byte_memory mem → wf (h_cs s) → tables_wf s → typed s →
  match parse_main_header (H := chain_reader mem) s with
  | Ret (_, s') => tables_wf s' ∧ typed s' ∧ wf (h_cs s')
  | UB => True
  | NoFuel => False
  end.
Proof.
  intros Hm Hwf Ht Hty. pose proof (gives_main_header mem Hm s Hty) as Hg.
  pose proof (parse_chain mem s Hm Hwf) as Hs. cbn zeta in Hs.
  pose proof (parse_main_header_keeps _ (tables_wf_swap (stream_of mem (h_cs s)) _ Ht)) as Hk.
  destruct (parse_main_header (swap_cs _ s)) as [[b t']| |], (parse_main_header s) as [[a s']| |]; try done.
  destruct Hs as [-> [Ha E]], Hk as (Hw & _), Hg as [Hg _]. split; [|split; [done|apply Ha]].
  rewrite E in Hw. apply (tables_wf_swap (h_cs s')) in Hw. by destruct s'.
Qed.

(** ** Witness: from zeroed tables *)
Lemma depths_zeros n : depths (zeros n).
Proof. intros i d [-> _]%lookup_replicate_1. lia. Qed.
Lemma demo_tables_typed {R} (c : R) : typed (swap_cs c demo_tables).
Proof.
  assert (∀ n k, 0 < k → Forall (below k) (zeros n)) as Hz by (intros n k Hk; apply Forall_replicate; unfold below; lia).
  assert (coc_typed coc0) as Hc.
  { unfold coc_typed, coc0; cbn -[zeros]. split_and!; [..|done|done]; first [by apply Hz|by repeat constructor]. }
  split; [..|by repeat apply Forall_cons_2| | |done|done]; cbn -[zeros]; unfold siz_typed, cod_typed, qcd_typed, dfs_typed; cbn -[zeros];
    split_and!; first [by apply Hz|apply depths_zeros|done|by repeat constructor].
Qed.

Lemma main_header_total_witness :
  ∃ v s', parse_main_header (H := chain_reader (list_mem demo_header)) (swap_cs demo_chain demo_tables) = Ret (v, s')
    ∧ Forall (below 16) (cod_prw (h_cod s')) ∧ length (cod_prw (h_cod s')) = 6%nat ∧ wf (h_cs s').
Proof.
  pose proof (main_header_total (list_mem demo_header) (swap_cs demo_chain demo_tables)
    ltac:(apply list_mem_bytes; reflexivity) demo_chain_wf (demo_tables_wf _) (demo_tables_typed _)) as H.
  assert (match parse_main_header (H := chain_reader (list_mem demo_header)) (swap_cs demo_chain demo_tables) with Ret _ => true | _ => false end = true)
    as E by (vm_compute; reflexivity).
  destruct (parse_main_header _) as [[v s']| |]; [|discriminate E|discriminate E]. destruct H as (H1 & H2 & H3).
  exists v, s'. split; [reflexivity|]. split; [apply (ty_cod _ H2)|]. split; [apply (tw_cod _ H1)|exact H3].
Defined.
