(* ===== verification/Signature.v ===== *)
(** * Signature: geometry_signature of packet_parser/j2k_header.cpp

    The frame handler re-parses a main header only when its geometry changed.
    [geometry_signature] walks the marker segments of a header lying in memory,
    hashes (FNV-1a, 64 bits) those that determine the geometry and reports where
    SOD ends.  The specification works on the decomposition of the header into
    (marker, payload) segments. *)
From S2P Require Import Prelude Codestream Markers MainHeader HeaderSpec.

(** ** The code *)
Definition FNV_BASIS : Z := 1469598103934665603.
Definition FNV_PRIME : Z := 1099511628211.

Definition fnv1a (h b : Z) : Z := u64 (Z.lxor h b * FNV_PRIME).

(** [case SIZ: case COD: ... mix] *)
Definition is_geometry (marker : Z) : bool :=
  (marker =? SIZ) || (marker =? COD) || (marker =? COC) || (marker =? QCD)
  || (marker =? QCC) || (marker =? DFS) || (marker =? ATK).

Section Code.
Context (mem : memory) (mh len : Z).

Definition rd16 (off : Z) : Z :=
  Z.lor (Z.shiftl (mem (mh + off)) 8) (mem (mh + u64 (off + 1))).

Definition mix (off n h : Z) : Z := foldl fnv1a h (mem_bytes mem (mh + off) n).

(** The [while]; a result is the signature and what was stored in [sod_off]. *)
Fixpoint sig_loop (fuel : nat) (off h : Z) : outcome (Z * option Z) :=
  match fuel with
  | O => NoFuel
  | S fuel' =>
      if u64 (off + 2) <=? len then
        let marker := rd16 off in
        if marker =? SOD then Ret (if h =? 0 then 1 else h, Some (u32 (off + 2)))
        else if negb (Z.land marker 0xFF00 =? 0xFF00) || (marker =? EOC) then Ret (0, None)
        else if len <? u64 (off + 4) then Ret (0, None)
        else
          let seg := rd16 (u64 (off + 2)) in
          if (seg <? 2) || (len <? u64 (off + 2 + seg)) then Ret (0, None)
          else sig_loop fuel' (u64 (off + (2 + seg)))
                 (if is_geometry marker then mix off (2 + seg) h else h)
      else Ret (0, None)
  end.

(** Every round moves on by at least four bytes. *)
Definition geometry_signature : outcome (Z * option Z) :=
  if len <? 4 then Ret (0, None)
  else if negb (rd16 0 =? SOC) then Ret (0, None)
  else sig_loop (S (Z.to_nat len)) 2 FNV_BASIS.

End Code.

(** ** Specification: the header as a list of segments *)
Definition raw : Type := Z * list Z.
Definition raw_bytes (g : raw) : list Z :=
  be16 g.1 ++ be16 (2 + Z.of_nat (length g.2)) ++ g.2.
Definition raw_header (segs : list raw) : list Z :=
  be16 SOC ++ (segs ≫= raw_bytes) ++ be16 SOD.

Definition raw_ok (g : raw) : Prop :=
  w16 g.1 ∧ Z.land g.1 0xFF00 = 0xFF00 ∧ g.1 ≠ SOD ∧ g.1 ≠ EOC
  ∧ 2 + Z.of_nat (length g.2) < 65536 ∧ Forall is_byte g.2.

(** The segments that determine the geometry: SIZ, COD, COC, QCD, QCC, DFS and ATK, by
    their codes; the hash: from the source's start value, exclusive or with the byte, then
    times the 64-bit FNV prime modulo 2^64. *)
Definition geometry_markers : list Z := [0xFF51; 0xFF52; 0xFF53; 0xFF5C; 0xFF5D; 0xFF72; 0xFF79].
Definition geometry_segs (segs : list raw) : list raw := filter (λ g, g.1 ∈ geometry_markers) segs.
Definition fnv_step (h b : Z) : Z := (Z.lxor h b * (2 ^ 40 + 2 ^ 8 + 0xB3)) mod 2 ^ 64.
Definition signature_of (segs : list raw) : Z :=
  let h := foldl fnv_step 1469598103934665603 (geometry_segs segs ≫= raw_bytes) in if h =? 0 then 1 else h.

(** The code's test and its mixing step are these. *)
Lemma is_geometry_spec m : is_geometry m = true ↔ m ∈ geometry_markers.
Proof.
  unfold is_geometry, geometry_markers. rewrite !orb_true_iff, !Z.eqb_eq. rewrite !elem_of_cons, elem_of_nil. tauto.
Qed.
Lemma fnv1a_spec h b : fnv1a h b = fnv_step h b.
Proof. done. Qed.
Lemma fnv_foldl l h : foldl fnv1a h l = foldl fnv_step h l.
Proof. revert h. induction l as [|b l IH]; intros h; [done|]. cbn [foldl]. by rewrite fnv1a_spec, IH. Qed.

(** ** Lemmas *)
Section Spec.
Context (mem : memory) (Hmem : byte_memory mem).

(** The bytes from [off] on. *)
Definition holds (a : Z) (l : list Z) : Prop := mem_bytes mem a (Z.of_nat (length l)) = l.

Lemma mem_bytes_split a n k :
  0 ≤ n → 0 ≤ k → mem_bytes mem a (n + k) = mem_bytes mem a n ++ mem_bytes mem (a + n) k.
Proof.
  intros. rewrite <- (take_drop (Z.to_nat n) (mem_bytes mem a (n + k))). f_equal.
  - rewrite <- (drop_0 (mem_bytes mem a (n + k))). change 0%nat with (Z.to_nat 0).
    rewrite mem_bytes_slice by lia. f_equal. lia.
  - rewrite <- (mem_bytes_slice mem a (n + k) n k) by lia.
    rewrite take_ge; [done|]. rewrite length_drop, length_mem_bytes. lia.
Qed.

Lemma holds_app a l k : holds a (l ++ k) ↔ holds a l ∧ holds (a + Z.of_nat (length l)) k.
Proof.
  unfold holds. rewrite length_app, Nat2Z.inj_add, mem_bytes_split by lia. split.
  - intros H. apply app_inj_1 in H; [done|]. rewrite length_mem_bytes. lia.
  - by intros [-> ->].
Qed.

Lemma mem_bytes_2 a : mem_bytes mem a 2 = [mem a; mem (a + 1)].
Proof.
  unfold mem_bytes. change (seqZ 0 2) with [0; 1]. cbn [fmap list_fmap]. by rewrite Z.add_0_r.
Qed.

Lemma holds_be16 a off w :
  0 ≤ off < 18446744073709551615 → w16 w → holds (a + off) (be16 w) → rd16 mem a off = w.
Proof.
  intros Ho Hw H. unfold holds in H. cbn [be16 length] in H.
  change (Z.of_nat 2) with 2 in H. rewrite mem_bytes_2 in H. injection H as H1 H2.
  unfold rd16. rewrite u64_small by lia. rewrite Z.add_assoc, H1, H2.
  unfold w16 in Hw. rewrite (shiftl_lor_byte (w / 256) (w mod 256) 8); div_lia.
Qed.

Lemma rd16_holds a off :
  0 ≤ off < 18446744073709551615 →
  w16 (rd16 mem a off) ∧ holds (a + off) (be16 (rd16 mem a off)).
Proof.
  intros Ho. unfold rd16. rewrite u64_small, Z.add_assoc by lia.
  pose proof (Hmem (a + off)) as H1. pose proof (Hmem (a + off + 1)) as H2. unfold is_byte in *.
  rewrite (shiftl_lor_byte _ _ 8) by lia. change (2 ^ 8) with 256. split; [unfold w16; lia|].
  unfold holds. change (Z.of_nat _) with 2. rewrite mem_bytes_2. unfold be16.
  f_equal; [div_lia|]. f_equal. div_lia.
Qed.

(** One segment at [off]: the loop moves past it, hashing it when it is geometry. *)
Lemma holds_raw a off g :
  raw_ok g → 0 ≤ off → off + 65540 < 18446744073709551616 →
  holds (a + off) (raw_bytes g) →
  rd16 mem a off = g.1 ∧ rd16 mem a (off + 2) = 2 + Z.of_nat (length g.2)
  ∧ ∀ h, mix mem a off (2 + (2 + Z.of_nat (length g.2))) h = foldl fnv_step h (raw_bytes g).
Proof.
  intros (Hw & _ & _ & _ & Hl & _) Ho Hb H. unfold raw_bytes in H.
  pose proof H as H'. apply holds_app in H as [H1 H2]. apply holds_app in H2 as [H2 _].
  split_and!.
  - apply holds_be16; [lia|done|done].
  - apply holds_be16; [lia|unfold w16; lia|]. by rewrite Z.add_assoc.
  - intros h. unfold mix. rewrite fnv_foldl. f_equal. etransitivity; [|exact H']. f_equal.
    rewrite !length_app. cbn [be16 length]. lia.
Qed.

Lemma length_raw g : Z.of_nat (length (raw_bytes g)) = 4 + Z.of_nat (length g.2).
Proof. unfold raw_bytes. rewrite !length_app. cbn [be16 length]. lia. Qed.

Lemma sig_loop_spec segs a len off h fuel :
  Forall raw_ok segs → 0 ≤ off → len < 9223372036854775808 →
  holds (a + off) ((segs ≫= raw_bytes) ++ be16 SOD) →
  off + Z.of_nat (length ((segs ≫= raw_bytes) ++ be16 SOD)) ≤ len →
  (length segs < fuel)%nat →
  sig_loop mem a len fuel off h
  = Ret (let h' := foldl fnv_step h (geometry_segs segs ≫= raw_bytes) in if h' =? 0 then 1 else h',
         Some (u32 (off + Z.of_nat (length ((segs ≫= raw_bytes) ++ be16 SOD))))).
Proof.
  revert off h fuel. induction segs as [|g segs IH]; intros off h [|fuel] HF Ho Hlen Hh Hl Hf;
    try (cbn in Hf; lia).
  { cbn [mbind list_bind app length be16] in Hh, Hl. cbn [sig_loop].
    rewrite u64_small, (proj2 (Z.leb_le _ _)) by lia.
    rewrite (holds_be16 _ _ SOD) by (done || lia). by rewrite Z.eqb_refl. }
  inversion HF as [|?? Hg HF']; subst. rewrite bind_cons, <- app_assoc in *.
  rewrite length_app, Nat2Z.inj_add, length_raw in *. apply holds_app in Hh as [H1 H2].
  pose proof Hg as (Hw & Hff & Hsod & Heoc & Hpl & _).
  destruct (holds_raw a off g Hg Ho ltac:(lia) H1) as (E1 & E2 & E3). cbn [sig_loop].
  rewrite (u64_small (off + 2)), (u64_small (off + 4)), E1, E2 by lia.
  rewrite (u64_small (off + 2 + _)), (u64_small (off + (2 + _))) by lia.
  rewrite (proj2 (Z.leb_le _ _)), (proj2 (Z.eqb_neq g.1 SOD)), (proj2 (Z.eqb_neq g.1 EOC)), Hff
    by (done || lia).
  rewrite (proj2 (Z.ltb_ge len (off + 4))), (proj2 (Z.ltb_ge (2 + _) 2)),
    (proj2 (Z.ltb_ge len (off + 2 + _))) by lia.
  cbn [negb orb Z.eqb Pos.eqb]. rewrite length_raw in H2.
  rewrite IH; [|done|lia|done| | |cbn in Hf; lia].
  - rewrite E3. unfold geometry_segs. rewrite filter_cons. fold (geometry_segs segs).
    f_equal. f_equal; [|do 2 f_equal; rewrite ?length_app; lia].
    case_decide as Hd.
    + rewrite (proj2 (is_geometry_spec g.1) Hd). by rewrite bind_cons, foldl_app.
    + destruct (is_geometry g.1) eqn:Eg; [|done]. by apply is_geometry_spec in Eg.
  - by replace (a + (off + (2 + (2 + Z.of_nat (length g.2)))))
      with (a + off + (4 + Z.of_nat (length g.2))) by lia.
  - rewrite ?length_app in *. lia.
Qed.

Lemma Forall_mem_bytes a n : Forall is_byte (mem_bytes mem a n).
Proof. unfold mem_bytes. apply Forall_fmap, Forall_true. intros i. apply Hmem. Qed.

(** Whatever the memory holds, the loop stops with a verdict: a framed sequence
    of segments up to SOD, or failure. *)
Lemma sig_loop_sound a len fuel off h :
  0 ≤ off ≤ len → len < 9223372036854775808 → (Z.to_nat (len - off) < fuel)%nat →
  sig_loop mem a len fuel off h = Ret (0, None)
  ∨ ∃ segs, Forall raw_ok segs ∧ holds (a + off) ((segs ≫= raw_bytes) ++ be16 SOD)
      ∧ off + Z.of_nat (length ((segs ≫= raw_bytes) ++ be16 SOD)) ≤ len.
Proof.
  revert off h. induction fuel as [|fuel IH]; intros off h Ho Hlen Hf; [lia|]. cbn [sig_loop].
  rewrite (u64_small (off + 2)), (u64_small (off + 4)) by lia.
  destruct (Z.leb_spec (off + 2) len); [|by left].
  destruct (rd16_holds a off ltac:(lia)) as [Hw Hm]. set (m := rd16 mem a off) in *.
  destruct (Z.eqb_spec m SOD) as [E|Hsod].
  { right. exists []. rewrite E in Hm. split_and!; [constructor|done|cbn; lia]. }
  destruct (negb _ || _) eqn:Hbad; [by left|]. apply orb_false_iff in Hbad as [Hff Heoc].
  apply negb_false_iff, Z.eqb_eq in Hff. apply Z.eqb_neq in Heoc.
  destruct (Z.ltb_spec len (off + 4)); [by left|].
  destruct (rd16_holds a (off + 2) ltac:(lia)) as [Hsw Hs]. set (seg := rd16 mem a (off + 2)) in *.
  unfold w16 in Hsw. rewrite (u64_small (off + 2 + seg)), (u64_small (off + (2 + seg))) by lia.
  destruct (Z.ltb_spec seg 2); [by left|]. destruct (Z.ltb_spec len (off + 2 + seg)); [by left|].
  cbn [orb]. destruct (IH (off + (2 + seg)) (if is_geometry m then mix mem a off (2 + seg) h else h))
    as [-> | (segs & HF & Hh & Hl)]; [lia|lia|lia|by left|]. right.
  set (pl := mem_bytes mem (a + off + 4) (seg - 2)).
  assert (Z.of_nat (length pl) = seg - 2) as Hpl by (unfold pl; rewrite length_mem_bytes; lia).
  exists ((m, pl) :: segs). rewrite bind_cons, <- app_assoc. rewrite (length_app (raw_bytes _)).
  rewrite Nat2Z.inj_add, length_raw. cbn [snd fst]. split_and!; [|apply holds_app; split|].
  - constructor; [|done]. unfold raw_ok. cbn [fst snd]. split_and!; try done; [lia|apply Forall_mem_bytes].
  - unfold raw_bytes. cbn [fst snd]. rewrite Hpl. replace (2 + (seg - 2)) with seg by lia.
    apply holds_app. split; [done|]. apply holds_app. rewrite Z.add_assoc in Hs. split; [done|].
    unfold holds. rewrite Hpl. unfold pl. f_equal. cbn. lia.
  - rewrite length_raw. cbn [snd]. rewrite Hpl. by replace (a + off + (4 + (seg - 2)))
      with (a + (off + (2 + seg))) by lia.
  - lia.
Qed.

Lemma length_raw_header segs :
  Z.of_nat (length (raw_header segs)) = 2 + Z.of_nat (length ((segs ≫= raw_bytes) ++ be16 SOD)).
Proof. unfold raw_header. rewrite length_app. cbn [be16 length]. lia. Qed.

(** A header framed as [segs] lies at [mh], within [len] bytes. *)
Definition framed (mh len : Z) (segs : list raw) : Prop :=
  Forall raw_ok segs ∧ Z.of_nat (length (raw_header segs)) ≤ len ∧ holds mh (raw_header segs).

Lemma segs_length segs : (length segs ≤ length (segs ≫= raw_bytes))%nat.
Proof. induction segs as [|g l IH]; [done|]. rewrite bind_cons, length_app. pose proof (length_raw g). cbn [length]. lia. Qed.

Lemma signature_framed mh len segs :
  len < 9223372036854775808 → framed mh len segs →
  geometry_signature mem mh len
  = Ret (signature_of segs, Some (u32 (Z.of_nat (length (raw_header segs))))).
Proof.
  intros Hlen (HF & Hl & Hh). rewrite length_raw_header in *.
  unfold raw_header in Hh. apply holds_app in Hh as [H1 H2]. unfold geometry_signature.
  pose proof (segs_length segs). rewrite length_app in Hl. cbn [be16 length] in Hl.
  rewrite (proj2 (Z.ltb_ge len 4)) by lia. rewrite <- (Z.add_0_r mh) in H1.
  rewrite (holds_be16 mh 0 SOC) by (done || lia). cbn [Z.eqb Pos.eqb negb].
  rewrite (sig_loop_spec segs); [done|done|lia|done|done| |lia].
  rewrite length_app. cbn [be16 length]. lia.
Qed.

Lemma signature_not_framed mh len :
  0 ≤ len < 9223372036854775808 → (∀ segs, ¬ framed mh len segs) →
  geometry_signature mem mh len = Ret (0, None).
Proof.
  intros Hlen Hno. unfold geometry_signature. destruct (Z.ltb_spec len 4); [done|].
  destruct (rd16_holds mh 0 ltac:(lia)) as [_ H0]. rewrite Z.add_0_r in H0.
  destruct (Z.eqb_spec (rd16 mem mh 0) SOC) as [E|]; [|done]. cbn [negb].
  destruct (sig_loop_sound mh len (S (Z.to_nat len)) 2 FNV_BASIS) as [->|(segs & HF & Hh & Hl)];
    [lia|lia|lia|done|].
  destruct (Hno segs). split_and!; [done|rewrite length_raw_header; lia|].
  unfold raw_header. apply holds_app. rewrite E in H0. done.
Qed.

End Spec.

Lemma signature_nonzero segs : signature_of segs ≠ 0.
Proof. unfold signature_of. cbn zeta. by destruct (Z.eqb_spec (foldl fnv_step 1469598103934665603 (geometry_segs segs ≫= raw_bytes)) 0). Qed.

Lemma signature_verdict mem mh len :
  byte_memory mem → 0 ≤ len < 9223372036854775808 →
  (∃ segs, framed mem mh len segs) ∨ (∀ segs, ¬ framed mem mh len segs).
Proof.
  intros Hm Hlen. destruct (Z.ltb_spec len 4).
  { right. intros segs (_ & Hl & _). rewrite length_raw_header, length_app in Hl. cbn in Hl. lia. }
  destruct (rd16_holds mem Hm mh 0 ltac:(lia)) as [_ H0]. rewrite Z.add_0_r in H0.
  destruct (Z.eqb_spec (rd16 mem mh 0) SOC) as [E|Hn].
  2:{ right. intros segs (_ & _ & Hh). unfold raw_header in Hh. apply holds_app in Hh as [Hh _].
      apply Hn. apply holds_be16; [lia|done|by rewrite Z.add_0_r]. }
  destruct (sig_loop_sound mem Hm mh len (S (Z.to_nat len)) 2 FNV_BASIS) as [Hz|(segs & HF & Hh & Hl)];
    [lia|lia|lia| |].
  - right. intros segs Hf. pose proof (signature_framed mem mh len segs ltac:(lia) Hf) as Hs.
    unfold geometry_signature in Hs. rewrite (proj2 (Z.ltb_ge len 4)), E, Z.eqb_refl in Hs by lia.
    cbn [negb] in Hs. rewrite Hz in Hs. injection Hs as Hs _. by apply (signature_nonzero segs).
  - left. exists segs. split_and!; [done|rewrite length_raw_header; lia|].
    unfold raw_header. apply holds_app. rewrite E in H0. done.
Qed.

Lemma framed_agree mem1 mem2 mh len segs :
  (∀ a, mh ≤ a < mh + len → mem1 a = mem2 a) → framed mem1 mh len segs → framed mem2 mh len segs.
Proof.
  intros Heq (HF & Hl & Hh). split_and!; [done|done|]. unfold holds in *. etransitivity; [|exact Hh].
  unfold mem_bytes. apply list_fmap_ext. intros i x Hx. apply lookup_seqZ in Hx as [-> Hi].
  symmetry. apply Heq. lia.
Qed.

(** Segments of a parsed header, seen as raw segments. *)
Fixpoint raws (t : tables) (l : list segment) : list raw :=
  match l with
  | [] => []
  | g :: l => (seg_marker g, seg_payload t g) :: raws (seg_apply t g) l
  end.

Lemma raws_bytes t l : raws t l ≫= raw_bytes = segs_bytes t l.
Proof. revert t. induction l as [|g l IH]; intros t; [done|]. cbn [raws segs_bytes]. by rewrite bind_cons, IH. Qed.

Lemma raws_ok t l :
  header_valid t l → Forall is_byte (segs_bytes t l) → Forall raw_ok (raws t l).
Proof.
  revert t. induction l as [|g l IH]; intros t; cbn [header_valid segs_bytes raws]; [constructor|].
  intros [Hg Hv] Hb. apply Forall_app in Hb as [Hb1 Hb2]. constructor; [|by apply IH].
  unfold seg_bytes in Hb1. rewrite !Forall_app in Hb1. destruct Hb1 as (Hm & _ & Hp).
  destruct (seg_marker_ok t g Hg) as [Hs Hr]. apply orb_false_iff in Hr as [Hff He].
  apply negb_false_iff, Z.eqb_eq in Hff. apply Z.eqb_neq in Hs, He. destruct Hg as [Hl _].
  unfold raw_ok. cbn [fst snd]. split_and!; try done.
  inversion Hm as [|?? H1 H2]; subst. inversion H2 as [|?? H3 _]; subst.
  unfold is_byte, w16 in *. div_lia.
Qed.

(** ** Properties *)

(** C28: what a non-zero signature means.  [geometry_signature] terminates on every
    buffer.  If the buffer starts with a properly framed main header (SOC, then
    segments whose length fields chain up to SOD inside the buffer) it returns
    the hash (FNV-1a steps with the 64-bit prime from the source's start value) of
    exactly the segments with codes FF51, FF52, FF53, FF5C, FF5D, FF72 and FF79 (SIZ,
    COD, COC, QCD, QCC, DFS, ATK: marker, length and payload), never 0, and the offset
    just after SOD; otherwise it returns 0 and stores no offset. *)
Theorem geometry_signature_correct mem mh len :
  byte_memory mem → 0 ≤ len < 9223372036854775808 →
  (∃ segs, framed mem mh len segs ∧ signature_of segs ≠ 0
     ∧ geometry_signature mem mh len
       = Ret (signature_of segs, Some (u32 (Z.of_nat (length (raw_header segs))))))
  ∨ ((∀ segs, ¬ framed mem mh len segs) ∧ geometry_signature mem mh len = Ret (0, None)).
Proof.
  intros Hm Hlen. destruct (signature_verdict mem mh len Hm Hlen) as [[segs Hf]|Hno].
  - left. exists segs. split_and!; [done|apply signature_nonzero|].
    apply signature_framed; [lia|done].
  - right. split; [done|]. by apply signature_not_framed.
Qed.

(** Rate-only changes do not disturb the latch.  Two headers whose geometry
    segments agree, whatever their comment, capability or other segments, their
    place in memory and the data behind them, have the same signature. *)
Theorem signature_ignores_other_segments mem1 mh1 len1 mem2 mh2 len2 segs1 segs2 :
  len1 < 9223372036854775808 → len2 < 9223372036854775808 →
  framed mem1 mh1 len1 segs1 → framed mem2 mh2 len2 segs2 → geometry_segs segs1 = geometry_segs segs2 →
  outcome_map fst (geometry_signature mem1 mh1 len1)
  = outcome_map fst (geometry_signature mem2 mh2 len2).
Proof.
  intros H1 H2 F1 F2 E. rewrite (signature_framed mem1 mh1 len1 segs1 H1 F1),
    (signature_framed mem2 mh2 len2 segs2 H2 F2). cbn. unfold signature_of. by rewrite E.
Qed.

(** The scan reads only the buffer.  The result depends on nothing outside the
    [len] bytes at [mh]. *)
Theorem signature_reads_in_bounds mem1 mem2 mh len :
  byte_memory mem1 → byte_memory mem2 → 0 ≤ len < 9223372036854775808 →
  (∀ a, mh ≤ a < mh + len → mem1 a = mem2 a) →
  geometry_signature mem1 mh len = geometry_signature mem2 mh len.
Proof.
  intros M1 M2 Hlen Heq.
  assert (∀ segs, framed mem1 mh len segs → framed mem2 mh len segs) as Himp
    by (intros segs; by apply framed_agree).
  destruct (signature_verdict mem1 mh len M1 Hlen) as [[segs Hf]|Hno].
  - rewrite (signature_framed mem1 mh len segs), (signature_framed mem2 mh len segs); try done; try lia.
    by apply Himp.
  - rewrite !signature_not_framed; try done. intros segs Hf. apply (Hno segs).
    eapply framed_agree; [|exact Hf]. intros a Ha. by rewrite Heq.
Qed.

(** C29: the scan agrees with the parser.  For a header the parser supports, lying
    contiguously at [mh], the offset reported by [geometry_signature] is the value
    [parse_main_header] returns when it reads those bytes from a chain. *)
Theorem signature_offset_is_parse_result mem mh len s segs :
  byte_memory mem → len < 9223372036854775808 → wf (h_cs s) → tables_wf s → pos (h_cs s) = 0 →
  let t := reset_caps (swap_cs () s) in
  header_valid t segs → Z.of_nat (length (main_header t segs)) ≤ len →
  holds mem mh (main_header t segs) →
  (∃ rest, flat_bytes mem (chunks_ (h_cs s)) = main_header t segs ++ rest) →
  ∃ n s', parse_main_header (H := chain_reader mem) s = Ret (n, s')
        ∧ geometry_signature mem mh len = Ret (signature_of (raws t segs), Some n).
Proof.
  intros Hm Hlen Hwf Ht Hp t Hv Hl Hh [rest Hr].
  pose proof (parse_chain mem s Hm Hwf) as Hs. cbn zeta in Hs. unfold stream_of in Hs.
  rewrite Hp, Hr in Hs. change (drop (Z.to_nat 0) ?l) with l in Hs.
  pose proof (run_main_header segs (swap_cs () s) rest 0 (tables_wf_swap _ _ Ht) Hv) as He.
  cbn zeta in He. fold t in He. change (on ?l ?p (swap_cs () s)) with (swap_cs (mkStream l p) s) in He.
  rewrite He in Hs. destruct (parse_main_header s) as [[a s']| |]; try done. destruct Hs as [-> _].
  assert (raw_header (raws t segs) = main_header t segs) as Eh
    by (unfold raw_header, main_header; by rewrite raws_bytes).
  do 2 eexists. split; [done|]. rewrite (signature_framed mem mh len (raws t segs) Hlen), Eh; [done|].
  split_and!; [|by rewrite Eh|by rewrite Eh]. apply raws_ok; [done|].
  assert (Forall is_byte (main_header t segs)) as HF
    by (rewrite <- Hh; apply (Forall_mem_bytes mem Hm)).
  unfold main_header in HF. rewrite !Forall_app in HF. by destruct HF as (_ & HF & _).
Qed.

(** ** Witnesses: the header of [HeaderSpec] in one piece *)
Definition demo_raws : list raw := raws (reset_caps demo_tables) demo_segs.
Definition demo_len : Z := Z.of_nat (length demo_header).

Lemma demo_framed : framed (list_mem demo_header) 0 demo_len demo_raws.
Proof.
  split_and!; [|vm_compute; congruence|vm_compute; reflexivity].
  apply raws_ok; [exact demo_segs_valid|]. apply Forall_forall. intros x Hx.
  assert (forallb is_byteb (segs_bytes (reset_caps demo_tables) demo_segs) = true) as Hb by reflexivity.
  rewrite forallb_forall in Hb. apply list_elem_of_In in Hx. specialize (Hb _ Hx).
  unfold is_byteb in Hb. apply andb_true_iff in Hb as [H1 H2].
  apply Z.leb_le in H1. apply Z.ltb_lt in H2. by split.
Qed.

Lemma geometry_signature_correct_witness :
  geometry_signature (list_mem demo_header) 0 demo_len = Ret (signature_of demo_raws, Some 126)
  ∧ ((∃ segs, framed (list_mem demo_header) 0 demo_len segs ∧ signature_of segs ≠ 0
     ∧ geometry_signature (list_mem demo_header) 0 demo_len
       = Ret (signature_of segs, Some (u32 (Z.of_nat (length (raw_header segs))))))
  ∨ ((∀ segs, ¬ framed (list_mem demo_header) 0 demo_len segs)
     ∧ geometry_signature (list_mem demo_header) 0 demo_len = Ret (0, None))).
Proof.
  split; [vm_compute; reflexivity|]. apply geometry_signature_correct.
  - apply list_mem_bytes. reflexivity.
  - vm_compute. split; congruence.
Defined.

(** The same geometry with one more comment segment. *)
Definition demo_raws2 : list raw := demo_raws ++ [(0xFF64, [9; 9])].

Lemma signature_ignores_other_segments_witness :
  outcome_map fst (geometry_signature (list_mem demo_header) 0 demo_len)
  = outcome_map fst (geometry_signature (list_mem (raw_header demo_raws2)) 0 200).
Proof.
  apply (signature_ignores_other_segments _ _ _ _ _ _ demo_raws demo_raws2).
  - vm_compute. congruence.
  - vm_compute. congruence.
  - exact demo_framed.
  - split; [|split]; [|vm_compute; congruence|vm_compute; reflexivity].
    apply Forall_app. split; [apply demo_framed|]. constructor; [|constructor].
    unfold raw_ok, w16. cbn [fst snd length]. split_and!; try (vm_compute; congruence).
    all: try (repeat constructor; done).
  - reflexivity.
Defined.

Lemma signature_reads_in_bounds_witness :
  geometry_signature (list_mem demo_header) 0 demo_len
  = geometry_signature (list_mem (demo_header ++ [1; 2; 3])) 0 demo_len.
Proof.
  apply signature_reads_in_bounds.
  - apply list_mem_bytes. reflexivity.
  - apply list_mem_bytes. reflexivity.
  - vm_compute. split; congruence.
  - intros a Ha. unfold list_mem, demo_len in *. rewrite app_nth1; [reflexivity|lia].
Defined.

Lemma signature_offset_is_parse_result_witness :
  ∃ n s', parse_main_header (H := chain_reader (list_mem demo_header)) (swap_cs demo_chain demo_tables)
          = Ret (n, s')
        ∧ geometry_signature (list_mem demo_header) 0 demo_len = Ret (signature_of demo_raws, Some n).
Proof.
  apply (signature_offset_is_parse_result (list_mem demo_header) 0 demo_len
    (swap_cs demo_chain demo_tables) demo_segs).
  - apply list_mem_bytes. reflexivity.
  - vm_compute. congruence.
  - exact demo_chain_wf.
  - apply demo_tables_wf.
  - reflexivity.
  - exact demo_segs_valid.
  - vm_compute. congruence.
  - vm_compute. reflexivity.
  - exists [0xDE; 0xAD]. vm_compute. reflexivity.
Defined.
