(* ===== verification/PacketHeader.v ===== *)
(** * PacketHeader: packet header and body parsing of packet_parser/j2k_packet.cpp

    [read_packet], [parse_packet_header] and their helpers.  The header of one
    code-block works on the state [cbst] (the codestream, the block, its two
    tag-tree leaves); the loops over bands and blocks write them back. *)
From S2P Require Import Prelude Codestream BitReader Markers Structs.

Definition JPEG2000_MAX_PASSES : Z := 100.
Definition CMODE_BYPASS : Z := 1.
Definition CMODE_TERMALL : Z := 4.
Definition CMODE_HT : Z := 0x40.
Definition HT_MIXED : Z := 0x80.
Definition HT_PLHD_OFF : Z := 0.
Definition HT_PLHD_ON : Z := 1.

(** [int_log2(x)]: [31 - __builtin_clz(x | 1)] *)
Definition int_log2 (x : Z) : Z := Z.log2 (Z.lor (u32 x) 1).

Definition needs_termination (style passno : Z) : Z :=
  let tail := if negb (Z.land style CMODE_TERMALL =? 0) then 1 else 0 in
  if negb (Z.land style CMODE_BYPASS =? 0) then
    let ty := Z.rem passno 3 in
    let passno := Z.quot passno 3 in
    if (ty =? 0) && (2 <? passno) then 2
    else if (ty =? 2) && (2 <? passno) then 1
    else if negb (Z.land style CMODE_TERMALL =? 0) then (if 2 <? passno then 2 else 1)
    else tail
  else tail.

(** ** One code-block *)
Record cbst := mkCb_ { k_cs : codestream; k_blk : blk_; k_incl : tagtree_node; k_zbp : tagtree_node }.

Definition set_kcs (c : codestream) (s : cbst) : cbst := mkCb_ c (k_blk s) (k_incl s) (k_zbp s).
Definition upd_blk (f : blk_ → blk_) : M cbst () :=
  modify (λ s, mkCb_ (k_cs s) (f (k_blk s)) (k_incl s) (k_zbp s)).
Definition blk : M cbst blk_ := s ← get_st; mret (k_blk s).

Section Code.
Context (mem : memory).

Definition bit : M cbst Z := λ s,
  let '(b, c) := get_bit mem (k_cs s) in Ret (b, set_kcs c s).
Definition get_bits (n : Z) : M cbst Z := λ s,
  let '(v, c) := packetheader_get_bits mem n (k_cs s) in Ret (v, set_kcs c s).

(** [while (curval < threshold) { if (get_bit()) { vis++; break; } curval++; }] *)
Fixpoint tag_tree_loop (n : nat) (threshold : Z) (c : codestream) (curval vis : Z)
    : Z * Z * codestream :=
  match n with
  | O => (curval, vis, c)
  | S n' =>
      if curval <? threshold then
        let '(b, c) := get_bit mem c in
        if negb (b =? 0) then (curval, u32 (vis + 1), c)
        else tag_tree_loop n' threshold c (curval + 1) vis
      else (curval, vis, c)
  end.

Definition tag_tree_decode (threshold : Z) (c : codestream) (node : tagtree_node)
    : Z * codestream * tagtree_node :=
  let '(v, vi, c) :=
    tag_tree_loop (Z.to_nat (threshold - i32 (val node))) threshold c (i32 (val node)) (vis node) in
  (v, c, mkNode (u32 v) vi).

Definition decode_incl (threshold : Z) : M cbst Z := λ s,
  let '(v, c, node) := tag_tree_decode threshold (k_cs s) (k_incl s) in
  Ret (v, mkCb_ c (k_blk s) node (k_zbp s)).
Definition decode_zbp (threshold : Z) : M cbst Z := λ s,
  let '(v, c, node) := tag_tree_decode threshold (k_cs s) (k_zbp s) in
  Ret (v, mkCb_ c (k_blk s) (k_incl s) node).

(** [getlblockinc]: the number of 1 bits before a 0.  Past the end of the chain
    bits are 0, so the bits left bound the rounds ([getlblockinc_returns]). *)
Fixpoint getlblockinc_loop (fuel : nat) (res : Z) : M cbst Z :=
  match fuel with
  | O => out_of_fuel
  | S fuel' =>
      b ← bit;
      if b =? 0 then mret res else getlblockinc_loop fuel' (res + 1)
  end.
Definition bits_left (c : codestream) : nat :=
  Z.to_nat (cs_bits c + 8 * Z.max 0 (total_len (chunks_ c) - pos c)).
Definition getlblockinc : M cbst Z :=
  s ← get_st; getlblockinc_loop (S (bits_left (k_cs s))) 0.

(** Number of coding passes. *)
Definition decode_newpasses : M cbst Z :=
  b ← bit;
  let n := 1 + b in
  n ← (if 2 <=? n then b ← bit; mret (n + b) else mret n);
  n ← (if 3 <=? n then v ← get_bits 2; mret (n + v) else mret n);
  n ← (if 6 <=? n then v ← get_bits 5; mret (n + v) else mret n);
  if 37 <=? n then v ← get_bits 7; mret (n + v) else mret n.

(** [while (pass_bound <= segment_passes) { bits_to_read++; pass_bound <<= 1; }] *)
Fixpoint widen (n : nat) (segment_passes bits pass_bound : Z) : Z * Z :=
  match n with
  | O => (bits, pass_bound)
  | S n' =>
      if pass_bound <=? segment_passes
      then widen n' segment_passes (u8 (bits + 1)) (i32 (Z.shiftl pass_bound 1))
      else (bits, pass_bound)
  end.
(** [pass_bound] doubles and stays below 2^31: 31 rounds are enough. *)
Definition widen_fuel : nat := 31.

(** The same, extending the length by one bit per round. *)
Fixpoint extend (n : nat) (segment_passes pass_bound segment_bytes : Z) : M cbst Z :=
  match n with
  | O => mret segment_bytes
  | S n' =>
      if pass_bound <=? segment_passes then
        b ← bit;
        extend n' segment_passes (i32 (Z.shiftl pass_bound 1)) (Z.lor (u32 (Z.shiftl segment_bytes 1)) b)
      else mret segment_bytes
  end.

(** The first segment of an HT block: its pass count and the next segment's, or
    [None] for the invalid-length errors. *)
Definition ht_first_segment (newpasses : Z) : M cbst (option (Z * Z)) :=
  b ← blk;
  let href_passes := u32 (npasses b + newpasses - 1) mod 3 in
  let segment_passes := newpasses - href_passes in
  let mixed := negb (Z.land (modes b) HT_MIXED =? 0) in
  let no_ht := λ b, set_modes (Z.land (modes b) (u8 (Z.lnot CMODE_HT))) HT_PLHD_OFF b in
  if segment_passes <? 1 then
    let '(bits, _) := widen widen_fuel newpasses (lblock b) 2 in
    bytes ← get_bits bits;
    if bytes =? 0 then mret (Some (newpasses, 0))
    else if mixed then upd_blk no_ht ;; mret (Some (newpasses, 0))
    else mret None
  else
    let '(bits, pass_bound) := widen widen_fuel segment_passes (lblock b) 2 in
    bytes ← get_bits bits;
    if negb (bytes =? 0) then
      if negb mixed then
        if bytes <? 2 then mret None else
        upd_blk (λ b, set_pass0 bytes (set_modes (modes b) HT_PLHD_OFF b)) ;;
        mret (Some (segment_passes, 2))
      else if (3 <? lblock b) && (1 <? bytes) && (Z.shiftr bytes (bits - 1) =? 0) then
        upd_blk (λ b, set_pass0 bytes (set_modes (modes b) HT_PLHD_OFF b)) ;;
        mret (Some (segment_passes, 2))
      else
        upd_blk no_ht ;;
        bytes ← extend widen_fuel newpasses pass_bound bytes;
        upd_blk (set_pass0 bytes) ;;
        mret (Some (newpasses, 0))
    else if pass_bound <=? newpasses then
      bytes ← extend widen_fuel newpasses pass_bound 0;
      if negb (bytes =? 0) then
        if mixed then
          upd_blk (λ b, set_pass0 bytes (no_ht b)) ;; mret (Some (newpasses, 0))
        else mret None
      else mret (Some (newpasses, 0))
    else mret (Some (newpasses, 0)).

(** The first segment of the other block coders: pass count, next pass count and
    [bypass_term_threshold]. *)
Definition other_first_segment (newpasses : Z) : M cbst (Z * Z * Z) :=
  b ← blk;
  if negb (Z.land (modes b) CMODE_HT =? 0) then
    let '(sp, nx) :=
      if npasses b mod 3 =? 0 then (1, 2)
      else (if 1 <? newpasses then 3 - npasses b mod 3 else 1, 1) in
    bytes ← get_bits (u8 (lblock b + int_log2 sp));
    upd_blk (λ b, set_pass1 (u32 (pass_lengths1 b + bytes)) b) ;;
    mret (sp, nx, 0)
  else if Z.land (modes b) (Z.lor CMODE_TERMALL CMODE_BYPASS) =? 0 then
    _bytes ← get_bits (u8 (lblock b + int_log2 newpasses));
    mret (newpasses, 0, 0)
  else if negb (Z.land (modes b) CMODE_TERMALL =? 0) then
    _bytes ← get_bits (lblock b);
    mret (1, 1, 0)
  else
    let '(sp, nx) :=
      if npasses b <? 10 then (Z.min (10 - npasses b) newpasses, 2)
      else (if 1 <? newpasses then 2 - (npasses b - 10) mod 3 else 1, 1) in
    _bytes ← get_bits (u8 (lblock b + int_log2 sp));
    mret (sp, nx, 10).

(** The remaining segments of an HT block. *)
Fixpoint ht_segments (n : nat) (newpasses next : Z) : M cbst () :=
  match n with
  | O => if 0 <? newpasses then out_of_fuel else mret ()
  | S n' =>
      if 0 <? newpasses then
        let sp := if 1 <? newpasses then next else 1 in
        b ← blk;
        bytes ← get_bits (u8 (lblock b + int_log2 sp));
        upd_blk (λ b, set_npasses (u8 (npasses b + sp)) (set_pass1 (u32 (pass_lengths1 b + bytes)) b)) ;;
        ht_segments n' (u32 (newpasses - sp)) (u8 (3 - next))
      else mret ()
  end.

(** The remaining segments otherwise; [false]: the corrupted-header error. *)
Fixpoint other_segments (n : nat) (newpasses next bypass : Z) : M cbst bool :=
  match n with
  | O => if 0 <? newpasses then out_of_fuel else mret true
  | S n' =>
      if 0 <? newpasses then
        b ← blk;
        if negb (bypass =? 0) then
          let sp := if 1 <? newpasses then next else 1 in
          _bytes ← get_bits (u8 (lblock b + int_log2 sp));
          upd_blk (λ b, set_npasses (u8 (npasses b + sp)) b) ;;
          other_segments n' (u32 (newpasses - sp)) (u8 (3 - next)) bypass
        else if Z.land (modes b) CMODE_TERMALL =? 0 then mret false
        else
          _bytes ← get_bits (lblock b);
          upd_blk (λ b, set_npasses (u8 (npasses b + 1)) b) ;;
          other_segments n' (u32 (newpasses - 1)) next bypass
      else mret true
  end.

(** All segment lengths of an included block. *)
Definition cblk_segments (newpasses : Z) : M cbst Z :=
  b ← blk;
  first ← (if negb (ht_plhd b =? 0)
           then r ← ht_first_segment newpasses; mret (option_map (λ '(sp, nx), (sp, nx, 0)) r)
           else r ← other_first_segment newpasses; mret (Some r));
  match first with
  | None => mret EXIT_FAILURE
  | Some (sp, nx, bypass) =>
      upd_blk (λ b, set_npasses (u8 (npasses b + sp)) b) ;;
      b ← blk;
      let left := u32 (newpasses - sp) in
      if negb (Z.land (modes b) CMODE_HT =? 0) && (ht_plhd b =? HT_PLHD_OFF) then
        ht_segments (Z.to_nat left) left nx ;; mret EXIT_SUCCESS
      else
        ok ← other_segments (Z.to_nat left) left nx bypass;
        mret (if ok : bool then EXIT_SUCCESS else EXIT_FAILURE)
  end.

(** The body of the code-block loop. *)
Definition cblk_header (cbs : Z) : M cbst Z :=
  upd_blk (λ b, set_modes cbs (if CMODE_HT <=? cbs then HT_PLHD_ON else ht_plhd b) b) ;;
  incl ← decode_incl 1;
  ret ← (if incl =? 0 then
    z ← decode_zbp 14;
    upd_blk (set_included 1 (u8 z) 3) ;;
    newpasses ← decode_newpasses;
    b ← blk;
    if JPEG2000_MAX_PASSES <=? npasses b + newpasses then mret EXIT_FAILURE else
    llen ← getlblockinc;
    b ← blk;
    if 16 <? lblock b + llen + int_log2 newpasses then mret EXIT_FAILURE else
    upd_blk (λ b, set_lblock (u8 (lblock b + llen)) b) ;;
    cblk_segments newpasses
  else mret EXIT_SUCCESS);
  if ret =? EXIT_SUCCESS then
    upd_blk (λ b, set_length (u32 (pass_lengths0 b + pass_lengths1 b)) b) ;; mret EXIT_SUCCESS
  else mret ret.

(** ** The loops over bands and blocks *)
Fixpoint header_blocks (n : nat) (i : nat) (cbs : Z) (c : codestream) (pb : pband_)
    : outcome (Z * codestream * pband_) :=
  match n with
  | O => Ret (EXIT_SUCCESS, c, pb)
  | S n' =>
      match pb_blk pb !! i, pb_incl pb !! i, pb_zbp pb !! i with
      | Some b, Some ti, Some tz =>
          match cblk_header cbs (mkCb_ c b ti tz) with
          | Ret (ret, s) =>
              let pb := mkPband (<[i := k_incl s]> (pb_incl pb)) (<[i := k_zbp s]> (pb_zbp pb))
                          (<[i := k_blk s]> (pb_blk pb)) in
              if ret =? EXIT_SUCCESS then header_blocks n' (S i) cbs (k_cs s) pb
              else Ret (ret, k_cs s, pb)
          | UB => UB
          | NoFuel => NoFuel
          end
      | _, _, _ => UB
      end
  end.

Definition nb_code_blocks (pr : prec_) : nat := Z.to_nat (u32 (ncbw pr * ncbh pr)).

Fixpoint header_bands (n : nat) (b : nat) (cbs : Z) (c : codestream) (pr : prec_)
    : outcome (Z * codestream * prec_) :=
  match n with
  | O => Ret (EXIT_SUCCESS, c, pr)
  | S n' =>
      match pr_pband pr !! b with
      | None => UB
      | Some pb =>
          match header_blocks (nb_code_blocks pr) 0 cbs c pb with
          | Ret (ret, c, pb) =>
              let pr := set_pbands (<[b := pb]> (pr_pband pr)) pr in
              if ret =? EXIT_SUCCESS then header_bands n' (S b) cbs c pr else Ret (ret, c, pr)
          | UB => UB
          | NoFuel => NoFuel
          end
      end
  end.

(** Byte [k] of the [n] bytes at [p]; outside is undefined. *)
Definition data_byte (c : codestream) (p : pointer) (n k : Z) : option Z :=
  if (0 <=? k) && (k <? n) then
    match p with
    | Null => None
    | Addr a => Some (mem (a + k))
    | Staging i => staging_ c !! i ≫= λ l, l !! Z.to_nat k
    end
  else None.

(** [cblk->data = take_contiguous(length)] and the Scup field. *)
Definition blk_body (c : codestream) (b : blk_) : outcome (codestream * blk_) :=
  let '(p, c) := take_contiguous mem (blk_length b) c in
  if negb (blk_length b =? 0) && negb (match p with Null => true | _ => false end) then
    match data_byte c p (blk_length b) (u32 (pass_lengths0 b - 1)),
          data_byte c p (blk_length b) (u32 (pass_lengths0 b - 2)) with
    | Some hi, Some lo => Ret (c, set_data p (u32 (Z.shiftl hi 4 + Z.land lo 15)) b)
    | _, _ => UB
    end
  else Ret (c, set_data p (Scup b) b).

Fixpoint body_blocks (n : nat) (i : nat) (c : codestream) (pb : pband_)
    : outcome (codestream * pband_) :=
  match n with
  | O => Ret (c, pb)
  | S n' =>
      match pb_blk pb !! i with
      | None => UB
      | Some b =>
          match blk_body c b with
          | Ret (c, b) =>
              body_blocks n' (S i) c (mkPband (pb_incl pb) (pb_zbp pb) (<[i := b]> (pb_blk pb)))
          | UB => UB
          | NoFuel => NoFuel
          end
      end
  end.

Fixpoint body_bands (n : nat) (b : nat) (c : codestream) (pr : prec_) : outcome (codestream * prec_) :=
  match n with
  | O => Ret (c, pr)
  | S n' =>
      match pr_pband pr !! b with
      | None => UB
      | Some pb =>
          match body_blocks (nb_code_blocks pr) 0 c pb with
          | Ret (c, pb) => body_bands n' (S b) c (set_pbands (<[b := pb]> (pr_pband pr)) pr)
          | UB => UB
          | NoFuel => NoFuel
          end
      end
  end.

Definition parse_packet_header (c : codestream) (pr : prec_) (coc : coc_marker)
    : outcome (Z * codestream * prec_) :=
  match header_bands (Z.to_nat (pr_num_bands pr)) 0 (coc_cbs coc) c pr with
  | Ret (ret, c, pr) =>
      if ret =? EXIT_SUCCESS then
        match body_bands (Z.to_nat (pr_num_bands pr)) 0 (packetheader_flush_bits c) pr with
        | Ret (c, pr) => Ret (EXIT_SUCCESS, c, pr)
        | UB => UB
        | NoFuel => NoFuel
        end
      else Ret (ret, c, pr)
  | UB => UB
  | NoFuel => NoFuel
  end.

(** [read_packet] (SOP and EPH markers are compiled out, [USE_SOP_EPH]). *)
Definition read_packet (c : codestream) (pr : prec_) (coc : coc_marker)
    : outcome (Z * codestream * prec_) :=
  let '(b, c) := get_bit mem c in
  if b =? 0 then Ret (EXIT_SUCCESS, packetheader_flush_bits c, pr)
  else parse_packet_header c pr coc.

End Code.

(** ** The reader during a packet *)
Definition rok (c : codestream) : Prop := wf c ∧ 0 ≤ cs_bits c ≤ 8.

Section Lemmas.
Context (mem : memory).

Lemma get_bit_rok c :
  rok c → rok (get_bit mem c).2 ∧ chunks_ (get_bit mem c).2 = chunks_ c
  ∧ ((get_bit mem c).1 = 0 ∨ (get_bit mem c).1 = 1).
Proof.
  intros [Hwf Hb]. destruct (get_bit_spec mem c Hwf Hb) as (H1 & H2 & _ & H3 & _ & H5).
  split_and!; [by split|done|]. rewrite H3. destruct (f_get_bit _).1; auto.
Qed.

(** Every 1 bit is a bit of the chain. *)
Lemma get_bit_left c :
  rok c → (get_bit mem c).1 ≠ 0 → (bits_left (get_bit mem c).2 < bits_left c)%nat.
Proof.
  intros [Hwf Hb] Hn. destruct (get_bit_spec mem c Hwf Hb) as (H1 & H2 & _ & H3 & H4 & H5).
  revert H2 H3 H4 Hn. generalize (get_bit mem c).1, (get_bit mem c).2. intros b c' H2 -> H4 Hn.
  pose proof (f_equal f_pos H4) as Ep. pose proof (f_equal f_bits H4) as Eb.
  cbn [abs f_pos f_bits] in Ep, Eb. unfold bits_left. rewrite H2, Ep, Eb. clear H1 H2 H4 H5 Ep Eb.
  pose proof (f_size_abs mem c (wf_cur _ Hwf)) as Hsz. unfold f_get_bit, f_fill in *.
  cbn [abs f_bits f_tmp] in *. destruct (Z.eqb_spec (cs_bits c) 0) as [E0|E0].
  2:{ cbn. lia. }
  unfold f_get_byte in *. cbn [f_pos abs] in *. rewrite Hsz in *.
  destruct (Z.ltb_spec (pos c) (total_len (chunks_ c))); cbn in *.
  - destruct (cs_tmp c =? 255); cbn; lia.
  - by rewrite Z.bits_0 in Hn.
Qed.

Lemma get_bits_rok n c :
  rok c → rok (packetheader_get_bits mem n c).2
  ∧ chunks_ (packetheader_get_bits mem n c).2 = chunks_ c.
Proof.
  unfold packetheader_get_bits. generalize 0. revert c. induction (Z.to_nat n) as [|k IH]; intros c res Hc;
    [done|]. cbn [get_bits_loop].
  change (set_bitbuf _ _ _ (fill mem c)) with (get_bit mem c).2.
  destruct (get_bit_rok c Hc) as (H1 & H2 & _). destruct (IH _ (Z.lor (i32 (Z.shiftl res 1))
    (Z.land (Z.shiftr (cs_tmp (get_bit mem c).2) (u8 (cs_bits (fill mem c) - 1))) 1)) H1) as [H3 H4].
  split; [done|]. by rewrite H4.
Qed.

Lemma tag_tree_loop_rok n th c v vi :
  rok c → let r := tag_tree_loop mem n th c v vi in rok r.2 ∧ chunks_ r.2 = chunks_ c.
Proof.
  revert c v. induction n as [|n IH]; intros c v Hc; [done|]. cbn [tag_tree_loop].
  destruct (v <? th); [|done]. destruct (get_bit_rok c Hc) as (H1 & H2 & _).
  destruct (get_bit mem c) as [b c']; cbn [fst snd] in *. destruct (negb _); [done|].
  destruct (IH c' (v + 1) H1) as [H3 H4]. split; [done|congruence].
Qed.

(** [ktot m Q]: from a good reader the run does not run out of fuel, and if it
    returns the reader is good, over the same chunks, and the result satisfies [Q]. *)
Definition ktot {A} (m : M cbst A) (Q : A → Prop) : Prop :=
  ∀ s, rok (k_cs s) →
  match m s with
  | Ret (a, s') => rok (k_cs s') ∧ chunks_ (k_cs s') = chunks_ (k_cs s) ∧ Q a
  | UB => True
  | NoFuel => False
  end.

Lemma ktot_ret {A} (a : A) (Q : A → Prop) : Q a → ktot (mret a) Q.
Proof. by intros HQ s Hs. Qed.
Lemma ktot_bind {A B} (m : M _ A) (k : A → M _ B) (P : A → Prop) (Q : B → Prop) :
  ktot m P → (∀ a, P a → ktot (k a) Q) → ktot (m ≫= k) Q.
Proof.
  intros Hm Hk s Hs. specialize (Hm s Hs). unfold mbind, M_bind.
  destruct (m s) as [[a s']| |]; [|done|done]. destruct Hm as (Hs' & Hl & Ha).
  specialize (Hk a Ha s' Hs'). destruct (k a s') as [[b s'']| |]; [|done|done].
  destruct Hk as (? & ? & ?). split_and!; [done|congruence|done].
Qed.
Lemma ktot_get {B} (k : cbst → M _ B) (Q : B → Prop) : (∀ s, ktot (k s) Q) → ktot (get_st ≫= k) Q.
Proof. intros Hk s Hs. by apply Hk. Qed.
Lemma ktot_upd f : ktot (upd_blk f) (λ _, True).
Proof. by intros s Hs. Qed.
Lemma ktot_blk : ktot blk (λ _, True).
Proof. by intros s Hs. Qed.
Lemma ktot_weaken {A} (m : M cbst A) (P Q : A → Prop) : ktot m P → (∀ a, P a → Q a) → ktot m Q.
Proof.
  intros Hm HPQ s Hs. specialize (Hm s Hs). destruct (m s) as [[a s']| |]; [|done|done].
  destruct Hm as (?&?&?). auto.
Qed.
Lemma ktot_bit : ktot (bit mem) (λ b, b = 0 ∨ b = 1).
Proof.
  intros s Hs. unfold bit. destruct (get_bit_rok (k_cs s) Hs) as (H1 & H2 & H3).
  by destruct (get_bit mem (k_cs s)).
Qed.
Lemma ktot_bits n : ktot (get_bits mem n) (λ v, 0 ≤ n ≤ 31 → 0 ≤ v < 2 ^ n).
Proof.
  intros s Hs. unfold get_bits. destruct (get_bits_rok n (k_cs s) Hs) as (H1 & H2).
  pose proof (get_bits_spec mem n (k_cs s) (proj1 Hs) (proj2 Hs)) as H3.
  destruct (packetheader_get_bits mem n (k_cs s)). split_and!; [done|done|].
  intros Hn. apply (H3 Hn).
Qed.
Lemma ktot_incl th : ktot (decode_incl mem th) (λ _, True).
Proof.
  intros s Hs. unfold decode_incl, tag_tree_decode.
  destruct (tag_tree_loop_rok (Z.to_nat (th - i32 (val (k_incl s)))) th (k_cs s) (i32 (val (k_incl s)))
    (vis (k_incl s)) Hs). by destruct (tag_tree_loop _ _ _ _ _ _) as [[v vi] c].
Qed.
Lemma ktot_zbp th : ktot (decode_zbp mem th) (λ _, True).
Proof.
  intros s Hs. unfold decode_zbp, tag_tree_decode.
  destruct (tag_tree_loop_rok (Z.to_nat (th - i32 (val (k_zbp s)))) th (k_cs s) (i32 (val (k_zbp s)))
    (vis (k_zbp s)) Hs). by destruct (tag_tree_loop _ _ _ _ _ _) as [[v vi] c].
Qed.

Lemma getlblockinc_loop_total fuel res s :
  rok (k_cs s) → (bits_left (k_cs s) < fuel)%nat →
  match getlblockinc_loop mem fuel res s with
  | Ret (_, s') => rok (k_cs s') ∧ chunks_ (k_cs s') = chunks_ (k_cs s)
  | UB => True
  | NoFuel => False
  end.
Proof.
  revert res s. induction fuel as [|fuel IH]; intros res s Hs Hf; [lia|]. cbn [getlblockinc_loop].
  unfold mbind, M_bind, bit. destruct (get_bit_rok (k_cs s) Hs) as (H1 & H2 & _).
  pose proof (get_bit_left (k_cs s) Hs) as Hl.
  destruct (get_bit mem (k_cs s)) as [b c]; cbn [fst snd] in *.
  destruct (Z.eqb_spec b 0) as [E|E]; [done|]. specialize (Hl E).
  specialize (IH (res + 1) (set_kcs c s) H1). cbn [set_kcs k_cs] in IH. specialize (IH ltac:(lia)).
  destruct (getlblockinc_loop _ _ _ _) as [[r s']| |]; [|done|done]. cbn in IH.
  destruct IH as [? E']. split; [done|congruence].
Qed.

Lemma ktot_getlblockinc : ktot (getlblockinc mem) (λ _, True).
Proof.
  intros s Hs. pose proof (getlblockinc_loop_total (S (bits_left (k_cs s))) 0 s Hs ltac:(lia)) as H.
  unfold getlblockinc. rewrite bind_get. destruct (getlblockinc_loop _ _ _ _) as [[r s']| |]; [|done|done].
  by destruct H.
Qed.

Ltac ktot_step :=
  lazymatch goal with
  | |- ktot (bit _ ≫= _) _ => eapply ktot_bind; [apply ktot_bit|intros ? ?; cbn beta in *]
  | |- ktot (get_bits _ _ ≫= _) _ => eapply ktot_bind; [apply ktot_bits|intros ? ?; cbn beta in *]
  | |- ktot (blk ≫= _) _ => eapply ktot_bind; [apply ktot_blk|intros ? _]
  | |- ktot (upd_blk _ ≫= _) _ => eapply ktot_bind; [apply ktot_upd|intros ? _]
  | |- ktot (mret _ ≫= _) _ => eapply (ktot_bind _ _ (λ a, a = _)); [by apply ktot_ret|intros ? ->]
  | |- ktot (mret _) _ => apply ktot_ret
  | |- ktot (if ?b then _ else _) _ => destruct b eqn:?
  end.
Ltac ktot_solve := cbn zeta; repeat (ktot_step; cbn zeta).

Lemma ktot_newpasses : ktot (decode_newpasses mem) (λ n, 1 ≤ n ≤ 164).
Proof.
  unfold decode_newpasses. ktot_step. cbn zeta.
  eapply (ktot_bind _ _ (λ n, 1 ≤ n ≤ 3)); [ktot_solve; lia|intros n1 ?; cbn beta in *].
  eapply (ktot_bind _ _ (λ n, 1 ≤ n ≤ 6)); [ktot_solve; lia|intros n2 ?; cbn beta in *].
  eapply (ktot_bind _ _ (λ n, 1 ≤ n ≤ 37)); [ktot_solve; lia|intros n3 ?; cbn beta in *].
  ktot_solve; lia.
Qed.

Lemma ktot_extend n sp pb by_ : ktot (extend mem n sp pb by_) (λ _, True).
Proof. revert pb by_. induction n as [|n IH]; intros; cbn [extend]; ktot_solve; done || apply IH. Qed.

(** The first segment leaves a pass count the loop can finish with. *)
Definition seg_ok (newpasses sp nx : Z) : Prop :=
  0 ≤ sp ≤ newpasses ∧ (sp = newpasses ∨ 1 ≤ nx ≤ 2).

Lemma ktot_ht_first n :
  1 ≤ n → ktot (ht_first_segment mem n) (λ r, ∀ sp nx, r = Some (sp, nx) → seg_ok n sp nx).
Proof.
  intros Hn. unfold ht_first_segment. ktot_step. cbn zeta.
  set (href := u32 _ mod 3). assert (0 ≤ href < 3) as Hh by (apply Z.mod_pos_bound; lia).
  destruct (Z.ltb_spec (n - href) 1).
  - destruct (widen _ _ _ _) as [bits pb]. ktot_solve; intros sp nx [= <- <-]; unfold seg_ok; lia.
  - destruct (widen _ _ _ _) as [bits pb]. ktot_step.
    repeat first [ktot_step; cbn zeta
      | match goal with |- ktot (extend _ _ _ _ _ ≫= _) _ => eapply ktot_bind; [apply ktot_extend|intros ? _] end].
    all: intros sp nx; try (intros [=]; done); intros [= <- <-]; unfold seg_ok; lia.
Qed.

Lemma ktot_other_first n :
  1 ≤ n → ktot (other_first_segment mem n) (λ '(sp, nx, by_), seg_ok n sp nx).
Proof.
  intros Hn. unfold other_first_segment, seg_ok. ktot_step. destruct (negb _) eqn:?.
  { pose proof (Z.mod_pos_bound (npasses a) 3). destruct (Z.eqb_spec (npasses a mod 3) 0).
    - ktot_solve. cbn. lia.
    - destruct (Z.ltb_spec 1 n); ktot_solve; cbn; lia. }
  ktot_step; [ktot_solve; cbn; lia|]. ktot_step; [ktot_solve; cbn; lia|].
  destruct (Z.ltb_spec (npasses a) 10); [ktot_solve; cbn; lia|].
  pose proof (Z.mod_pos_bound (npasses a - 10) 3). destruct (Z.ltb_spec 1 n); ktot_solve; cbn; lia.
Qed.

Lemma ktot_ht_segments n np nx :
  0 ≤ np < 4294967296 → np ≤ Z.of_nat n → np = 0 ∨ 1 ≤ nx ≤ 2 →
  ktot (ht_segments mem n np nx) (λ _, True).
Proof.
  revert np nx. induction n as [|n IH]; intros np nx Hnp Hn Hx; cbn [ht_segments];
    destruct (Z.ltb_spec 0 np); try lia; try (by apply ktot_ret).
  ktot_solve.
  apply IH; destruct (Z.ltb_spec 1 np); rewrite ?u32_small, ?u8_small by lia; lia.
Qed.

Lemma ktot_other_segments n np nx by_ :
  0 ≤ np < 4294967296 → np ≤ Z.of_nat n → np = 0 ∨ by_ = 0 ∨ 1 ≤ nx ≤ 2 →
  ktot (other_segments mem n np nx by_) (λ _, True).
Proof.
  revert np nx. induction n as [|n IH]; intros np nx Hnp Hn Hx; cbn [other_segments];
    destruct (Z.ltb_spec 0 np); try lia; try (by apply ktot_ret).
  ktot_step. destruct (Z.eqb_spec by_ 0); cbn [negb].
  - ktot_solve; [done|]. apply IH; rewrite ?u32_small by lia; lia.
  - ktot_solve.
    apply IH; destruct (Z.ltb_spec 1 np); rewrite ?u32_small, ?u8_small by lia; lia.
Qed.

Lemma ktot_cblk_segments n : 1 ≤ n ≤ 164 → ktot (cblk_segments mem n) (λ _, True).
Proof.
  intros Hn. unfold cblk_segments. ktot_step.
  eapply (ktot_bind _ _ (λ r, ∀ sp nx by_, r = Some (sp, nx, by_) → seg_ok n sp nx)).
  { destruct (negb _).
    - eapply ktot_bind; [apply ktot_ht_first; lia|]. intros [[sp nx]|] Hr; apply ktot_ret; [|done].
      intros ? ? ? [= <- <- <-]. by apply Hr.
    - eapply ktot_bind; [apply ktot_other_first; lia|]. intros [[sp nx] by_] Hr. apply ktot_ret.
      by intros ? ? ? [= <- <- <-]. }
  intros [[[sp nx] by_]|] Hr; [|by apply ktot_ret]. destruct (Hr _ _ _ eq_refl) as [Hs Hx].
  ktot_step. ktot_step. cbn zeta. rewrite u32_small by lia. destruct (_ && _).
  - eapply ktot_bind; [apply ktot_ht_segments; lia|]. intros _ _. by apply ktot_ret.
  - eapply ktot_bind; [apply ktot_other_segments; lia|]. intros ? _. by apply ktot_ret.
Qed.

Lemma ktot_cblk_header cbs : ktot (cblk_header mem cbs) (λ _, True).
Proof.
  unfold cblk_header. ktot_step. eapply ktot_bind; [apply ktot_incl|intros i _].
  eapply (ktot_bind _ _ (λ _, True)); [|intros r _; ktot_solve; done].
  destruct (i =? 0); [|by apply ktot_ret]. eapply ktot_bind; [apply ktot_zbp|intros z _].
  ktot_step. eapply ktot_bind; [apply ktot_newpasses|intros n Hn; cbn beta in Hn].
  ktot_step. destruct (_ <=? _); [by apply ktot_ret|].
  eapply ktot_bind; [apply ktot_getlblockinc|intros l _]. ktot_step.
  destruct (16 <? _); [by apply ktot_ret|]. ktot_step. by apply ktot_cblk_segments.
Qed.

(** Whole packets: fuel is never the reason to stop, and the chunks stay. *)
Definition ptot {A} (c : codestream) (cs_of : A → codestream) (o : outcome A) : Prop :=
  match o with
  | Ret a => rok (cs_of a) ∧ chunks_ (cs_of a) = chunks_ c
  | UB => True
  | NoFuel => False
  end.

Lemma ptot_header_blocks n i cbs c pb :
  rok c → ptot c (λ r, r.1.2) (header_blocks mem n i cbs c pb).
Proof.
  revert i c pb. induction n as [|n IH]; intros i c pb Hc; [done|]. cbn [header_blocks].
  destruct (pb_blk pb !! i) as [b|], (pb_incl pb !! i) as [ti|], (pb_zbp pb !! i) as [tz|]; try done.
  pose proof (ktot_cblk_header cbs (mkCb_ c b ti tz) Hc) as Hk.
  destruct (cblk_header mem cbs _) as [[r s]| |]; [|done|done]. destruct Hk as (H1 & H2 & _).
  cbn in H2. destruct (r =? EXIT_SUCCESS); [|done].
  specialize (IH (S i) (k_cs s) (mkPband (<[i:=k_incl s]> (pb_incl pb)) (<[i:=k_zbp s]> (pb_zbp pb))
    (<[i:=k_blk s]> (pb_blk pb))) H1).
  destruct (header_blocks mem n _ _ _ _) as [r'| |]; [|done|done]. destruct IH. split; [done|congruence].
Qed.

Lemma ptot_header_bands n b cbs c pr :
  rok c → ptot c (λ r, r.1.2) (header_bands mem n b cbs c pr).
Proof.
  revert b c pr. induction n as [|n IH]; intros b c pr Hc; [done|]. cbn [header_bands].
  destruct (pr_pband pr !! b) as [pb|]; [|done].
  pose proof (ptot_header_blocks (nb_code_blocks pr) 0 cbs c pb Hc) as Hk.
  destruct (header_blocks mem _ _ _ _ _) as [[[r c'] pb']| |]; [|done|done]. destruct Hk as (H1 & H2).
  cbn in H1, H2. destruct (r =? EXIT_SUCCESS); [|done].
  specialize (IH (S b) c' (set_pbands (<[b:=pb']> (pr_pband pr)) pr) H1).
  destruct (header_bands mem n _ _ _ _) as [r'| |]; [|done|done]. destruct IH. split; [done|congruence].
Qed.

Lemma ptot_blk_body c b : rok c → ptot c fst (blk_body mem c b).
Proof.
  intros [Hwf Hb]. unfold blk_body.
  pose proof (take_contiguous_wf mem (blk_length b) c Hwf) as (H1 & H2 & _ & H3).
  destruct (take_contiguous mem (blk_length b) c) as [p c']. cbn [snd] in *.
  assert (rok c' ∧ chunks_ c' = chunks_ c) as Hr by (split; [split; [done|lia]|done]).
  destruct (_ && _); [|exact Hr].
  destruct (data_byte mem c' p (blk_length b) (u32 (pass_lengths0 b - 1))); [|done].
  by destruct (data_byte mem c' p (blk_length b) (u32 (pass_lengths0 b - 2))).
Qed.

Lemma ptot_body_blocks n i c pb : rok c → ptot c fst (body_blocks mem n i c pb).
Proof.
  revert i c pb. induction n as [|n IH]; intros i c pb Hc; [done|]. cbn [body_blocks].
  destruct (pb_blk pb !! i) as [b|]; [|done]. pose proof (ptot_blk_body c b Hc) as Hk.
  destruct (blk_body mem c b) as [[c' b']| |]; [|done|done]. destruct Hk as (H1 & H2).
  specialize (IH (S i) c' (mkPband (pb_incl pb) (pb_zbp pb) (<[i:=b']> (pb_blk pb))) H1).
  destruct (body_blocks mem n _ _ _) as [r'| |]; [|done|done]. destruct IH. split; [done|].
  cbn in *. congruence.
Qed.

Lemma ptot_body_bands n b c pr : rok c → ptot c fst (body_bands mem n b c pr).
Proof.
  revert b c pr. induction n as [|n IH]; intros b c pr Hc; [done|]. cbn [body_bands].
  destruct (pr_pband pr !! b) as [pb|]; [|done].
  pose proof (ptot_body_blocks (nb_code_blocks pr) 0 c pb Hc) as Hk.
  destruct (body_blocks mem _ _ _ _) as [[c' pb']| |]; [|done|done]. destruct Hk as (H1 & H2).
  specialize (IH (S b) c' (set_pbands (<[b:=pb']> (pr_pband pr)) pr) H1).
  destruct (body_bands mem n _ _ _) as [r'| |]; [|done|done]. destruct IH. split; [done|].
  cbn in *. congruence.
Qed.

Lemma flush_rok c :
  rok c → rok (packetheader_flush_bits c) ∧ chunks_ (packetheader_flush_bits c) = chunks_ c.
Proof.
  intros [Hwf Hb]. unfold packetheader_flush_bits. destruct (cs_tmp c =? 255).
  - destruct (advance_wf 1 c Hwf) as [H1 []]. split; [|done]. split; [by apply wf_set_bitbuf|cbn; lia].
  - split; [|done]. split; [by apply wf_set_bitbuf|cbn; lia].
Qed.

Lemma ptot_parse_packet_header c pr coc :
  rok c → ptot c (λ r, r.1.2) (parse_packet_header mem c pr coc).
Proof.
  intros Hc. unfold parse_packet_header.
  pose proof (ptot_header_bands (Z.to_nat (pr_num_bands pr)) 0 (coc_cbs coc) c pr Hc) as Hk.
  destruct (header_bands mem _ _ _ _ _) as [[[r c'] pr']| |]; [|done|done]. destruct Hk as (H1 & H2).
  cbn in H1, H2. destruct (r =? EXIT_SUCCESS); [|done]. destruct (flush_rok c' H1) as [H3 H4].
  pose proof (ptot_body_bands (Z.to_nat (pr_num_bands pr')) 0 _ pr' H3) as Hk.
  destruct (body_bands mem _ _ _ _) as [[c'' pr'']| |]; [|done|done]. destruct Hk as (H5 & H6).
  split; [done|]. cbn in *. congruence.
Qed.

Lemma ptot_read_packet c pr coc : rok c → ptot c (λ r, r.1.2) (read_packet mem c pr coc).
Proof.
  intros Hc. unfold read_packet. destruct (get_bit_rok c Hc) as (H1 & H2 & _).
  destruct (get_bit mem c) as [b c']. cbn [fst snd] in *. destruct (b =? 0).
  - destruct (flush_rok c' H1) as [H3 H4]. split; [done|].
    change (chunks_ (packetheader_flush_bits c') = chunks_ c). congruence.
  - pose proof (ptot_parse_packet_header c' pr coc H1) as Hk.
    destruct (parse_packet_header mem c' pr coc) as [r| |]; [|done|done]. destruct Hk.
    split; [done|congruence].
Qed.

End Lemmas.
