(* ===== verification/PacketSpec.v ===== *)
(** * PacketSpec: what [read_packet] returns on an encoded packet

    The writer's side of a high-throughput (HT) packet, as data: per code-block
    whether it is included, its missing bit-planes, its passes and the lengths of
    its two segments; the packet header bits with the standard's bit stuffing and
    the code-block bodies behind it.  [read_packet] is shown to recover exactly
    that, wherever the chunk boundaries fall; and to terminate on any bytes. *)
From S2P Require Import Prelude Codestream BitReader Markers Structs PacketHeader.

(** ** The bits and bytes ahead of the reader *)

(** The next bits are [l]; flushing after them leaves exactly the bytes [post]. *)
Definition ahead (mem : memory) (c : codestream) (l : list bool) (post : list Z) : Prop :=
  rok c
  ∧ (f_read_bits (length l) (abs mem c)).1 = l
  ∧ let p := f_pos (f_flush (f_read_bits (length l) (abs mem c)).2) in
    p ≤ total_len (chunks_ c) ∧ drop (Z.to_nat p) (flat_bytes mem (chunks_ c)) = post.

Fixpoint to_bits (n : nat) (v : Z) : list bool :=
  match n with
  | O => []
  | S n' => to_bits n' (v / 2) ++ [Z.odd v]
  end.

Lemma length_to_bits n v : length (to_bits n v) = n.
Proof. revert v. induction n as [|n IH]; intros v; [done|]. cbn. rewrite length_app, IH. cbn. lia. Qed.

Lemma bits_val_to_bits n v : 0 ≤ v < 2 ^ Z.of_nat n → bits_val (to_bits n v) = v.
Proof.
  revert v. induction n as [|n IH]; intros v Hv; [cbn in *; lia|].
  rewrite Nat2Z.inj_succ, Z.pow_succ_r in Hv by lia. cbn [to_bits].
  rewrite bits_val_snoc, IH by (split; [apply Z.div_pos; lia|apply Z.div_lt_upper_bound; lia]).
  rewrite (Z.div_mod v 2) at 3 by lia. rewrite Zmod_odd. by destruct (Z.odd v).
Qed.

Section Ahead.
Context (mem : memory).

Lemma ahead_app c l1 l2 post :
  ahead mem c (l1 ++ l2) post →
  let r := read_bits mem (length l1) c in
  r.1 = l1 ∧ ahead mem r.2 l2 post ∧ chunks_ r.2 = chunks_ c.
Proof.
  intros ([Hwf Hb] & Hr & Hp). cbn zeta in *.
  destruct (read_bits_spec mem (length l1) c Hwf Hb) as (R1 & R2 & R3 & R4).
  rewrite length_app, f_read_bits_app in Hr, Hp. rewrite <- R3 in Hr, Hp. cbn [fst snd] in *.
  assert (length (read_bits mem (length l1) c).1 = length l1) as Hl by apply length_read_bits.
  apply app_inj_1 in Hr as [E1 E2]; [|done]. split_and!; [done| |done].
  split; [by split|]. split; [done|]. cbn zeta. rewrite R2. exact Hp.
Qed.

Lemma ahead_bit c b l post :
  ahead mem c (b :: l) post →
  (get_bit mem c).1 = Z.b2z b ∧ ahead mem (get_bit mem c).2 l post
  ∧ chunks_ (get_bit mem c).2 = chunks_ c.
Proof.
  intros H. pose proof H as ([Hwf Hb] & _). destruct (ahead_app c [b] l post H) as (E & Ha & Hc).
  cbn [length read_bits] in *. destruct (get_bit_rok mem c (conj Hwf Hb)) as (_ & _ & H01).
  destruct (get_bit mem c) as [x c']. cbn [fst snd] in *. split_and!; [|done|done].
  injection E as E. destruct H01 as [-> | ->]; by subst b.
Qed.

Lemma ahead_bits c n v l post :
  0 ≤ v < 2 ^ n → 0 ≤ n ≤ 31 → ahead mem c (to_bits (Z.to_nat n) v ++ l) post →
  (packetheader_get_bits mem n c).1 = v ∧ ahead mem (packetheader_get_bits mem n c).2 l post
  ∧ chunks_ (packetheader_get_bits mem n c).2 = chunks_ c.
Proof.
  intros Hv Hn H. pose proof H as ([Hwf Hb] & _). destruct (ahead_app c _ l post H) as (E & Ha & Hc).
  rewrite length_to_bits in *. destruct (get_bits_spec mem n c Hwf Hb Hn) as [-> _]. cbn [fst snd].
  rewrite E. split_and!; [|done|done]. apply bits_val_to_bits. by rewrite Z2Nat.id by lia.
Qed.

Lemma ahead_flush c post :
  ahead mem c [] post →
  let c' := packetheader_flush_bits c in
  rok c' ∧ chunks_ c' = chunks_ c ∧ cs_tmp c' = 0 ∧ cs_bits c' = 0
  ∧ drop (Z.to_nat (pos c')) (flat_bytes mem (chunks_ c')) = post ∧ pos c' ≤ total_len (chunks_ c').
Proof.
  intros ([Hwf Hb] & _ & Hp). cbn [length f_read_bits snd] in Hp. cbn zeta in *.
  pose proof (f_flush_pos (abs mem c)) as Hle. cbn [f_pos abs] in Hle.
  destruct (flush_spec mem c Hwf) as (F1 & F2 & F3 & F4).
  { apply offset_bound; [done|]. lia. }
  assert (pos (packetheader_flush_bits c) = f_pos (f_flush (abs mem c))) as Ep by (by rewrite <- F4).
  destruct Hp as [Hp1 Hp2]. rewrite F2, Ep.
  assert (cs_tmp (packetheader_flush_bits c) = 0 ∧ cs_bits (packetheader_flush_bits c) = 0) as [E1 E2]
    by (unfold packetheader_flush_bits; by destruct (cs_tmp c =? 255)).
  split; [split; [done|lia]|]. by split_and!.
Qed.

(** A stuffed header at the cursor of an idle reader. *)
Lemma ahead_packed c l post :
  wf c → cs_tmp c = 0 → cs_bits c = 0 → pos c ≤ total_len (chunks_ c) →
  drop (Z.to_nat (pos c)) (flat_bytes mem (chunks_ c)) = pack_bits l ++ post →
  ahead mem c l post.
Proof.
  intros Hwf Ht Hb Hp Hd. set (bytes := flat_bytes mem (chunks_ c)) in *.
  assert (Z.of_nat (length bytes) = total_len (chunks_ c)) as Hlen
    by apply length_flat_bytes, Hwf.
  pose proof (wf_cur _ Hwf) as [Hne _ Hc Ho _].
  pose proof (total_len_nonneg _ (Forall_take _ (cur_chunk_ c) _ Hne)).
  assert (0 ≤ pos c) by (unfold pos; lia).
  assert (length (take (Z.to_nat (pos c)) bytes) = Z.to_nat (pos c)) as Htk
    by (rewrite length_take; lia).
  assert (bytes = take (Z.to_nat (pos c)) bytes ++ pack_bits l ++ post) as Hsplit
    by (by rewrite <- Hd, take_drop).
  destruct (f_read_packed (S (length l)) l (abs mem c) (take (Z.to_nat (pos c)) bytes) post) as (I1 & I2 & I3);
    [lia|by right|cbn [abs f_bytes f_tmp]; rewrite Ht; exact Hsplit|cbn; lia|].
  split; [split; [done|lia]|]. split; [done|]. cbn zeta. rewrite I3. cbn [f_tmp abs]. rewrite Ht.
  change (pack_groups (S (length l)) (0 =? 255) l) with (pack_bits l). fold bytes. split.
  - apply (f_equal length) in Hsplit. rewrite !length_app in Hsplit. lia.
  - rewrite Nat2Z.id, Htk, <- drop_drop, Hd. by rewrite drop_app_length.
Qed.

(** ** Reading a known bit string

    [reads l m s a s']: with the bits [l] ahead, [m] from [s] consumes exactly
    them, returns [a] and leaves [s'] (up to the reader itself). *)
Definition reads {A} (l : list bool) (m : M cbst A) (s : cbst) (a : A) (s' : cbst) : Prop :=
  ∀ c rest post, ahead mem c (l ++ rest) post →
  ∃ c', m (set_kcs c s) = Ret (a, set_kcs c' s') ∧ ahead mem c' rest post ∧ chunks_ c' = chunks_ c.

Lemma reads_ret {A} (a : A) s : reads [] (mret a) s a s.
Proof. intros c rest post H. by exists c. Qed.

Lemma reads_bind {A B} l1 l2 (m : M cbst A) (k : A → M cbst B) s a s1 b s2 :
  reads l1 m s a s1 → reads l2 (k a) s1 b s2 → reads (l1 ++ l2) (m ≫= k) s b s2.
Proof.
  intros Hm Hk c rest post H. rewrite <- app_assoc in H.
  destruct (Hm _ _ _ H) as (c1 & E1 & H1 & C1). destruct (Hk _ _ _ H1) as (c2 & E2 & H2 & C2).
  exists c2. split_and!; [|done|congruence]. by rewrite (bind_run _ _ _ _ _ E1).
Qed.

(** Steps that read no bits. *)
Lemma reads_then {A B} l (m : M cbst A) (k : A → M cbst B) s a s1 b s2 :
  reads [] m s a s1 → reads l (k a) s1 b s2 → reads l (m ≫= k) s b s2.
Proof. apply (reads_bind []). Qed.

Lemma reads_blk s : reads [] blk s (k_blk s) s.
Proof. intros c rest post H. by exists c. Qed.

Lemma reads_upd f s : reads [] (upd_blk f) s () (mkCb_ (k_cs s) (f (k_blk s)) (k_incl s) (k_zbp s)).
Proof. intros c rest post H. by exists c. Qed.

Lemma reads_bit b s : reads [b] (bit mem) s (Z.b2z b) s.
Proof.
  intros c rest post H. destruct (ahead_bit _ _ _ _ H) as (E & Ha & Hc). exists (get_bit mem c).2.
  unfold bit. cbn [k_cs set_kcs]. destruct (get_bit mem c) as [x c']. cbn [fst snd] in *. by subst x.
Qed.

Lemma reads_bits n v s : 0 ≤ v < 2 ^ n → 0 ≤ n ≤ 31 → reads (to_bits (Z.to_nat n) v) (get_bits mem n) s v s.
Proof.
  intros Hv Hn c rest post H. destruct (ahead_bits _ _ _ _ _ Hv Hn H) as (E & Ha & Hc).
  exists (packetheader_get_bits mem n c).2. unfold get_bits. cbn [k_cs set_kcs].
  destruct (packetheader_get_bits mem n c) as [x c']. cbn [fst snd] in *. by subst x.
Qed.

(** A unary value below the threshold [th], or the threshold itself. *)
Definition unary (th z : Z) : list bool :=
  replicate (Z.to_nat z) false ++ (if z <? th then [true] else []).

Lemma tag_tree_loop_run n c z cur th vi rest post :
  0 ≤ z → cur + z ≤ th → (Z.to_nat (th - cur) ≤ n)%nat →
  ahead mem c (unary (th - cur) z ++ rest) post →
  ∃ c', tag_tree_loop mem n th c cur vi = (cur + z, (if cur + z <? th then u32 (vi + 1) else vi), c')
        ∧ ahead mem c' rest post ∧ chunks_ c' = chunks_ c.
Proof.
  revert c z cur. induction n as [|n IH]; intros c z cur Hz Hth Hn H.
  { assert (z = 0 ∧ th = cur) as [-> ->] by lia. unfold unary in H. exists c. cbn [tag_tree_loop].
    rewrite (proj2 (Z.ltb_ge _ _)) in H by lia. rewrite (proj2 (Z.ltb_ge _ _)) by lia. by rewrite Z.add_0_r. }
  cbn [tag_tree_loop]. destruct (Z.ltb_spec cur th) as [Hc|Hc].
  2:{ assert (z = 0) as -> by lia. exists c. unfold unary in H.
      rewrite (proj2 (Z.ltb_ge _ _)) in H by lia. rewrite (proj2 (Z.ltb_ge _ _)) by lia. by rewrite Z.add_0_r. }
  unfold unary in H. destruct (Z.to_nat z) as [|m] eqn:Em.
  - assert (z = 0) as -> by lia. rewrite (proj2 (Z.ltb_lt _ _)) in H by lia.
    destruct (ahead_bit _ _ _ _ H) as (E & Ha & Hk). destruct (get_bit mem c) as [x c']. cbn [fst snd] in *.
    subst x. exists c'. rewrite Z.add_0_r. by rewrite (proj2 (Z.ltb_lt _ _)).
  - cbn [replicate app] in H. destruct (ahead_bit _ _ _ _ H) as (E & Ha & Hk).
    destruct (get_bit mem c) as [x c']. cbn [fst snd] in *. subst x. cbn [negb Z.eqb Z.b2z].
    destruct (IH c' (z - 1) (cur + 1)) as (c'' & E & H1 & H2); [lia..| |].
    + unfold unary. replace (Z.to_nat (z - 1)) with m by lia.
      replace (z - 1 <? th - (cur + 1)) with (z <? th - cur) by (zcases; done || lia). done.
    + exists c''. rewrite E. replace (cur + 1 + (z - 1)) with (cur + z) by lia. split_and!; [done|done|congruence].
Qed.

Lemma reads_incl z s :
  val (k_incl s) = 0 → vis (k_incl s) = 0 → 0 ≤ z ≤ 1 →
  reads (unary 1 z) (decode_incl mem 1) s z (mkCb_ (k_cs s) (k_blk s) (mkNode z (1 - z)) (k_zbp s)).
Proof.
  intros Hv Hi Hz c rest post H. unfold decode_incl, tag_tree_decode. cbn [k_incl k_cs set_kcs]. rewrite Hv, Hi.
  destruct (tag_tree_loop_run (Z.to_nat 1) c z 0 1 0 rest post) as (c' & E & Ha & Hc); [lia..|done|].
  change (i32 0) with 0. change (1 - 0) with 1. exists c'. rewrite E, Z.add_0_l. split; [|done].
  rewrite u32_small by lia. by destruct (Z.ltb_spec z 1); [assert (z = 0) as -> by lia|assert (z = 1) as -> by lia].
Qed.

Lemma reads_zbp z s :
  val (k_zbp s) = 0 → vis (k_zbp s) = 0 → 0 ≤ z ≤ 14 →
  reads (unary 14 z) (decode_zbp mem 14) s z
    (mkCb_ (k_cs s) (k_blk s) (k_incl s) (mkNode z (if z <? 14 then 1 else 0))).
Proof.
  intros Hv Hi Hz c rest post H. unfold decode_zbp, tag_tree_decode. cbn [k_zbp k_cs set_kcs]. rewrite Hv, Hi.
  destruct (tag_tree_loop_run (Z.to_nat 14) c z 0 14 0 rest post) as (c' & E & Ha & Hc); [lia..|done|].
  change (i32 0) with 0. change (14 - 0) with 14. exists c'. rewrite E, Z.add_0_l. split; [|done].
  by rewrite u32_small by lia.
Qed.

(** The Lblock increment: [k] ones and a zero. *)
Lemma getlblockinc_loop_run fuel k res s c rest post :
  ahead mem c (replicate k true ++ false :: rest) post →
  getlblockinc_loop mem fuel res (set_kcs c s) = NoFuel
  ∨ ∃ c', getlblockinc_loop mem fuel res (set_kcs c s) = Ret (res + Z.of_nat k, set_kcs c' s)
          ∧ ahead mem c' rest post ∧ chunks_ c' = chunks_ c.
Proof.
  revert k res c. induction fuel as [|fuel IH]; intros k res c H; [by left|]. cbn [getlblockinc_loop].
  assert (∃ b l, replicate k true ++ false :: rest = b :: l) as (b & l & E) by (destruct k; cbn; eauto).
  rewrite E in H. destruct (reads_bit b s c l post H) as (c1 & E1 & H1 & C1).
  rewrite (bind_run _ _ _ _ _ E1). destruct k as [|k]; injection E as <- <-; cbn [Z.b2z Z.eqb].
  - right. exists c1. by rewrite Z.add_0_r.
  - destruct (IH k (res + 1) c1 H1) as [->|(c2 & -> & H2 & C2)]; [by left|]. right. exists c2.
    split_and!; [|done|congruence]. by replace (res + 1 + Z.of_nat k) with (res + Z.of_nat (S k)) by lia.
Qed.

Lemma reads_lblock k s : 0 ≤ k → reads (replicate (Z.to_nat k) true ++ [false]) (getlblockinc mem) s k s.
Proof.
  intros Hk c rest post H. rewrite <- app_assoc in H. pose proof H as (Hr & _).
  pose proof (ktot_getlblockinc mem (set_kcs c s) Hr) as Ht. unfold getlblockinc in *. rewrite bind_get in *.
  destruct (getlblockinc_loop_run (S (bits_left (k_cs (set_kcs c s)))) _ 0 s c rest post H)
    as [E|(c' & E & H1 & C1)]; [by rewrite E in Ht|].
  exists c'. rewrite E. by rewrite Z2Nat.id, Z.add_0_l by lia.
Qed.

(** The standard's code for the number of passes. *)
Definition passes_bits (np : Z) : list bool :=
  if np =? 1 then [false]
  else if np =? 2 then [true; false]
  else [true; true] ++
    if np <? 6 then to_bits 2 (np - 3)
    else [true; true] ++
      if np <? 37 then to_bits 5 (np - 6)
      else replicate 5 true ++ to_bits 7 (np - 37).

Lemma reads_newpasses np s : 1 ≤ np ≤ 164 → reads (passes_bits np) (decode_newpasses mem) s np s.
Proof.
  intros Hn. unfold passes_bits, decode_newpasses. destruct (Z.eqb_spec np 1) as [->|].
  { apply (reads_bind [false] [] _ _ _ 0 s); [apply reads_bit|]. cbn. do 3 (eapply reads_then; [apply reads_ret|]; cbn).
    apply reads_ret. }
  destruct (Z.eqb_spec np 2) as [->|].
  { apply (reads_bind [true] [false] _ _ _ 1 s); [apply reads_bit|]. cbn.
    apply (reads_bind [false] [] _ _ _ 2 s); [apply (reads_bind [false] [] _ _ _ 0 s); [apply reads_bit|apply reads_ret]|].
    cbn. do 2 (eapply reads_then; [apply reads_ret|]; cbn). apply reads_ret. }
  apply (reads_bind [true] _ _ _ _ 1 s); [apply reads_bit|]. cbn [app].
  apply (reads_bind [true] _ _ _ _ 3 s); [apply (reads_bind [true] [] _ _ _ 1 s); [apply reads_bit|apply reads_ret]|].
  cbn [Z.leb Z.compare Pos.compare Pos.compare_cont].
  destruct (Z.ltb_spec np 6).
  { rewrite <- (app_nil_r (to_bits 2 _)). apply (reads_bind _ [] _ _ _ np s).
    - rewrite <- (app_nil_r (to_bits 2 _)). apply (reads_bind _ [] _ _ _ (np - 3) s); [by apply (reads_bits 2); lia|].
      replace np with (3 + (np - 3)) at 2 by lia. apply reads_ret.
    - rewrite (proj2 (Z.leb_gt 6 np)) by lia. eapply reads_then; [apply reads_ret|].
      rewrite (proj2 (Z.leb_gt 37 np)) by lia. apply reads_ret. }
  apply (reads_bind [true; true] _ _ _ _ 6 s).
  { apply (reads_bind [true; true] [] _ _ _ 3 s); [apply (reads_bits 2 3); lia|apply reads_ret]. }
  change (6 <=? 6) with true. cbn iota. destruct (Z.ltb_spec np 37).
  - rewrite <- (app_nil_r (to_bits 5 _)). apply (reads_bind _ [] _ _ _ np s).
    + rewrite <- (app_nil_r (to_bits 5 _)). apply (reads_bind _ [] _ _ _ (np - 6) s); [by apply (reads_bits 5); lia|].
      replace np with (6 + (np - 6)) at 2 by lia. apply reads_ret.
    + rewrite (proj2 (Z.leb_gt 37 np)) by lia. apply reads_ret.
  - apply (reads_bind (replicate 5 true) _ _ _ _ 37 s).
    { apply (reads_bind (replicate 5 true) [] _ _ _ 31 s); [apply (reads_bits 5 31); lia|apply reads_ret]. }
    change (37 <=? 37) with true. cbn iota. rewrite <- (app_nil_r (to_bits 7 _)).
    apply (reads_bind _ [] _ _ _ (np - 37) s); [by apply (reads_bits 7); lia|].
    replace np with (37 + (np - 37)) at 2 by lia. apply reads_ret.
Qed.

(** ** The length fields *)
Lemma widen_spec n sp bits j :
  1 ≤ j → 2 ^ (j - 1) ≤ sp < 256 → sp < 2 ^ (j + Z.of_nat n) → 0 ≤ bits → bits - j + 9 < 256 →
  (widen n sp bits (2 ^ j)).1 = bits + (Z.log2 sp + 1 - j).
Proof.
  revert bits j. induction n as [|n IH]; intros bits j Hj Hsp Hn Hb Hb'; cbn [widen].
  { rewrite Z.add_0_r in Hn.
    rewrite (Z.log2_unique sp (j - 1)); [cbn; lia|lia|]. replace (Z.succ (j - 1)) with j by lia. lia. }
  destruct (Z.leb_spec (2 ^ j) sp) as [H|H].
  - assert (j < 8) by (apply (Z.pow_lt_mono_r_iff 2); lia).
    assert (2 ^ (j + 1) ≤ 2 ^ 8) by (apply Z.pow_le_mono_r; lia).
    rewrite Z.shiftl_mul_pow2, <- Z.pow_add_r, u8_small, i32_small by lia.
    rewrite IH; [lia|lia|rewrite Z.add_simpl_r; lia| |lia..].
    by replace (j + 1 + Z.of_nat n) with (j + Z.of_nat (S n)) by lia.
  - rewrite (Z.log2_unique sp (j - 1)); [cbn; lia|lia|].
    replace (Z.succ (j - 1)) with j by lia. lia.
Qed.

End Ahead.

(** ** The header never touches the chunks or the staging buffers *)
Definition store (c : codestream) : list Chunk * list (list Z) := (chunks_ c, staging_ c).

Section Staging.
Context (mem : memory).

Definition kst {A} (m : M cbst A) : Prop :=
  ∀ s, match m s with Ret (_, s') => store (k_cs s') = store (k_cs s) | _ => True end.

Lemma kst_bind {A B} (m : M cbst A) (k : A → M cbst B) : kst m → (∀ a, kst (k a)) → kst (m ≫= k).
Proof.
  intros Hm Hk s. specialize (Hm s). unfold mbind, M_bind. destruct (m s) as [[a s']| |]; [|done|done].
  specialize (Hk a s'). destruct (k a s') as [[b s'']| |]; congruence || done.
Qed.
Lemma kst_ret {A} (a : A) : kst (mret a).
Proof. done. Qed.
Lemma kst_fuel {A} : kst (A := A) out_of_fuel.
Proof. done. Qed.
Lemma kst_blk : kst blk.
Proof. done. Qed.
Lemma kst_upd f : kst (upd_blk f).
Proof. done. Qed.

Lemma advance_store n c : store (advance n c) = store c.
Proof.
  unfold advance. cbn zeta. set (c2 := set_cursor _ _ _ _). change (store c) with (store c2).
  generalize (chunks_left c2). clearbody c2. clear. intros f. revert c2. induction f as [|f IH]; intros c; [done|].
  cbn [advance_loop]. destruct (chunks_ c !! cur_chunk_ c); [|done]. destruct (_ <=? _); [by rewrite IH|done].
Qed.

Lemma get_byte_store c : store (get_byte mem c).2 = store c.
Proof. unfold get_byte. destruct (_ !! _); [|done]. cbn zeta. by destruct (_ =? _). Qed.

Lemma fill_store c : store (fill mem c) = store c.
Proof.
  pose proof (get_byte_store c) as H. unfold fill. destruct (get_byte mem c) as [b c']. by destruct (cs_bits c =? 0).
Qed.

Lemma get_bit_store c : store (get_bit mem c).2 = store c.
Proof. apply fill_store. Qed.

Lemma get_bits_store n c : store (packetheader_get_bits mem n c).2 = store c.
Proof.
  unfold packetheader_get_bits. generalize 0. revert c. induction (Z.to_nat n) as [|k IH]; intros c r; [done|].
  cbn [get_bits_loop]. rewrite IH. apply fill_store.
Qed.

Lemma tag_tree_store n th c v vi : store (tag_tree_loop mem n th c v vi).2 = store c.
Proof.
  revert c v. induction n as [|n IH]; intros c v; [done|]. cbn [tag_tree_loop]. destruct (v <? th); [|done].
  pose proof (get_bit_store c) as H. destruct (get_bit mem c) as [b c']. destruct (negb _); [done|]. by rewrite IH.
Qed.

Lemma kst_bit : kst (bit mem).
Proof. intros s. unfold bit. pose proof (get_bit_store (k_cs s)). by destruct (get_bit mem (k_cs s)). Qed.
Lemma kst_bits n : kst (get_bits mem n).
Proof.
  intros s. unfold get_bits. pose proof (get_bits_store n (k_cs s)).
  by destruct (packetheader_get_bits mem n (k_cs s)).
Qed.
Lemma kst_incl th : kst (decode_incl mem th).
Proof.
  intros s. unfold decode_incl, tag_tree_decode.
  pose proof (tag_tree_store (Z.to_nat (th - i32 (val (k_incl s)))) th (k_cs s) (i32 (val (k_incl s)))
    (vis (k_incl s))). by destruct (tag_tree_loop _ _ _ _ _ _) as [[v vi] c].
Qed.
Lemma kst_zbp th : kst (decode_zbp mem th).
Proof.
  intros s. unfold decode_zbp, tag_tree_decode.
  pose proof (tag_tree_store (Z.to_nat (th - i32 (val (k_zbp s)))) th (k_cs s) (i32 (val (k_zbp s)))
    (vis (k_zbp s))). by destruct (tag_tree_loop _ _ _ _ _ _) as [[v vi] c].
Qed.
#[local] Hint Resolve kst_ret kst_fuel kst_blk kst_upd kst_bit kst_bits kst_incl kst_zbp : kst.

Ltac kst_solve :=
  cbn zeta; repeat match goal with
  | |- kst (_ ≫= _) => apply kst_bind; [|intros ?]; cbn zeta
  | |- kst (if ?b then _ else _) => destruct b
  | |- kst (match ?p with (_, _) => _ end) => destruct p
  | |- kst (match ?p with Some _ => _ | None => _ end) => destruct p
  end; eauto with kst.

Lemma kst_lblock : kst (getlblockinc mem).
Proof.
  intros s. unfold getlblockinc. rewrite bind_get. generalize (S (bits_left (k_cs s))). intros f. revert s.
  change (kst (getlblockinc_loop mem f 0)). generalize 0.
  induction f as [|f IH]; intros r; cbn [getlblockinc_loop]; kst_solve.
Qed.
Lemma kst_newpasses : kst (decode_newpasses mem).
Proof. unfold decode_newpasses. kst_solve. Qed.
Lemma kst_extend n sp pb by_ : kst (extend mem n sp pb by_).
Proof. revert pb by_. induction n as [|n IH]; intros; cbn [extend]; kst_solve. Qed.
#[local] Hint Resolve kst_lblock kst_newpasses kst_extend : kst.
Lemma kst_ht_first n : kst (ht_first_segment mem n).
Proof. unfold ht_first_segment. kst_solve. Qed.
Lemma kst_other_first n : kst (other_first_segment mem n).
Proof. unfold other_first_segment. kst_solve. Qed.
Lemma kst_ht_segments n np nx : kst (ht_segments mem n np nx).
Proof. revert np nx. induction n as [|n IH]; intros; cbn [ht_segments]; kst_solve. Qed.
Lemma kst_other_segments n np nx by_ : kst (other_segments mem n np nx by_).
Proof. revert np nx. induction n as [|n IH]; intros; cbn [other_segments]; kst_solve. Qed.
#[local] Hint Resolve kst_ht_first kst_other_first kst_ht_segments kst_other_segments : kst.
Lemma kst_cblk cbs : kst (cblk_header mem cbs).
Proof. unfold cblk_header, cblk_segments. kst_solve. Qed.

Lemma header_blocks_store n i cbs c pb :
  match header_blocks mem n i cbs c pb with Ret (_, c', _) => store c' = store c | _ => True end.
Proof.
  revert i c pb. induction n as [|n IH]; intros i c pb; [done|]. cbn [header_blocks].
  destruct (pb_blk pb !! i) as [b|], (pb_incl pb !! i) as [ti|], (pb_zbp pb !! i) as [tz|]; try done.
  pose proof (kst_cblk cbs (mkCb_ c b ti tz)) as Hk.
  destruct (cblk_header mem cbs _) as [[r s]| |]; [|done|done]. cbn in Hk. destruct (r =? EXIT_SUCCESS); [|done].
  specialize (IH (S i) (k_cs s) (mkPband (<[i:=k_incl s]> (pb_incl pb)) (<[i:=k_zbp s]> (pb_zbp pb))
    (<[i:=k_blk s]> (pb_blk pb)))). destruct (header_blocks mem n _ _ _ _) as [[[? ?] ?]| |]; congruence || done.
Qed.

Lemma header_bands_store n b cbs c pr :
  match header_bands mem n b cbs c pr with Ret (_, c', _) => store c' = store c | _ => True end.
Proof.
  revert b c pr. induction n as [|n IH]; intros b c pr; [done|]. cbn [header_bands].
  destruct (pr_pband pr !! b) as [pb|]; [|done]. pose proof (header_blocks_store (nb_code_blocks pr) 0 cbs c pb) as Hk.
  destruct (header_blocks mem _ _ _ _ _) as [[[r c'] pb']| |]; [|done|done]. destruct (r =? EXIT_SUCCESS); [|done].
  specialize (IH (S b) c' (set_pbands (<[b:=pb']> (pr_pband pr)) pr)).
  destruct (header_bands mem n _ _ _ _) as [[[? ?] ?]| |]; congruence || done.
Qed.

Lemma flush_store c : store (packetheader_flush_bits c) = store c.
Proof. unfold packetheader_flush_bits. destruct (_ =? _); [apply (advance_store 1 c)|done]. Qed.

(** *** Whole packets keep the chunks and only add staging buffers *)
Definition grown (c c' : codestream) : Prop :=
  chunks_ c' = chunks_ c ∧ staging_ c `prefix_of` staging_ c'.

Lemma grown_refl c : grown c c.
Proof. by split. Qed.
Lemma grown_trans c1 c2 c3 : grown c1 c2 → grown c2 c3 → grown c1 c3.
Proof. intros [] []. split; [congruence|by etrans]. Qed.
Lemma grown_store c c' : store c' = store c → grown c c'.
Proof. intros [= E1 E2]. split; [done|by rewrite E2]. Qed.

Lemma copy_loop_store f n k acc c : store (copy_loop mem f n k acc c).2 = store c.
Proof.
  revert k acc c. induction f as [|f IH]; intros k acc c; [done|]. cbn [copy_loop].
  destruct (chunks_ c !! cur_chunk_ c); [|done]. destruct (k <? n); [|done]. by rewrite IH, advance_store.
Qed.

Lemma take_contiguous_grown n c : grown c (take_contiguous mem n c).2.
Proof.
  unfold take_contiguous. destruct (chunks_ c !! cur_chunk_ c) as [k|]; [|apply grown_refl].
  destruct (n =? 0); [apply grown_refl|]. destruct (_ <=? _); cbn [snd]; [by apply grown_store, advance_store|].
  pose proof (copy_loop_store (S (chunks_left c)) n 0 [] c) as Hc. destruct (copy_loop _ _ _ _ _ _) as [l c']. cbn [snd] in *.
  injection Hc as E1 E2. split; [done|]. cbn [push_staging staging_]. rewrite E2. by apply prefix_app_r.
Qed.

Definition ograw {A} (c : codestream) (cs_of : A → codestream) (o : outcome A) : Prop :=
  match o with Ret a => grown c (cs_of a) | _ => True end.

Lemma body_blocks_grown n i c pb : ograw c fst (body_blocks mem n i c pb).
Proof.
  revert i c pb. induction n as [|n IH]; intros i c pb; [apply grown_refl|]. cbn [body_blocks].
  destruct (pb_blk pb !! i) as [b|]; [|done]. unfold blk_body.
  pose proof (take_contiguous_grown (blk_length b) c) as G. destruct (take_contiguous mem (blk_length b) c) as [p c'].
  assert (∀ b', ograw c fst (body_blocks mem n (S i) c' (mkPband (pb_incl pb) (pb_zbp pb) (<[i:=b']> (pb_blk pb))))) as H.
  { intros b'. specialize (IH (S i) c' (mkPband (pb_incl pb) (pb_zbp pb) (<[i:=b']> (pb_blk pb)))).
    destruct (body_blocks _ _ _ _ _); [|done|done]. by eapply grown_trans. }
  destruct (_ && _); [|apply H].
  destruct (data_byte mem c' p (blk_length b) (u32 (pass_lengths0 b - 1))); [|done].
  destruct (data_byte mem c' p (blk_length b) (u32 (pass_lengths0 b - 2))); [apply H|done].
Qed.

Lemma body_bands_grown n b c pr : ograw c fst (body_bands mem n b c pr).
Proof.
  revert b c pr. induction n as [|n IH]; intros b c pr; [apply grown_refl|]. cbn [body_bands].
  destruct (pr_pband pr !! b) as [pb|]; [|done]. pose proof (body_blocks_grown (nb_code_blocks pr) 0 c pb) as G.
  destruct (body_blocks mem _ _ _ _) as [[c' pb']| |]; [|done|done].
  specialize (IH (S b) c' (set_pbands (<[b:=pb']> (pr_pband pr)) pr)).
  destruct (body_bands mem n _ _ _); [|done|done]. by eapply grown_trans.
Qed.

Lemma read_packet_grown c pr coc : ograw c (λ r, r.1.2) (read_packet mem c pr coc).
Proof.
  unfold read_packet. pose proof (get_bit_store c) as G1. destruct (get_bit mem c) as [b c1]. cbn [snd] in G1.
  destruct (b =? 0).
  { apply grown_store. change (store (packetheader_flush_bits c1) = store c). by rewrite flush_store. }
  unfold parse_packet_header. pose proof (header_bands_store (Z.to_nat (pr_num_bands pr)) 0 (coc_cbs coc) c1 pr) as G2.
  destruct (header_bands mem _ _ _ _ _) as [[[r c2] pr']| |]; [|done|done].
  destruct (r =? EXIT_SUCCESS); [|apply grown_store; cbn; congruence].
  pose proof (body_bands_grown (Z.to_nat (pr_num_bands pr')) 0 (packetheader_flush_bits c2) pr') as G3.
  destruct (body_bands mem _ _ _ _) as [[c3 pr'']| |]; [|done|done].
  eapply grown_trans; [|exact G3]. apply grown_store. rewrite flush_store. congruence.
Qed.

End Staging.

(** ** The encoder of a packet with HT code-blocks

    [seg0] is the cleanup segment (behind the placeholder passes, when there are
    more than three passes), [seg1] the refinement passes. *)
Inductive cb_desc :=
  | Excluded
  | Included (z np k : Z) (seg0 seg1 : list Z).

Definition zlength {A} (l : list A) : Z := Z.of_nat (length l).

(** Passes of the refinement segment, and of the first one. *)
Definition ref_passes (np : Z) : Z := (np - 1) mod 3.
Definition first_passes (np : Z) : Z := np - ref_passes np.
Definition first_width (np k : Z) : Z := 3 + k + Z.log2 (first_passes np).
Definition ref_width (np k : Z) : Z := 3 + k + Z.log2 (ref_passes np).

Definition length_bits (np k len0 len1 : Z) : list bool :=
  to_bits (Z.to_nat (first_width np k)) len0
  ++ if ref_passes np =? 0 then [] else to_bits (Z.to_nat (ref_width np k)) len1.

(** The bits of one code-block as this parser reads them: its [tag_tree_decode] looks at the
    leaf only, so inclusion and zero bit-planes are written as the leaf's own bits, and a
    value at the threshold has no closing bit.  For a precinct of one code-block this is the
    standard's tag tree; for a larger one the standard codes the inner nodes too. *)
Definition block_bits (d : cb_desc) : list bool :=
  match d with
  | Excluded => unary 1 1
  | Included z np k seg0 seg1 =>
      unary 1 0 ++ unary 14 z ++ passes_bits np ++ (replicate (Z.to_nat k) true ++ [false])
      ++ length_bits np k (zlength seg0) (zlength seg1)
  end.
Definition block_body (d : cb_desc) : list Z :=
  match d with Excluded => [] | Included _ _ _ seg0 seg1 => seg0 ++ seg1 end.

Record included_valid (cbs z np k len0 len1 : Z) : Prop := {
  iv_z : 0 ≤ z ≤ 14;
  iv_np : 1 ≤ np < 100;
  iv_k : 0 ≤ k;
  iv_width : 3 + k + Z.log2 np ≤ 16;
  iv_len0 : 2 ≤ len0 < 2 ^ first_width np k;
  (* with both block coders allowed, an HT length has its top bit clear *)
  iv_mixed : 128 ≤ cbs → 0 < k ∧ len0 < 2 ^ (first_width np k - 1);
  iv_len1 : 0 ≤ len1 ∧ if ref_passes np =? 0 then len1 = 0 else len1 < 2 ^ ref_width np k
}.
Definition desc_valid (cbs : Z) (d : cb_desc) : Prop :=
  match d with
  | Excluded => True
  | Included z np k seg0 seg1 =>
      included_valid cbs z np k (zlength seg0) (zlength seg1) ∧ Forall is_byte (seg0 ++ seg1)
  end.
(** The code-block styles with HT blocks: only HT (0x40..), or mixed (0xC0..). *)
Definition ht_style (cbs : Z) : Prop := 64 ≤ cbs < 128 ∨ 192 ≤ cbs < 256.

(** A code-block before the first packet, and a band of [nb] of them. *)
Definition fresh_blk (b : blk_) : Prop :=
  npasses b = 0 ∧ pass_lengths0 b = 0 ∧ pass_lengths1 b = 0.
Definition fresh_nodes (nb : nat) (l : list tagtree_node) : Prop :=
  (nb ≤ length l)%nat ∧ Forall (λ n, n = mkNode 0 0) l.
Record fresh_band (nb : nat) (pb : pband_) : Prop := {
  fb_incl : fresh_nodes nb (pb_incl pb);
  fb_zbp : fresh_nodes nb (pb_zbp pb);
  fb_len : length (pb_blk pb) = nb;
  fb_blk : Forall fresh_blk (pb_blk pb)
}.

(** The code-block after the header. *)
Definition blk_after (cbs : Z) (d : cb_desc) (b : blk_) : blk_ :=
  match d with
  | Excluded =>
      mkBlk (blk_coord b) (blk_data b) 0 0 0 (Scup b) cbs (blk_incl b) (lblock b) (blk_zbp b) 0 HT_PLHD_ON
  | Included z np k seg0 seg1 =>
      mkBlk (blk_coord b) (blk_data b) (zlength seg0) (zlength seg1) (zlength (seg0 ++ seg1)) (Scup b)
        cbs 1 (3 + k) z np HT_PLHD_OFF
  end.
Definition incl_after (d : cb_desc) : tagtree_node :=
  match d with Excluded => mkNode 1 0 | Included _ _ _ _ _ => mkNode 0 1 end.
Definition zbp_after (d : cb_desc) : tagtree_node :=
  match d with Excluded => mkNode 0 0 | Included z _ _ _ _ => mkNode z (if z <? 14 then 1 else 0) end.

Definition nodes_after (f : cb_desc → tagtree_node) (ds : list cb_desc) (l : list tagtree_node)
    : list tagtree_node := (f <$> ds) ++ drop (length ds) l.
Definition band_after (cbs : Z) (ds : list cb_desc) (pb : pband_) : pband_ :=
  mkPband (nodes_after incl_after ds (pb_incl pb)) (nodes_after zbp_after ds (pb_zbp pb))
    (zip_with (blk_after cbs) ds (pb_blk pb)).

Section Packet.
Context (mem : memory) (cbs : Z).
Hypothesis Hcbs : ht_style cbs.

Lemma style_bits :
  (CMODE_HT <=? cbs) = true ∧ negb (Z.land cbs CMODE_HT =? 0) = true
  ∧ negb (Z.land cbs HT_MIXED =? 0) = (128 <=? cbs).
Proof.
  assert (∀ n, (n < 256)%nat → ht_style (Z.of_nat n) →
    (CMODE_HT <=? Z.of_nat n) = true ∧ negb (Z.land (Z.of_nat n) CMODE_HT =? 0) = true
    ∧ negb (Z.land (Z.of_nat n) HT_MIXED =? 0) = (128 <=? Z.of_nat n)) as H.
  { intros n Hn. do 256 (destruct n as [|n]; [unfold ht_style; intros ?; split_and!; first [reflexivity|lia]|]). lia. }
  unfold ht_style in *. rewrite <- (Z2Nat.id cbs) by lia. apply H; lia.
Qed.

Lemma passes_split np :
  1 ≤ np < 100 →
  0 ≤ ref_passes np ≤ 2 ∧ 1 ≤ first_passes np ≤ np ∧ u32 (0 + np - 1) mod 3 = ref_passes np
  ∧ 0 ≤ Z.log2 (first_passes np) ≤ Z.log2 np ∧ Z.log2 np ≤ 6.
Proof.
  intros Hn. unfold first_passes, ref_passes.
  assert (0 ≤ (np - 1) mod 3 < 3) by (apply Z.mod_pos_bound; lia).
  assert ((np - 1) mod 3 ≤ np - 1) by (apply Z.mod_le; lia).
  rewrite u32_small by lia. split_and!; try lia; [done|apply Z.log2_nonneg|apply Z.log2_le_mono; lia|].
  change 6 with (Z.log2 99). apply Z.log2_le_mono. lia.
Qed.

Lemma reads_ht_first z np k len0 len1 s :
  included_valid cbs z np k len0 len1 → npasses (k_blk s) = 0 → modes (k_blk s) = cbs →
  lblock (k_blk s) = 3 + k →
  reads mem (to_bits (Z.to_nat (first_width np k)) len0) (ht_first_segment mem np) s
    (Some (first_passes np, 2))
    (mkCb_ (k_cs s) (set_pass0 len0 (set_modes cbs HT_PLHD_OFF (k_blk s))) (k_incl s) (k_zbp s)).
Proof.
  intros [_ Hn Hk Hw Hl Hm _] H0 Hmd Hlb. destruct (passes_split np Hn) as (Hr & Hf & E & Hlg & Hl6).
  destruct style_bits as (_ & _ & HM). unfold ht_first_segment.
  eapply reads_then; [apply reads_blk|]. cbn zeta. rewrite H0, E, Hmd, Hlb, HM. fold (first_passes np).
  rewrite (proj2 (Z.ltb_ge _ 1)) by lia.
  pose proof (widen_spec widen_fuel (first_passes np) (3 + k) 1) as W. change (2 ^ 1) with 2 in W.
  destruct (widen widen_fuel (first_passes np) (3 + k) 2) as [bits pb]. cbn [fst] in W.
  assert (bits = first_width np k) as ->.
  { rewrite W; [unfold first_width; lia|lia|change (2 ^ (1 - 1)) with 1; lia| |lia..].
    change (2 ^ (1 + Z.of_nat widen_fuel)) with 4294967296. lia. }
  rewrite <- (app_nil_r (to_bits _ _)).
  eapply reads_bind; [apply reads_bits; unfold first_width in *; lia|].
  rewrite (proj2 (Z.eqb_neq len0 0)) by lia. cbn [negb].
  destruct (Z.leb_spec 128 cbs) as [Hb|Hb]; cbn [negb].
  - destruct (Hm Hb) as [Hk0 Hl0]. rewrite (proj2 (Z.ltb_lt 3 _)), (proj2 (Z.ltb_lt 1 _)) by lia.
    rewrite Z.shiftr_div_pow2, Z.div_small by (unfold first_width in *; lia). cbn [andb Z.eqb].
    eapply reads_then; [apply reads_upd|]. cbn beta. rewrite Hmd. apply reads_ret.
  - rewrite (proj2 (Z.ltb_ge len0 2)) by lia.
    eapply reads_then; [apply reads_upd|]. cbn beta. rewrite Hmd. apply reads_ret.
Qed.

(** The refinement segment. *)
Lemma reads_ht_segments z np k len0 len1 s :
  included_valid cbs z np k len0 len1 → lblock (k_blk s) = 3 + k → pass_lengths1 (k_blk s) = 0 →
  npasses (k_blk s) = first_passes np → 
  reads mem (if ref_passes np =? 0 then [] else to_bits (Z.to_nat (ref_width np k)) len1)
    (ht_segments mem (Z.to_nat (ref_passes np)) (ref_passes np) 2) s ()
    (mkCb_ (k_cs s) (set_npasses np (set_pass1 len1 (k_blk s))) (k_incl s) (k_zbp s)).
Proof.
  intros [_ Hn Hk Hw _ _ [Hl1 Hl]] Hlb H1 Hp. destruct (passes_split np Hn) as (Hr & Hf & _ & Hlg & Hl6).
  unfold first_passes in *. destruct (Z.eqb_spec (ref_passes np) 0) as [E|E].
  { subst len1. rewrite E, Z.sub_0_r in Hp. rewrite E. cbn [Z.to_nat ht_segments Z.ltb Z.compare].
    match goal with |- reads _ _ _ _ _ ?t => replace t with s; [apply reads_ret|] end.
    destruct s as [c [] ti tz]. cbn in *. by subst. }
  destruct (Z.to_nat (ref_passes np)) as [|n] eqn:En; [lia|]. cbn [ht_segments].
  rewrite (proj2 (Z.ltb_lt 0 _)) by lia. cbn zeta.
  assert ((if 1 <? ref_passes np then 2 else 1) = ref_passes np) as -> by (zcases; lia).
  eapply reads_then; [apply reads_blk|]. rewrite Hlb.
  assert (int_log2 (ref_passes np) = Z.log2 (ref_passes np) ∧ Z.log2 (ref_passes np) ≤ 1) as [-> Hlr].
  { assert (ref_passes np = 1 ∨ ref_passes np = 2) as [-> | ->] by lia; by vm_compute. }
  pose proof (Z.log2_nonneg (ref_passes np)).
  rewrite (u8_small (3 + k + _)), Z.sub_diag by lia. change (u32 0) with 0.
  rewrite <- (app_nil_r (to_bits _ _)). unfold ref_width in *.
  eapply reads_bind; [apply reads_bits; lia|]. eapply reads_then; [apply reads_upd|]. cbn beta.
  rewrite H1, Hp, Z.sub_add, Z.add_0_l, (u8_small np) by lia.
  rewrite u32_small by (assert (2 ^ (3 + k + Z.log2 (ref_passes np)) ≤ 2 ^ 31) by (apply Z.pow_le_mono_r; lia); lia).
  destruct n; cbn [ht_segments Z.ltb Z.compare]; apply reads_ret.
Qed.

Lemma reads_segments z np k len0 len1 s :
  included_valid cbs z np k len0 len1 → npasses (k_blk s) = 0 → modes (k_blk s) = cbs →
  lblock (k_blk s) = 3 + k → pass_lengths1 (k_blk s) = 0 → ht_plhd (k_blk s) = HT_PLHD_ON →
  reads mem (length_bits np k len0 len1) (cblk_segments mem np) s EXIT_SUCCESS
    (mkCb_ (k_cs s) (set_npasses np (set_pass1 len1 (set_pass0 len0 (set_modes cbs HT_PLHD_OFF (k_blk s)))))
       (k_incl s) (k_zbp s)).
Proof.
  intros Hv H0 Hmd Hlb H1 Hpl. pose proof (iv_np _ _ _ _ _ _ Hv) as Hn.
  destruct (passes_split np Hn) as (Hr & Hf & _ & Hlg & Hl6). destruct style_bits as (_ & HH & _).
  unfold cblk_segments, length_bits. eapply reads_then; [apply reads_blk|]. rewrite Hpl. cbn [HT_PLHD_ON Z.eqb negb].
  eapply reads_bind.
  { rewrite <- (app_nil_r (to_bits _ _)). eapply reads_bind; [by eapply reads_ht_first|apply reads_ret]. }
  cbn [option_map fst snd]. eapply reads_then; [apply reads_upd|]. eapply reads_then; [apply reads_blk|].
  cbn zeta. cbn [k_blk set_npasses set_pass0 set_modes modes ht_plhd npasses]. rewrite HH, H0.
  cbn [andb HT_PLHD_OFF Z.eqb]. rewrite Z.add_0_l, (u8_small (first_passes np)) by lia.
  replace (np - first_passes np) with (ref_passes np) by (unfold first_passes; lia).
  rewrite u32_small by lia. rewrite <- (app_nil_r (if _ =? _ then _ else _)).
  eapply reads_bind; [by eapply reads_ht_segments|]. apply reads_ret.
Qed.

Lemma blk_ext (b b' : blk_) :
  blk_coord b = blk_coord b' → blk_data b = blk_data b' → pass_lengths0 b = pass_lengths0 b' →
  pass_lengths1 b = pass_lengths1 b' → blk_length b = blk_length b' → Scup b = Scup b' →
  modes b = modes b' → blk_incl b = blk_incl b' → lblock b = lblock b' → blk_zbp b = blk_zbp b' →
  npasses b = npasses b' → ht_plhd b = ht_plhd b' → b = b'.
Proof. destruct b, b'; cbn; congruence. Qed.

Lemma reads_ret_eq {A} (a : A) c b b' ti tz :
  b = b' → reads mem [] (mret a) (mkCb_ c b ti tz) a (mkCb_ c b' ti tz).
Proof. intros ->. apply reads_ret. Qed.

Lemma int_log2_pos n : 1 ≤ n < 4294967296 → int_log2 n = Z.log2 n.
Proof.
  intros Hn. unfold int_log2. rewrite u32_small by lia. rewrite Z.log2_lor by lia.
  change (Z.log2 1) with 0. apply Z.max_l, Z.log2_nonneg.
Qed.

Lemma zlength_app {A} (l k : list A) : zlength (l ++ k) = zlength l + zlength k.
Proof. unfold zlength. rewrite length_app. lia. Qed.

(** One code-block of the header. *)
Lemma reads_cblk d s :
  desc_valid cbs d → fresh_blk (k_blk s) → k_incl s = mkNode 0 0 → k_zbp s = mkNode 0 0 →
  reads mem (block_bits d) (cblk_header mem cbs) s EXIT_SUCCESS
    (mkCb_ (k_cs s) (blk_after cbs d (k_blk s)) (incl_after d) (zbp_after d)).
Proof.
  intros Hv (Hn & H0 & H1) Hi Hz. destruct s as [c b ti tz]; cbn [k_blk k_incl k_zbp k_cs] in *. subst ti tz.
  unfold cblk_header. eapply reads_then; [apply reads_upd|]. cbn beta. destruct style_bits as (-> & _).
  destruct d as [|z np k seg0 seg1]; cbn [block_bits].
  { rewrite <- (app_nil_r (unary _ _)). eapply reads_bind; [by apply reads_incl|]. cbn [Z.eqb].
    eapply reads_then; [apply reads_ret|]. cbn [EXIT_SUCCESS Z.eqb]. eapply reads_then; [apply reads_upd|].
    apply reads_ret_eq, blk_ext; cbn; try done. by rewrite H0, H1. }
  eapply reads_bind; [by apply reads_incl|]. cbn [Z.eqb]. rewrite <- (app_nil_r (unary 14 _ ++ _)).
  destruct Hv as [Hv _]. pose proof Hv as [Hvz Hvn Hvk Hvw Hl0 _ [Hl1 Hl]]. destruct (passes_split np Hvn) as (Hr & Hf & _ & Hlg & Hl6).
  assert (zlength seg0 + zlength seg1 < 4294967296) as Hs.
  { assert (2 ^ first_width np k ≤ 2 ^ 16) by (unfold first_width; apply Z.pow_le_mono_r; lia).
    destruct (Z.eqb_spec (ref_passes np) 0); [lia|].
    assert (2 ^ ref_width np k ≤ 2 ^ 16); [|lia]. unfold ref_width. apply Z.pow_le_mono_r; [lia|].
    assert (Z.log2 (ref_passes np) ≤ Z.log2 np) by (apply Z.log2_le_mono; unfold first_passes in *; lia). lia. }
  eapply reads_bind.
  { eapply reads_bind; [by apply reads_zbp|]. eapply reads_then; [apply reads_upd|].
    eapply reads_bind; [apply reads_newpasses; lia|]. eapply reads_then; [apply reads_blk|].
    cbn [k_blk set_included set_modes npasses]. rewrite Hn, (proj2 (Z.leb_gt JPEG2000_MAX_PASSES _))
      by (unfold JPEG2000_MAX_PASSES; lia).
    eapply reads_bind; [by apply reads_lblock|]. eapply reads_then; [apply reads_blk|].
    cbn [k_blk set_included set_modes lblock]. rewrite int_log2_pos by lia.
    rewrite (proj2 (Z.ltb_ge 16 _)) by lia. eapply reads_then; [apply reads_upd|]. cbn beta.
    eapply reads_segments; cbn; try done. rewrite u8_small; lia. }
  change (EXIT_SUCCESS =? EXIT_SUCCESS) with true. cbn iota. eapply reads_then; [apply reads_upd|].
  apply reads_ret_eq, blk_ext; cbn; try done; rewrite ?zlength_app, ?u8_small, ?u32_small; lia.
Qed.

(** The blocks of a band from the [i]th on, those before already done. *)
Lemma header_blocks_run ds c pi pz pk ri rz rk rest post :
  Forall (desc_valid cbs) ds → length rk = length ds → Forall fresh_blk rk →
  fresh_nodes (length ds) ri → fresh_nodes (length ds) rz →
  length pi = length pk → length pz = length pk →
  ahead mem c ((ds ≫= block_bits) ++ rest) post →
  ∃ c', header_blocks mem (length ds) (length pk) cbs c (mkPband (pi ++ ri) (pz ++ rz) (pk ++ rk))
        = Ret (EXIT_SUCCESS, c',
               mkPband (pi ++ nodes_after incl_after ds ri) (pz ++ nodes_after zbp_after ds rz)
                 (pk ++ zip_with (blk_after cbs) ds rk))
      ∧ ahead mem c' rest post ∧ chunks_ c' = chunks_ c.
Proof.
  revert c pi pz pk ri rz rk. induction ds as [|d ds IH]; intros c pi pz pk ri rz rk Hv Hl Hk Hi Hz Li Lz H.
  { destruct rk; [|done]. exists c. unfold nodes_after. cbn. by rewrite !drop_0. }
  destruct rk as [|b rk]; [done|]. destruct Hi as [Hi1 Hi2], Hz as [Hz1 Hz2].
  destruct ri as [|ti ri]; [cbn in Hi1; lia|]. destruct rz as [|tz rz]; [cbn in Hz1; lia|].
  apply Forall_cons in Hv as [Hd Hv], Hk as [Hb Hk], Hi2 as [-> Hi2], Hz2 as [-> Hz2].
  cbn [length header_blocks pb_blk pb_incl pb_zbp].
  rewrite list_lookup_middle, (list_lookup_middle pi), (list_lookup_middle pz) by done.
  cbn [mbind list_bind] in H. rewrite <- app_assoc in H.
  destruct (reads_cblk d (mkCb_ c b (mkNode 0 0) (mkNode 0 0)) Hd Hb eq_refl eq_refl c _ _ H)
    as (c1 & E & H1 & C1). unfold set_kcs in E. cbn [k_cs k_blk k_incl k_zbp] in E. rewrite E.
  change (EXIT_SUCCESS =? EXIT_SUCCESS) with true. cbn iota. cbn [k_cs k_blk k_incl k_zbp].
  rewrite !insert_app_r_alt by lia. rewrite Li, Lz, !Nat.sub_diag.
  cbn [insert list_insert]. rewrite (cons_middle (incl_after d)), (cons_middle (zbp_after d)),
    (cons_middle (blk_after cbs d b)), !app_assoc.
  cbn [length] in *. destruct (IH c1 (pi ++ [incl_after d]) (pz ++ [zbp_after d]) (pk ++ [blk_after cbs d b]) ri rz rk)
    as (c2 & E2 & H2 & C2); try done; [lia|split; [lia|done]..|rewrite !length_app; cbn; lia| |].
  { rewrite !length_app; cbn; lia. }
  rewrite length_app, Nat.add_1_r in E2. rewrite E2. exists c2.
  unfold nodes_after. cbn [fmap list_fmap length drop zip_with]. rewrite <- !app_assoc.
  split_and!; [done|done|congruence].
Qed.

Lemma header_band_run ds c pb rest post :
  Forall (desc_valid cbs) ds → fresh_band (length ds) pb → ahead mem c ((ds ≫= block_bits) ++ rest) post →
  ∃ c', header_blocks mem (length ds) 0 cbs c pb = Ret (EXIT_SUCCESS, c', band_after cbs ds pb)
      ∧ ahead mem c' rest post ∧ chunks_ c' = chunks_ c.
Proof.
  intros Hv [Hi Hz Hl Hb] H. destruct pb as [li lz lk]. cbn [pb_incl pb_zbp pb_blk] in *.
  by apply (header_blocks_run ds c [] [] [] li lz lk rest post).
Qed.

(** The bands from the [i]th on. *)
Lemma header_bands_run dss c pre l pr rest post :
  Forall (Forall (desc_valid cbs)) dss →
  Forall2 (λ ds pb, length ds = nb_code_blocks pr ∧ fresh_band (nb_code_blocks pr) pb) dss l →
  ahead mem c (((dss ≫= id) ≫= block_bits) ++ rest) post →
  ∃ c', header_bands mem (length dss) (length pre) cbs c (set_pbands (pre ++ l) pr)
        = Ret (EXIT_SUCCESS, c', set_pbands (pre ++ zip_with (band_after cbs) dss l) pr)
      ∧ ahead mem c' rest post ∧ chunks_ c' = chunks_ c.
Proof.
  revert c pre l. induction dss as [|ds dss IH]; intros c pre l Hv Hl H.
  { inversion Hl; subst. by exists c. }
  apply Forall2_cons_inv_l in Hl as (pb & l' & [Hn Hb] & Hl & ->). apply Forall_cons in Hv as [Hd Hv].
  cbn [mbind list_bind id] in H. rewrite bind_app, <- app_assoc in H.
  cbn [length header_bands]. change (pr_pband (set_pbands ?x pr)) with x. rewrite list_lookup_middle by done.
  change (nb_code_blocks (set_pbands ?x pr)) with (nb_code_blocks pr). rewrite <- Hn in Hb |- *.
  destruct (header_band_run ds c pb _ _ Hd Hb H) as (c1 & E & H1 & C1). rewrite E.
  change (EXIT_SUCCESS =? EXIT_SUCCESS) with true. cbn iota.
  change (set_pbands ?y (set_pbands ?x pr)) with (set_pbands y pr). change (pr_pband (set_pbands ?x pr)) with x.
  rewrite insert_app_r_alt, Nat.sub_diag by done. cbn [insert list_insert]. rewrite cons_middle, app_assoc.
  destruct (IH c1 (pre ++ [band_after cbs ds pb]) l' Hv Hl H1) as (c2 & E2 & H2 & C2).
  rewrite length_app, Nat.add_1_r in E2. rewrite E2. exists c2. cbn [zip_with]. rewrite <- app_assoc.
  split_and!; [done|done|congruence].
Qed.

(** ** The code-block bodies *)

(** The [Scup] field: the last two bytes of the cleanup segment. *)
Definition scup_of (seg0 : list Z) : Z :=
  16 * seg0 !!! (length seg0 - 1)%nat + seg0 !!! (length seg0 - 2)%nat mod 16.

(** The reader is idle with the bytes [l] ahead. *)
Definition stands (c : codestream) (l : list Z) : Prop :=
  wf c ∧ cs_tmp c = 0 ∧ cs_bits c = 0 ∧ pos c ≤ total_len (chunks_ c)
  ∧ drop (Z.to_nat (pos c)) (flat_bytes mem (chunks_ c)) = l.

(** [b'] is [b] after the header and body of [d], its data held by [c]. *)
Definition blk_read (c : codestream) (d : cb_desc) (b b' : blk_) : Prop :=
  ∃ p sc, b' = set_data p sc (blk_after cbs d b) ∧
  match d with
  | Excluded => sc = Scup b
  | Included _ _ _ seg0 seg1 =>
      sc = scup_of seg0 ∧ ptr_bytes mem c p (blk_length b') = Some (seg0 ++ seg1)
  end.

Lemma ptr_bytes_grown c c' p n l : grown c c' → ptr_bytes mem c p n = Some l → ptr_bytes mem c' p n = Some l.
Proof. intros [_ [k E]]. destruct p; cbn; [done|done|]. rewrite E. apply lookup_app_l_Some. Qed.

Lemma blk_read_grown c c' d b b' : grown c c' → blk_read c d b b' → blk_read c' d b b'.
Proof.
  intros Hg (p & sc & E & H). exists p, sc. split; [done|]. destruct d; [done|]. destruct H as [-> H].
  split; [done|]. by eapply ptr_bytes_grown.
Qed.

(** [take_contiguous] on a reader with enough bytes ahead. *)
Lemma take_stands c l post :
  stands c (l ++ post) →
  let r := take_contiguous mem (zlength l) c in
  stands r.2 post ∧ grown c r.2 ∧ (l ≠ [] → ptr_bytes mem r.2 r.1 (zlength l) = Some l).
Proof.
  intros (Hwf & Ht & Hb & Hp & Hd). cbn zeta.
  assert (Z.of_nat (length (flat_bytes mem (chunks_ c))) = total_len (chunks_ c)) as Hlen
    by apply length_flat_bytes, Hwf.
  pose proof (wf_cur _ Hwf) as [Hne _ Hc Ho Htot]. assert (0 ≤ pos c) as Hp0.
  { pose proof (total_len_nonneg _ (Forall_take _ (cur_chunk_ c) _ Hne)). unfold pos. lia. }
  pose proof (f_equal length Hd) as HL. rewrite length_drop, length_app in HL.
  destruct (take_contiguous_spec mem (zlength l) c Hwf) as (T1 & T2 & T3); [unfold zlength; lia..|].
  destruct (take_contiguous_wf mem (zlength l) c Hwf) as (_ & _ & T4 & T5). cbn zeta in *.
  pose proof (take_contiguous_grown mem (zlength l) c) as T6.
  destruct (take_contiguous mem (zlength l) c) as [p c']. cbn [fst snd] in *.
  assert (pos c' = pos c + zlength l ∧ (l ≠ [] → ptr_bytes mem c' p (zlength l) = Some l)) as [Hpos Hptr].
  { unfold f_take in T3. rewrite (f_size_abs _ _ (wf_cur _ Hwf)) in T3. cbn [f_pos f_bytes abs] in T3.
    rewrite Hd in T3. destruct (Z.ltb_spec (pos c) (total_len (chunks_ c))).
    - apply pair_eq in T3 as [T3a T3b]. apply (f_equal f_pos) in T3b. cbn in T3b. split; [unfold zlength in *; lia|].
      intros _. rewrite T3a. f_equal. unfold zlength. rewrite Nat2Z.id, resize_le by (rewrite length_app; lia).
      by rewrite take_app_length.
    - destruct l; [|cbn in HL; lia]. apply pair_eq in T3 as [_ T3b]. apply (f_equal f_pos) in T3b. cbn in T3b.
      split; [unfold zlength; cbn; lia|done]. }
  split; [|by split]. unfold stands. rewrite T2, Hpos, T4, T5. split_and!; try done; [unfold zlength; lia|].
  replace (Z.to_nat (pos c + zlength l)) with (Z.to_nat (pos c) + length l)%nat by (unfold zlength; lia).
  by rewrite <- drop_drop, Hd, drop_app_length.
Qed.

Lemma data_byte_ptr c p n k l b :
  ptr_bytes mem c p n = Some l → n = zlength l → l !! Z.to_nat k = Some b → 0 ≤ k →
  data_byte mem c p n k = Some b.
Proof.
  intros Hp Hn Hl Hk. pose proof (lookup_lt_Some _ _ _ Hl). unfold data_byte.
  assert (k < n) by (subst n; unfold zlength; lia).
  rewrite (proj2 (Z.leb_le 0 k)), (proj2 (Z.ltb_lt k _)) by lia. cbn [andb].
  destruct p as [|a|i]; cbn in Hp; [done| |by rewrite Hp].
  injection Hp as E. by rewrite <- E, lookup_mem_bytes in Hl by lia.
Qed.

(** The value written to [Scup]. *)
Lemma scup_value seg0 seg1 :
  2 ≤ zlength seg0 → Forall is_byte (seg0 ++ seg1) →
  ∃ hi lo, (seg0 ++ seg1) !! Z.to_nat (zlength seg0 - 1) = Some hi
    ∧ (seg0 ++ seg1) !! Z.to_nat (zlength seg0 - 2) = Some lo
    ∧ u32 (Z.shiftl hi 4 + Z.land lo 15) = scup_of seg0.
Proof.
  intros Hl Hb. unfold zlength in *. apply Forall_app in Hb as [Hb _].
  destruct (lookup_lt_is_Some_2 seg0 (length seg0 - 1)) as [hi Hh]; [lia|].
  destruct (lookup_lt_is_Some_2 seg0 (length seg0 - 2)) as [lo Hlo]; [lia|].
  exists hi, lo. replace (Z.to_nat (Z.of_nat (length seg0) - 1)) with (length seg0 - 1)%nat by lia.
  replace (Z.to_nat (Z.of_nat (length seg0) - 2)) with (length seg0 - 2)%nat by lia.
  rewrite !lookup_app_l by lia. split_and!; [done..|]. unfold scup_of.
  rewrite (list_lookup_total_correct _ _ _ Hh), (list_lookup_total_correct _ _ _ Hlo).
  pose proof (Forall_lookup_1 _ _ _ _ Hb Hh). pose proof (Forall_lookup_1 _ _ _ _ Hb Hlo). unfold is_byte in *.
  rewrite Z.shiftl_mul_pow2 by lia. change 15 with (2 ^ 4 - 1). rewrite land_mask by lia.
  change (2 ^ 4) with 16. rewrite u32_small; [lia|]. pose proof (Z.mod_pos_bound lo 16). lia.
Qed.

Lemma blk_body_run c d b post :
  desc_valid cbs d → stands c (block_body d ++ post) →
  ∃ c' b', blk_body mem c (blk_after cbs d b) = Ret (c', b')
    ∧ stands c' post ∧ grown c c' ∧ blk_read c' d b b'.
Proof.
  intros Hv Hs. destruct (take_stands c (block_body d) post Hs) as (H1 & H2 & H3).
  unfold blk_body. destruct d as [|z np k seg0 seg1].
  { cbn [blk_after blk_length block_body] in *. change (zlength (@nil Z)) with 0 in *.
    destruct (take_contiguous mem 0 c) as [p c']. cbn [fst snd Z.eqb negb andb] in *.
    exists c', (set_data p (Scup b) (blk_after cbs Excluded b)). split_and!; try done. by exists p, (Scup b). }
  destruct Hv as [[_ Hn Hk Hw Hl _ _] Hb]. destruct (scup_value seg0 seg1) as (hi & lo & Eh & El & Es); [lia|done|].
  cbn [blk_after blk_length block_body pass_lengths0] in *.
  assert (2 ≤ zlength (seg0 ++ seg1)) as Hl2 by (rewrite zlength_app; unfold zlength in *; lia).
  assert (zlength seg0 < 4294967296) as Hl4.
  { destruct (passes_split np Hn) as (_ & _ & _ & Hlg & _). eapply Z.lt_trans; [apply Hl|].
    apply (Z.pow_lt_mono_r 2 _ 32); unfold first_width; lia. }
  destruct (take_contiguous mem (zlength (seg0 ++ seg1)) c) as [p c']. cbn [fst snd] in *.
  specialize (H3 ltac:(intros E; rewrite E in Hl2; by cbn in Hl2)).
  rewrite !u32_small by lia. rewrite (data_byte_ptr c' p _ _ _ hi H3 eq_refl Eh) by lia.
  rewrite (data_byte_ptr c' p _ _ _ lo H3 eq_refl El) by lia. rewrite Es.
  rewrite (proj2 (Z.eqb_neq _ 0)) by lia. destruct p as [|a|j]; [done|cbn [negb andb]..].
  all: eexists c', _; split_and!; [done..|]; eexists _, (scup_of seg0); by split_and!.
Qed.

(** The blocks of a band: the model's loops run over positions, the
    specification over lists. *)
Lemma body_blocks_run ds c li lz pk rk post :
  Forall (desc_valid cbs) ds → length rk = length ds →
  stands c ((ds ≫= block_body) ++ post) →
  ∃ c' rk', body_blocks mem (length ds) (length pk) c (mkPband li lz (pk ++ zip_with (blk_after cbs) ds rk))
            = Ret (c', mkPband li lz (pk ++ rk'))
    ∧ stands c' post ∧ grown c c' ∧ Forall3 (blk_read c') ds rk rk'.
Proof.
  revert c pk rk. induction ds as [|d ds IH]; intros c pk rk Hv Hl H.
  { destruct rk; [|done]. exists c, []. split_and!; [done|done|apply grown_refl|constructor]. }
  destruct rk as [|b rk]; [done|]. apply Forall_cons in Hv as [Hd Hv].
  cbn [mbind list_bind] in H. rewrite <- app_assoc in H.
  destruct (blk_body_run c d b _ Hd H) as (c1 & b' & E & H1 & G1 & B1).
  cbn [length body_blocks pb_blk zip_with]. rewrite list_lookup_middle, E by done.
  rewrite insert_app_r_alt, Nat.sub_diag by done. cbn [insert list_insert pb_incl pb_zbp].
  rewrite cons_middle, app_assoc. destruct (IH c1 (pk ++ [b']) rk Hv ltac:(cbn in *; lia) H1)
    as (c2 & rk' & E2 & H2 & G2 & B2). rewrite length_app, Nat.add_1_r in E2. rewrite E2.
  exists c2, (b' :: rk'). rewrite <- app_assoc. split_and!; [done|done|by eapply grown_trans|].
  constructor; [by eapply blk_read_grown|done].
Qed.

(** A band after header and bodies. *)
Definition band_read (c : codestream) (ds : list cb_desc) (pb pb' : pband_) : Prop :=
  pb_incl pb' = nodes_after incl_after ds (pb_incl pb) ∧ pb_zbp pb' = nodes_after zbp_after ds (pb_zbp pb)
  ∧ Forall3 (blk_read c) ds (pb_blk pb) (pb_blk pb').

Lemma band_read_grown c c' ds pb pb' : grown c c' → band_read c ds pb pb' → band_read c' ds pb pb'.
Proof.
  intros Hg (? & ? & H). split_and!; [done..|]. eapply Forall3_impl; [exact H|].
  intros. by eapply blk_read_grown.
Qed.

Lemma body_bands_run dss c pre l pr post :
  Forall (Forall (desc_valid cbs)) dss →
  Forall2 (λ ds pb, length ds = nb_code_blocks pr ∧ fresh_band (nb_code_blocks pr) pb) dss l →
  stands c (((dss ≫= id) ≫= block_body) ++ post) →
  ∃ c' l', body_bands mem (length dss) (length pre) c
             (set_pbands (pre ++ zip_with (band_after cbs) dss l) pr)
           = Ret (c', set_pbands (pre ++ l') pr)
    ∧ stands c' post ∧ grown c c' ∧ Forall3 (band_read c') dss l l'.
Proof.
  revert c pre l. induction dss as [|ds dss IH]; intros c pre l Hv Hl H.
  { inversion Hl; subst. exists c, []. split_and!; [done|done|apply grown_refl|constructor]. }
  apply Forall2_cons_inv_l in Hl as (pb & l' & [Hn Hb] & Hl & ->). apply Forall_cons in Hv as [Hd Hv].
  cbn [mbind list_bind id] in H. rewrite bind_app, <- app_assoc in H.
  cbn [length body_bands zip_with]. change (pr_pband (set_pbands ?x pr)) with x.
  rewrite list_lookup_middle by done. change (nb_code_blocks (set_pbands ?x pr)) with (nb_code_blocks pr).
  rewrite <- Hn in Hb |- *. unfold band_after at 1.
  destruct (body_blocks_run ds c (nodes_after incl_after ds (pb_incl pb)) (nodes_after zbp_after ds (pb_zbp pb))
    [] (pb_blk pb) _ Hd (fb_len _ _ Hb) H) as (c1 & rk' & E & H1 & G1 & B1). cbn [length app] in E. rewrite E.
  change (set_pbands ?y (set_pbands ?x pr)) with (set_pbands y pr). change (pr_pband (set_pbands ?x pr)) with x.
  rewrite insert_app_r_alt, Nat.sub_diag by done. cbn [insert list_insert]. rewrite cons_middle, app_assoc.
  set (pb' := mkPband _ _ rk'). destruct (IH c1 (pre ++ [pb']) l' Hv Hl H1) as (c2 & l2 & E2 & H2 & G2 & B2).
  rewrite length_app, Nat.add_1_r in E2. rewrite E2. exists c2, (pb' :: l2). rewrite <- app_assoc.
  split_and!; [done|done|by eapply grown_trans|]. constructor; [|done]. by eapply band_read_grown.
Qed.

End Packet.

(** ** Whole packets *)
Inductive packet_desc :=
  | EmptyPacket
  | Coded (dss : list (list cb_desc)).   (* per band, in code-block order *)

Definition coded_bits (dss : list (list cb_desc)) : list bool := true :: ((dss ≫= id) ≫= block_bits).
Definition packet_bytes (k : packet_desc) : list Z :=
  match k with
  | EmptyPacket => pack_bits [false]
  | Coded dss => pack_bits (coded_bits dss) ++ ((dss ≫= id) ≫= block_body)
  end.

(** The packet suits the precinct: as many bands and blocks, none seen before. *)
Definition packet_for (cbs : Z) (pr : prec_) (k : packet_desc) : Prop :=
  match k with
  | EmptyPacket => True
  | Coded dss =>
      pr_num_bands pr = zlength dss ∧ Forall (Forall (desc_valid cbs)) dss
      ∧ Forall2 (λ ds pb, length ds = nb_code_blocks pr ∧ fresh_band (nb_code_blocks pr) pb) dss (pr_pband pr)
  end.

(** [pr'] is [pr] with the packet's content, held by [c]. *)
Definition prec_read (mem : memory) (cbs : Z) (c : codestream) (k : packet_desc) (pr pr' : prec_) : Prop :=
  match k with
  | EmptyPacket => pr' = pr
  | Coded dss =>
      ∃ l, pr' = set_pbands l pr ∧ Forall3 (band_read mem cbs c) dss (pr_pband pr) l
  end.

Lemma ahead_grown_flush mem c post :
  ahead mem c [] post →
  stands mem (packetheader_flush_bits c) post ∧ grown c (packetheader_flush_bits c).
Proof.
  intros H. destruct (ahead_flush mem c post H) as ([] & ? & ? & ? & ? & ?).
  split; [by split_and!|]. by apply grown_store, flush_store.
Qed.

Lemma set_pbands_id pr : set_pbands (pr_pband pr) pr = pr.
Proof. by destruct pr. Qed.

Lemma read_packet_run mem coc c pr k post :
  ht_style (coc_cbs coc) → packet_for (coc_cbs coc) pr k → stands mem c (packet_bytes k ++ post) →
  ∃ c' pr', read_packet mem c pr coc = Ret (EXIT_SUCCESS, c', pr')
    ∧ stands mem c' post ∧ grown c c' ∧ prec_read mem (coc_cbs coc) c' k pr pr'.
Proof.
  intros Hs Hf (Hwf & Ht & Hb & Hp & Hd). unfold read_packet. destruct k as [|dss]; cbn [packet_bytes] in Hd.
  { pose proof (ahead_packed mem c [false] post Hwf Ht Hb Hp Hd) as Ha.
    destruct (ahead_bit _ _ _ _ _ Ha) as (E & H1 & C1). pose proof (get_bit_store mem c) as S1.
    destruct (get_bit mem c) as [x c1]. cbn [fst snd] in *. subst x. cbn [Z.b2z Z.eqb].
    destruct (ahead_grown_flush mem c1 post H1) as [H2 G]. eexists _, pr. split_and!; [done|done| |done].
    eapply grown_trans; [by apply grown_store|exact G]. }
  rewrite <- app_assoc in Hd. set (body := ((dss ≫= id) ≫= block_body) ++ post) in *. destruct Hf as (Hn & Hv & Hf).
  pose proof (ahead_packed mem c (coded_bits dss) body Hwf Ht Hb Hp Hd) as Ha.
  destruct (ahead_bit _ _ _ _ _ Ha) as (E & H1 & C1). pose proof (get_bit_store mem c) as S1.
  destruct (get_bit mem c) as [x c1]. cbn [fst snd] in *. subst x. cbn [Z.b2z Z.eqb].
  unfold parse_packet_header. rewrite Hn. unfold zlength. rewrite Nat2Z.id.
  rewrite <- (app_nil_r ((dss ≫= id) ≫= block_bits)) in H1.
  destruct (header_bands_run mem (coc_cbs coc) Hs dss c1 [] (pr_pband pr) pr [] body Hv Hf H1) as (c2 & E2 & H2 & C2).
  cbn [length app] in E2. rewrite set_pbands_id in E2.
  pose proof (header_bands_store mem (length dss) 0 (coc_cbs coc) c1 pr) as S2. rewrite E2 in S2. rewrite E2.
  change (EXIT_SUCCESS =? EXIT_SUCCESS) with true. cbn iota. change (pr_num_bands (set_pbands ?x pr)) with (pr_num_bands pr).
  rewrite Hn. unfold zlength. rewrite Nat2Z.id. destruct (ahead_grown_flush mem c2 body H2) as [H3 G2].
  destruct (body_bands_run mem (coc_cbs coc) dss _ [] (pr_pband pr) pr post Hv Hf H3) as (c3 & l' & E3 & H4 & G3 & B).
  cbn [length app] in E3. rewrite E3. eexists _, _. split_and!; [done|done| |by exists l'].
  eapply grown_trans; [|exact G3]. eapply grown_trans; [|exact G2]. apply grown_store. congruence.
Qed.

(** ** Properties *)

(** C14: packets are decoded exactly.  For a code-block style with HT blocks (only
    HT, or mixed), a fresh precinct and an encoded packet (empty, or with any mix
    of excluded and included code-blocks, 1 to 99 passes, any Lblock the 16-bit
    limit allows) at the reader, wherever the chunk boundaries fall, [read_packet]
    succeeds: every code-block gets its inclusion, missing bit-planes, Lblock,
    passes, segment lengths and Scup, its data pointer designates exactly its body
    bytes, and the reader stands at the first byte after the packet, no earlier
    staging buffer being disturbed. *)
Theorem packet_roundtrip mem coc c pr k post :
  ht_style (coc_cbs coc) → packet_for (coc_cbs coc) pr k → stands mem c (packet_bytes k ++ post) →
  ∃ c' pr', read_packet mem c pr coc = Ret (EXIT_SUCCESS, c', pr')
    ∧ stands mem c' post ∧ grown c c' ∧ prec_read mem (coc_cbs coc) c' k pr pr'.
Proof. apply read_packet_run. Qed.

(** Packet parsing terminates on any bytes.  From a well-formed reader, on any
    precinct, any style and any memory, [read_packet] never runs out of fuel: every
    loop of it (inclusion and bit-plane tag trees, the Lblock increment, the length
    extension, the segments, blocks and bands) ends; when it returns, with success
    or failure, the reader is well formed over the same chunks, and no staging
    buffer handed out before has changed. *)
Theorem read_packet_total mem c pr coc :
  wf c → 0 ≤ cs_bits c ≤ 8 →
  match read_packet mem c pr coc with
  | Ret (_, c', _) => wf c' ∧ 0 ≤ cs_bits c' ≤ 8 ∧ grown c c'
  | UB => True
  | NoFuel => False
  end.
Proof.
  intros Hwf Hb. pose proof (ptot_read_packet mem c pr coc (conj Hwf Hb)) as H.
  pose proof (read_packet_grown mem c pr coc) as G.
  destruct (read_packet mem c pr coc) as [[[r c'] pr']| |]; [|done|done]. cbn in H, G. by destruct H as [[] ?].
Qed.

(** ** Concrete packets *)
Definition demo_coc (cbs : Z) : coc_marker :=
  mkCoc 0 0 0 0 0 0 0 0 0 0 0 0 0 cbs 0 0 (zeros (MAX_DWT_LEVEL + 1)) (zeros (MAX_DWT_LEVEL + 1)) 0 0.
Definition demo_geo : geometry := mkGeo 0 0 64 64.
Definition demo_blk : blk_ := mkBlk demo_geo Null 0 0 0 0 0 0 3 0 0 0.
Definition demo_prec (nb : nat) : prec_ :=
  mkPrec [mkPband (replicate nb (mkNode 0 0)) (replicate nb (mkNode 0 0)) (replicate nb demo_blk)]
    demo_geo 0 1 (Z.of_nat nb) 1 0 0.
(** The byte string in two chunks, cut after byte [k]. *)
Definition two_chunks (k : Z) (l : list Z) : codestream :=
  append_chunk k (zlength l - k) (append_chunk 0 k empty_codestream).

Definition demo_packet : packet_desc :=
  Coded [[Included 2 2 0 [1; 2; 53] [9]; Excluded]].
Definition demo_stream : list Z := packet_bytes demo_packet ++ [77].

(** Block lengths of the non-HT coders are read and dropped (finding).  With
    code-block style 0 a packet whose header announces a 5-byte code-block is
    accepted with length 0 and no body: the reader is left in front of the body,
    so the next packet would be parsed from code-block data. *)
Theorem classic_lengths_dropped :
  let bytes := pack_bits ([true] ++ unary 1 0 ++ unary 14 0 ++ passes_bits 1 ++ [false] ++ to_bits 3 5)
               ++ [101; 102; 103; 104; 105] in
  let c := two_chunks 1 bytes in
  match read_packet (list_mem bytes) c (demo_prec 1) (demo_coc 0) with
  | Ret (ret, c', pr') =>
      ret = EXIT_SUCCESS ∧ drop (Z.to_nat (pos c')) (flat_bytes (list_mem bytes) (chunks_ c')) = [101; 102; 103; 104; 105]
      ∧ (λ pb, blk_length <$> pb_blk pb) <$> pr_pband pr' = [[0]]
  | _ => False
  end.
Proof. vm_compute. done. Qed.

(** Scup of a one-byte code-block (finding).  In mixed mode (style 0xC0) a
    code-block of length 1 falls back to the original coder with
    [pass_lengths[0] = 1]; the body loop then reads [data[pass_lengths[0] - 2]],
    outside the code-block's bytes. *)
Theorem mixed_scup_out_of_bounds :
  let bytes := pack_bits ([true] ++ unary 1 0 ++ unary 14 0 ++ passes_bits 1 ++ [false] ++ to_bits 3 1)
               ++ [101] in
  read_packet (list_mem bytes) (two_chunks 1 bytes) (demo_prec 1) (demo_coc 192) = UB.
Proof. vm_compute. done. Qed.

(** ** Witnesses *)
Lemma demo_packet_for : packet_for 64 (demo_prec 2) demo_packet.
Proof.
  split_and!; [done| |].
  - repeat constructor; cbn; try lia; try (vm_compute; done). 
  - repeat constructor; cbn; lia.
Qed.

Lemma demo_stands : stands (list_mem demo_stream) (two_chunks 4 demo_stream) demo_stream.
Proof.
  split; [|by vm_compute].
  assert (∃ n, two_chunks 4 demo_stream = mkcs [mkChunk 0 4; mkChunk 4 n] [] 0 0 0 0 0 0 ∧ 0 < n < 100)
    as (n & -> & Hn) by (eexists; split; [reflexivity|vm_compute; done]).
  split; [split|]; simpl; try lia; [repeat constructor; simpl; lia|]. intros c [= <-]. simpl. lia.
Qed.

Lemma packet_roundtrip_witness :
  ∃ c' pr', read_packet (list_mem demo_stream) (two_chunks 4 demo_stream) (demo_prec 2) (demo_coc 64)
            = Ret (EXIT_SUCCESS, c', pr')
    ∧ stands (list_mem demo_stream) c' [77]
    ∧ prec_read (list_mem demo_stream) 64 c' demo_packet (demo_prec 2) pr'.
Proof.
  destruct (packet_roundtrip (list_mem demo_stream) (demo_coc 64) (two_chunks 4 demo_stream) (demo_prec 2)
    demo_packet [77]) as (c' & pr' & E & H & _ & P); [left; cbn; lia|apply demo_packet_for|apply demo_stands|].
  exists c', pr'. split; [exact E|]. split; [exact H|exact P].
Defined.

Lemma read_packet_total_witness :
  match read_packet (list_mem demo_stream) (two_chunks 4 demo_stream) (demo_prec 2) (demo_coc 0) with
  | Ret (_, c', _) => grown (two_chunks 4 demo_stream) c'
  | UB => True
  | NoFuel => False
  end.
Proof.
  assert (0 ≤ cs_bits (two_chunks 4 demo_stream) ≤ 8) as Hb by (cbn; lia).
  pose proof (read_packet_total (list_mem demo_stream) (two_chunks 4 demo_stream) (demo_prec 2) (demo_coc 0)
    (proj1 demo_stands) Hb) as H.
  destruct (read_packet (list_mem demo_stream) (two_chunks 4 demo_stream) (demo_prec 2) (demo_coc 0))
    as [[[r c'] pr']| |]; [apply H|exact I|exact H].
Defined.
