(* ===== verification/PacketSafety.v ===== *)
(** * PacketSafety: packets with HT code-blocks never access memory out of bounds

    [PacketSpec] shows what a well-formed packet gives.  Here the bytes are
    arbitrary (lost packets, a parser that drifted): on a precinct whose arrays
    have their sizes and whose block lengths are clear, [read_packet] for the
    pure HT style returns, with success or failure, without an access outside an
    array or a block's data. *)
From S2P Require Import Prelude Codestream BitReader Markers Structs MainHeader HeaderSpec PacketHeader PacketSpec.

(** ** Weakest preconditions over the code-block under construction *)
Section Wp.
Context (mem : memory).

Definition wk {A} (m : M cbst A) (Q : A → blk_ → Prop) (b : blk_) : Prop :=
  ∀ s, k_blk s = b → rok (k_cs s) →
  match m s with
  | Ret (a, s') => rok (k_cs s') ∧ Q a (k_blk s')
  | UB => False
  | NoFuel => True
  end.

Lemma wk_ret {A} (a : A) (Q : A → blk_ → Prop) b : Q a b → wk (mret a) Q b.
Proof. by intros HQ s <- Hs. Qed.
Lemma wk_bind {A B} (m : M cbst A) (k : A → M cbst B) Q b :
  wk m (λ a, wk (k a) Q) b → wk (m ≫= k) Q b.
Proof.
  intros Hm s Hb Hs. specialize (Hm s Hb Hs). unfold mbind, M_bind.
  destruct (m s) as [[a s']| |]; [|done|done]. destruct Hm as [Hs' Hk]. by apply Hk.
Qed.
Lemma wk_blk (Q : blk_ → blk_ → Prop) b : Q b b → wk blk Q b.
Proof. by intros HQ s <- Hs. Qed.
Lemma wk_upd f (Q : () → blk_ → Prop) b : Q () (f b) → wk (upd_blk f) Q b.
Proof. by intros HQ s <- Hs. Qed.
Lemma wk_mono {A} (m : M cbst A) (P Q : A → blk_ → Prop) b : wk m P b → (∀ a b, P a b → Q a b) → wk m Q b.
Proof.
  intros Hm HPQ s Hb Hs. specialize (Hm s Hb Hs). destruct (m s) as [[a s']| |]; [|done|done].
  destruct Hm. auto.
Qed.

(** Computations that only read bits. *)
Definition bits_only {A} (m : M cbst A) : Prop :=
  ∀ s, match m s with Ret (_, s') => k_blk s' = k_blk s | UB => False | NoFuel => True end.
Lemma bits_only_bind {A B} (m : M cbst A) (k : A → M cbst B) :
  bits_only m → (∀ a, bits_only (k a)) → bits_only (m ≫= k).
Proof.
  intros Hm Hk s. specialize (Hm s). unfold mbind, M_bind. destruct (m s) as [[a s']| |]; [|done|done].
  specialize (Hk a s'). destruct (k a s') as [[c s'']| |]; [congruence|done|done].
Qed.
Lemma bits_only_ret {A} (a : A) : bits_only (mret a).
Proof. done. Qed.
Lemma bits_only_bit : bits_only (bit mem).
Proof. intros s. unfold bit. by destruct (get_bit mem (k_cs s)). Qed.
Lemma bits_only_bits n : bits_only (get_bits mem n).
Proof. intros s. unfold get_bits. by destruct (packetheader_get_bits mem n (k_cs s)). Qed.
Ltac bits_step :=
  lazymatch goal with
  | |- bits_only (_ ≫= _) => apply bits_only_bind; [|intros ?]
  | |- bits_only (mret _) => apply bits_only_ret
  | |- bits_only (bit _) => apply bits_only_bit
  | |- bits_only (get_bits _ _) => apply bits_only_bits
  | |- bits_only (if ?b then _ else _) => destruct b
  end.
Lemma bits_only_newpasses : bits_only (decode_newpasses mem).
Proof. unfold decode_newpasses. repeat (cbn zeta; bits_step). Qed.
Lemma bits_only_extend n sp pb by_ : bits_only (extend mem n sp pb by_).
Proof. revert pb by_. induction n as [|n IH]; intros; cbn [extend]; repeat bits_step; apply IH. Qed.
Lemma bits_only_lblock_loop n r : bits_only (getlblockinc_loop mem n r).
Proof. revert r. induction n as [|n IH]; intros; cbn [getlblockinc_loop]; [done|]. repeat bits_step. apply IH. Qed.

Lemma wk_bits_only {A} (m : M cbst A) (P : A → Prop) (Q : A → blk_ → Prop) b :
  ktot m P → bits_only m → (∀ a, P a → Q a b) → wk m Q b.
Proof.
  intros Ht Ho HQ s Hb Hs. specialize (Ht s Hs). specialize (Ho s).
  destruct (m s) as [[a s']| |]; [|done|done]. destruct Ht as (? & _ & ?). rewrite Ho, Hb. auto.
Qed.
Lemma wk_bits n (Q : Z → blk_ → Prop) b :
  (∀ v, (0 ≤ n ≤ 31 → 0 ≤ v < 2 ^ n) → Q v b) → wk (get_bits mem n) Q b.
Proof. apply wk_bits_only; [apply ktot_bits|apply bits_only_bits]. Qed.
Lemma wk_extend n sp pb by_ (Q : Z → blk_ → Prop) b : (∀ v, Q v b) → wk (extend mem n sp pb by_) Q b.
Proof. intros HQ. eapply wk_bits_only; [apply ktot_extend|apply bits_only_extend|auto]. Qed.
Lemma wk_newpasses (Q : Z → blk_ → Prop) b : (∀ n, 1 ≤ n ≤ 164 → Q n b) → wk (decode_newpasses mem) Q b.
Proof. apply wk_bits_only; [apply ktot_newpasses|apply bits_only_newpasses]. Qed.
Lemma wk_incl th (Q : Z → blk_ → Prop) b : (∀ v, Q v b) → wk (decode_incl mem th) Q b.
Proof.
  intros HQ. eapply wk_bits_only; [apply ktot_incl| |auto]. intros s. unfold decode_incl, tag_tree_decode.
  by destruct (tag_tree_loop _ _ _ _ _ _) as [[]].
Qed.
Lemma wk_zbp th (Q : Z → blk_ → Prop) b : (∀ v, Q v b) → wk (decode_zbp mem th) Q b.
Proof.
  intros HQ. eapply wk_bits_only; [apply ktot_zbp| |auto]. intros s. unfold decode_zbp, tag_tree_decode.
  by destruct (tag_tree_loop _ _ _ _ _ _) as [[]].
Qed.

Lemma lblock_loop_nonneg n r s :
  match getlblockinc_loop mem n r s with Ret (v, _) => r ≤ v | _ => True end.
Proof.
  revert r s. induction n as [|n IH]; intros r s; cbn [getlblockinc_loop]; [done|]. unfold mbind, M_bind, bit.
  destruct (get_bit mem (k_cs s)) as [x c]. destruct (x =? 0); [by cbn|].
  specialize (IH (r + 1) (set_kcs c s)). destruct (getlblockinc_loop mem n _ _) as [[]| |]; [lia|done|done].
Qed.
Lemma wk_lblock (Q : Z → blk_ → Prop) b : (∀ n, 0 ≤ n → Q n b) → wk (getlblockinc mem) Q b.
Proof.
  intros HQ s Hb Hs. pose proof (ktot_getlblockinc mem s Hs) as Ht. unfold getlblockinc in *. rewrite bind_get in *.
  pose proof (bits_only_lblock_loop (S (bits_left (k_cs s))) 0 s) as Ho.
  pose proof (lblock_loop_nonneg (S (bits_left (k_cs s))) 0 s) as Hn.
  destruct (getlblockinc_loop mem _ 0 s) as [[v s']| |]; [|done|done]. rewrite Ho, Hb. split; [apply Ht|by apply HQ].
Qed.

(** ** One code-block of the pure HT style *)
Context (cbs : Z) (Hcbs : 64 ≤ cbs < 128).

Definition lengths_clear (b : blk_) : Prop := pass_lengths0 b = 0 ∧ pass_lengths1 b = 0.

(** The cleanup segment has at least the two bytes [Scup] is read from. *)
Definition lengths_safe (b : blk_) : Prop :=
  blk_length b = 0 ∨ 2 ≤ pass_lengths0 b ≤ blk_length b ∧ blk_length b < 4294967296.

(** During the segments: no byte yet, or the cleanup segment is known. *)
Definition seg_state (b : blk_) : Prop :=
  modes b = cbs ∧ 3 ≤ lblock b ≤ 16
  ∧ (ht_plhd b = HT_PLHD_ON ∧ lengths_clear b
     ∨ ht_plhd b = HT_PLHD_OFF ∧ 2 ≤ pass_lengths0 b < 8388608 ∧ pass_lengths1 b = 0).

Lemma pure_style : negb (Z.land cbs HT_MIXED =? 0) = false ∧ negb (Z.land cbs CMODE_HT =? 0) = true.
Proof.
  destruct (style_bits cbs) as (_ & H1 & H2); [left; lia|]. split; [|done].
  rewrite H2. apply Z.leb_gt. lia.
Qed.

Lemma widen_bits sp b : 1 ≤ sp ≤ 164 → 3 ≤ lblock b ≤ 16 → 0 ≤ (widen widen_fuel sp (lblock b) 2).1 ≤ 23.
Proof.
  intros Hs Hl. assert (0 ≤ Z.log2 sp ≤ 7) by (split; [apply Z.log2_nonneg|change 7 with (Z.log2 164); apply Z.log2_le_mono; lia]).
  change 2 with (2 ^ 1). rewrite (widen_spec widen_fuel sp (lblock b) 1); [lia|lia| | |lia|lia].
  - change (2 ^ (1 - 1)) with 1. lia.
  - change (2 ^ (1 + Z.of_nat widen_fuel)) with 4294967296. lia.
Qed.

Lemma wk_ht_first n b :
  1 ≤ n ≤ 164 → seg_state b → ht_plhd b = HT_PLHD_ON →
  wk (ht_first_segment mem n) (λ r b', ∀ sp nx, r = Some (sp, nx) →
    seg_state b' ∧ (ht_plhd b' = HT_PLHD_ON → sp = n)) b.
Proof.
  intros Hn Hb Hon. destruct Hb as (Hm & Hl & Hc). pose proof Hc as [[_ Hc0]|[E _]]; [|by rewrite Hon in E].
  assert (seg_state b) as Hb by done. unfold ht_first_segment. apply wk_bind, wk_blk. cbn zeta.
  destruct pure_style as [Hmix _]. rewrite Hm, Hmix. set (href := u32 _ mod 3).
  assert (0 ≤ href < 3) as Hh by (apply Z.mod_pos_bound; lia).
  destruct (Z.ltb_spec (n - href) 1).
  - destruct (widen _ _ _ _) as [bits pb]. apply wk_bind, wk_bits. intros v _.
    destruct (v =? 0); apply wk_ret; [|done]. by intros sp nx [= <- <-].
  - pose proof (widen_bits (n - href) b ltac:(lia) Hl) as Hw. destruct (widen _ _ _ _) as [bits pb]. cbn [fst] in Hw.
    apply wk_bind, wk_bits. intros v Hv. specialize (Hv ltac:(lia)).
    assert (2 ^ bits ≤ 2 ^ 23) by (apply Z.pow_le_mono_r; lia).
    destruct (Z.eqb_spec v 0); cbn [negb].
    + destruct (pb <=? n); [|apply wk_ret; by intros sp nx [= <- <-]].
      apply wk_bind, wk_extend. intros v'. destruct (v' =? 0); apply wk_ret; [|done]. by intros sp nx [= <- <-].
    + destruct (Z.ltb_spec v 2); [by apply wk_ret|]. apply wk_bind, wk_upd, wk_ret.
      intros sp nx [= <- <-]. split; [|done]. split_and!; [done|cbn; lia..|]. right. split; [done|].
      cbn. destruct Hc0. lia.
Qed.

Lemma wk_ht_segments n np nx b K :
  3 ≤ lblock b ≤ 16 → 0 ≤ pass_lengths1 b ≤ K → K + 131072 * Z.of_nat n < 4294967296 → np ≤ 164 → np = 0 ∨ 1 ≤ nx ≤ 2 →
  wk (ht_segments mem n np nx)
    (λ _ b', pass_lengths0 b' = pass_lengths0 b ∧ 0 ≤ pass_lengths1 b' ≤ K + 131072 * Z.of_nat n) b.
Proof.
  revert np nx b K. induction n as [|n IH]; intros np nx b K Hl HK Hn Hnp Hx; cbn [ht_segments];
    destruct (Z.ltb_spec 0 np); try (apply wk_ret; split; [done|lia]); [by intros ? ?|].
  cbn zeta. set (sp := if 1 <? np then nx else 1). assert (1 ≤ sp ≤ np ∧ sp ≤ 2) as [Hsp Hsp2]
    by (unfold sp; destruct (Z.ltb_spec 1 np); lia).
  assert (0 ≤ int_log2 sp ≤ 1) as Hlog.
  { rewrite int_log2_pos by lia. split; [apply Z.log2_nonneg|]. change 1 with (Z.log2 2). apply Z.log2_le_mono. lia. }
  apply wk_bind, wk_blk, wk_bind, wk_bits. intros v Hv. rewrite u8_small in Hv by lia. specialize (Hv ltac:(lia)).
  assert (2 ^ (lblock b + int_log2 sp) ≤ 2 ^ 17) by (apply Z.pow_le_mono_r; lia).
  apply wk_bind, wk_upd. rewrite (u32_small (np - sp)) by lia. eapply wk_mono.
  - apply (IH _ _ _ (K + 131072)); cbn; rewrite ?u32_small by lia; [lia..|].
    unfold sp. destruct (Z.ltb_spec 1 np); [|left; lia]. right. rewrite u8_small by lia. lia.
  - intros _ b' [E H']. rewrite E. split; [done|]. lia.
Qed.

Lemma wk_other_done b (Q : bool → blk_ → Prop) nx (bypass : Z) : Q true b → wk (other_segments mem 0 0 nx bypass) Q b.
Proof. apply wk_ret. Qed.

(** [seg_ok] of the first segment, carried along. *)
Lemma wk_both {A} (m : M cbst A) (P : A → Prop) (Q : A → blk_ → Prop) b :
  ktot m P → wk m Q b → wk m (λ a b', P a ∧ Q a b') b.
Proof.
  intros Ht Hm s Hb Hs. specialize (Ht s Hs). specialize (Hm s Hb Hs).
  destruct (m s) as [[a s']| |]; [|done|done]. destruct Ht as (_ & _ & ?), Hm. auto.
Qed.

Definition sum_safe (b : blk_) : Prop :=
  lengths_clear b ∨ 2 ≤ pass_lengths0 b ∧ 0 ≤ pass_lengths1 b ∧ pass_lengths0 b + pass_lengths1 b < 4294967296.

Lemma wk_segments n b :
  1 ≤ n ≤ 164 → seg_state b → ht_plhd b = HT_PLHD_ON → wk (cblk_segments mem n) (λ r b', r = EXIT_SUCCESS → sum_safe b') b.
Proof.
  intros Hn Hb Hon. unfold cblk_segments. apply wk_bind, wk_blk, wk_bind. rewrite Hon. cbn [negb Z.eqb HT_PLHD_ON].
  apply wk_bind. eapply wk_mono; [apply wk_both; [apply ktot_ht_first; lia|by apply (wk_ht_first n)]|].
  intros [[sp nx]|] b1 [Hk H1]; apply wk_ret; cbn [option_map]; [|by apply wk_ret].
  destruct (H1 _ _ eq_refl) as [(Hm & Hl & Hc) Hsp], (Hk _ _ eq_refl) as [Hr Hx].
  apply wk_bind, wk_upd, wk_bind, wk_blk. cbn [set_npasses modes ht_plhd]. rewrite Hm.
  rewrite (proj2 pure_style), (u32_small (n - sp)) by lia. destruct Hc as [[Hp Hc]|(Hp & H0 & Hz)]; rewrite Hp; cbn [andb].
  - change (HT_PLHD_ON =? HT_PLHD_OFF) with false. cbn iota. rewrite (Hsp Hp), Z.sub_diag. cbn iota.
    apply wk_bind, wk_other_done, wk_ret. intros _. by left.
  - change (HT_PLHD_OFF =? HT_PLHD_OFF) with true. cbn iota. apply wk_bind. eapply wk_mono.
    + apply (wk_ht_segments _ _ _ _ 0); cbn; lia.
    + intros _ b2 [E1 E2]. apply wk_ret. intros _. right. cbn in E1. rewrite E1. lia.
Qed.

Lemma wk_cblk b :
  lengths_clear b → wk (cblk_header mem cbs) (λ r b', r = EXIT_SUCCESS → lengths_safe b') b.
Proof.
  intros Hc. unfold cblk_header. rewrite (proj2 (Z.leb_le CMODE_HT cbs)) by (unfold CMODE_HT; lia).
  apply wk_bind, wk_upd, wk_bind, wk_incl. intros i. apply wk_bind.
  apply (wk_mono _ (λ r b', r = EXIT_SUCCESS → sum_safe b')).
  - destruct (i =? 0); [|apply wk_ret; intros _; by left]. apply wk_bind, wk_zbp. intros z.
    apply wk_bind, wk_upd, wk_bind, wk_newpasses. intros n Hn. apply wk_bind, wk_blk.
    destruct (_ <=? _); [by apply wk_ret|]. apply wk_bind, wk_lblock. intros k Hk. apply wk_bind, wk_blk.
    cbn [set_included lblock]. destruct (Z.ltb_spec 16 (3 + k + int_log2 n)) as [|Hle]; [by apply wk_ret|].
    apply wk_bind, wk_upd. pose proof (Z.log2_nonneg (Z.lor (u32 n) 1)). fold (int_log2 n) in *.
    apply wk_segments; [done| |done]. split_and!; [done|cbn; rewrite u8_small by lia; lia..|]. by left.
  - intros r b' Hr. destruct (Z.eqb_spec r EXIT_SUCCESS) as [->|]; [|by apply wk_ret].
    apply wk_bind, wk_upd, wk_ret. intros _. destruct (Hr eq_refl) as [[E0 E1]|H]; unfold lengths_safe; cbn.
    + left. by rewrite E0, E1.
    + right. rewrite u32_small by lia. lia.
Qed.

(** ** Bands and precincts *)
Record band_shape (nb : nat) (pb : pband_) : Prop := {
  bs_incl : (nb ≤ length (pb_incl pb))%nat;
  bs_zbp : (nb ≤ length (pb_zbp pb))%nat;
  bs_blk : length (pb_blk pb) = nb
}.
Definition band_clear (pb : pband_) : Prop := Forall lengths_clear (pb_blk pb).
Definition band_safe (pb : pband_) : Prop := Forall lengths_safe (pb_blk pb).

(** The run returns, with the reader and the shape intact. *)
Definition returns_with {A} (o : outcome A) (P : A → Prop) : Prop :=
  match o with Ret a => P a | UB => False | NoFuel => True end.

Lemma header_blocks_safe rk c li lz pk nb :
  rok c → (nb ≤ length li)%nat → (nb ≤ length lz)%nat → (length pk + length rk = nb)%nat →
  Forall lengths_safe pk → Forall lengths_clear rk →
  returns_with (header_blocks mem (length rk) (length pk) cbs c (mkPband li lz (pk ++ rk)))
    (λ '(r, c', pb'), rok c' ∧ band_shape nb pb' ∧ (r = EXIT_SUCCESS → band_safe pb')).
Proof.
  revert c li lz pk. induction rk as [|b rk IH]; intros c li lz pk Hc Hi Hz Hn Hs Hk.
  { cbn in *. rewrite app_nil_r. split_and!; [done|split; cbn; lia|done]. }
  apply Forall_cons in Hk as [Hb Hk]. cbn [length header_blocks pb_blk pb_incl pb_zbp] in *.
  rewrite list_lookup_middle by done.
  destruct (lookup_lt_is_Some_2 li (length pk)) as [ti ->]; [lia|].
  destruct (lookup_lt_is_Some_2 lz (length pk)) as [tz ->]; [lia|].
  pose proof (wk_cblk b Hb (mkCb_ c b ti tz) eq_refl Hc) as Hw.
  destruct (cblk_header mem cbs (mkCb_ c b ti tz)) as [[r s]| |]; [|done|done]. destruct Hw as [Hr Hsafe].
  rewrite insert_app_r_alt, Nat.sub_diag by done. cbn [insert list_insert]. rewrite cons_middle, app_assoc.
  destruct (Z.eqb_spec r EXIT_SUCCESS) as [->|].
  - specialize (IH (k_cs s) (<[length pk:=k_incl s]> li) (<[length pk:=k_zbp s]> lz) (pk ++ [k_blk s]) Hr).
    rewrite !length_insert, length_app, Nat.add_1_r in IH. apply IH; [done|done|lia| |done].
    apply Forall_app. split; [done|]. constructor; [by apply Hsafe|done].
  - split_and!; [done| |done]. split; cbn; rewrite ?length_insert; [done|done|]. rewrite !length_app. cbn. lia.
Qed.

Lemma header_band_safe nb c pb :
  rok c → band_shape nb pb → band_clear pb →
  returns_with (header_blocks mem nb 0 cbs c pb)
    (λ '(r, c', pb'), rok c' ∧ band_shape nb pb' ∧ (r = EXIT_SUCCESS → band_safe pb')).
Proof.
  intros Hc [Hi Hz Hb] Hk. destruct pb as [li lz lb]. cbn in *. subst nb.
  by apply (header_blocks_safe lb c li lz []).
Qed.

Lemma header_bands_safe l c pre pr :
  rok c → Forall (band_shape (nb_code_blocks pr)) (pre ++ l) → Forall band_safe pre → Forall band_clear l →
  returns_with (header_bands mem (length l) (length pre) cbs c (set_pbands (pre ++ l) pr))
    (λ '(r, c', pr'), rok c' ∧ ∃ l', pr' = set_pbands l' pr ∧ length l' = length (pre ++ l)
       ∧ Forall (band_shape (nb_code_blocks pr)) l' ∧ (r = EXIT_SUCCESS → Forall band_safe l')).
Proof.
  revert c pre. induction l as [|pb l IH]; intros c pre Hc Hsh Hs Hk; cbn [length header_bands].
  { rewrite app_nil_r in *. split; [done|]. by exists pre. }
  apply Forall_cons in Hk as [Hb Hk]. change (pr_pband (set_pbands ?x pr)) with x.
  rewrite list_lookup_middle by done. change (nb_code_blocks (set_pbands ?x pr)) with (nb_code_blocks pr).
  pose proof Hsh as Hsh'. apply Forall_app in Hsh' as [Hs1 [Hpb Hs2]%Forall_cons].
  pose proof (header_band_safe _ c pb Hc Hpb Hb) as Hw.
  destruct (header_blocks mem _ 0 cbs c pb) as [[[r c1] pb1]| |]; [|done|done]. destruct Hw as (Hc1 & Hsh1 & Hsafe).
  rewrite insert_app_r_alt, Nat.sub_diag by done. cbn [insert list_insert].
  change (set_pbands ?y (set_pbands ?x pr)) with (set_pbands y pr).
  assert (Forall (band_shape (nb_code_blocks pr)) (pre ++ pb1 :: l)) as Hsh2 by (apply Forall_app; split; [done|by constructor]).
  destruct (Z.eqb_spec r EXIT_SUCCESS) as [->|].
  - rewrite cons_middle, app_assoc in *. specialize (IH c1 (pre ++ [pb1]) Hc1 Hsh2).
    rewrite length_app, Nat.add_1_r in IH. specialize (IH ltac:(apply Forall_app; split; [done|constructor; [by apply Hsafe|done]]) Hk).
    destruct (header_bands _ _ _ _ _ _) as [[[r2 c2] pr2]| |]; [|done|done]. cbn in IH |- *.
    destruct IH as (? & l' & ? & E & ?). split; [done|]. exists l'. split_and!; [done| |tauto..]. rewrite E, !length_app. cbn. lia.
  - split; [done|]. exists (pre ++ pb1 :: l). split_and!; [done|by rewrite !length_app|done|done].
Qed.

(** [take_contiguous] hands out as many bytes as asked for. *)
Lemma data_byte_safe n c k :
  0 ≤ k < n → (take_contiguous mem n c).1 ≠ Null →
  is_Some (data_byte mem (take_contiguous mem n c).2 (take_contiguous mem n c).1 n k).
Proof.
  intros Hk. unfold take_contiguous, data_byte. rewrite (proj2 (Z.leb_le _ _)), (proj2 (Z.ltb_lt _ _)) by lia. cbn [andb].
  destruct (chunks_ c !! cur_chunk_ c) as [ch|]; [|done]. destruct (Z.eqb_spec n 0); [lia|].
  destruct (_ <=? _); [by eexists|].
  pose proof (copy_loop_store mem (S (chunks_left c)) n 0 [] c) as Hst. destruct (copy_loop _ _ _ _ _ _) as [l c']. cbn [fst snd] in *. intros _.
  injection Hst as _ Hst. cbn [push_staging staging_]. rewrite Hst, list_lookup_middle by done. cbn.
  apply lookup_lt_is_Some_2. rewrite length_resize. lia.
Qed.

Lemma blk_body_safe c b :
  rok c → lengths_safe b → returns_with (blk_body mem c b) (λ r, rok r.1 ∧ lengths_safe r.2).
Proof.
  intros Hc Hb. pose proof (ptot_blk_body mem c b Hc) as Ht. unfold blk_body in *.
  pose proof (data_byte_safe (blk_length b) c) as Hd. destruct (take_contiguous mem (blk_length b) c) as [p c']. cbn [fst snd] in *.
  destruct (_ && _) eqn:E; [|split; [apply Ht|done]]. apply andb_true_iff in E as [E1 E2].
  destruct (Z.eqb_spec (blk_length b) 0); [done|]. pose proof Hb as [|Hb']; [done|].
  assert (p ≠ Null) as Hp by (by intros ->). rewrite !u32_small in * by lia.
  destruct (Hd (pass_lengths0 b - 1) ltac:(lia) Hp) as [hi Ehi]. destruct (Hd (pass_lengths0 b - 2) ltac:(lia) Hp) as [lo Elo].
  rewrite Ehi, Elo in *. split; [apply Ht|done].
Qed.

Lemma body_blocks_safe n i c pb nb :
  rok c → band_shape nb pb → band_safe pb → (i + n ≤ nb)%nat →
  returns_with (body_blocks mem n i c pb) (λ r, rok r.1 ∧ band_shape nb r.2 ∧ band_safe r.2).
Proof.
  revert i c pb. induction n as [|n IH]; intros i c pb Hc Hsh Hs Hn; [done|]. cbn [body_blocks].
  destruct (lookup_lt_is_Some_2 (pb_blk pb) i) as [b Eb]; [rewrite (bs_blk _ _ Hsh); lia|]. rewrite Eb.
  pose proof (blk_body_safe c b Hc (Forall_lookup_1 _ _ _ _ Hs Eb)) as Hb.
  destruct (blk_body mem c b) as [[c' b']| |]; [|done|done]. destruct Hb as [Hc' Hb'].
  apply IH; [done| | |lia]; destruct Hsh.
  - split; cbn; [done..|]. by rewrite length_insert.
  - by apply Forall_insert.
Qed.

Lemma body_bands_safe n i c pr :
  rok c → Forall (band_shape (nb_code_blocks pr)) (pr_pband pr) → Forall band_safe (pr_pband pr) →
  (i + n ≤ length (pr_pband pr))%nat →
  returns_with (body_bands mem n i c pr)
    (λ r, rok r.1 ∧ ∃ l, r.2 = set_pbands l pr ∧ length l = length (pr_pband pr) ∧ Forall (band_shape (nb_code_blocks pr)) l).
Proof.
  revert i c pr. induction n as [|n IH]; intros i c pr Hc Hsh Hs Hn; cbn [body_bands].
  { split; [done|]. exists (pr_pband pr). by rewrite set_pbands_id. }
  destruct (lookup_lt_is_Some_2 (pr_pband pr) i) as [pb Eb]; [lia|]. rewrite Eb.
  pose proof (body_blocks_safe (nb_code_blocks pr) 0 c pb _ Hc (Forall_lookup_1 _ _ _ _ Hsh Eb) (Forall_lookup_1 _ _ _ _ Hs Eb) ltac:(lia)) as Hb.
  destruct (body_blocks mem _ 0 c pb) as [[c' pb']| |]; [|done|done]. destruct Hb as (Hc' & Hsh' & Hs').
  specialize (IH (S i) c' (set_pbands (<[i:=pb']> (pr_pband pr)) pr) Hc').
  change (pr_pband (set_pbands ?x pr)) with x in IH. change (nb_code_blocks (set_pbands ?x pr)) with (nb_code_blocks pr) in IH.
  rewrite length_insert in IH. specialize (IH ltac:(by apply Forall_insert) ltac:(by apply Forall_insert) ltac:(lia)).
  destruct (body_bands mem n _ _ _) as [[c2 pr2]| |]; [|done|done]. destruct IH as (? & l & E & ? & ?).
  split; [done|]. by exists l.
Qed.

End Wp.

(** A precinct as [create] builds it: a band array of its size, and per band as
    many blocks and tag-tree leaves as the precinct announces. *)
Definition prec_shape (pr : prec_) : Prop :=
  Z.to_nat (pr_num_bands pr) = length (pr_pband pr) ∧ Forall (band_shape (nb_code_blocks pr)) (pr_pband pr).
Definition prec_clear (pr : prec_) : Prop := Forall band_clear (pr_pband pr).

Lemma read_packet_returns mem coc c pr :
  64 ≤ coc_cbs coc < 128 → rok c → prec_shape pr → prec_clear pr →
  ∃ r c' pr', read_packet mem c pr coc = Ret (r, c', pr') ∧ rok c' ∧ chunks_ c' = chunks_ c
    ∧ prec_shape pr'.
Proof.
  intros Hcbs Hc [Hn Hsh] Hk. pose proof (ptot_read_packet mem c pr coc Hc) as Ht.
  enough (returns_with (read_packet mem c pr coc) (λ r, prec_shape r.2)) as H.
  { destruct (read_packet mem c pr coc) as [[[r c'] pr']| |]; [|done|done]. destruct Ht. by exists r, c', pr'. }
  clear Ht. unfold read_packet. destruct (get_bit_rok mem c Hc) as [Hc1 _]. destruct (get_bit mem c) as [b c1]. cbn [snd] in Hc1.
  destruct (b =? 0); [done|]. unfold parse_packet_header. rewrite Hn.
  pose proof (header_bands_safe mem (coc_cbs coc) Hcbs (pr_pband pr) c1 [] pr Hc1 Hsh ltac:(done) Hk) as Hh.
  cbn [length app] in Hh. rewrite set_pbands_id in Hh.
  destruct (header_bands _ _ _ _ _ _) as [[[r c2] pr1]| |]; [|done|done]. destruct Hh as (Hc2 & l & -> & Hl & Hsh1 & Hs1).
  destruct (Z.eqb_spec r EXIT_SUCCESS) as [->|]; [|by split; cbn; rewrite ?Hl]. cbn [set_pbands pr_num_bands].
  pose proof (body_bands_safe mem (Z.to_nat (pr_num_bands pr)) 0 (packetheader_flush_bits c2) (set_pbands l pr)
    (proj1 (flush_rok c2 Hc2)) Hsh1 (Hs1 eq_refl) ltac:(cbn; lia)) as Hb.
  destruct (body_bands _ _ _ _ _) as [[c3 pr2]| |]; [|done|done]. destruct Hb as (_ & l' & E & El & Hsh2).
  cbn in E |- *. subst pr2. split; [|exact Hsh2]. cbn in *. congruence.
Qed.

(** A fresh precinct of [PacketSpec] has the shape and is clear. *)
Lemma fresh_shape pr :
  Z.to_nat (pr_num_bands pr) = length (pr_pband pr) → Forall (fresh_band (nb_code_blocks pr)) (pr_pband pr) →
  prec_shape pr ∧ prec_clear pr.
Proof.
  intros Hn Hf. split; [split; [done|]|]; (eapply Forall_impl; [exact Hf|]); intros pb [[Hi _] [Hz _] Hl Hb].
  - by split.
  - eapply Forall_impl; [exact Hb|]. by intros b (_ & ? & ?).
Qed.

(** C17: HT packets cannot make the parser go out of bounds.  Whatever bytes the
    reader stands at (corrupt, truncated, or not a packet header at all), for the
    pure HT style and a precinct as [create] and [restart] leave it, [read_packet]
    returns: no index outside the band, block or tag-tree arrays, no access outside
    a code-block's bytes (in particular the two bytes of [Scup] exist), every loop
    ends, the chain is untouched and the precinct keeps its shape. *)
Theorem read_packet_safe mem coc c pr :
  64 ≤ coc_cbs coc < 128 → wf c → 0 ≤ cs_bits c ≤ 8 → prec_shape pr → prec_clear pr →
  ∃ r c' pr', read_packet mem c pr coc = Ret (r, c', pr') ∧ wf c' ∧ chunks_ c' = chunks_ c
    ∧ prec_shape pr'.
Proof.
  intros Hs Hw Hb Hp Hk. destruct (read_packet_returns mem coc c pr Hs (conj Hw Hb) Hp Hk) as (r & c' & pr' & E & [] & ? & ?).
  by exists r, c', pr'.
Qed.

(** A precinct read from bytes that are not a packet. *)
Lemma demo_shape : prec_shape (demo_prec 2) ∧ prec_clear (demo_prec 2).
Proof. apply fresh_shape; [done|]. repeat constructor. Qed.

Lemma read_packet_safe_witness :
  ∃ r c' pr', read_packet (list_mem (replicate 9 254)) (two_chunks 4 (replicate 9 254)) (demo_prec 2) (demo_coc 64)
              = Ret (r, c', pr').
Proof.
  destruct (read_packet_safe (list_mem (replicate 9 254)) (demo_coc 64) (two_chunks 4 (replicate 9 254)) (demo_prec 2))
    as (r & c' & pr' & E & _).
  - cbn. lia.
  - split; [split|].
    + apply Forall_cons. split; [done|]. by apply Forall_singleton.
    + cbn. lia.
    + reflexivity.
    + cbn. lia.
    + vm_compute. reflexivity.
    + intros k [= <-]. cbn. lia.
  - cbn. lia.
  - apply demo_shape.
  - apply demo_shape.
  - exists r, c', pr'. exact E.
Defined.
