(* ===== verification/Progression.v ===== *)
(** * Progression: the precinct order of packet_parser/j2k_packet.cpp

    [prepare_precinct_structure] walks the reference grid of a tile and records,
    in [tile->crp], the order in which the packets of the codestream come: PCRL
    visits (component, resolution) at each position, PRCL (resolution,
    component).  The counters [px], [py] number the precincts of each component
    and resolution.

    The theorems relate the walk to a comprehension over the grid, and the
    numbering to the precinct counts [npw * nph] of the resolutions. *)
From S2P Require Import Prelude Codestream Markers Structs.

(** [1U << k]; a shift by 32 or more is undefined. *)
Definition shl1 {S} (k : Z) : M S Z :=
  if (0 <=? k) && (k <? 32) then mret (2 ^ k) else undefined.

(** An element of a C array. *)
Definition at_ {S A} (l : list A) (i : Z) : M S A :=
  if 0 <=? i then match l !! Z.to_nat i with Some x => mret x | None => undefined end else undefined.

(** The locals of the walk: the pushed entries and the [px], [py] counters. *)
Record walk := mkWalk { w_crp : list crp_status; w_px : Z → Z → Z; w_py : Z → Z → Z }.
Definition walk0 : walk := mkWalk [] (λ _ _, 0) (λ _ _, 0).

Definition upd2 (c r v : Z) (f : Z → Z → Z) : Z → Z → Z :=
  λ c' r', if (c' =? c) && (r' =? r) then v else f c' r'.

(** [for (v = lo; v < hi; v += step)] on [uint32_t]; [hi - lo] rounds are enough
    unless [v] wraps around. *)
Fixpoint stride {S} (fuel : nat) (v hi step : Z) (body : Z → M S ()) : M S () :=
  match fuel with
  | O => if v <? hi then out_of_fuel else mret ()
  | S fuel' => if v <? hi then body v ;; stride fuel' (u32 (v + step)) hi step body else mret ()
  end.

Section Walk.
Context (tile : tile_) (cocs : list coc_marker) (dfs : dfs_marker).

(** One of the two position tests:
    [v % (sub << (pr + d)) == 0 || (v == v0 && (rc0 << d) % (1 << (pr + d)) != 0)] *)
Definition aligned (v v0 sub pr d rc0 : Z) : M walk bool :=
  a ← shl1 (pr + d);
  let m := u32 (sub * a) in
  if m =? 0 then undefined
  else if v mod m =? 0 then mret true
  else if v =? v0 then b ← shl1 d; mret (negb (u32 (u32 rc0 * b) mod a =? 0))
  else mret false.

(** [p = py * npw + px]; push it; step [px], carrying into [py]. *)
Definition push_precinct (c r npw : Z) (w : walk) : walk :=
  let p := u32 (w_py w c r * npw + w_px w c r) in
  let px := u32 (w_px w c r + 1) in
  let crp := w_crp w ++ [mkCrp (u8 c) (u8 r) (u16 p)] in
  if px =? npw
  then mkWalk crp (upd2 c r 0 (w_px w)) (upd2 c r (u32 (w_py w c r + 1)) (w_py w))
  else mkWalk crp (upd2 c r px (w_px w)) (w_py w).

(** The body shared by the two orders: test the position, push the precinct and
    step its counter. *)
Definition visit (y x c r : Z) : M walk () :=
  coc ← at_ cocs c;
  tcp ← at_ (tcomp tile) c;
  rp ← at_ (tc_res tcp) r;
  xNL ← at_ (hor_depth dfs) (u32 (coc_NL coc - r));
  yNL ← at_ (ver_depth dfs) (u32 (coc_NL coc - r));
  pw ← at_ (coc_prw coc) r;
  ax ← aligned x (u32 (x0 (tile_coord tile))) (sub_x tcp) pw xNL (x0 (res_coord rp));
  if negb ax then mret () else
  ph ← at_ (coc_prh coc) r;
  ay ← aligned y (u32 (y0 (tile_coord tile))) (sub_y tcp) ph yNL (y0 (res_coord rp));
  if negb ay then mret () else
  modify (push_precinct c r (npw rp)).

(** The step exponents: the smallest precinct exponents of all resolutions. *)
Definition min_res (coc : coc_marker) (r : Z) (st : Z * Z) : M walk (Z * Z) :=
  w ← at_ (coc_prw coc) r;
  h ← at_ (coc_prh coc) r;
  mret (Z.min st.1 w, Z.min st.2 h).
Fixpoint min_ress (n : nat) (coc : coc_marker) (r : Z) (st : Z * Z) : M walk (Z * Z) :=
  match n with
  | O => mret st
  | S n' => st ← min_res coc r st; min_ress n' coc (r + 1) st
  end.
Fixpoint min_comps (n : nat) (c : Z) (st : Z * Z) : M walk (Z * Z) :=
  match n with
  | O => mret st
  | S n' =>
      coc ← at_ cocs c;
      st ← min_ress (Z.to_nat (coc_NL coc + 1)) coc 0 st;
      min_comps n' (c + 1) st
  end.

(** The global resolution bound [RE_max] of PRCL. *)
Fixpoint re_max (n : nat) (c acc : Z) : M walk Z :=
  match n with
  | O => mret acc
  | S n' => coc ← at_ cocs c; re_max n' (c + 1) (Z.max acc (coc_NL coc + 1))
  end.

(** The visits at one position. *)
Definition pcrl_at (y x : Z) : M walk () :=
  for_n 3 0 (λ c,
    coc ← at_ cocs c;
    for_n (Z.to_nat (coc_NL coc + 1)) 0 (visit y x c)).

Definition prcl_at (RE y x : Z) : M walk () :=
  for_n (Z.to_nat RE) 0 (λ r,
    for_n 3 0 (λ c,
      coc ← at_ cocs c;
      if coc_NL coc + 1 <=? r then mret () else visit y x c r)).

Definition positions (step_x step_y : Z) (body : Z → Z → M walk ()) : M walk () :=
  let g := tile_coord tile in
  stride (Z.to_nat (u32 (y1 g) - u32 (y0 g))) (u32 (y0 g)) (u32 (y1 g)) step_y (λ y,
    stride (Z.to_nat (u32 (x1 g) - u32 (x0 g))) (u32 (x0 g)) (u32 (x1 g)) step_x (body y)).

Definition progression_walk (PO : Z) : M walk Z :=
  if PO =? PCRL then
    st ← min_comps 3 0 (32, 32);
    sx ← shl1 st.1; sy ← shl1 st.2;
    positions sx sy pcrl_at ;; mret EXIT_SUCCESS
  else if PO =? PRCL then
    st ← min_comps 3 0 (32, 32);
    RE ← re_max 3 0 0;
    sx ← shl1 st.1; sy ← shl1 st.2;
    positions sx sy (prcl_at RE) ;; mret EXIT_SUCCESS
  else mret EXIT_FAILURE.

(** [tile->crp.resize(crp_index)] keeps the first [crp_index] entries. *)
Definition prepare_precinct_structure : outcome (Z * tile_) :=
  match cocs !! 0%nat with
  | None => UB
  | Some coc0 =>
      match progression_walk (coc_progression_order coc0) walk0 with
      | Ret (ret, w) =>
          if ret =? EXIT_SUCCESS
          then Ret (ret, set_crp (take (length (w_crp w)) (crp tile ++ w_crp w)) true tile)
          else Ret (ret, tile)
      | UB => UB
      | NoFuel => NoFuel
      end
  end.

End Walk.

(** ** Reference: the walk as a comprehension

    [key]: component and resolution.  [numbered] gives every visit its rank among
    the visits of the same key. *)
Notation key := (Z * Z)%type (only parsing).

Definition occ (k : key) (l : list key) : Z := Z.of_nat (length (filter (λ k', k' = k) l)).

Definition numbered (l : list key) : list crp_status :=
  imap (λ i k, mkCrp (u8 k.1) (u8 k.2) (u16 (occ k (take i l)))) l.

(** [v, v + step, ...] below [hi]. *)
Definition steps (v hi step : Z) : list Z := (λ k, v + k * step) <$> seqZ 0 (ceildiv_int (hi - v) step).

#[global] Instance geometry_inhabited : Inhabited geometry := populate (mkGeo 0 0 0 0).
#[global] Instance coc_inhabited : Inhabited coc_marker := populate coc0.
#[global] Instance res_inhabited : Inhabited res_ := populate (mkRes [] [] 0 (mkGeo 0 0 0 0) 0 0 0 0).
#[global] Instance tcomp_inhabited : Inhabited tcomp_ := populate (mkTcomp [] 0 (mkGeo 0 0 0 0) 0 0).

Section Spec.
Context (tile : tile_) (cocs : list coc_marker) (dfs : dfs_marker).

Definition cocv (c : Z) : coc_marker := cocs !!! Z.to_nat c.
Definition tcv (c : Z) : tcomp_ := tcomp tile !!! Z.to_nat c.
Definition resv (c r : Z) : res_ := tc_res (tcv c) !!! Z.to_nat r.
Definition NLv (c : Z) : Z := coc_NL (cocv c).
Definition pwv (c r : Z) : Z := coc_prw (cocv c) !!! Z.to_nat r.
Definition phv (c r : Z) : Z := coc_prh (cocv c) !!! Z.to_nat r.
Definition xdv (c r : Z) : Z := hor_depth dfs !!! Z.to_nat (NLv c - r).
Definition ydv (c r : Z) : Z := ver_depth dfs !!! Z.to_nat (NLv c - r).

(** A precinct starts at [v]: at its period, or at the tile's edge when the
    resolution starts inside a precinct. *)
Definition starts (v v0 sub pr d rc0 : Z) : bool :=
  (v mod (sub * 2 ^ (pr + d)) =? 0) || ((v =? v0) && negb ((rc0 * 2 ^ d) mod 2 ^ (pr + d) =? 0)).

Definition hit_x (x c r : Z) : bool :=
  starts x (x0 (tile_coord tile)) (sub_x (tcv c)) (pwv c r) (xdv c r) (x0 (res_coord (resv c r))).
Definition hit_y (y c r : Z) : bool :=
  starts y (y0 (tile_coord tile)) (sub_y (tcv c)) (phv c r) (ydv c r) (y0 (res_coord (resv c r))).
Definition hit (y x : Z) (k : key) : bool := hit_x x k.1 k.2 && hit_y y k.1 k.2.

(** The keys in the order of each progression. *)
Definition keys_pcrl : list key := seqZ 0 3 ≫= λ c, (λ r, (c, r)) <$> seqZ 0 (NLv c + 1).
Definition keys_prcl (RE : Z) : list key :=
  seqZ 0 RE ≫= λ r, seqZ 0 3 ≫= λ c, if NLv c + 1 <=? r then [] else [(c, r)].

Definition min_exp (f : Z → Z → Z) : Z :=
  foldl (λ acc k, Z.min acc (f k.1 k.2)) 32 keys_pcrl.
Definition RE_max : Z := foldl (λ acc c, Z.max acc (NLv c + 1)) 0 (seqZ 0 3).
Definition step_x : Z := 2 ^ min_exp pwv.
Definition step_y : Z := 2 ^ min_exp phv.

Definition visits (keys : list key) : list key :=
  let g := tile_coord tile in
  steps (y0 g) (y1 g) step_y ≫= λ y,
    steps (x0 g) (x1 g) step_x ≫= λ x, filter (λ k, hit y x k = true) keys.

(** ** What the header and the structure builder guarantee *)
Record comp_ok (c : Z) : Prop := {
  co_NL : 0 ≤ NLv c ≤ MAX_DWT_LEVEL;
  co_res : (Z.to_nat (NLv c) < length (tc_res (tcv c)))%nat;
  co_prw : length (coc_prw (cocv c)) = 6%nat;
  co_prh : length (coc_prh (cocv c)) = 6%nat;
  co_sub : 1 ≤ sub_x (tcv c) ≤ 255 ∧ 1 ≤ sub_y (tcv c) ≤ 255
}.
Record res_ok (c r : Z) : Prop := {
  ro_pw : 0 ≤ pwv c r ≤ 15;
  ro_ph : 0 ≤ phv c r ≤ 15;
  ro_xd : 0 ≤ xdv c r ≤ MAX_DWT_LEVEL;
  ro_yd : 0 ≤ ydv c r ≤ MAX_DWT_LEVEL;
  ro_x0 : 0 ≤ x0 (res_coord (resv c r)) ∧ x0 (res_coord (resv c r)) * 2 ^ xdv c r < 4294967296;
  ro_y0 : 0 ≤ y0 (res_coord (resv c r)) ∧ y0 (res_coord (resv c r)) * 2 ^ ydv c r < 4294967296;
  ro_npw : 0 ≤ npw (resv c r) < 4294967296
}.
Record walk_ok : Prop := {
  wo_cocs : (3 ≤ length cocs)%nat;
  wo_tcomp : (3 ≤ length (tcomp tile))%nat;
  wo_hor : length (hor_depth dfs) = 6%nat;
  wo_ver : length (ver_depth dfs) = 6%nat;
  wo_x : 0 ≤ x0 (tile_coord tile) < 2147483648 ∧ 0 ≤ x1 (tile_coord tile) < 2147483648;
  wo_y : 0 ≤ y0 (tile_coord tile) < 2147483648 ∧ 0 ≤ y1 (tile_coord tile) < 2147483648;
  wo_comp c : 0 ≤ c < 3 → comp_ok c;
  wo_res c r : 0 ≤ c < 3 → 0 ≤ r ≤ NLv c → res_ok c r
}.

End Spec.

(** ** Counting *)
Lemma occ_app k l l' : occ k (l ++ l') = occ k l + occ k l'.
Proof. unfold occ. rewrite filter_app, length_app. lia. Qed.

Lemma occ_nonneg k l : 0 ≤ occ k l.
Proof. unfold occ. lia. Qed.

Lemma occ_singleton k k' : occ k [k'] = if decide (k' = k) then 1 else 0.
Proof. unfold occ. rewrite filter_cons. by destruct (decide (k' = k)). Qed.

Lemma occ_cons k k' l : occ k (k' :: l) = (if decide (k' = k) then 1 else 0) + occ k l.
Proof. change (k' :: l) with ([k'] ++ l). by rewrite occ_app, occ_singleton. Qed.

Lemma occ_notin k l : k ∉ l → occ k l = 0.
Proof.
  induction l as [|k' l IH]; [done|]. intros [Hk Hl]%not_elem_of_cons. rewrite occ_cons, IH, decide_False by done. done.
Qed.

Lemma occ_perm k l l' : l ≡ₚ l' → occ k l = occ k l'.
Proof. intros H. unfold occ. by rewrite H. Qed.

Lemma numbered_snoc l k :
  numbered (l ++ [k]) = numbered l ++ [mkCrp (u8 k.1) (u8 k.2) (u16 (occ k l))].
Proof.
  unfold numbered. rewrite imap_app. cbn [imap]. f_equal.
  - apply imap_ext. intros i x Hi. apply lookup_lt_Some in Hi. by rewrite take_app_le by lia.
  - by rewrite Nat.add_0_r, take_app_length.
Qed.

(** The entries of one key are numbered 0, 1, 2, ... *)
Lemma numbered_key l c r :
  Forall (λ k, 0 ≤ k.1 < 256 ∧ 0 ≤ k.2 < 256) l → 0 ≤ c < 256 → 0 ≤ r < 256 →
  filter (λ e, crp_c e = c ∧ crp_r e = r) (numbered l)
  = (λ i, mkCrp c r (u16 i)) <$> seqZ 0 (occ (c, r) l).
Proof.
  intros Hl Hc Hr. induction l as [|k l IH] using rev_ind; [done|].
  apply Forall_app in Hl as [Hl Hk]. apply Forall_singleton in Hk as [Hk1 Hk2].
  rewrite numbered_snoc, filter_app, IH by done. rewrite occ_app, occ_singleton, filter_cons. cbn [crp_c crp_r].
  rewrite !u8_small by done. destruct k as [kc kr]. cbn [fst snd] in *.
  destruct (decide ((kc, kr) = (c, r))) as [E|E].
  - injection E as -> ->. rewrite decide_True by done. rewrite seqZ_app by (pose proof (occ_nonneg (c, r) l); lia).
    rewrite fmap_app. by cbn.
  - rewrite decide_False by (intros [-> ->]; by apply E). by rewrite Z.add_0_r, app_nil_r.
Qed.

(** ** The walk computes the comprehension *)
Section Refine.
Context (tile : tile_) (cocs : list coc_marker) (dfs : dfs_marker).
Hypothesis Hok : walk_ok tile cocs dfs.
Notation resv := (resv tile). Notation tcv := (tcv tile). Notation cocv := (cocv cocs). Notation NLv := (NLv cocs).

(** The state after the visits [l]: the counters of every key spell its rank. *)
Record winv (l : list key) (w : walk) : Prop := {
  wi_crp : w_crp w = numbered l;
  wi_cnt c r : 0 ≤ c < 3 → 0 ≤ r ≤ NLv c →
    w_py w c r * npw (resv c r) + w_px w c r = occ (c, r) l
    ∧ 0 ≤ w_py w c r ∧ 0 ≤ w_px w c r ∧ (w_px w c r < npw (resv c r) ∨ npw (resv c r) = 0)
    ∧ w_py w c r ≤ occ (c, r) l
}.

(** Ranks fit in 32 bits. *)
Definition bounded (l : list key) : Prop := ∀ k, occ k l < 4294967296.

Definition appends (m : M walk ()) (l : list key) : Prop :=
  ∀ pre w, winv pre w → bounded (pre ++ l) → ∃ w', m w = Ret ((), w') ∧ winv (pre ++ l) w'.

Lemma bounded_app l l' : bounded (l ++ l') → bounded l.
Proof. intros H k. specialize (H k). rewrite occ_app in H. pose proof (occ_nonneg k l'). lia. Qed.

Lemma appends_ret : appends (mret ()) [].
Proof. intros pre w Hw _. exists w. by rewrite app_nil_r. Qed.

Lemma appends_bind m k l l' : appends m l → appends k l' → appends (m ;; k) (l ++ l').
Proof.
  intros Hm Hk pre w Hw Hb. rewrite app_assoc in Hb |- *.
  destruct (Hm pre w Hw (bounded_app _ _ Hb)) as (w1 & E1 & H1).
  destruct (Hk _ w1 H1 Hb) as (w2 & E2 & H2). exists w2. by rewrite (bind_run _ _ _ _ _ E1).
Qed.

Lemma appends_for n lo body (g : Z → list key) :
  (∀ i, lo ≤ i < lo + Z.of_nat n → appends (body i) (g i)) →
  appends (for_n n lo body) (seqZ lo (Z.of_nat n) ≫= g).
Proof.
  revert lo. induction n as [|n IH]; intros lo H; [apply appends_ret|]. cbn [for_n].
  rewrite seqZ_cons, Nat2Z.inj_succ by lia. cbn [mbind list_bind]. rewrite Z.pred_succ, <- Z.add_1_r.
  apply appends_bind; [apply H; lia|]. apply IH. intros i Hi. apply H. lia.
Qed.

Lemma steps_nil v hi step : 1 ≤ step → hi ≤ v → steps v hi step = [].
Proof.
  intros Hs Hv. unfold steps, ceildiv_int. rewrite (seqZ_nil 0); [done|].
  assert ((hi - v + (step - 1)) / step < 1); [|lia]. apply Z.div_lt_upper_bound; lia.
Qed.

Lemma steps_cons v hi step : 1 ≤ step → v < hi → steps v hi step = v :: steps (v + step) hi step.
Proof.
  intros Hs Hv. unfold steps, ceildiv_int.
  assert ((hi - v + (step - 1)) / step = (hi - (v + step) + (step - 1)) / step + 1) as ->.
  { replace (hi - v + (step - 1)) with (hi - (v + step) + (step - 1) + 1 * step) by lia. by rewrite Z.div_add by lia. }
  assert (0 ≤ (hi - (v + step) + (step - 1)) / step) by (apply Z.div_pos; lia).
  rewrite seqZ_cons by lia. cbn [fmap list_fmap]. f_equal; [lia|]. rewrite Z.add_1_r, Z.pred_succ.
  change (Z.succ 0) with (1 + 0). rewrite <- fmap_add_seqZ, <- list_fmap_compose.
  apply list_fmap_ext. intros i k _. cbn [compose]. lia.
Qed.

Lemma appends_stride fuel v hi step body (g : Z → list key) :
  1 ≤ step ≤ 32768 → 0 ≤ v → hi < 2147483648 → hi - v ≤ Z.of_nat fuel →
  (∀ x, appends (body x) (g x)) →
  appends (stride fuel v hi step body) (steps v hi step ≫= g).
Proof.
  revert v. induction fuel as [|fuel IH]; intros v Hs Hv Hh Hf H; cbn [stride];
    destruct (Z.ltb_spec v hi); try lia; try (rewrite steps_nil by lia; apply appends_ret).
  rewrite steps_cons by lia. cbn [mbind list_bind]. apply appends_bind; [apply H|].
  rewrite u32_small by lia. apply IH; [lia..|done].
Qed.

Lemma at_total {S A} `{Inhabited A} (l : list A) i (s : S) :
  0 ≤ i → (Z.to_nat i < length l)%nat → at_ l i s = Ret (l !!! Z.to_nat i, s).
Proof.
  intros Hi Hl. unfold at_. rewrite (proj2 (Z.leb_le _ _)) by done.
  destruct (lookup_lt_is_Some_2 l _ Hl) as [x Hx]. by rewrite Hx, (list_lookup_total_correct _ _ _ Hx).
Qed.

Lemma shl1_run {S} k (s : S) : 0 ≤ k < 32 → shl1 k s = Ret (2 ^ k, s).
Proof. intros Hk. unfold shl1. by rewrite (proj2 (Z.leb_le _ _)), (proj2 (Z.ltb_lt _ _)) by lia. Qed.

Lemma aligned_run v v0 sub pr d rc0 (w : walk) :
  1 ≤ sub ≤ 255 → 0 ≤ pr ≤ 15 → 0 ≤ d ≤ MAX_DWT_LEVEL → 0 ≤ rc0 → rc0 * 2 ^ d < 4294967296 →
  aligned v v0 sub pr d rc0 w = Ret (starts v v0 sub pr d rc0, w).
Proof.
  unfold MAX_DWT_LEVEL. intros Hs Hp Hd H0 H1. unfold aligned, starts.
  rewrite (bind_run _ _ _ _ _ (shl1_run (pr + d) w ltac:(lia))).
  assert (2 ^ (pr + d) ≤ 2 ^ 20) as Hb by (apply Z.pow_le_mono_r; lia).
  assert (0 < 2 ^ (pr + d)) as Hb0 by (apply Z.pow_pos_nonneg; lia).
  assert (1 ≤ 2 ^ d) by (change 1 with (2 ^ 0); apply Z.pow_le_mono_r; lia).
  cbn zeta. rewrite u32_small by nia. rewrite (proj2 (Z.eqb_neq _ 0)) by nia.
  destruct (v mod (sub * 2 ^ (pr + d)) =? 0); [done|]. cbn [orb]. destruct (v =? v0); [|done].
  rewrite (bind_run _ _ _ _ _ (shl1_run d w ltac:(lia))). cbn [andb].
  rewrite (u32_small rc0), (u32_small (rc0 * _)) by nia. done.
Qed.

(** Stepping a counter keeps it the rank. *)
Lemma counter_step py px n cnt :
  py * n + px = cnt → 0 ≤ py → 0 ≤ px → (px < n ∨ n = 0) → py ≤ cnt → cnt + 1 < 4294967296 →
  let px' := u32 (px + 1) in
  let r := if px' =? n then (u32 (py + 1), 0) else (py, px') in
  r.1 * n + r.2 = cnt + 1 ∧ 0 ≤ r.1 ∧ 0 ≤ r.2 ∧ (r.2 < n ∨ n = 0) ∧ r.1 ≤ cnt + 1.
Proof.
  intros E Hy Hx Hn Hle Hb. cbn zeta. assert (px ≤ cnt) by nia. rewrite (u32_small (px + 1)) by lia.
  destruct (Z.eqb_spec (px + 1) n); cbn [fst snd]; [rewrite u32_small by lia|]; split_and!; nia || lia.
Qed.

Lemma push_winv pre w c r :
  winv pre w → 0 ≤ c < 3 → 0 ≤ r ≤ NLv c → occ (c, r) pre + 1 < 4294967296 →
  winv (pre ++ [(c, r)]) (push_precinct c r (npw (resv c r)) w).
Proof.
  intros [Hcrp Hcnt] Hc Hr Hb. destruct (Hcnt c r Hc Hr) as (E & Hy & Hx & Hn & Hle).
  pose proof (counter_step _ _ _ _ E Hy Hx Hn Hle Hb) as Hs. cbn zeta in Hs. unfold push_precinct. cbn zeta.
  rewrite E, (u32_small (occ _ _)) by (pose proof (occ_nonneg (c, r) pre); lia).
  split; [rewrite numbered_snoc, <- Hcrp; by destruct (_ =? _)|].
  intros c' r' Hc' Hr'. rewrite occ_app, occ_singleton.
  destruct (decide ((c, r) = (c', r'))) as [Ek|Ek].
  - injection Ek as <- <-. destruct (u32 (w_px w c r + 1) =? npw (resv c r)); cbn [w_px w_py fst snd] in *;
      unfold upd2; rewrite !Z.eqb_refl; exact Hs.
  - assert ((c' =? c) && (r' =? r) = false) as Ef.
    { destruct (Z.eqb_spec c' c), (Z.eqb_spec r' r); try done. by subst. }
    rewrite Z.add_0_r. destruct (u32 (w_px w c r + 1) =? npw (resv c r)); cbn [w_px w_py];
      unfold upd2; rewrite ?Ef; by apply Hcnt.
Qed.

Lemma visit_appends y x c r :
  0 ≤ c < 3 → 0 ≤ r ≤ NLv c →
  appends (visit tile cocs dfs y x c r) (filter (λ k, hit tile cocs dfs y x k = true) [(c, r)]).
Proof.
  intros Hc Hr pre w Hw Hb. destruct Hok as [Hco Htc Hh Hv Hx Hy Hcomp Hres].
  destruct (Hcomp c Hc) as [Hnl Hl Hpw Hph [Hsx Hsy]]. destruct (Hres c r Hc Hr) as [? ? ? ? [] [] Hnp].
  unfold MAX_DWT_LEVEL in *. unfold visit.
  rewrite (bind_run _ _ _ _ _ (at_total cocs c w ltac:(lia) ltac:(lia))). fold (cocv c).
  rewrite (bind_run _ _ _ _ _ (at_total (tcomp tile) c w ltac:(lia) ltac:(lia))). fold (tcv c).
  rewrite (bind_run _ _ _ _ _ (at_total (tc_res (tcv c)) r w ltac:(lia) ltac:(lia))). fold (resv c r).
  fold (NLv c). rewrite (u32_small (NLv c - r)) by lia.
  rewrite (bind_run _ _ _ _ _ (at_total (hor_depth dfs) (NLv c - r) w ltac:(lia) ltac:(lia))).
  rewrite (bind_run _ _ _ _ _ (at_total (ver_depth dfs) (NLv c - r) w ltac:(lia) ltac:(lia))).
  rewrite (bind_run _ _ _ _ _ (at_total (coc_prw (cocv c)) r w ltac:(lia) ltac:(lia))).
  fold (xdv cocs dfs c r) (ydv cocs dfs c r) (pwv cocs c r).
  rewrite !u32_small by lia. erewrite bind_run by (apply aligned_run; done). fold (hit_x tile cocs dfs x c r).
  rewrite filter_cons, filter_nil. unfold hit. cbn [fst snd].
  destruct (hit_x tile cocs dfs x c r) eqn:Ex; cbn [negb andb]; [|rewrite decide_False by done; exists w; by rewrite app_nil_r].
  rewrite (bind_run _ _ _ _ _ (at_total (coc_prh (cocv c)) r w ltac:(lia) ltac:(lia))). fold (phv cocs c r).
  erewrite bind_run by (apply aligned_run; done). fold (hit_y tile cocs dfs y c r).
  destruct (hit_y tile cocs dfs y c r) eqn:Ey; cbn [negb]; [|rewrite decide_False by done; exists w; by rewrite app_nil_r].
  rewrite decide_True by done. eexists. split; [reflexivity|]. apply push_winv; try done.
  specialize (Hb (c, r)). rewrite filter_cons, decide_True, filter_nil, occ_app, occ_singleton, decide_True in Hb; [lia|done|].
  unfold hit. cbn [fst snd]. by rewrite Ex, Ey.
Qed.

(** The step and bound loops. *)
Definition minf (f : Z → Z → Z) (acc : Z) (k : key) : Z := Z.min acc (f k.1 k.2).

Lemma min_ress_run n c r st (w : walk) :
  0 ≤ c < 3 → 0 ≤ r → r + Z.of_nat n ≤ 6 →
  min_ress n (cocv c) r st w
  = Ret ((foldl (minf (pwv cocs)) st.1 ((λ r, (c, r)) <$> seqZ r (Z.of_nat n)),
          foldl (minf (phv cocs)) st.2 ((λ r, (c, r)) <$> seqZ r (Z.of_nat n))), w).
Proof.
  intros Hc. destruct (wo_comp _ _ _ Hok c Hc) as [_ _ Hpw Hph _].
  revert r st. induction n as [|n IH]; intros r st Hr Hn; [by destruct st|]. cbn [min_ress].
  rewrite seqZ_cons, Nat2Z.inj_succ, Z.pred_succ by lia. cbn [fmap list_fmap foldl].
  unfold min_res. erewrite bind_run.
  2:{ erewrite bind_run by (apply at_total; lia). erewrite bind_run by (apply at_total; lia). done. }
  rewrite Z.add_1_r, IH by lia. done.
Qed.

Lemma min_comps_run n c st (w : walk) :
  0 ≤ c → c + Z.of_nat n ≤ 3 →
  let l := seqZ c (Z.of_nat n) ≫= λ c, (λ r, (c, r)) <$> seqZ 0 (NLv c + 1) in
  min_comps cocs n c st w
  = Ret ((foldl (minf (pwv cocs)) st.1 l, foldl (minf (phv cocs)) st.2 l), w).
Proof.
  revert c st. induction n as [|n IH]; intros c st Hc Hn; [by destruct st|]. cbn [min_comps].
  destruct (wo_comp _ _ _ Hok c ltac:(lia)) as [Hnl _ _ _ _]. unfold MAX_DWT_LEVEL in Hnl.
  pose proof (wo_cocs _ _ _ Hok). erewrite bind_run by (apply at_total; lia). fold (cocv c).
  change (coc_NL (cocv c)) with (NLv c). erewrite bind_run by (apply min_ress_run; lia).
  rewrite IH by lia. cbn [fst snd]. rewrite (seqZ_cons c), Nat2Z.inj_succ, Z.pred_succ by lia.
  cbn [mbind list_bind]. rewrite Z2Nat.id, !foldl_app, Z.add_1_r by lia. done.
Qed.

Lemma re_max_run n c acc (w : walk) :
  0 ≤ c → c + Z.of_nat n ≤ 3 →
  re_max cocs n c acc w = Ret (foldl (λ acc c, Z.max acc (NLv c + 1)) acc (seqZ c (Z.of_nat n)), w).
Proof.
  revert c acc. induction n as [|n IH]; intros c acc Hc Hn; [done|]. cbn [re_max].
  pose proof (wo_cocs _ _ _ Hok). erewrite bind_run by (apply at_total; lia).
  rewrite IH by lia. rewrite (seqZ_cons c), Nat2Z.inj_succ, Z.pred_succ by lia. cbn [foldl]. by rewrite Z.add_1_r.
Qed.

(** The visits at one position. *)
Lemma filter_bind {A B} (P : B → Prop) `{!∀ x, Decision (P x)} (f : A → list B) l :
  filter P (l ≫= f) = l ≫= λ a, filter P (f a).
Proof. induction l as [|a l IH]; [done|]. cbn [mbind list_bind]. by rewrite filter_app, <- IH. Qed.

Lemma fmap_as_bind {A B} (f : A → B) l : f <$> l = l ≫= λ a, [f a].
Proof. induction l as [|a l IH]; [done|]. cbn. by rewrite <- IH. Qed.

Lemma pcrl_appends y x :
  appends (pcrl_at tile cocs dfs y x) (filter (λ k, hit tile cocs dfs y x k = true) (keys_pcrl cocs)).
Proof.
  unfold pcrl_at, keys_pcrl. rewrite filter_bind. apply (appends_for 3). intros c Hc.
  destruct (wo_comp _ _ _ Hok c ltac:(lia)) as [Hnl _ _ _ _]. pose proof (wo_cocs _ _ _ Hok).
  intros pre w Hw Hb. erewrite bind_run by (apply at_total; lia). fold (cocv c).
  change (coc_NL (cocv c)) with (NLv c). revert pre w Hw Hb.
  change (appends (for_n (Z.to_nat (NLv c + 1)) 0 (visit tile cocs dfs y x c))
    (filter (λ k, hit tile cocs dfs y x k = true) ((λ r, (c, r)) <$> seqZ 0 (NLv c + 1)))).
  rewrite fmap_as_bind, filter_bind. replace (NLv c + 1) with (Z.of_nat (Z.to_nat (NLv c + 1))) at 2 by lia.
  apply appends_for. intros r Hr. apply visit_appends; lia.
Qed.

Lemma prcl_appends RE y x :
  0 ≤ RE →
  appends (prcl_at tile cocs dfs RE y x) (filter (λ k, hit tile cocs dfs y x k = true) (keys_prcl cocs RE)).
Proof.
  intros HRE. unfold prcl_at, keys_prcl. rewrite filter_bind.
  replace RE with (Z.of_nat (Z.to_nat RE)) at 2 by lia. apply appends_for. intros r Hr.
  rewrite filter_bind. apply (appends_for 3). intros c Hc. pose proof (wo_cocs _ _ _ Hok).
  intros pre w Hw Hb. erewrite bind_run by (apply at_total; lia). fold (cocv c).
  change (coc_NL (cocv c)) with (NLv c). revert pre w Hw Hb. destruct (Z.leb_spec (NLv c + 1) r).
  - apply appends_ret.
  - apply visit_appends; lia.
Qed.

Lemma positions_appends sx sy keys body :
  1 ≤ sx ≤ 32768 → 1 ≤ sy ≤ 32768 →
  (∀ y x, appends (body y x) (filter (λ k, hit tile cocs dfs y x k = true) keys)) →
  appends (positions tile sx sy body)
    (steps (y0 (tile_coord tile)) (y1 (tile_coord tile)) sy ≫= λ y,
       steps (x0 (tile_coord tile)) (x1 (tile_coord tile)) sx ≫= λ x,
         filter (λ k, hit tile cocs dfs y x k = true) keys).
Proof.
  intros Hx Hy H. destruct Hok as [_ _ _ _ [] [] _ _]. unfold positions. cbn zeta. rewrite !u32_small by lia.
  apply appends_stride; try lia. intros y. apply appends_stride; try lia. intros x. apply H.
Qed.

(** Bounds of the steps. *)
Lemma foldl_min_le f l acc : foldl (minf f) acc l ≤ acc ∧ ∀ k, k ∈ l → foldl (minf f) acc l ≤ f k.1 k.2.
Proof.
  revert acc. induction l as [|k l IH]; intros acc; cbn [foldl].
  { split; [lia|]. by intros k ?%not_elem_of_nil. }
  destruct (IH (minf f acc k)) as [H1 H2]. assert (minf f acc k ≤ acc ∧ minf f acc k ≤ f k.1 k.2) as [] by (unfold minf; lia). split; [lia|].
  intros k' [->|Hk]%elem_of_cons; [lia|by apply H2].
Qed.

Lemma foldl_min_ge f l acc b : b ≤ acc → (∀ k, k ∈ l → b ≤ f k.1 k.2) → b ≤ foldl (minf f) acc l.
Proof.
  revert acc. induction l as [|k l IH]; intros acc Ha H; cbn [foldl]; [done|]. apply IH.
  - unfold minf. specialize (H k ltac:(left)). lia.
  - intros k' Hk. apply H. by right.
Qed.

Lemma elem_keys_pcrl c r : (c, r) ∈ keys_pcrl cocs ↔ 0 ≤ c < 3 ∧ 0 ≤ r ≤ NLv c.
Proof.
  unfold keys_pcrl. rewrite list_elem_of_bind. split.
  - intros (c' & H & Hc%elem_of_seqZ). apply list_elem_of_fmap in H as (r' & [= -> ->] & Hr%elem_of_seqZ). lia.
  - intros [Hc Hr]. exists c. split; [|apply elem_of_seqZ; lia]. apply list_elem_of_fmap. exists r.
    split; [done|]. apply elem_of_seqZ. lia.
Qed.

Lemma min_exp_bounds f :
  (∀ c r, 0 ≤ c < 3 → 0 ≤ r ≤ NLv c → 0 ≤ f c r ≤ 15) →
  0 ≤ min_exp cocs f ≤ 15 ∧ ∀ c r, 0 ≤ c < 3 → 0 ≤ r ≤ NLv c → min_exp cocs f ≤ f c r.
Proof.
  intros Hf. destruct (foldl_min_le f (keys_pcrl cocs) 32) as [_ Hle].
  pose proof (foldl_min_ge f (keys_pcrl cocs) 32 0 ltac:(lia)) as Hge. unfold min_exp. fold (minf f).
  assert (∀ c r, 0 ≤ c < 3 → 0 ≤ r ≤ NLv c → foldl (minf f) 32 (keys_pcrl cocs) ≤ f c r) as H.
  { intros c r Hc Hr. apply (Hle (c, r)). by apply elem_keys_pcrl. }
  split; [|done]. split.
  - apply Hge. intros [c r] [Hc Hr]%elem_keys_pcrl. by apply Hf.
  - destruct (wo_comp _ _ _ Hok 0 ltac:(lia)) as [Hnl _ _ _ _].
    specialize (H 0 0 ltac:(lia) ltac:(lia)). specialize (Hf 0 0 ltac:(lia) ltac:(lia)). lia.
Qed.

Lemma walk_steps_ok : 1 ≤ step_x cocs ≤ 32768 ∧ 1 ≤ step_y cocs ≤ 32768.
Proof.
  unfold step_x, step_y.
  destruct (min_exp_bounds (pwv cocs)) as [[] _]; [intros c r Hc Hr; apply (wo_res _ _ _ Hok c r Hc Hr)|].
  destruct (min_exp_bounds (phv cocs)) as [[] _]; [intros c r Hc Hr; apply (wo_res _ _ _ Hok c r Hc Hr)|].
  change 1 with (2 ^ 0). change 32768 with (2 ^ 15). split; split; apply Z.pow_le_mono_r; lia.
Qed.

Lemma RE_max_spec : 0 ≤ RE_max cocs ∧ ∀ c, 0 ≤ c < 3 → NLv c + 1 ≤ RE_max cocs.
Proof.
  unfold RE_max. cbn [foldl]. change (seqZ 0 3) with [0; 1; 2]. cbn [foldl]. split; [lia|].
  intros c Hc. assert (c = 0 ∨ c = 1 ∨ c = 2) as [-> |[-> | ->]] by lia; lia.
Qed.

(** The keys of an order. *)
Definition keys (PO : Z) : list key := if PO =? PCRL then keys_pcrl cocs else keys_prcl cocs (RE_max cocs).

Lemma winv_start : winv [] walk0.
Proof.
  split; [done|]. intros c r Hc Hr. cbn. unfold occ. cbn.
  pose proof (ro_npw _ _ _ _ _ (wo_res _ _ _ Hok c r Hc Hr)). lia.
Qed.

Lemma walk_run PO :
  PO = PCRL ∨ PO = PRCL → bounded (visits tile cocs dfs (keys PO)) →
  ∃ w, progression_walk tile cocs dfs PO walk0 = Ret (EXIT_SUCCESS, w)
    ∧ w_crp w = numbered (visits tile cocs dfs (keys PO)).
Proof.
  intros HPO Hb. destruct walk_steps_ok as [Hsx Hsy]. unfold visits in *. cbn zeta in *. unfold step_x, step_y in *.
  destruct (min_exp_bounds (pwv cocs)) as [[] _]; [intros c r Hc Hr; apply (wo_res _ _ _ Hok c r Hc Hr)|].
  destruct (min_exp_bounds (phv cocs)) as [[] _]; [intros c r Hc Hr; apply (wo_res _ _ _ Hok c r Hc Hr)|].
  unfold progression_walk, keys in *. destruct HPO as [-> | ->]; cbn [Z.eqb Pos.eqb PCRL PRCL] in *.
  - erewrite bind_run by (by apply (min_comps_run 3 0)). change (seqZ 0 (Z.of_nat 3)) with (seqZ 0 3).
    cbn [fst snd]. fold (keys_pcrl cocs). change (foldl (minf ?f) 32 (keys_pcrl cocs)) with (min_exp cocs f).
    do 2 (erewrite bind_run by (apply shl1_run; lia)).
    destruct (positions_appends _ _ _ _ Hsx Hsy pcrl_appends [] walk0 winv_start Hb) as (w & E & Hw).
    exists w. rewrite (bind_run _ _ _ _ _ E). split; [done|apply Hw].
  - erewrite bind_run by (by apply (min_comps_run 3 0)). change (seqZ 0 (Z.of_nat 3)) with (seqZ 0 3).
    erewrite bind_run by (by apply (re_max_run 3 0)). change (seqZ 0 (Z.of_nat 3)) with (seqZ 0 3).
    cbn [fst snd]. fold (RE_max cocs) (keys_pcrl cocs). change (foldl (minf ?f) 32 (keys_pcrl cocs)) with (min_exp cocs f).
    do 2 (erewrite bind_run by (apply shl1_run; lia)).
    destruct (positions_appends _ _ (keys_prcl cocs (RE_max cocs)) (prcl_at tile cocs dfs (RE_max cocs)) Hsx Hsy)
      with (pre := @nil key) (w := walk0) as (w & E & Hw); [|apply winv_start|exact Hb|].
    { intros y x. apply prcl_appends, RE_max_spec. }
    exists w. rewrite (bind_run _ _ _ _ _ E). split; [done|apply Hw].
Qed.

(** ** The two orders visit the same precincts *)
Lemma elem_keys_prcl c r : (c, r) ∈ keys_prcl cocs (RE_max cocs) ↔ 0 ≤ c < 3 ∧ 0 ≤ r ≤ NLv c.
Proof.
  destruct RE_max_spec as [_ HRE]. unfold keys_prcl. rewrite list_elem_of_bind. split.
  - intros (r' & H & Hr%elem_of_seqZ). apply list_elem_of_bind in H as (c' & H & Hc%elem_of_seqZ).
    destruct (Z.leb_spec (NLv c' + 1) r'); [by apply not_elem_of_nil in H|].
    apply list_elem_of_singleton in H as [= -> ->]. lia.
  - intros [Hc Hr]. specialize (HRE c Hc). exists r. split; [|apply elem_of_seqZ; lia].
    apply list_elem_of_bind. exists c. split; [|apply elem_of_seqZ; lia].
    rewrite (proj2 (Z.leb_gt _ _)) by lia. by apply list_elem_of_singleton.
Qed.

Lemma NoDup_keys_pcrl : NoDup (keys_pcrl cocs).
Proof.
  apply NoDup_bind; [|intros c _|apply NoDup_seqZ].
  - intros c1 c2 k _ _ (r1 & -> & _)%list_elem_of_fmap (r2 & [= ? _] & _)%list_elem_of_fmap. done.
  - apply NoDup_fmap_2; [by intros ? ? [=]|apply NoDup_seqZ].
Qed.

Lemma NoDup_keys_prcl : NoDup (keys_prcl cocs (RE_max cocs)).
Proof.
  assert (∀ r c k, k ∈ (if NLv c + 1 <=? r then [] else [(c, r)]) → k = (c, r)) as Hk.
  { intros r c k. destruct (_ <=? _); [by intros ?%not_elem_of_nil|by intros ?%list_elem_of_singleton]. }
  apply NoDup_bind; [|intros r _|apply NoDup_seqZ].
  - intros r1 r2 k _ _ (c1 & H1%Hk & _)%list_elem_of_bind (c2 & H2%Hk & _)%list_elem_of_bind. congruence.
  - apply NoDup_bind; [|intros c _|apply NoDup_seqZ].
    + intros c1 c2 k _ _ H1%Hk H2%Hk. congruence.
    + destruct (_ <=? _); [apply NoDup_nil_2|apply NoDup_singleton].
Qed.

Lemma NoDup_keys PO : NoDup (keys PO).
Proof. unfold keys. destruct (_ =? _); [apply NoDup_keys_pcrl|apply NoDup_keys_prcl]. Qed.

Lemma elem_keys PO c r : (c, r) ∈ keys PO ↔ 0 ≤ c < 3 ∧ 0 ≤ r ≤ NLv c.
Proof. unfold keys. destruct (_ =? _); [apply elem_keys_pcrl|apply elem_keys_prcl]. Qed.

(** ** How often a key is visited *)
Lemma occ_filter_keys PO y x k :
  k ∈ keys PO → occ k (filter (λ k, hit tile cocs dfs y x k = true) (keys PO))
                = if hit tile cocs dfs y x k then 1 else 0.
Proof.
  intros Hk. pose proof (NoDup_keys PO) as Hn. revert Hk Hn. generalize (keys PO). intros l.
  induction l as [|k' l IH]; [by intros ?%not_elem_of_nil|]. intros Hk [Hk' Hn]%NoDup_cons.
  rewrite filter_cons. destruct (decide (k' = k)) as [->|E].
  - assert (occ k (filter (λ k, hit tile cocs dfs y x k = true) l) = 0) as H0.
    { apply occ_notin. by intros [_ ?]%list_elem_of_filter. }
    destruct (hit tile cocs dfs y x k).
    + rewrite decide_True, occ_cons, decide_True, H0 by done. done.
    + by rewrite decide_False by done.
  - apply elem_of_cons in Hk as [->|Hk]; [done|]. destruct (decide (hit tile cocs dfs y x k' = true)).
    + rewrite occ_cons, decide_False by done. rewrite Z.add_0_l. by apply IH.
    + by apply IH.
Qed.

Lemma occ_bind {A} k (f : A → list key) (g : A → bool) n l :
  (∀ a, occ k (f a) = if g a then n else 0) →
  occ k (l ≫= f) = Z.of_nat (length (filter (λ a, g a = true) l)) * n.
Proof.
  intros H. induction l as [|a l IH]; [done|]. cbn [mbind list_bind].
  rewrite occ_app, H, filter_cons. rewrite IH. destruct (g a); [rewrite decide_True by done; cbn [length]; lia|].
  rewrite decide_False by done. lia.
Qed.

End Refine.

(** ** Counting grid points *)
Lemma ceildiv_bounds a b : 0 < b → (ceildiv_int a b - 1) * b < a ≤ ceildiv_int a b * b.
Proof. intros Hb. unfold ceildiv_int. pose proof (Z.div_mod (a + (b - 1)) b). pose proof (Z.mod_pos_bound (a + (b - 1)) b). nia. Qed.

Lemma ceildiv_unique a b q : 0 < b → (q - 1) * b < a ≤ q * b → ceildiv_int a b = q.
Proof. intros Hb Hq. pose proof (ceildiv_bounds a b Hb). nia. Qed.

Lemma ceildiv_ceildiv a b c : 0 < b → 0 < c → ceildiv_int (ceildiv_int a b) c = ceildiv_int a (b * c).
Proof.
  intros Hb Hc. apply ceildiv_unique; [done|]. pose proof (ceildiv_bounds a (b * c) ltac:(nia)) as H.
  pose proof (ceildiv_bounds a b Hb) as H1. nia.
Qed.

Lemma ceildiv_mod a b : 0 < b → ceildiv_int a b - a / b = if a mod b =? 0 then 0 else 1.
Proof.
  intros Hb. pose proof (Z.div_mod a b ltac:(lia)). pose proof (Z.mod_pos_bound a b Hb).
  destruct (Z.eqb_spec (a mod b) 0).
  - rewrite (ceildiv_unique a b (a / b)); lia.
  - rewrite (ceildiv_unique a b (a / b + 1)); lia.
Qed.

(** On multiples of [step], a period [P] that is one too. *)
Lemma ceildiv_step v step b : 0 < step → 0 < b →
  ceildiv_int (v * step + step) (b * step) = ceildiv_int (v * step) (b * step) + (if (v * step) mod (b * step) =? 0 then 1 else 0).
Proof.
  intros Hs Hb. pose proof (ceildiv_bounds (v * step) (b * step) ltac:(nia)) as Hq.
  set (q := ceildiv_int (v * step) (b * step)) in *. clearbody q. rewrite Z.mul_mod_distr_r by lia.
  assert (q * b - b < v ≤ q * b) as Hq' by nia.
  destruct (Z.eqb_spec (v mod b * step) 0) as [E|E].
  - assert (v mod b = 0) as E' by nia. apply ceildiv_unique; [nia|].
    apply Z.div_exact in E'; [|lia]. set (t := v / b) in *. clearbody t. assert (t = q) by nia. nia.
  - apply ceildiv_unique; [nia|]. assert (v ≠ q * b) by (intros Ev; apply E; rewrite Ev, Z.mod_mul by lia; lia). nia.
Qed.

Lemma ceildiv_within hi v step b : 0 < step → 0 < b → hi ≤ v * step < hi + step →
  ceildiv_int hi (b * step) = ceildiv_int (v * step) (b * step).
Proof.
  intros Hs Hb Hv. pose proof (ceildiv_bounds (v * step) (b * step) ltac:(nia)) as Hq.
  set (q := ceildiv_int (v * step) (b * step)) in *. clearbody q. apply ceildiv_unique; [nia|].
  assert ((q - 1) * b < v) by nia. nia.
Qed.

Lemma count_multiples n v hi step b :
  0 < step → 0 < b → v * step < hi + step → hi - v * step ≤ Z.of_nat n →
  Z.of_nat (length (filter (λ x, (x mod (b * step) =? 0) = true) (steps (v * step) hi step)))
  = ceildiv_int hi (b * step) - ceildiv_int (v * step) (b * step).
Proof.
  intros Hs Hb. revert v. induction n as [|n IH]; intros v Hv Hn.
  { rewrite steps_nil by lia. rewrite (ceildiv_within hi v) by lia. cbn. lia. }
  destruct (Z.ltb_spec (v * step) hi).
  - rewrite steps_cons, filter_cons by lia. pose proof (ceildiv_step v step b Hs Hb) as H1.
    specialize (IH (v + 1)). rewrite Z.mul_add_distr_r, Z.mul_1_l in IH. specialize (IH ltac:(lia) ltac:(lia)).
    destruct ((v * step) mod (b * step) =? 0).
    + rewrite decide_True by done. cbn [length]. lia.
    + rewrite decide_False by done. lia.
  - rewrite steps_nil by lia. rewrite (ceildiv_within hi v) by lia. cbn. lia.
Qed.

Lemma ceildiv_le a a' b : 0 < b → a ≤ a' → ceildiv_int a b ≤ ceildiv_int a' b.
Proof. intros Hb Ha. unfold ceildiv_int. apply Z.div_le_mono; lia. Qed.

Lemma filter_ext_in {A} (P Q : A → Prop) `{!∀ x, Decision (P x)} `{!∀ x, Decision (Q x)} (l : list A) :
  (∀ x, x ∈ l → P x ↔ Q x) → filter P l = filter Q l.
Proof.
  induction l as [|a l IH]; intros Hl; [done|]. rewrite !filter_cons, IH by (intros x Hx; apply Hl; by right).
  apply decide_ext, Hl. left.
Qed.

Lemma filter_none {A} (l : list A) : filter (λ _, False) l = [].
Proof. induction l as [|a l IH]; [done|]. rewrite filter_cons_False by (by intros []). done. Qed.

Lemma elem_steps x v hi step : 1 ≤ step → x ∈ steps v hi step → v ≤ x.
Proof. intros Hs (k & -> & Hk%elem_of_seqZ)%list_elem_of_fmap. nia. Qed.

(** Past the first point, only the periods count. *)
Lemma starts_after v v0 sub pr d rc0 hi step :
  1 ≤ step → v0 < v →
  filter (λ x, starts x v0 sub pr d rc0 = true) (steps v hi step)
  = filter (λ x, (x mod (sub * 2 ^ (pr + d)) =? 0) = true) (steps v hi step).
Proof.
  intros Hs Hv. apply filter_ext_in. intros x Hx%elem_steps; [|done]. unfold starts.
  rewrite (proj2 (Z.eqb_neq x v0)) by lia. by rewrite orb_false_r.
Qed.

(** The resolution starts inside a precinct exactly when its first grid point is
    the extra one. *)
Lemma first_extra v0 sub pr d :
  1 ≤ sub → 0 ≤ pr → 0 ≤ d →
  let rc0 := ceildiv_int (ceildiv_int v0 sub) (2 ^ d) in
  negb ((rc0 * 2 ^ d) mod 2 ^ (pr + d) =? 0) = negb (rc0 mod 2 ^ pr =? 0)
  ∧ (v0 mod (sub * 2 ^ (pr + d)) = 0 → rc0 mod 2 ^ pr = 0).
Proof.
  intros Hs Hp Hd rc0. assert (0 < 2 ^ pr ∧ 0 < 2 ^ d) as [] by (split; apply Z.pow_pos_nonneg; lia).
  rewrite Z.pow_add_r by lia. split.
  - rewrite Z.mul_mod_distr_r by lia. f_equal.
    destruct (Z.eqb_spec (rc0 mod 2 ^ pr) 0) as [->|E]; [done|]. apply Z.eqb_neq. nia.
  - intros E. apply Z.div_exact in E; [|nia]. set (t := v0 / _) in E. clearbody t.
    assert (rc0 = t * 2 ^ pr) as ->; [|apply Z.mod_mul; lia].
    unfold rc0. rewrite ceildiv_ceildiv by lia. apply ceildiv_unique; nia.
Qed.

Lemma count_starts v0 v1 sub pr d e :
  1 ≤ sub → 0 ≤ e ≤ pr → 0 ≤ d → v0 mod 2 ^ e = 0 →
  let rc0 := ceildiv_int (ceildiv_int v0 sub) (2 ^ d) in
  let rc1 := ceildiv_int (ceildiv_int v1 sub) (2 ^ d) in
  rc0 < rc1 →
  Z.of_nat (length (filter (λ x, starts x v0 sub pr d rc0 = true) (steps v0 v1 (2 ^ e))))
  = ceildiv_int rc1 (2 ^ pr) - rc0 / 2 ^ pr.
Proof.
  intros Hs He Hd Hv rc0 rc1 Hrc.
  assert (0 < 2 ^ pr ∧ 0 < 2 ^ d ∧ 0 < 2 ^ e) as (Hp2 & Hd2 & He2) by (split_and!; apply Z.pow_pos_nonneg; lia).
  assert (v0 < v1) as Hlt.
  { destruct (Z.ltb_spec v0 v1); [done|]. unfold rc0, rc1 in Hrc.
    pose proof (ceildiv_le _ _ sub ltac:(lia) H). pose proof (ceildiv_le _ _ (2 ^ d) Hd2 H0). lia. }
  destruct (first_extra v0 sub pr d Hs ltac:(lia) Hd) as [Ex Em]. fold rc0 in Ex, Em.
  apply Z.div_exact in Hv; [|lia]. rewrite Z.mul_comm in Hv. set (q := v0 / 2 ^ e) in *.
  set (b := sub * 2 ^ (pr + d - e)). assert (0 < b) as Hb by (apply Z.mul_pos_pos; [lia|apply Z.pow_pos_nonneg; lia]).
  assert (sub * 2 ^ (pr + d) = b * 2 ^ e) as EP.
  { unfold b. rewrite <- Z.mul_assoc, <- Z.pow_add_r by lia. do 2 f_equal. lia. }
  assert (∀ v, ceildiv_int v (b * 2 ^ e) = ceildiv_int (ceildiv_int (ceildiv_int v sub) (2 ^ d)) (2 ^ pr)) as EC.
  { intros v. rewrite !ceildiv_ceildiv, <- EP by nia. f_equal. rewrite Z.pow_add_r by lia. lia. }
  pose proof (count_multiples (Z.to_nat (v1 - q * 2 ^ e)) q v1 (2 ^ e) b He2 Hb ltac:(lia) ltac:(lia)) as HC.
  rewrite <- Hv, !EC, <- EP in HC. fold rc0 rc1 in HC.
  rewrite steps_cons in HC |- * by lia. rewrite filter_cons in HC |- *. rewrite starts_after by lia.
  pose proof (ceildiv_mod rc0 (2 ^ pr) Hp2) as Hc. unfold starts. rewrite Z.eqb_refl, Ex. cbn [andb].
  destruct (Z.eqb_spec (v0 mod (sub * 2 ^ (pr + d))) 0) as [E0|E0]; cbn [orb].
  - rewrite (Em E0) in Hc. rewrite decide_True in HC |- * by done. cbn [length Z.eqb] in *. lia.
  - rewrite decide_False in HC by done. destruct (Z.eqb_spec (rc0 mod 2 ^ pr) 0); cbn [negb].
    + rewrite decide_False by done. lia.
    + rewrite decide_True by done. cbn [length]. lia.
Qed.

(** ** Whole walks *)
Lemma bind_perm {A B} (f g : A → list B) l : (∀ a, f a ≡ₚ g a) → l ≫= f ≡ₚ l ≫= g.
Proof. intros H. induction l as [|a l IH]; [done|]. cbn [mbind list_bind]. by rewrite (H a), IH. Qed.

(** Lists that agree class by class are permutations of each other. *)
Lemma perm_by_class {A B} `{EqDecision B} (f : A → B) (l l' : list A) :
  (∀ b, filter (λ a, f a = b) l ≡ₚ filter (λ a, f a = b) l') → l ≡ₚ l'.
Proof.
  revert l'. induction l as [|a l IH]; intros l' H.
  - destruct l' as [|a l']; [done|]. specialize (H (f a)). rewrite filter_cons_True in H by done.
    by apply Permutation_nil_cons in H.
  - assert (a ∈ l') as (l1 & l2 & ->)%list_elem_of_split.
    { specialize (H (f a)). rewrite filter_cons_True in H by done.
      assert (a ∈ filter (λ x, f x = f a) l') as [_ ?]%list_elem_of_filter; [|done]. rewrite <- H. left. }
    rewrite <- Permutation_middle. constructor. apply IH. intros b. specialize (H b).
    rewrite <- Permutation_middle, !filter_cons in H. destruct (decide (f a = b)); [|done].
    by apply Permutation_cons_inv in H.
Qed.

Lemma numbered_keys l :
  Forall (λ k, 0 ≤ k.1 < 256 ∧ 0 ≤ k.2 < 256) l → Forall (λ e, (crp_c e, crp_r e) ∈ l) (numbered l).
Proof.
  intros Hl. unfold numbered. apply Forall_lookup_2. intros i e. rewrite list_lookup_imap.
  destruct (l !! i) as [[c r]|] eqn:E; [|done]. intros [= <-]. cbn [crp_c crp_r fst snd].
  pose proof (Forall_lookup_1 _ _ _ _ Hl E) as [H1 H2]. cbn [fst snd] in *. rewrite !u8_small by done.
  by apply list_elem_of_lookup_2 in E.
Qed.

Section Results.
Context (tile : tile_) (cocs : list coc_marker) (dfs : dfs_marker).
Notation resv := (resv tile). Notation tcv := (tcv tile). Notation NLv := (NLv cocs).

(** What the structure builder stores for a resolution. *)
Record res_geometry (c r : Z) : Prop := {
  rg_x0 : x0 (res_coord (resv c r)) = ceildiv_int (ceildiv_int (x0 (tile_coord tile)) (sub_x (tcv c))) (2 ^ xdv cocs dfs c r);
  rg_y0 : y0 (res_coord (resv c r)) = ceildiv_int (ceildiv_int (y0 (tile_coord tile)) (sub_y (tcv c))) (2 ^ ydv cocs dfs c r);
  rg_x1 : x1 (res_coord (resv c r)) = ceildiv_int (ceildiv_int (x1 (tile_coord tile)) (sub_x (tcv c))) (2 ^ xdv cocs dfs c r);
  rg_y1 : y1 (res_coord (resv c r)) = ceildiv_int (ceildiv_int (y1 (tile_coord tile)) (sub_y (tcv c))) (2 ^ ydv cocs dfs c r);
  rg_x : x0 (res_coord (resv c r)) < x1 (res_coord (resv c r));
  rg_y : y0 (res_coord (resv c r)) < y1 (res_coord (resv c r));
  rg_npw : npw (resv c r) = ceildiv_int (x1 (res_coord (resv c r))) (2 ^ pwv cocs c r)
                            - x0 (res_coord (resv c r)) / 2 ^ pwv cocs c r;
  rg_nph : nph (resv c r) = ceildiv_int (y1 (res_coord (resv c r))) (2 ^ phv cocs c r)
                            - y0 (res_coord (resv c r)) / 2 ^ phv cocs c r
}.

Lemma elem_visits PO c r :
  (c, r) ∈ visits tile cocs dfs (keys cocs PO) → 0 ≤ c < 3 ∧ 0 ≤ r ≤ NLv c.
Proof.
  intros (y & H & _)%list_elem_of_bind. apply list_elem_of_bind in H as (x & H & _).
  apply list_elem_of_filter in H as [_ H]. by apply (elem_keys cocs PO).
Qed.

Lemma visits_small PO :
  walk_ok tile cocs dfs → Forall (λ k, 0 ≤ k.1 < 256 ∧ 0 ≤ k.2 < 256) (visits tile cocs dfs (keys cocs PO)).
Proof.
  intros Hok. apply Forall_forall. intros [c r] [Hc Hr]%elem_visits. cbn [fst snd].
  pose proof (co_NL _ _ _ (wo_comp _ _ _ Hok c Hc)). unfold MAX_DWT_LEVEL in *. lia.
Qed.

Lemma visits_perm :
  visits tile cocs dfs (keys cocs PRCL) ≡ₚ visits tile cocs dfs (keys cocs PCRL).
Proof.
  unfold visits. apply bind_perm. intros y. apply bind_perm. intros x. apply filter_Permutation.
  apply NoDup_Permutation; [apply NoDup_keys..|]. intros [c r].
  by rewrite !elem_keys.
Qed.

(** Each precinct exactly once. *)
Lemma occ_visits PO c r :
  walk_ok tile cocs dfs → 0 ≤ c < 3 → 0 ≤ r ≤ NLv c → res_geometry c r →
  x0 (tile_coord tile) mod step_x cocs = 0 → y0 (tile_coord tile) mod step_y cocs = 0 →
  occ (c, r) (visits tile cocs dfs (keys cocs PO)) = nph (resv c r) * npw (resv c r).
Proof.
  intros Hok Hc Hr [Gx0 Gy0 Gx1 Gy1 Gx Gy Gw Gh] Hx Hy. destruct (wo_res _ _ _ Hok c r Hc Hr) as [Hpw Hph Hxd Hyd _ _ _].
  destruct (wo_comp _ _ _ Hok c Hc) as [_ _ _ _ [Hsx Hsy]]. unfold visits, step_x, step_y in *.
  destruct (min_exp_bounds tile cocs dfs Hok (pwv cocs)) as [[] Hlx]; [intros c' r' ? ?; by apply (wo_res _ _ _ Hok c' r')|].
  destruct (min_exp_bounds tile cocs dfs Hok (phv cocs)) as [[] Hly]; [intros c' r' ? ?; by apply (wo_res _ _ _ Hok c' r')|].
  specialize (Hlx c r Hc Hr). specialize (Hly c r Hc Hr). rewrite Gw, Gh.
  pose proof (count_starts (x0 (tile_coord tile)) (x1 (tile_coord tile)) (sub_x (tcv c)) (pwv cocs c r)
    (xdv cocs dfs c r) (min_exp cocs (pwv cocs)) ltac:(lia) ltac:(lia) ltac:(lia) Hx ltac:(lia)) as CX.
  pose proof (count_starts (y0 (tile_coord tile)) (y1 (tile_coord tile)) (sub_y (tcv c)) (phv cocs c r)
    (ydv cocs dfs c r) (min_exp cocs (phv cocs)) ltac:(lia) ltac:(lia) ltac:(lia) Hy ltac:(lia)) as CY.
  cbn zeta in CX, CY. rewrite <- Gx0, <- Gx1 in CX. rewrite <- Gy0, <- Gy1 in CY. rewrite <- CX, <- CY.
  rewrite (occ_bind _ _ (λ y, hit_y tile cocs dfs y c r)
    (Z.of_nat (length (filter (λ x, hit_x tile cocs dfs x c r = true)
      (steps (x0 (tile_coord tile)) (x1 (tile_coord tile)) (2 ^ min_exp cocs (pwv cocs))))))).
  - done.
  - intros y. rewrite (occ_bind _ _ (λ x, hit tile cocs dfs y x (c, r)) 1).
    + rewrite Z.mul_1_r. unfold hit. cbn [fst snd]. destruct (hit_y tile cocs dfs y c r).
      * f_equal. f_equal. apply list_filter_iff. intros x. by rewrite andb_true_r.
      * rewrite (filter_ext_in _ (λ _, False)) by (intros x _; by rewrite andb_false_r).
        by rewrite filter_none.
    + intros x. apply occ_filter_keys. by apply elem_keys.
Qed.

Lemma bounded_visits PO :
  walk_ok tile cocs dfs →
  (∀ c r, 0 ≤ c < 3 → 0 ≤ r ≤ NLv c → occ (c, r) (visits tile cocs dfs (keys cocs PO)) ≤ 65536) →
  bounded (visits tile cocs dfs (keys cocs PO)).
Proof.
  intros Hok H [c r]. destruct (decide ((c, r) ∈ visits tile cocs dfs (keys cocs PO))) as [Hk|Hk].
  - apply elem_visits in Hk as [Hc Hr]. specialize (H c r Hc Hr). lia.
  - rewrite occ_notin by done. lia.
Qed.

(** [prepare_precinct_structure] is the walk of the order in [cocs[0]]. *)
Lemma prepare_run PO coc l w :
  cocs = coc :: l → coc_progression_order coc = PO → crp tile = [] →
  progression_walk tile cocs dfs PO walk0 = Ret (EXIT_SUCCESS, w) →
  prepare_precinct_structure tile cocs dfs = Ret (EXIT_SUCCESS, set_crp (w_crp w) true tile).
Proof.
  intros Hc Hp Hcrp Hw. unfold prepare_precinct_structure. rewrite Hc at 1. cbn [lookup list_lookup].
  rewrite Hp, Hw, Hcrp. cbn [EXIT_SUCCESS Z.eqb app]. by rewrite take_ge.
Qed.

End Results.

(** The walk of a tile on the position grid. *)
Lemma enumerate_run tile cocs dfs coc l :
  walk_ok tile cocs dfs → cocs = coc :: l →
  coc_progression_order coc = PCRL ∨ coc_progression_order coc = PRCL → crp tile = [] →
  x0 (tile_coord tile) mod step_x cocs = 0 → y0 (tile_coord tile) mod step_y cocs = 0 →
  (∀ c r, 0 ≤ c < 3 → 0 ≤ r ≤ NLv cocs c →
     res_geometry tile cocs dfs c r ∧ nph (resv tile c r) * npw (resv tile c r) ≤ 65536) →
  ∃ crp', prepare_precinct_structure tile cocs dfs = Ret (EXIT_SUCCESS, set_crp crp' true tile)
    ∧ Forall (λ e, 0 ≤ crp_c e < 3 ∧ 0 ≤ crp_r e ≤ NLv cocs (crp_c e)) crp'
    ∧ ∀ c r, 0 ≤ c < 3 → 0 ≤ r ≤ NLv cocs c →
        filter (λ e, crp_c e = c ∧ crp_r e = r) crp'
        = mkCrp c r <$> seqZ 0 (nph (resv tile c r) * npw (resv tile c r)).
Proof.
  intros Hok Hcs HPO Hcrp Hx Hy Hg. set (PO := coc_progression_order coc) in *.
  assert (∀ c r, 0 ≤ c < 3 → 0 ≤ r ≤ NLv cocs c →
    occ (c, r) (visits tile cocs dfs (keys cocs PO)) = nph (resv tile c r) * npw (resv tile c r)) as Hocc.
  { intros c r Hc Hr. apply occ_visits; try done. by apply Hg. }
  destruct (walk_run tile cocs dfs Hok PO HPO) as (w & Hw & Hcw).
  { apply bounded_visits; [done|]. intros c r Hc Hr. rewrite Hocc by done. by apply Hg. }
  exists (w_crp w). split; [by eapply prepare_run|]. rewrite Hcw.
  pose proof (visits_small tile cocs dfs PO Hok) as Hsm. split.
  - eapply Forall_impl; [by apply numbered_keys|]. intros e He. by apply elem_visits in He.
  - intros c r Hc Hr. pose proof (co_NL _ _ _ (wo_comp _ _ _ Hok c Hc)). unfold MAX_DWT_LEVEL in *.
    rewrite numbered_key by (done || lia). rewrite Hocc by done. apply list_fmap_ext. intros i p Hp.
    apply lookup_seqZ in Hp as [-> Hi]. pose proof (proj2 (Hg c r Hc Hr)). by rewrite u16_small by lia.
Qed.

(** ** Properties *)

(** C30: every precinct gets its place in the packet order, once.  For a tile whose
    resolutions have the geometry the structure builder computes (each non-empty,
    with at most 65536 precincts) and whose origin lies on the position grid,
    [prepare_precinct_structure] succeeds for PCRL and for PRCL, and for every
    component and resolution the recorded sequence lists exactly the precincts
    0, 1, ..., npw*nph - 1, each once and in raster order, nothing else being
    recorded. *)
Theorem precincts_enumerated tile cocs dfs coc l :
  walk_ok tile cocs dfs → cocs = coc :: l →
  coc_progression_order coc = PCRL ∨ coc_progression_order coc = PRCL → crp tile = [] →
  x0 (tile_coord tile) mod step_x cocs = 0 → y0 (tile_coord tile) mod step_y cocs = 0 →
  (∀ c r, 0 ≤ c < 3 → 0 ≤ r ≤ NLv cocs c →
     res_geometry tile cocs dfs c r ∧ nph (resv tile c r) * npw (resv tile c r) ≤ 65536) →
  ∃ crp', prepare_precinct_structure tile cocs dfs = Ret (EXIT_SUCCESS, set_crp crp' true tile)
    ∧ Forall (λ e, 0 ≤ crp_c e < 3 ∧ 0 ≤ crp_r e ≤ NLv cocs (crp_c e)) crp'
    ∧ ∀ c r, 0 ≤ c < 3 → 0 ≤ r ≤ NLv cocs c →
        filter (λ e, crp_c e = c ∧ crp_r e = r) crp'
        = mkCrp c r <$> seqZ 0 (nph (resv tile c r) * npw (resv tile c r)).
Proof. apply enumerate_run. Qed.

(** PRCL is a permutation of PCRL (the claim of the comment in the source).
    On the same tile both walks succeed, the PRCL sequence is a permutation of the
    PCRL sequence, and for each component and resolution the precincts come in the
    same order in both. *)
Theorem prcl_permutes_pcrl tile cocs dfs :
  walk_ok tile cocs dfs → bounded (visits tile cocs dfs (keys cocs PCRL)) →
  ∃ w w', progression_walk tile cocs dfs PCRL walk0 = Ret (EXIT_SUCCESS, w)
    ∧ progression_walk tile cocs dfs PRCL walk0 = Ret (EXIT_SUCCESS, w')
    ∧ w_crp w' ≡ₚ w_crp w
    ∧ ∀ c r, 0 ≤ c < 256 → 0 ≤ r < 256 →
        filter (λ e, crp_c e = c ∧ crp_r e = r) (w_crp w')
        = filter (λ e, crp_c e = c ∧ crp_r e = r) (w_crp w).
Proof.
  intros Hok Hb. assert (bounded (visits tile cocs dfs (keys cocs PRCL))) as Hb'.
  { intros k. by rewrite (occ_perm k _ _ (visits_perm tile cocs dfs)). }
  destruct (walk_run tile cocs dfs Hok PCRL (or_introl eq_refl) Hb) as (w & Hw & Ew).
  destruct (walk_run tile cocs dfs Hok PRCL (or_intror eq_refl) Hb') as (w' & Hw' & Ew').
  exists w, w'. split; [done|]. split; [done|]. rewrite Ew, Ew'.
  assert (∀ c r, 0 ≤ c < 256 → 0 ≤ r < 256 →
    filter (λ e, crp_c e = c ∧ crp_r e = r) (numbered (visits tile cocs dfs (keys cocs PRCL)))
    = filter (λ e, crp_c e = c ∧ crp_r e = r) (numbered (visits tile cocs dfs (keys cocs PCRL)))) as HF.
  { intros c r Hc Hr. rewrite !numbered_key by (done || by apply visits_small).
    by rewrite (occ_perm _ _ _ (visits_perm tile cocs dfs)). }
  split; [|done]. apply (perm_by_class (λ e, (crp_c e, crp_r e))). intros [c r].
  assert (∀ l : list crp_status, filter (λ e, (crp_c e, crp_r e) = (c, r)) l = filter (λ e, crp_c e = c ∧ crp_r e = r) l) as E.
  { intros l. apply list_filter_iff. intros e. split; [by intros [= -> ->]|by intros [-> ->]]. }
  rewrite !E. destruct (decide (0 ≤ c < 256 ∧ 0 ≤ r < 256)) as [[Hc Hr]|Hn]; [by rewrite HF|].
  assert (∀ PO, filter (λ e, crp_c e = c ∧ crp_r e = r) (numbered (visits tile cocs dfs (keys cocs PO))) = []) as H0;
    [|by rewrite !H0].
  intros PO. rewrite (filter_ext_in _ (λ _, False)); [apply filter_none|]. intros e He. split; [|done].
  intros [<- <-]. apply Hn. pose proof (visits_small tile cocs dfs PO Hok) as Hsm.
  pose proof (numbered_keys _ Hsm) as Hk. rewrite Forall_forall in Hk. specialize (Hk e He).
  rewrite Forall_forall in Hsm. by apply (Hsm _ Hk).
Qed.

(** Any other progression order is refused: [prepare_precinct_structure] returns
    failure and leaves the tile as it was (the frame is then failed). *)
Theorem other_orders_refused tile cocs dfs coc l :
  cocs = coc :: l → coc_progression_order coc ≠ PCRL → coc_progression_order coc ≠ PRCL →
  prepare_precinct_structure tile cocs dfs = Ret (EXIT_FAILURE, tile).
Proof.
  intros -> H1 H2. unfold prepare_precinct_structure, progression_walk. cbn [lookup list_lookup].
  by rewrite (proj2 (Z.eqb_neq _ _) H1), (proj2 (Z.eqb_neq _ _) H2).
Qed.

(** A tile that starts at x = 1, with precincts of width 2. *)
Definition odd_res : res_ := mkRes [] [] 0 (mkGeo 1 0 9 2) 5 1 0 1.
Definition odd_tile : tile_ :=
  mkTile (replicate 3 (mkTcomp (replicate 6 odd_res) 0 (mkGeo 1 0 9 2) 1 1)) 0 (mkGeo 1 0 9 2) 3 PCRL [] 0 false.
Definition odd_cocs : list coc_marker :=
  replicate 3 (mkCoc 0 0 0 0 0 0 0 PCRL 1 0 0 4 4 64 0 0 [1; 1; 1; 1; 1; 1] [1; 1; 1; 1; 1; 1] 0 0).

(** A tile origin off the position grid loses precincts (finding).  The position
    loops step by the smallest precinct size from the tile's origin, not from a
    multiple of it: for a tile starting at x = 1 with precincts of width 2 no
    multiple of 2 is ever visited, and 1 of the 5 precincts of the resolution is
    recorded. *)
Theorem unaligned_origin_skips_precincts :
  match prepare_precinct_structure odd_tile odd_cocs dfs0 with
  | Ret (ret, t) =>
      ret = EXIT_SUCCESS ∧ npw odd_res * nph odd_res = 5
      ∧ ceildiv_int (x1 (res_coord odd_res)) 2 - x0 (res_coord odd_res) / 2 = 5
      ∧ length (filter (λ e, crp_c e = 0 ∧ crp_r e = 0) (crp t)) = 1%nat
  | _ => False
  end.
Proof. vm_compute. done. Qed.

(** ** Witnesses: a 32 x 16 tile, one decomposition level *)
Definition small_tcomp : tcomp_ :=
  mkTcomp [mkRes [] [] 0 (mkGeo 0 0 16 8) 2 1 0 1; mkRes [] [] 1 (mkGeo 0 0 32 16) 2 2 1 3] 0 (mkGeo 0 0 32 16) 1 1.
Definition small_tile : tile_ := mkTile (replicate 3 small_tcomp) 0 (mkGeo 0 0 32 16) 3 PCRL [] 0 false.
Definition small_coc (po : Z) : coc_marker :=
  mkCoc 0 0 0 0 0 0 0 po 1 0 1 4 4 64 0 0 [3; 4; 15; 15; 15; 15] [3; 3; 15; 15; 15; 15] 0 0.
Definition small_cocs (po : Z) : list coc_marker := replicate 3 (small_coc po).
Definition small_dfs : dfs_marker :=
  mkDfs 0 1 [0; 1; 0; 0; 0; 0] (zeros 6) (zeros 6) [0; 1; 0; 0; 0; 0] [0; 1; 0; 0; 0; 0].

Lemma small_keys c r po :
  0 ≤ c < 3 → 0 ≤ r ≤ NLv (small_cocs po) c → (c = 0 ∨ c = 1 ∨ c = 2) ∧ (r = 0 ∨ r = 1).
Proof.
  intros Hc Hr. assert (c = 0 ∨ c = 1 ∨ c = 2) as [-> |[-> | ->]] by lia; (change (NLv (small_cocs po) _) with 1 in Hr; lia).
Qed.

Lemma small_walk_ok po : walk_ok small_tile (small_cocs po) small_dfs.
Proof.
  split; try by vm_compute; repeat split.
  - intros c Hc. assert (c = 0 ∨ c = 1 ∨ c = 2) as [-> |[-> | ->]] by lia; split; by vm_compute; repeat split.
  - intros c r Hc Hr. destruct (small_keys c r po Hc Hr) as [[-> |[-> | ->]] [-> | ->]]; split; by vm_compute; repeat split.
Qed.

Lemma small_geometry po c r :
  0 ≤ c < 3 → 0 ≤ r ≤ NLv (small_cocs po) c →
  res_geometry small_tile (small_cocs po) small_dfs c r ∧ nph (resv small_tile c r) * npw (resv small_tile c r) ≤ 65536.
Proof.
  intros Hc Hr. destruct (small_keys c r po Hc Hr) as [[-> |[-> | ->]] [-> | ->]];
    (split; [split; vm_compute; done|vm_compute; congruence]).
Qed.

Lemma occ_length k l : occ k l ≤ Z.of_nat (length l).
Proof. unfold occ. pose proof (length_filter (λ k', k' = k) l). lia. Qed.

Lemma precincts_enumerated_witness :
  ∃ crp', prepare_precinct_structure small_tile (small_cocs PRCL) small_dfs
          = Ret (EXIT_SUCCESS, set_crp crp' true small_tile)
    ∧ filter (λ e, crp_c e = 1 ∧ crp_r e = 1) crp' = [mkCrp 1 1 0; mkCrp 1 1 1; mkCrp 1 1 2; mkCrp 1 1 3].
Proof.
  destruct (precincts_enumerated small_tile (small_cocs PRCL) small_dfs (small_coc PRCL)
    [small_coc PRCL; small_coc PRCL] (small_walk_ok PRCL) eq_refl (or_intror eq_refl) eq_refl eq_refl eq_refl
    (small_geometry PRCL)) as (crp' & E & _ & H).
  exists crp'. split; [exact E|]. apply (H 1 1); vm_compute; split; congruence.
Defined.

Lemma prcl_permutes_pcrl_witness :
  ∃ w w', progression_walk small_tile (small_cocs PCRL) small_dfs PCRL walk0 = Ret (EXIT_SUCCESS, w)
    ∧ progression_walk small_tile (small_cocs PCRL) small_dfs PRCL walk0 = Ret (EXIT_SUCCESS, w')
    ∧ w_crp w' ≡ₚ w_crp w.
Proof.
  destruct (prcl_permutes_pcrl small_tile (small_cocs PCRL) small_dfs (small_walk_ok PCRL)) as (w & w' & E & E' & H & _).
  { intros k. eapply Z.le_lt_trans; [apply occ_length|]. vm_compute. reflexivity. }
  exists w, w'. split; [exact E|]. split; [exact E'|exact H].
Defined.

Lemma other_orders_refused_witness :
  prepare_precinct_structure small_tile (small_cocs 0) small_dfs = Ret (EXIT_FAILURE, small_tile).
Proof.
  apply (other_orders_refused small_tile (small_cocs 0) small_dfs (small_coc 0) [small_coc 0; small_coc 0]);
    [reflexivity|vm_compute; congruence..].
Defined.
