(* ===== verification/Geometry.v ===== *)
(** * Geometry: building a tile-component's structure (packet_parser/j2k_packet.cpp)

    [parepare_tcomp_structure] computes, for every resolution of a component, its
    extent, its precincts, and for every precinct and sub-band the code-block grid
    with its two tag trees, all allocated from the fixed arena of [stackAlloc]
    (packet_parser/utils.cpp).

    The state of this file's computations is the arena's fill level.  The arena is
    never cleared, so a fresh code-block keeps what its bytes held before in the
    fields the function does not set; [stale] is that content.  Signed coordinate
    arithmetic is exact and converted to 32 bits where it is stored. *)
From S2P Require Import Prelude Codestream Markers Structs Progression.

(** ** The arena *)
Definition BUFSIZE : Z := 1024 * 4096.

(** [stackAlloc(n, 0)]: the offset of the block, or a null pointer. *)
Definition stackAlloc (n : Z) : M Z (option Z) :=
  index ← get_st;
  if BUFSIZE <? u64 (index + n) then mret None
  else put_st (u64 (index + n)) ;; mret (Some index).
(** [stackAlloc(0, 1)] *)
Definition stackReset : M Z () := put_st 0.

(** [sizeof] on an LP64 target. *)
Definition sizeof_prec : Z := 48.
Definition sizeof_pband : Z := 24.
Definition sizeof_blk : Z := 48.
Definition sizeof_node : Z := 24.

(** ** Tag trees *)
Definition half_up (w : Z) : Z := Z.shiftr (u32 (w + 1)) 1.

(** [while (w > 1 || h > 1) { res += w * (uint64_t)h; ... }]: 32 halvings are
    enough for 32-bit sizes. *)
Fixpoint tag_tree_size_loop (fuel : nat) (w h res : Z) : Z :=
  match fuel with
  | O => res
  | S fuel' =>
      if (1 <? w) || (1 <? h)
      then tag_tree_size_loop fuel' (half_up w) (half_up h) (u64 (res + w * h))
      else res
  end.
Definition tt_fuel : nat := 33.
Definition tag_tree_size (w h : Z) : Z := u32 (tag_tree_size_loop tt_fuel w h 0 + 1).

(** The links of [tag_tree_init], as node indices: for each level the parent of
    every node in the level above; [t] is the level's first node.  The last
    component is the root, whose parent is null. *)
Definition level_links (t pw ph w : Z) : list (Z * Z) :=
  seqZ 0 ph ≫= λ i, (λ j, (t + (i * pw + j), t + pw * ph + (Z.shiftr i 1 * w + Z.shiftr j 1))) <$> seqZ 0 pw.
Fixpoint tag_tree_links (fuel : nat) (t w h : Z) : list (Z * Z) * Z :=
  match fuel with
  | O => ([], t)
  | S fuel' =>
      if (1 <? w) || (1 <? h) then
        let '(l, root) := tag_tree_links fuel' (t + u32 (w * h)) (half_up w) (half_up h) in
        (level_links t w h (half_up w) ++ l, root)
      else ([], t)
  end.

(** [tag_tree_init]: the offset of the nodes and the links written, or null. *)
Definition tag_tree_init (w h : Z) : M Z (option (Z * (list (Z * Z) * Z))) :=
  t ← stackAlloc (tag_tree_size w h * sizeof_node);
  mret (match t with None => None | Some a => Some (a, tag_tree_links tt_fuel 0 w h) end).

(** [tag_tree_zero]: the [memset] over the tree's nodes; a tree that is not there
    is undefined behaviour. *)
Definition tag_tree_zero {S} (t : list tagtree_node) (w h : Z) : M S (list tagtree_node) :=
  let siz := Z.to_nat (tag_tree_size w h) in
  if (siz <=? length t)%nat then mret (replicate siz (mkNode 0 0) ++ drop siz t) else undefined.

(** ** Coordinates *)

(** [ceildiv_int] on [int] and on [uint32_t]. *)
Definition cdi (a b : Z) : Z := i32 (Z.quot (a + (b - 1)) b).
Definition cdu (a b : Z) : Z := u32 (u32 a + (b - 1)) / b.
(** [ceildiv_int] on [int] with what is undefined about it: a zero divisor and a sum
    that leaves the type. *)
Definition cdi_checked {S} (a b : Z) : M S Z :=
  if (b =? 0) || (2147483647 <? a + (b - 1)) then undefined else mret (cdi a b).

Definition xob (i : Z) : Z := if (i =? 1) || (i =? 3) then 1 else 0.
Definition yob (i : Z) : Z := if (i =? 2) || (i =? 3) then 1 else 0.

Definition res_extent (tc : geometry) (dx dy : Z) : geometry :=
  mkGeo (cdi (x0 tc) dx) (cdi (y0 tc) dy) (cdi (x1 tc) dx) (cdi (y1 tc) dy).

(** [npw], [nph] of a resolution. *)
Definition precincts_along (v0 v1 p : Z) : Z :=
  u32 (if v0 <? v1 then cdi v1 p - Z.quot v0 p else 0).

(** Sub-band extents (recorded in [rp->band], not used by the parser). *)
Definition band_both (tc : geometry) (nb nb_1 i : Z) : geometry :=
  let f v o := i32 (cdu (v - u32 (2 ^ nb_1 * o)) (2 ^ nb)) in
  mkGeo (f (x0 tc) (xob i)) (f (y0 tc) (yob i)) (f (x1 tc) (xob i)) (f (y1 tc) (yob i)).

Definition band_extent (tc rc : geometry) (dir nb i : Z) (next : option res_) : outcome geometry :=
  let nb_1 := if 0 <? nb then nb - 1 else 0 in
  if dir =? HORZ then
    Ret (mkGeo (Z.shiftr (x0 rc + 1) 1) (y0 rc) (Z.shiftr (x1 rc + 1) 1) (y1 rc))
  else if dir =? VERT then
    Ret (mkGeo (x0 rc) (Z.shiftr (y0 rc + 1) 1) (x1 rc) (Z.shiftr (y1 rc + 1) 1))
  else if dir =? BOTH then Ret (band_both tc nb nb_1 i)
  else match next with
  | None => UB
  | Some nx =>
      let g := res_coord nx in
      if negb (transform_direction nx =? BOTH) then
        Ret (mkGeo (x0 g) (y0 g)
          (if transform_direction nx =? HORZ then i32 (x1 g - x1 rc) else x1 g)
          (if transform_direction nx =? VERT then i32 (y1 g - y1 rc) else y1 g))
      else Ret (band_both tc nb nb_1 i)
  end.

(** The extent of precinct [np]; comparisons are unsigned. *)
Definition prec_extent (rc : geometry) (npw ppx ppy np : Z) : geometry :=
  let x := np mod npw in
  let y := np / npw in
  let lo v p k := i32 (Z.max (u32 v) (u32 (p * u32 (k + u32 v / p)))) in
  let hi v0 v1 p k := i32 (Z.min (u32 v1) (u32 (p * u32 (k + 1 + u32 v0 / p)))) in
  mkGeo (lo (x0 rc) ppx x) (lo (y0 rc) ppy y) (hi (x0 rc) (x1 rc) ppx x) (hi (y0 rc) (y1 rc) ppy y).

(** A precinct's part of sub-band [i], in band coordinates. *)
Definition sub_ratio_x (dir : Z) : Z := if (dir =? BOTH) || (dir =? HORZ) then 2 else 1.
Definition sub_ratio_y (dir : Z) : Z := if (dir =? BOTH) || (dir =? VERT) then 2 else 1.
Definition pband_extent (pc : geometry) (dir i : Z) : geometry :=
  let fx v := cdu (v - xob i) (sub_ratio_x dir) in
  let fy v := cdu (v - yob i) (sub_ratio_y dir) in
  mkGeo (fx (x0 pc)) (fy (y0 pc)) (fx (x1 pc)) (fy (y1 pc)).

Definition blocks_along (v0 v1 cb : Z) : Z := if v0 <? v1 then u32 (cdu v1 cb - v0 / cb) else 0.

(** The extent of code-block [cb] as the source computes it ([cb & ncbw]). *)
Definition blk_extent (pb : geometry) (cbw cbh ncbw cb : Z) : geometry :=
  let x := Z.land cb ncbw in
  let y := cb / ncbw in
  let lo v c k := i32 (Z.max v (u32 (c * u32 (k + v / c)))) in
  let hi v c k := i32 (Z.min v (u32 (c * u32 (k + 1 + v / c)))) in
  mkGeo (lo (x0 pb) cbw x) (lo (y0 pb) cbh y) (hi (x1 pb) cbw x) (hi (y1 pb) cbh y).

(** ** The builder *)
Section Build.
Context (stale : Z → blk_).

Definition new_blk (old : blk_) (g : geometry) : blk_ :=
  mkBlk g (blk_data old) 0 0 0 (Scup old) (modes old) 0 3 (blk_zbp old) 0 (ht_plhd old).

(** A tag tree: initialised, then zeroed. *)
Definition new_tree (w h : Z) : M Z (list tagtree_node) :=
  t ← tag_tree_init w h;
  match t with
  | None => undefined
  | Some _ => tag_tree_zero (replicate (Z.to_nat (tag_tree_size w h)) (mkNode 0 0)) w h
  end.

(** The code-block grid of a non-empty precinct-band. *)
Definition fill_pband (pb : geometry) (cbw cbh ncbw ncbh : Z) : M Z pband_ :=
  ti ← new_tree ncbw ncbh;
  tz ← new_tree ncbw ncbh;
  a ← stackAlloc (u64 (sizeof_blk * ncbw * ncbh));
  match a with
  | None => undefined
  | Some off =>
      mret (mkPband ti tz
        ((λ cb, new_blk (stale (off + sizeof_blk * cb)) (blk_extent pb cbw cbh ncbw cb))
           <$> seqZ 0 (u32 (ncbw * ncbh))))
  end.

(** The bands of a precinct from [b] on; [ncbw], [ncbh] live in the precinct and
    are overwritten by every band.  [have]: the [pband] array was allocated. *)
Fixpoint new_pbands (n : nat) (b : Z) (pc : geometry) (dir num_bands cbw cbh : Z) (have : bool)
    (grid : Z * Z) : M Z (list pband_ * (Z * Z)) :=
  match n with
  | O => mret ([], grid)
  | S n' =>
      let i := if num_bands =? 1 then 0 else b + 1 in
      let pb := pband_extent pc dir i in
      let ncbw := blocks_along (x0 pb) (x1 pb) cbw in
      let ncbh := blocks_along (y0 pb) (y1 pb) cbh in
      p ← (if negb (ncbw =? 0) && negb (ncbh =? 0)
           then guard_ub have ;; fill_pband pb cbw cbh ncbw ncbh
           else mret (mkPband [] [] []));
      r ← new_pbands n' (b + 1) pc dir num_bands cbw cbh have (ncbw, ncbh);
      mret (p :: r.1, r.2)
  end.

Definition new_prec (coc : coc_marker) (r : Z) (rc : geometry) (npw ppx ppy cbw cbh dir num_bands np : Z)
    : M Z prec_ :=
  let pc := prec_extent rc npw ppx ppy np in
  a ← stackAlloc (sizeof_pband * num_bands);
  res ← new_pbands (Z.to_nat num_bands) 0 pc dir num_bands cbw cbh (bool_decide (is_Some a)) (0, 0);
  let '(l, (w, h)) := res in
  mret (mkPrec (match a with Some _ => l | None => [] end) pc r num_bands w h
          (coc_use_SOP coc) (coc_use_EPH coc)).

Fixpoint new_precs (n : nat) (np : Z) (mk : Z → M Z prec_) : M Z (list prec_) :=
  match n with
  | O => mret []
  | S n' => p ← mk np; l ← new_precs n' (np + 1) mk; mret (p :: l)
  end.

(** The bands' extents. *)
Fixpoint new_bands (n : nat) (b : Z) (tc rc : geometry) (dir nb num_bands : Z) (next : option res_)
    (bands : list geometry) : M Z (list geometry) :=
  match n with
  | O => mret bands
  | S n' =>
      let i := if num_bands =? 1 then 0 else b + 1 in
      match band_extent tc rc dir nb i next, arr_set bands b inhabitant with
      | Ret g, Some _ => new_bands n' (b + 1) tc rc dir nb num_bands next (<[Z.to_nat b := g]> bands)
      | _, _ => undefined
      end
  end.

(** The direction is read from [dfs->type[NL - r + 1]]: six entries, so for five
    levels resolution 0 reads past the array. *)
Definition new_res (tc : tcomp_) (coc : coc_marker) (dfs : dfs_marker) (r : Z) : M Z res_ :=
  let NL := coc_NL coc in
  old ← at_ (tc_res tc) r;
  dir ← at_ (dfs_type dfs) (NL - r + 1);
  let num_bands := if negb (dir =? BOTH) || (r =? 0) then 1 else 3 in
  hd ← at_ (hor_depth dfs) (NL - r);
  vd ← at_ (ver_depth dfs) (NL - r);
  dx ← shl1 hd; dy ← shl1 vd;
  let rc := res_extent (tc_coord tc) dx dy in
  pw ← at_ (coc_prw coc) r; ph ← at_ (coc_prh coc) r;
  ppx ← shl1 pw; ppy ← shl1 ph;
  let npw := precincts_along (x0 rc) (x1 rc) ppx in
  let nph := precincts_along (y0 rc) (y1 rc) ppy in
  let nb := if r =? 0 then NL - r else NL - r + 1 in
  bands ← new_bands (Z.to_nat num_bands) 0 (tc_coord tc) rc dir nb num_bands
            (tc_res tc !! Z.to_nat (r + 1)) (band old);
  a ← stackAlloc (u64 (sizeof_prec * npw * nph));
  cbw ← shl1 (coc_cbw coc); cbh ← shl1 (coc_cbh coc);
  let n := u32 (npw * nph) in
  guard_ub (bool_decide (is_Some a) || (n =? 0)) ;;
  precs ← new_precs (Z.to_nat n) 0 (new_prec coc r rc npw ppx ppy cbw cbh dir num_bands);
  mret (mkRes bands precs r rc npw nph dir num_bands).

(** [for (r = NL; r >= 0; --r)] *)
Fixpoint build_ress (n : nat) (tc : tcomp_) (coc : coc_marker) (dfs : dfs_marker) : M Z tcomp_ :=
  match n with
  | O => mret tc
  | S r =>
      rp ← new_res tc coc dfs (Z.of_nat r);
      build_ress r (set_ress (<[r := rp]> (tc_res tc)) tc) coc dfs
  end.
Definition parepare_tcomp_structure (tc : tcomp_) (coc : coc_marker) (dfs : dfs_marker) : M Z tcomp_ :=
  build_ress (Z.to_nat (coc_NL coc + 1)) tc coc dfs.

End Build.
