(* ===== verification/GeometrySpec.v ===== *)
(** * GeometrySpec: what the structure builder guarantees

    With an arena large enough for the structure (an exact cost function), the
    builder returns a component whose resolutions have the standard's extents and
    precinct counts, whose precincts partition them, and whose code-blocks and tag
    trees are in the state packet parsing starts from. *)
From S2P Require Import Prelude Codestream BitReader Markers Structs PacketHeader PacketSpec Progression Geometry.

(** ** Tag trees *)

(** Nodes below the root. *)
Fixpoint inner_nodes (fuel : nat) (w h : Z) : Z :=
  match fuel with
  | O => 0
  | S fuel' => if (1 <? w) || (1 <? h) then w * h + inner_nodes fuel' (half_up w) (half_up h) else 0
  end.

Lemma half_up_bounds w : 0 ≤ w < 4294967295 → half_up w = (w + 1) / 2 ∧ 0 ≤ half_up w ≤ w.
Proof.
  intros Hw. unfold half_up. rewrite u32_small by lia. rewrite Z.shiftr_div_pow2 by lia. change (2 ^ 1) with 2.
  split; [done|]. div_lia.
Qed.

(** A grid small enough for the arena. *)
Definition grid_ok (w h : Z) : Prop := 1 ≤ w ∧ 1 ≤ h ∧ w * h ≤ 87381.

Lemma grid_half w h : grid_ok w h → grid_ok (half_up w) (half_up h) ∧ half_up w * half_up h ≤ w * h.
Proof.
  intros (Hw & Hh & Hp). assert (w ≤ 87381 ∧ h ≤ 87381) as [] by nia.
  destruct (half_up_bounds w) as [E1 [? ?]]; [lia|]. destruct (half_up_bounds h) as [E2 [? ?]]; [lia|].
  assert (1 ≤ half_up w) by (rewrite E1; div_lia). assert (1 ≤ half_up h) by (rewrite E2; div_lia).
  unfold grid_ok. split_and!; nia.
Qed.

Lemma inner_nodes_bounds f w h : grid_ok w h → 0 ≤ inner_nodes f w h ≤ Z.of_nat f * 87381.
Proof.
  revert w h. induction f as [|f IH]; intros w h Hg; cbn [inner_nodes]; [lia|].
  destruct (grid_half w h Hg) as [Hg' _]. specialize (IH _ _ Hg'). destruct Hg as (? & ? & ?).
  destruct (_ || _); nia.
Qed.

Lemma inner_nodes_ge f w h : grid_ok w h → w * h ≤ inner_nodes (S f) w h + 1.
Proof.
  intros Hg. cbn [inner_nodes]. destruct (grid_half w h Hg) as [Hg' _]. pose proof (inner_nodes_bounds f _ _ Hg').
  destruct Hg as (? & ? & ?). destruct (Z.ltb_spec 1 w), (Z.ltb_spec 1 h); cbn [orb]; nia.
Qed.

Lemma size_loop_spec f w h res :
  grid_ok w h → 0 ≤ res → res + Z.of_nat f * 87381 < 18446744073709551616 →
  tag_tree_size_loop f w h res = res + inner_nodes f w h.
Proof.
  revert w h res. induction f as [|f IH]; intros w h res Hg Hr Hb; cbn [tag_tree_size_loop inner_nodes]; [lia|].
  destruct (_ || _); [|lia]. destruct (grid_half w h Hg) as [Hg' _]. destruct Hg as (? & ? & ?).
  rewrite u64_small by nia. rewrite IH by (done || nia). lia.
Qed.

Lemma tag_tree_size_spec w h :
  grid_ok w h → tag_tree_size w h = inner_nodes tt_fuel w h + 1 ∧ w * h ≤ tag_tree_size w h < 4294967296.
Proof.
  intros Hg. pose proof (inner_nodes_bounds tt_fuel w h Hg) as Hb. unfold tt_fuel in *.
  assert (tag_tree_size w h = inner_nodes 33 w h + 1) as E.
  { unfold tag_tree_size, tt_fuel. rewrite size_loop_spec by (done || lia). rewrite u32_small; lia. }
  split; [exact E|]. rewrite E. split; [|lia]. by apply inner_nodes_ge.
Qed.

(** Links point upwards inside the tree. *)
Lemma level_links_bounds t w h :
  grid_ok w h →
  Forall (λ l : Z * Z, t ≤ l.1 < t + w * h ∧ t + w * h ≤ l.2 < t + w * h + half_up w * half_up h)
    (level_links t w h (half_up w)).
Proof.
  intros Hg. pose proof Hg as (Hw & Hh & Hp). assert (w ≤ 87381 ∧ h ≤ 87381) as [] by nia.
  destruct (half_up_bounds w) as [E1 _]; [lia|]. destruct (half_up_bounds h) as [E2 _]; [lia|].
  apply Forall_forall. intros [a b] (i & HF & Hi%elem_of_seqZ)%list_elem_of_bind.
  apply list_elem_of_fmap in HF as (j & [= -> ->] & Hj%elem_of_seqZ). cbn [fst snd].
  rewrite !Z.shiftr_div_pow2 by lia. change (2 ^ 1) with 2.
  assert (0 ≤ i / 2 ≤ half_up h - 1) by (rewrite E2; div_lia).
  assert (0 ≤ j / 2 ≤ half_up w - 1) by (rewrite E1; div_lia).
  split_and!; nia.
Qed.

Lemma half_up_one : half_up 1 = 1.
Proof. done. Qed.

(** The height of the tree: after [f] halvings of sizes up to [2 ^ f] one node is left. *)
Lemma links_bounds f t w h :
  grid_ok w h → w ≤ 2 ^ Z.of_nat f → h ≤ 2 ^ Z.of_nat f →
  (tag_tree_links f t w h).2 = t + inner_nodes f w h
  ∧ Forall (λ l, t ≤ l.1 < l.2 ∧ l.2 ≤ t + inner_nodes f w h) (tag_tree_links f t w h).1.
Proof.
  revert t w h. induction f as [|f IH]; intros t w h Hg Hw Hh; cbn [tag_tree_links inner_nodes].
  { split; [cbn; lia|constructor]. }
  destruct ((1 <? w) || (1 <? h)) eqn:E; [|split; [cbn; lia|constructor]].
  pose proof Hg as (? & ? & ?). assert (w ≤ 87381 ∧ h ≤ 87381) as [] by nia.
  destruct (grid_half w h Hg) as [Hg' Hm]. destruct (half_up_bounds w) as [E1 _]; [lia|].
  destruct (half_up_bounds h) as [E2 _]; [lia|]. rewrite Nat2Z.inj_succ, Z.pow_succ_r in Hw, Hh by lia.
  rewrite (u32_small (w * h)) by nia.
  destruct (IH (t + w * h) (half_up w) (half_up h) Hg') as [R L]; [rewrite E1; div_lia|rewrite E2; div_lia|].
  destruct (tag_tree_links f _ _ _) as [l root]. cbn [fst snd] in *. split; [lia|].
  apply Forall_app. split.
  - eapply Forall_impl; [by apply level_links_bounds|]. intros [a b] (L1 & L2). cbn [fst snd] in *.
    split; [lia|].
    assert (half_up w * half_up h ≤ inner_nodes f (half_up w) (half_up h) + 1); [|lia].
    destruct f as [|f]; [|by apply inner_nodes_ge].
    cbn in Hw, Hh. assert (half_up w = 1) as -> by (rewrite E1; div_lia).
    assert (half_up h = 1) as -> by (rewrite E2; div_lia). cbn. lia.
  - eapply Forall_impl; [exact L|]. intros [a b] (L1 & L2). cbn [fst snd] in *. assert (0 ≤ w * h) by nia. split; lia.
Qed.

(** ** Allocation costs

    [costs m n Q]: with [n] bytes left in the arena [m] takes exactly them and
    returns a value satisfying [Q]. *)
Definition costs {A} (m : M Z A) (n : Z) (Q : A → Prop) : Prop :=
  ∀ idx, 0 ≤ idx → idx + n ≤ BUFSIZE → ∃ a, m idx = Ret (a, idx + n) ∧ Q a.

Lemma costs_ret {A} (a : A) (Q : A → Prop) : Q a → costs (mret a) 0 Q.
Proof. intros HQ idx _ _. exists a. by rewrite Z.add_0_r. Qed.

Lemma costs_bind {A B} (m : M Z A) (k : A → M Z B) n n' P Q :
  0 ≤ n → 0 ≤ n' → costs m n P → (∀ a, P a → costs (k a) n' Q) → costs (m ≫= k) (n + n') Q.
Proof.
  intros Hn Hn' Hm Hk idx H0 Hi. destruct (Hm idx H0 ltac:(lia)) as (a & E & Ha).
  destruct (Hk a Ha (idx + n) ltac:(lia) ltac:(lia)) as (b & E' & Hb). exists b.
  rewrite (bind_run _ _ _ _ _ E), E'. split; [|done]. do 2 f_equal. lia.
Qed.

(** Steps that allocate nothing. *)
Lemma costs_then {A B} (m : M Z A) (k : A → M Z B) n P Q :
  0 ≤ n → costs m 0 P → (∀ a, P a → costs (k a) n Q) → costs (m ≫= k) n Q.
Proof. intros Hn. by apply (costs_bind m k 0 n). Qed.

Lemma costs_weaken {A} (m : M Z A) n (P Q : A → Prop) : costs m n P → (∀ a, P a → Q a) → costs m n Q.
Proof. intros Hm HPQ idx H0 Hi. destruct (Hm idx H0 Hi) as (a & E & Ha). eauto. Qed.

Lemma costs_alloc n : 0 ≤ n → costs (stackAlloc n) n (λ a, is_Some a).
Proof.
  intros Hn idx H0 Hi. unfold BUFSIZE in *. unfold stackAlloc. rewrite bind_get, u64_small by lia.
  rewrite (proj2 (Z.ltb_ge _ _)) by (unfold BUFSIZE; lia). by eexists.
Qed.

Lemma costs_at {A} (l : list A) i x : 0 ≤ i → l !! Z.to_nat i = Some x → costs (at_ l i) 0 (λ a, a = x).
Proof.
  intros Hi Hx. unfold at_. rewrite (proj2 (Z.leb_le _ _)), Hx by done. by apply costs_ret.
Qed.

Lemma costs_shl k : 0 ≤ k < 32 → costs (shl1 k) 0 (λ a, a = 2 ^ k).
Proof.
  intros Hk. unfold shl1. rewrite (proj2 (Z.leb_le _ _)), (proj2 (Z.ltb_lt _ _)) by lia. by apply costs_ret.
Qed.

(** Small arenas mean small grids. *)
Lemma costs_small {A} (m : M Z A) n Q : (n ≤ BUFSIZE → costs m n Q) → costs m n Q.
Proof. intros H idx H0 Hi. apply H; lia. Qed.

(** ** The pieces *)
Definition tree_cost (w h : Z) : Z := tag_tree_size w h * sizeof_node.

Lemma tree_cost_nonneg w h : 0 ≤ tree_cost w h.
Proof. unfold tree_cost, sizeof_node, tag_tree_size. pose proof (u32_range (tag_tree_size_loop tt_fuel w h 0 + 1)). lia. Qed.

Lemma costs_new_tree w h :
  costs (new_tree w h) (tree_cost w h) (λ t, t = replicate (Z.to_nat (tag_tree_size w h)) (mkNode 0 0)).
Proof.
  unfold new_tree, tag_tree_init. rewrite <- (Z.add_0_r (tree_cost w h)). pose proof (tree_cost_nonneg w h).
  eapply costs_bind; [done|done| |].
  - rewrite <- (Z.add_0_r (tree_cost w h)). eapply costs_bind; [done|done|by apply costs_alloc|].
    intros [a|] [? E]; [|done]. by apply (costs_ret _ (λ t, is_Some t)).
  - intros [t|] [? E]; [|done]. unfold tag_tree_zero. rewrite length_replicate, (proj2 (Nat.leb_le _ _)) by done.
    apply costs_ret. by rewrite drop_ge, app_nil_r by (by rewrite length_replicate).
Qed.

Definition band_cost (g : Z * Z) : Z :=
  if negb (g.1 =? 0) && negb (g.2 =? 0) then tree_cost g.1 g.2 + (tree_cost g.1 g.2 + sizeof_blk * g.1 * g.2) else 0.

(** The state of a band after building: its own grid of fresh blocks, with trees of
    the grid's size. *)
Record grid_built (w h : Z) (pb : pband_) : Prop := {
  gb_ok : grid_ok w h;
  gb_incl : length (pb_incl pb) = Z.to_nat (tag_tree_size w h);
  gb_zbp : length (pb_zbp pb) = Z.to_nat (tag_tree_size w h);
  gb_fresh : fresh_band (Z.to_nat (w * h)) pb
}.
Definition pband_built (g : Z * Z) (pb : pband_) : Prop :=
  if negb (g.1 =? 0) && negb (g.2 =? 0) then grid_built g.1 g.2 pb else pb = mkPband [] [] [].

Lemma fresh_nodes_replicate n k : (n ≤ k)%nat → fresh_nodes n (replicate k (mkNode 0 0)).
Proof. intros H. split; [by rewrite length_replicate|]. by apply Forall_replicate. Qed.

Lemma costs_fill_pband stale pb cbw cbh w h :
  1 ≤ w → 1 ≤ h →
  costs (fill_pband stale pb cbw cbh w h) (tree_cost w h + (tree_cost w h + sizeof_blk * w * h))
    (λ p, grid_built w h p ∧ blk_coord <$> pb_blk p = blk_extent pb cbw cbh w <$> seqZ 0 (w * h)).
Proof.
  intros Hw Hh. pose proof (tree_cost_nonneg w h). apply costs_small. intros Hb.
  assert (grid_ok w h) as Hg by (unfold BUFSIZE, sizeof_blk, grid_ok in *; split_and!; nia).
  destruct (tag_tree_size_spec w h Hg) as [_ Hs]. pose proof Hg as (_ & _ & Hp).
  unfold sizeof_blk in *. unfold fill_pband.
  eapply costs_bind; [done|nia|apply costs_new_tree|]. intros ti ->.
  eapply costs_bind; [done|nia|apply costs_new_tree|]. intros tz ->.
  rewrite <- (Z.add_0_r (48 * w * h)). unfold sizeof_blk.
  rewrite (u64_small (48 * w * h)) by (unfold BUFSIZE in *; nia).
  eapply costs_bind; [nia|done|apply costs_alloc; nia|]. intros [off|] [? E]; [|done].
  apply costs_ret. rewrite u32_small by nia. split; [|cbn; by rewrite <- list_fmap_compose].
  split; [done|cbn; by rewrite length_replicate..|]. split; cbn [pb_incl pb_zbp pb_blk].
  - apply fresh_nodes_replicate. lia.
  - apply fresh_nodes_replicate. lia.
  - by rewrite length_fmap, length_seqZ.
  - apply Forall_fmap, Forall_true. by intros cb.
Qed.

Definition Zsum (l : list Z) : Z := foldr Z.add 0 l.
Lemma Zsum_nonneg l : Forall (λ x, 0 ≤ x) l → 0 ≤ Zsum l.
Proof. induction 1 as [|x l Hx _ IH]; [done|]. change (Zsum (x :: l)) with (x + Zsum l). lia. Qed.

(** The code-block grid of band [b] of a precinct. *)
Definition grid_of (pc : geometry) (dir num_bands cbw cbh b : Z) : Z * Z :=
  let pb := pband_extent pc dir (if num_bands =? 1 then 0 else b + 1) in
  (blocks_along (x0 pb) (x1 pb) cbw, blocks_along (y0 pb) (y1 pb) cbh).

Lemma blocks_along_nonneg v0 v1 cb : 0 ≤ blocks_along v0 v1 cb.
Proof. unfold blocks_along. destruct (_ <? _); [apply u32_range|done]. Qed.

Lemma band_cost_nonneg g : 0 ≤ g.1 → 0 ≤ g.2 → 0 ≤ band_cost g.
Proof. intros. unfold band_cost, sizeof_blk. pose proof (tree_cost_nonneg g.1 g.2). destruct (_ && _); nia. Qed.

Definition bands_cost (pc : geometry) (dir num_bands cbw cbh : Z) (bs : list Z) : Z :=
  Zsum (band_cost ∘ grid_of pc dir num_bands cbw cbh <$> bs).

Lemma bands_cost_nonneg pc dir nb cbw cbh bs : 0 ≤ bands_cost pc dir nb cbw cbh bs.
Proof.
  apply Zsum_nonneg, Forall_fmap, Forall_true. intros b. cbn. apply band_cost_nonneg; apply blocks_along_nonneg.
Qed.

(** The extents of its code-blocks. *)
Definition cells_of (pc : geometry) (dir num_bands cbw cbh b : Z) : list geometry :=
  let pb := pband_extent pc dir (if num_bands =? 1 then 0 else b + 1) in
  let g := grid_of pc dir num_bands cbw cbh b in
  if negb (g.1 =? 0) && negb (g.2 =? 0) then blk_extent pb cbw cbh g.1 <$> seqZ 0 (g.1 * g.2) else [].
Definition has_cells (cells : list geometry) (pb : pband_) : Prop := blk_coord <$> pb_blk pb = cells.

Lemma costs_new_pbands stale n b pc dir nb cbw cbh g0 :
  let grids := grid_of pc dir nb cbw cbh <$> seqZ b (Z.of_nat n) in
  costs (new_pbands stale n b pc dir nb cbw cbh true g0) (bands_cost pc dir nb cbw cbh (seqZ b (Z.of_nat n)))
    (λ r, (Forall2 pband_built grids r.1 ∧ r.2 = default g0 (last grids))
          ∧ Forall2 has_cells (cells_of pc dir nb cbw cbh <$> seqZ b (Z.of_nat n)) r.1).
Proof.
  cbn zeta. revert b g0. induction n as [|n IH]; intros b g0; cbn [new_pbands]; [by apply costs_ret|].
  rewrite seqZ_cons, Nat2Z.inj_succ, Z.pred_succ by lia. cbn zeta. cbn [fmap list_fmap].
  set (i := if nb =? 1 then 0 else b + 1). set (pb := pband_extent pc dir i).
  set (g := (blocks_along (x0 pb) (x1 pb) cbw, blocks_along (y0 pb) (y1 pb) cbh)).
  change (grid_of pc dir nb cbw cbh b) with g.
  change (bands_cost pc dir nb cbw cbh (b :: seqZ (Z.succ b) (Z.of_nat n)))
    with (band_cost g + bands_cost pc dir nb cbw cbh (seqZ (Z.succ b) (Z.of_nat n))).
  pose proof (blocks_along_nonneg (x0 pb) (x1 pb) cbw) as Hw. pose proof (blocks_along_nonneg (y0 pb) (y1 pb) cbh) as Hh.
  eapply (costs_bind _ _ _ _ (λ p, pband_built g p ∧ has_cells (cells_of pc dir nb cbw cbh b) p));
    [by apply band_cost_nonneg|apply bands_cost_nonneg| |].
  - unfold band_cost, pband_built, cells_of, has_cells. change (grid_of pc dir nb cbw cbh b) with g. cbn [g fst snd]. destruct (Z.eqb_spec (blocks_along (x0 pb) (x1 pb) cbw) 0),
      (Z.eqb_spec (blocks_along (y0 pb) (y1 pb) cbh) 0); cbn [negb andb]; try by apply costs_ret.
    apply (costs_fill_pband stale pb cbw cbh); lia.
  - intros p [Hp Hc]. rewrite <- (Z.add_0_r (bands_cost _ _ _ _ _ _)). rewrite Z.add_1_r.
    eapply costs_bind; [apply bands_cost_nonneg|done|apply IH|]. intros [l g'] [[Hl Hg] Hcs]. cbn [fst snd] in *.
    apply costs_ret. cbn [fst snd]. split; [|by constructor]. split; [by constructor|]. rewrite Hg.
    rewrite last_cons. by destruct (last _).
Qed.

(** A precinct as built. *)
Record prec_built (coc : coc_marker) (r : Z) (rc : geometry) (npw ppx ppy cbw cbh dir nb np : Z) (p : prec_) : Prop := {
  pb_extent : pr_coord p = prec_extent rc npw ppx ppy np;
  pb_res : res_num p = r;
  pb_nb : pr_num_bands p = nb;
  pb_bands : Forall2 pband_built (grid_of (pr_coord p) dir nb cbw cbh <$> seqZ 0 nb) (pr_pband p);
  pb_cells : Forall2 has_cells (cells_of (pr_coord p) dir nb cbw cbh <$> seqZ 0 nb) (pr_pband p);
  pb_grid : (ncbw p, ncbh p) = default (0, 0) (last (grid_of (pr_coord p) dir nb cbw cbh <$> seqZ 0 nb));
  pb_sop : use_SOP p = coc_use_SOP coc;
  pb_eph : use_EPH p = coc_use_EPH coc
}.

Definition prec_cost (rc : geometry) (npw ppx ppy cbw cbh dir nb np : Z) : Z :=
  sizeof_pband * nb + bands_cost (prec_extent rc npw ppx ppy np) dir nb cbw cbh (seqZ 0 nb).

Lemma prec_cost_nonneg rc npw ppx ppy cbw cbh dir nb np : 0 ≤ nb → 0 ≤ prec_cost rc npw ppx ppy cbw cbh dir nb np.
Proof.
  intros. unfold prec_cost, sizeof_pband.
  pose proof (bands_cost_nonneg (prec_extent rc npw ppx ppy np) dir nb cbw cbh (seqZ 0 nb)). lia.
Qed.

Lemma costs_new_prec stale coc r rc npw ppx ppy cbw cbh dir nb np :
  0 ≤ nb →
  costs (new_prec stale coc r rc npw ppx ppy cbw cbh dir nb np) (prec_cost rc npw ppx ppy cbw cbh dir nb np)
    (prec_built coc r rc npw ppx ppy cbw cbh dir nb np).
Proof.
  intros Hnb. unfold new_prec, prec_cost. cbn zeta. set (pc := prec_extent rc npw ppx ppy np).
  eapply costs_bind; [unfold sizeof_pband; lia|apply bands_cost_nonneg|apply costs_alloc; unfold sizeof_pband; lia|].
  intros [a|] [? E]; [|done]. rewrite bool_decide_true by (by eexists).
  rewrite <- (Z.add_0_r (bands_cost _ _ _ _ _ _)).
  pose proof (costs_new_pbands stale (Z.to_nat nb) 0 pc dir nb cbw cbh (0, 0)) as Hp. cbn zeta in Hp.
  rewrite Z2Nat.id in Hp by done.
  eapply costs_bind; [apply bands_cost_nonneg|done|exact Hp|]. intros [l [w h]] [[Hl Hg] Hcs]. cbn [fst snd] in *.
  apply costs_ret. by split.
Qed.

Lemma costs_new_precs n np mk (c : Z → Z) (Q : Z → prec_ → Prop) :
  (∀ i, 0 ≤ c i) → (∀ i, costs (mk i) (c i) (Q i)) →
  costs (new_precs n np mk) (Zsum (c <$> seqZ np (Z.of_nat n))) (Forall2 Q (seqZ np (Z.of_nat n))).
Proof.
  intros Hc Hm. revert np. induction n as [|n IH]; intros np; cbn [new_precs]; [apply costs_ret; constructor|].
  rewrite seqZ_cons, Nat2Z.inj_succ, Z.pred_succ by lia. cbn [fmap list_fmap Zsum foldr].
  assert (0 ≤ Zsum (c <$> seqZ (Z.succ np) (Z.of_nat n))) by (apply Zsum_nonneg, Forall_fmap, Forall_true; apply Hc).
  eapply costs_bind; [apply Hc|done|apply Hm|]. intros p Hp. rewrite Z.add_1_r.
  fold (Zsum (c <$> seqZ (Z.succ np) (Z.of_nat n))). rewrite <- (Z.add_0_r (Zsum _)).
  eapply costs_bind; [done|done|apply IH|]. intros l Hl. apply costs_ret. by constructor.
Qed.

Lemma band_extent_ret tc rc dir nb i next :
  dir = BOTH ∨ dir = HORZ ∨ dir = VERT ∨ is_Some next → ∃ g, band_extent tc rc dir nb i next = Ret g.
Proof.
  intros H. unfold band_extent. cbn zeta. destruct (Z.eqb_spec dir HORZ); [by eexists|].
  destruct (Z.eqb_spec dir VERT); [by eexists|]. destruct (Z.eqb_spec dir BOTH); [by eexists|].
  destruct next as [nx|]; [|by destruct H as [?|[?|[?|[? ?]]]]]. destruct (negb _); by eexists.
Qed.

Lemma costs_new_bands n b tc rc dir nb num next bands :
  dir = BOTH ∨ dir = HORZ ∨ dir = VERT ∨ is_Some next → 0 ≤ b → b + Z.of_nat n ≤ Z.of_nat (length bands) →
  costs (new_bands n b tc rc dir nb num next bands) 0 (λ l, length l = length bands).
Proof.
  intros Hd. revert b bands. induction n as [|n IH]; intros b bands Hb Hl; cbn [new_bands]; [by apply costs_ret|].
  destruct (band_extent_ret tc rc dir nb (if num =? 1 then 0 else b + 1) next Hd) as [g Hg]. cbn zeta. rewrite Hg.
  rewrite arr_set_Some by lia. eapply costs_weaken; [apply IH; rewrite ?length_insert; lia|].
  intros l. by rewrite length_insert.
Qed.

(** ** A whole component *)
#[global] Instance prec_inhabited : Inhabited prec_ := populate (mkPrec [] (mkGeo 0 0 0 0) 0 0 0 0 0 0).

Section Component.
Context (stale : Z → blk_) (tcg : geometry) (coc : coc_marker) (dfs : dfs_marker).
Notation NL := (coc_NL coc).

(** The inputs of resolution [r]. *)
Definition dir_of (r : Z) : Z := dfs_type dfs !!! Z.to_nat (NL - r + 1).
Definition hd_of (r : Z) : Z := hor_depth dfs !!! Z.to_nat (NL - r).
Definition vd_of (r : Z) : Z := ver_depth dfs !!! Z.to_nat (NL - r).
Definition pw_of (r : Z) : Z := coc_prw coc !!! Z.to_nat r.
Definition ph_of (r : Z) : Z := coc_prh coc !!! Z.to_nat r.
Definition bands_of (r : Z) : Z := if negb (dir_of r =? BOTH) || (r =? 0) then 1 else 3.
Definition rc_of (r : Z) : geometry := res_extent tcg (2 ^ hd_of r) (2 ^ vd_of r).
Definition npw_of (r : Z) : Z := precincts_along (x0 (rc_of r)) (x1 (rc_of r)) (2 ^ pw_of r).
Definition nph_of (r : Z) : Z := precincts_along (y0 (rc_of r)) (y1 (rc_of r)) (2 ^ ph_of r).

(** What a parsed main header gives, with at most four levels: at five the builder
    reads past [dfs->type]. *)
Record build_ok : Prop := {
  bo_NL : 0 ≤ NL < MAX_DWT_LEVEL;
  bo_prw : length (coc_prw coc) = 6%nat ∧ Forall (λ x, 0 ≤ x < 16) (coc_prw coc);
  bo_prh : length (coc_prh coc) = 6%nat ∧ Forall (λ x, 0 ≤ x < 16) (coc_prh coc);
  bo_hor : length (hor_depth dfs) = 6%nat ∧ Forall (λ x, 0 ≤ x ≤ MAX_DWT_LEVEL) (hor_depth dfs);
  bo_ver : length (ver_depth dfs) = 6%nat ∧ Forall (λ x, 0 ≤ x ≤ MAX_DWT_LEVEL) (ver_depth dfs);
  bo_type : length (dfs_type dfs) = 6%nat;
  bo_dir r : 1 ≤ r ≤ NL → dir_of r = BOTH ∨ dir_of r = HORZ ∨ dir_of r = VERT;
  bo_cb : 0 ≤ coc_cbw coc < 32 ∧ 0 ≤ coc_cbh coc < 32
}.

Definition prec_cost_of (r np : Z) : Z :=
  prec_cost (rc_of r) (npw_of r) (2 ^ pw_of r) (2 ^ ph_of r) (2 ^ coc_cbw coc) (2 ^ coc_cbh coc) (dir_of r) (bands_of r) np.
Definition res_cost (r : Z) : Z :=
  sizeof_prec * npw_of r * nph_of r + Zsum (prec_cost_of r <$> seqZ 0 (npw_of r * nph_of r)).

(** Resolution [r] as built. *)
Record res_built (r : Z) (rp : res_) : Prop := {
  rb_idx : res_idx rp = r;
  rb_coord : res_coord rp = rc_of r;
  rb_npw : npw rp = npw_of r;
  rb_nph : nph rp = nph_of r;
  rb_dir : transform_direction rp = dir_of r;
  rb_nb : res_num_bands rp = bands_of r;
  rb_band : length (band rp) = 3%nat;
  rb_prec : Forall2 (prec_built coc r (rc_of r) (npw_of r) (2 ^ pw_of r) (2 ^ ph_of r) (2 ^ coc_cbw coc)
                       (2 ^ coc_cbh coc) (dir_of r) (bands_of r))
              (seqZ 0 (npw_of r * nph_of r)) (res_prec rp)
}.

Lemma npw_range r : 0 ≤ npw_of r ∧ 0 ≤ nph_of r.
Proof. unfold npw_of, nph_of, precincts_along. split; apply u32_range. Qed.

Lemma bands_range r : bands_of r = 1 ∨ bands_of r = 3.
Proof. unfold bands_of. destruct (_ || _); auto. Qed.

Lemma prec_cost_of_nonneg r np : 0 ≤ prec_cost_of r np.
Proof. apply prec_cost_nonneg. destruct (bands_range r); lia. Qed.

Lemma res_cost_nonneg r : 0 ≤ res_cost r.
Proof.
  unfold res_cost, sizeof_prec. destruct (npw_range r).
  pose proof (Zsum_nonneg (prec_cost_of r <$> seqZ 0 (npw_of r * nph_of r))).
  assert (0 ≤ Zsum (prec_cost_of r <$> seqZ 0 (npw_of r * nph_of r))); [|nia].
  apply H1, Forall_fmap, Forall_true. apply prec_cost_of_nonneg.
Qed.

Lemma lookup_total_some {A} `{Inhabited A} (l : list A) i :
  (i < length l)%nat → l !! i = Some (l !!! i).
Proof. intros Hi. destruct (lookup_lt_is_Some_2 l i Hi) as [x Hx]. by rewrite Hx, (list_lookup_total_correct _ _ _ Hx). Qed.

Lemma Forall_lookup_total {A} `{Inhabited A} (P : A → Prop) (l : list A) i : Forall P l → (i < length l)%nat → P (l !!! i).
Proof. intros HP Hi. eapply Forall_lookup_1; [exact HP|]. by apply lookup_total_some. Qed.

Lemma costs_new_res tc r :
  build_ok → tc_coord tc = tcg → length (tc_res tc) = 6%nat → Forall (λ rp, length (band rp) = 3%nat) (tc_res tc) →
  0 ≤ r ≤ NL → costs (new_res stale tc coc dfs r) (res_cost r) (res_built r).
Proof.
  intros [HNL [Lw Fw] [Lh Fh] [Lx Fx] [Ly Fy] Lt Hdir Hcb] Htc Hlen Hband Hr. unfold MAX_DWT_LEVEL in *.
  pose proof (res_cost_nonneg r) as Hc0. apply costs_small. intros Hsm. unfold new_res. cbn zeta.
  eapply costs_then; [done|apply costs_at; [lia|apply lookup_total_some; lia]|intros old ->].
  eapply costs_then; [done|apply costs_at; [lia|apply lookup_total_some; lia]|intros dir ->].
  eapply costs_then; [done|apply costs_at; [lia|apply lookup_total_some; lia]|intros hd ->].
  eapply costs_then; [done|apply costs_at; [lia|apply lookup_total_some; lia]|intros vd ->].
  fold (dir_of r) (hd_of r) (vd_of r). fold (bands_of r).
  assert (0 ≤ hd_of r ≤ 5) by (apply (Forall_lookup_total _ _ _ Fx); lia).
  assert (0 ≤ vd_of r ≤ 5) by (apply (Forall_lookup_total _ _ _ Fy); lia).
  do 2 (eapply costs_then; [done|apply costs_shl; lia|intros ? ->]). rewrite Htc. fold (rc_of r).
  eapply costs_then; [done|apply costs_at; [lia|apply lookup_total_some; lia]|intros pw ->].
  eapply costs_then; [done|apply costs_at; [lia|apply lookup_total_some; lia]|intros ph ->]. fold (pw_of r) (ph_of r).
  assert (0 ≤ pw_of r < 16) by (apply (Forall_lookup_total _ _ _ Fw); lia).
  assert (0 ≤ ph_of r < 16) by (apply (Forall_lookup_total _ _ _ Fh); lia).
  do 2 (eapply costs_then; [done|apply costs_shl; lia|intros ? ->]). fold (npw_of r) (nph_of r).
  eapply costs_then; [done| |].
  { apply costs_new_bands; [|lia|].
    - destruct (decide (r = 0)) as [->|]; [|destruct (Hdir r) as [?|[?|?]]; auto; lia].
      do 3 right. apply lookup_lt_is_Some_2. lia.
    - rewrite (Forall_lookup_total _ _ _ Hband) by lia. destruct (bands_range r) as [-> | ->]; lia. }
  intros bands Hb. rewrite (Forall_lookup_total _ _ _ Hband) in Hb by lia. destruct (npw_range r) as [Hpw Hph].
  assert (0 ≤ Zsum (prec_cost_of r <$> seqZ 0 (npw_of r * nph_of r))) as Hz
    by (apply Zsum_nonneg, Forall_fmap, Forall_true; apply prec_cost_of_nonneg).
  unfold res_cost in *. unfold sizeof_prec, BUFSIZE in *. rewrite (u64_small (48 * _ * _)) by nia.
  eapply costs_bind; [nia|done|apply costs_alloc; nia|]. intros a Ha. rewrite bool_decide_true by done.
  do 2 (eapply costs_then; [done|apply costs_shl; lia|intros ? ->]). cbn [orb].
  eapply (costs_then _ _ _ (λ _, True)); [done|by apply costs_ret|intros _ _]. rewrite u32_small by nia.
  pose proof (costs_new_precs (Z.to_nat (npw_of r * nph_of r)) 0 (new_prec stale coc r (rc_of r) (npw_of r) (2 ^ pw_of r)
    (2 ^ ph_of r) (2 ^ coc_cbw coc) (2 ^ coc_cbh coc) (dir_of r) (bands_of r)) (prec_cost_of r) _ (prec_cost_of_nonneg r)
    (λ i, costs_new_prec stale coc r (rc_of r) (npw_of r) (2 ^ pw_of r) (2 ^ ph_of r) (2 ^ coc_cbw coc) (2 ^ coc_cbh coc)
            (dir_of r) (bands_of r) i ltac:(destruct (bands_range r); lia))) as Hp.
  rewrite Z2Nat.id in Hp by nia. rewrite <- (Z.add_0_r (Zsum _)). eapply costs_bind; [done|done|exact Hp|].
  intros precs Hps. apply costs_ret. by split.
Qed.

(** The component as built: resolutions [0..NL] from the header, the others as they were. *)
Record tcomp_built (tc tc' : tcomp_) : Prop := {
  tb_res r : 0 ≤ r ≤ NL → ∃ rp, tc_res tc' !! Z.to_nat r = Some rp ∧ res_built r rp;
  tb_rest r : NL < r → tc_res tc' !! Z.to_nat r = tc_res tc !! Z.to_nat r;
  tb_len : length (tc_res tc') = 6%nat;
  tb_same : tc_idx tc' = tc_idx tc ∧ tc_coord tc' = tc_coord tc ∧ sub_x tc' = sub_x tc ∧ sub_y tc' = sub_y tc
}.

Definition tcomp_cost : Z := Zsum (res_cost <$> reverse (seqZ 0 (NL + 1))).

Lemma costs_build_ress n tc :
  build_ok → tc_coord tc = tcg → length (tc_res tc) = 6%nat → Forall (λ rp, length (band rp) = 3%nat) (tc_res tc) →
  Z.of_nat n ≤ NL + 1 →
  costs (build_ress stale n tc coc dfs) (Zsum (res_cost <$> reverse (seqZ 0 (Z.of_nat n))))
    (λ tc', (∀ r, 0 ≤ r < Z.of_nat n → ∃ rp, tc_res tc' !! Z.to_nat r = Some rp ∧ res_built r rp)
            ∧ (∀ r, Z.of_nat n ≤ r → tc_res tc' !! Z.to_nat r = tc_res tc !! Z.to_nat r)
            ∧ length (tc_res tc') = 6%nat
            ∧ tc_idx tc' = tc_idx tc ∧ tc_coord tc' = tc_coord tc ∧ sub_x tc' = sub_x tc ∧ sub_y tc' = sub_y tc).
Proof.
  intros Hok. revert tc. induction n as [|n IH]; intros tc Htc Hlen Hband Hn; cbn [build_ress].
  { apply costs_ret. split_and!; try done. intros r Hr. lia. }
  rewrite Nat2Z.inj_succ, <- Z.add_1_r, seqZ_app, reverse_app by lia.
  cbn [seqZ]. change (reverse (seqZ (0 + Z.of_nat n) 1)) with [0 + Z.of_nat n]. rewrite Z.add_0_l. cbn [app fmap list_fmap].
  change (Zsum (?x :: ?l)) with (x + Zsum l).
  eapply costs_bind; [apply res_cost_nonneg| |apply costs_new_res; try done; lia|].
  { apply Zsum_nonneg, Forall_fmap, Forall_true. apply res_cost_nonneg. }
  intros rp Hrp. set (tc1 := set_ress (<[n := rp]> (tc_res tc)) tc).
  eapply costs_weaken; [apply (IH tc1)|].
  - done.
  - cbn. by rewrite length_insert.
  - cbn. apply Forall_insert; [done|]. apply (rb_band _ _ Hrp).
  - lia.
  - intros tc' (H1 & H2 & H3 & H4). pose proof (bo_NL Hok). unfold MAX_DWT_LEVEL in *. split_and!; try apply H4; try done.
    + intros r Hr. destruct (decide (r = Z.of_nat n)) as [->|]; [|apply H1; lia]. exists rp. split; [|done].
      rewrite H2 by lia. cbn. rewrite Nat2Z.id. apply list_lookup_insert_eq. lia.
    + intros r Hr. rewrite H2 by lia. cbn. apply list_lookup_insert_ne. lia.
Qed.

Lemma costs_build tc :
  build_ok → tc_coord tc = tcg → length (tc_res tc) = 6%nat → Forall (λ rp, length (band rp) = 3%nat) (tc_res tc) →
  costs (parepare_tcomp_structure stale tc coc dfs) tcomp_cost (tcomp_built tc).
Proof.
  intros Hok Htc Hlen Hband. pose proof (bo_NL Hok). unfold parepare_tcomp_structure, tcomp_cost.
  pose proof (costs_build_ress (Z.to_nat (NL + 1)) tc Hok Htc Hlen Hband ltac:(lia)) as Hc.
  rewrite Z2Nat.id in Hc by lia. eapply costs_weaken; [exact Hc|]. intros tc' (H1 & H2 & H3 & H4).
  split; [intros r Hr; apply H1; lia|intros r Hr; apply H2; lia|done|done].
Qed.

End Component.

(** ** Extents in the standard's terms *)
Lemma cdi_ceil a b : 0 ≤ a → 1 ≤ b → a + b ≤ 2147483648 → cdi a b = ceildiv_int a b.
Proof.
  intros Ha Hb Hs. unfold cdi, ceildiv_int. rewrite Z.quot_div_nonneg by lia. apply i32_small.
  assert (0 ≤ (a + (b - 1)) / b ≤ a + (b - 1)) by (split; [apply Z.div_pos; lia|apply Z.div_le_upper_bound; nia]). lia.
Qed.

Definition small_geo (g : geometry) : Prop :=
  0 ≤ x0 g ≤ x1 g ∧ x1 g < 1073741824 ∧ 0 ≤ y0 g ≤ y1 g ∧ y1 g < 1073741824.

Lemma pow2_small k n : 0 ≤ k ≤ n → 1 ≤ 2 ^ k ≤ 2 ^ n.
Proof. intros Hk. split; [change 1 with (2 ^ 0)|]; apply Z.pow_le_mono_r; lia. Qed.

Lemma ceildiv_small a b : 0 ≤ a → 1 ≤ b → 0 ≤ ceildiv_int a b ≤ a.
Proof.
  intros Ha Hb. unfold ceildiv_int. split; [apply Z.div_pos; lia|].
  assert ((a + (b - 1)) / b < a + 1) by (apply Z.div_lt_upper_bound; nia). lia.
Qed.

Lemma res_extent_std tc dx dy :
  small_geo tc → 1 ≤ dx ≤ 65536 → 1 ≤ dy ≤ 65536 →
  res_extent tc dx dy = mkGeo (ceildiv_int (x0 tc) dx) (ceildiv_int (y0 tc) dy) (ceildiv_int (x1 tc) dx) (ceildiv_int (y1 tc) dy)
  ∧ small_geo (res_extent tc dx dy).
Proof.
  intros (? & ? & ? & ?) Hx Hy. unfold res_extent. rewrite !cdi_ceil by lia. split; [done|].
  pose proof (ceildiv_small (x0 tc) dx). pose proof (ceildiv_small (x1 tc) dx).
  pose proof (ceildiv_small (y0 tc) dy). pose proof (ceildiv_small (y1 tc) dy).
  pose proof (ceildiv_le (x0 tc) (x1 tc) dx). pose proof (ceildiv_le (y0 tc) (y1 tc) dy).
  unfold small_geo. cbn. lia.
Qed.

Lemma precincts_along_std v0 v1 p :
  0 ≤ v0 → v1 < 1073741824 → 1 ≤ p ≤ 65536 →
  precincts_along v0 v1 p = if v0 <? v1 then ceildiv_int v1 p - v0 / p else 0.
Proof.
  intros H0 H1 Hp. unfold precincts_along. destruct (Z.ltb_spec v0 v1); [|done].
  rewrite cdi_ceil, Z.quot_div_nonneg by lia. apply u32_small. pose proof (ceildiv_small v1 p).
  pose proof (ceildiv_le v0 v1 p ltac:(lia) ltac:(lia)). pose proof (ceildiv_mod v0 p ltac:(lia)) as Hm.
  assert (0 ≤ v0 / p) by (apply Z.div_pos; lia). destruct (_ =? 0); lia.
Qed.

Lemma level_extents g coc dfs r :
  build_ok coc dfs → small_geo g → 0 ≤ r ≤ coc_NL coc →
  let dx := 2 ^ hd_of coc dfs r in
  let dy := 2 ^ vd_of coc dfs r in
  let rc := rc_of g coc dfs r in
  rc = mkGeo (ceildiv_int (x0 g) dx) (ceildiv_int (y0 g) dy) (ceildiv_int (x1 g) dx) (ceildiv_int (y1 g) dy)
  ∧ npw_of g coc dfs r = (if x0 rc <? x1 rc then ceildiv_int (x1 rc) (2 ^ pw_of coc r) - x0 rc / 2 ^ pw_of coc r else 0)
  ∧ nph_of g coc dfs r = (if y0 rc <? y1 rc then ceildiv_int (y1 rc) (2 ^ ph_of coc r) - y0 rc / 2 ^ ph_of coc r else 0).
Proof.
  intros [HNL [Lw Fw] [Lh Fh] [Lx Fx] [Ly Fy] _ _ _] Hg Hr. unfold MAX_DWT_LEVEL in *. cbn zeta.
  assert (0 ≤ hd_of coc dfs r ≤ 5) by (apply (Forall_lookup_total _ _ _ Fx); lia).
  assert (0 ≤ vd_of coc dfs r ≤ 5) by (apply (Forall_lookup_total _ _ _ Fy); lia).
  assert (0 ≤ pw_of coc r < 16) by (apply (Forall_lookup_total _ _ _ Fw); lia).
  assert (0 ≤ ph_of coc r < 16) by (apply (Forall_lookup_total _ _ _ Fh); lia).
  pose proof (pow2_small (hd_of coc dfs r) 5 ltac:(lia)). pose proof (pow2_small (vd_of coc dfs r) 5 ltac:(lia)).
  pose proof (pow2_small (pw_of coc r) 15 ltac:(lia)). pose proof (pow2_small (ph_of coc r) 15 ltac:(lia)).
  change (2 ^ 5) with 32 in *. change (2 ^ 15) with 32768 in *.
  destruct (res_extent_std g (2 ^ hd_of coc dfs r) (2 ^ vd_of coc dfs r) Hg ltac:(lia) ltac:(lia)) as [E Hs].
  fold (rc_of g coc dfs r) in E, Hs. split; [done|]. destruct Hs as (? & ? & ? & ?).
  unfold npw_of, nph_of. split; apply precincts_along_std; lia.
Qed.

(** ** Precincts partition their resolution *)
Definition inside (g : geometry) (x y : Z) : Prop := x0 g ≤ x < x1 g ∧ y0 g ≤ y < y1 g.

(** Along one axis: [v] lies in slot [k] exactly when [v / p] is the [k]th. *)
Lemma slot_spec v0 v1 p k v :
  0 ≤ v0 → v1 < 1073741824 → 1 ≤ p ≤ 65536 → 0 ≤ k → k * p ≤ 1073741824 →
  v0 ≤ v < v1 →
  i32 (Z.max (u32 v0) (u32 (p * u32 (k + u32 v0 / p)))) ≤ v
    < i32 (Z.min (u32 v1) (u32 (p * u32 (k + 1 + u32 v0 / p))))
  ↔ v / p = k + v0 / p.
Proof.
  intros H0 H1 Hp Hk Hkp Hv. rewrite (u32_small v0), (u32_small v1) by lia.
  assert (0 ≤ v0 / p ≤ v0) by (split; [apply Z.div_pos; lia|apply Z.div_le_upper_bound; nia]).
  pose proof (Z.mul_div_le v0 p ltac:(lia)). rewrite !(u32_small (_ + v0 / p)) by nia. rewrite !u32_small by nia.
  rewrite !i32_small by nia. pose proof (Z.div_mod v p ltac:(lia)). pose proof (Z.mod_pos_bound v p ltac:(lia)).
  split.
  - intros [Ha Hb]. assert (p * (k + v0 / p) ≤ v < p * (k + 1 + v0 / p)) by lia. nia.
  - intros E. assert (p * (k + v0 / p) ≤ v < p * (k + 1 + v0 / p)) by nia. lia.
Qed.

Lemma slot_bound v0 v1 p v :
  0 ≤ v0 → v1 < 1073741824 → 1 ≤ p ≤ 65536 → v0 ≤ v < v1 →
  0 ≤ v / p - v0 / p < precincts_along v0 v1 p.
Proof.
  intros H0 H1 Hp Hv. rewrite precincts_along_std by lia. rewrite (proj2 (Z.ltb_lt v0 v1)) by lia.
  pose proof (Z.div_le_mono v0 v p ltac:(lia) ltac:(lia)). split; [lia|].
  assert (v / p < ceildiv_int v1 p); [|lia]. apply Z.div_lt_upper_bound; [lia|].
  pose proof (ceildiv_bounds v1 p ltac:(lia)). lia.
Qed.

Lemma along_small v0 v1 p k :
  0 ≤ v0 → v1 < 1073741824 → 1 ≤ p ≤ 65536 → 0 ≤ k < precincts_along v0 v1 p → k * p ≤ 1073741824.
Proof.
  intros H0 H1 Hp. rewrite precincts_along_std by lia. destruct (Z.ltb_spec v0 v1); [|lia].
  assert (0 ≤ v0 / p) by (apply Z.div_pos; lia). pose proof (ceildiv_bounds v1 p ltac:(lia)). nia.
Qed.

Lemma prec_inside rc ppx ppy np x y :
  small_geo rc → 1 ≤ ppx ≤ 65536 → 1 ≤ ppy ≤ 65536 → inside rc x y →
  let w := precincts_along (x0 rc) (x1 rc) ppx in
  let h := precincts_along (y0 rc) (y1 rc) ppy in
  0 ≤ np < w * h →
  inside (prec_extent rc w ppx ppy np) x y
  ↔ x / ppx = np mod w + x0 rc / ppx ∧ y / ppy = np / w + y0 rc / ppy.
Proof.
  intros (Hx & Hx1 & Hy & Hy1) Hpx Hpy [Ix Iy] w h Hnp.
  assert (0 ≤ w ∧ 0 ≤ h) as [Hw Hh] by (unfold w, h, precincts_along; split; apply u32_range).
  assert (0 < w) by nia. pose proof (Z.mod_pos_bound np w ltac:(lia)).
  assert (0 ≤ np / w < h) by (split; [apply Z.div_pos; lia|apply Z.div_lt_upper_bound; lia]).
  unfold inside, prec_extent. cbn [Structs.x0 Structs.x1 Structs.y0 Structs.y1].
  rewrite (slot_spec (x0 rc) (x1 rc) ppx (np mod w) x), (slot_spec (y0 rc) (y1 rc) ppy (np / w) y); try lia.
  - apply (along_small (y0 rc) (y1 rc)); unfold h in *; lia.
  - apply (along_small (x0 rc) (x1 rc)); unfold w in *; lia.
Qed.

(** ** Code-blocks ready for the first packet *)
Lemma pbands_fresh g l pbs :
  1 ≤ g.1 → 1 ≤ g.2 → Forall (λ g', g' = g) l → Forall2 pband_built l pbs →
  Forall (grid_built g.1 g.2) pbs.
Proof.
  intros H1 H2 Hl. induction 1 as [|g' pb l' pbs' Hb _ IH]; [constructor|].
  apply Forall_cons in Hl as [-> Hl]. constructor; [|by apply IH]. unfold pband_built in Hb.
  by rewrite (proj2 (Z.eqb_neq g.1 0)), (proj2 (Z.eqb_neq g.2 0)) in Hb by lia.
Qed.

(** A precinct whose bands have the same grid: the block count the parser uses is
    each band's own, and everything is fresh. *)
Lemma prec_fresh coc r rc npw ppx ppy cbw cbh dir nb np p g :
  prec_built coc r rc npw ppx ppy cbw cbh dir nb np p → 1 ≤ nb → 1 ≤ g.1 → 1 ≤ g.2 →
  (∀ b, 0 ≤ b < nb → grid_of (pr_coord p) dir nb cbw cbh b = g) →
  (ncbw p, ncbh p) = g ∧ zlength (pr_pband p) = nb ∧ Forall (grid_built g.1 g.2) (pr_pband p).
Proof.
  intros [_ _ Hnb Hbands _ Hgrid _ _] Hn H1 H2 Hg.
  assert (Forall (λ g', g' = g) (grid_of (pr_coord p) dir nb cbw cbh <$> seqZ 0 nb)) as Hall.
  { apply Forall_fmap, Forall_forall. intros b Hb%elem_of_seqZ. apply Hg. lia. }
  assert ((ncbw p, ncbh p) = g) as Eg.
  { rewrite Hgrid. destruct (last _) as [g'|] eqn:El.
    - cbn. rewrite Forall_forall in Hall. by apply Hall, last_Some_elem_of.
    - apply last_None in El. apply fmap_nil_inv in El. apply (f_equal length) in El. rewrite length_seqZ in El. cbn in El. lia. }
  split; [done|]. split; [|by eapply pbands_fresh].
  apply Forall2_length in Hbands. rewrite length_fmap, length_seqZ in Hbands. unfold zlength. lia.
Qed.

(** ** Properties *)

(** The structure builder returns what the codestream describes.  For a main
    header with at most four decomposition levels, a component of non-negative
    extent below 2^30 and an arena with at least the structure's exact cost left,
    [parepare_tcomp_structure] returns, uses exactly that cost, and gives every
    resolution r <= NL the extent ceil(tc / 2^depth), the precinct counts
    ceil(x1/2^pw) - floor(x0/2^pw), and that many precincts, each built for its
    place; the component's other fields and resolutions are untouched. *)
Theorem structure_built stale coc dfs tc idx :
  build_ok coc dfs → small_geo (tc_coord tc) → length (tc_res tc) = 6%nat →
  Forall (λ rp, length (band rp) = 3%nat) (tc_res tc) →
  0 ≤ idx → idx + tcomp_cost (tc_coord tc) coc dfs ≤ BUFSIZE →
  ∃ tc', parepare_tcomp_structure stale tc coc dfs idx = Ret (tc', idx + tcomp_cost (tc_coord tc) coc dfs)
    ∧ tcomp_built (tc_coord tc) coc dfs tc tc'
    ∧ ∀ r, 0 ≤ r ≤ coc_NL coc →
        let g := tc_coord tc in
        let dx := 2 ^ hd_of coc dfs r in
        let dy := 2 ^ vd_of coc dfs r in
        let rc := rc_of g coc dfs r in
        rc = mkGeo (ceildiv_int (x0 g) dx) (ceildiv_int (y0 g) dy) (ceildiv_int (x1 g) dx) (ceildiv_int (y1 g) dy)
        ∧ npw_of g coc dfs r = (if x0 rc <? x1 rc then ceildiv_int (x1 rc) (2 ^ pw_of coc r) - x0 rc / 2 ^ pw_of coc r else 0)
        ∧ nph_of g coc dfs r = (if y0 rc <? y1 rc then ceildiv_int (y1 rc) (2 ^ ph_of coc r) - y0 rc / 2 ^ ph_of coc r else 0).
Proof.
  intros Hok Hg Hlen Hband H0 Hi.
  destruct (costs_build stale (tc_coord tc) coc dfs tc Hok eq_refl Hlen Hband idx H0 Hi) as (tc' & E & Hb).
  exists tc'. split; [done|]. split; [done|]. intros r Hr. cbn zeta. apply level_extents; done.
Qed.

(** Precincts partition the resolution.  Every sample of a resolution lies in
    exactly one of the npw*nph precincts the builder lays out, the one at its
    column and row of the precinct grid. *)
Theorem precincts_partition rc ppx ppy x y :
  small_geo rc → 1 ≤ ppx ≤ 65536 → 1 ≤ ppy ≤ 65536 → inside rc x y →
  let w := precincts_along (x0 rc) (x1 rc) ppx in
  let h := precincts_along (y0 rc) (y1 rc) ppy in
  ∃ np, 0 ≤ np < w * h ∧ inside (prec_extent rc w ppx ppy np) x y
    ∧ ∀ np', 0 ≤ np' < w * h → inside (prec_extent rc w ppx ppy np') x y → np' = np.
Proof.
  intros Hg Hpx Hpy Hin w h. pose proof Hg as (Hx & Hx1 & Hy & Hy1). pose proof Hin as [Ix Iy].
  pose proof (slot_bound (x0 rc) (x1 rc) ppx x ltac:(lia) ltac:(lia) Hpx Ix) as Bx.
  pose proof (slot_bound (y0 rc) (y1 rc) ppy y ltac:(lia) ltac:(lia) Hpy Iy) as By.
  fold w in Bx. fold h in By. set (i := x / ppx - x0 rc / ppx) in *. set (j := y / ppy - y0 rc / ppy) in *.
  assert (0 ≤ j * w + i < w * h) as Hnp by nia.
  assert ((j * w + i) mod w = i ∧ (j * w + i) / w = j) as [Em Ed].
  { split; [rewrite Z.add_comm, Z.mod_add, Z.mod_small by lia; lia|].
    rewrite Z.add_comm, Z.div_add, Z.div_small by lia. lia. }
  exists (j * w + i). split; [done|]. split.
  - apply prec_inside; try done. fold w. rewrite Em, Ed. lia.
  - intros np' Hnp' Hin'. apply prec_inside in Hin' as [E1 E2]; try done. fold w in E1, E2.
    rewrite (Z.div_mod np' w) by lia. assert (np' mod w = i) by lia. assert (np' / w = j) by lia. nia.
Qed.

(** C31: tag trees stay in their allocation.  For any code-block grid that fits the
    arena, every node [tag_tree_init] writes and every parent it stores is a node
    of the [tag_tree_size] allocated ones, parents lie behind their children, and
    the root is the last node. *)
Theorem tag_tree_in_bounds w h :
  grid_ok w h →
  let size := tag_tree_size w h in
  let '(links, root) := tag_tree_links tt_fuel 0 w h in
  root = size - 1 ∧ Forall (λ l, 0 ≤ l.1 < l.2 ∧ l.2 < size) links.
Proof.
  intros Hg. pose proof Hg as (Hw & Hh & Hp). assert (w ≤ 87381 ∧ h ≤ 87381) as [] by nia.
  destruct (links_bounds tt_fuel 0 w h Hg) as [R L]; [change (2 ^ Z.of_nat tt_fuel) with 8589934592; lia..|].
  destruct (tag_tree_size_spec w h Hg) as [-> _]. cbn zeta.
  destruct (tag_tree_links tt_fuel 0 w h) as [links root]. cbn [fst snd] in *. split; [lia|].
  eapply Forall_impl; [exact L|]. intros [a b]. cbn [fst snd]. lia.
Qed.

(** Code-block columns are masked, not reduced (finding).  The column of a
    code-block is computed as [cb & ncbw] where the raster position asks for
    [cb % ncbw]: in a band two 64-sample blocks wide the second block is given the
    extent of the first. *)
Theorem codeblock_column_masked :
  let pb := mkGeo 0 0 128 64 in
  blk_extent pb 64 64 2 1 = blk_extent pb 64 64 2 0 ∧ x0 (blk_extent pb 64 64 2 1) = 0 ∧ 1 mod 2 = 1.
Proof. vm_compute. done. Qed.

(** A 129 x 129 resolution in one precinct, 64 x 64 code-blocks. *)
Definition odd_extent : geometry := mkGeo 0 0 129 129.

(** One block count for three bands (finding).  [ncbw], [ncbh] belong to the
    precinct, and the last band's counts win: on a 129 x 129 resolution the HL and
    LH bands are built with two 64 x 64 code-blocks but the parser will read one
    block header per band, losing the others and the packet's framing. *)
Theorem last_band_grid_wins :
  match new_prec (λ _, demo_blk) coc0 1 odd_extent 1 32768 32768 64 64 BOTH 3 0 0 with
  | Ret (p, _) =>
      (λ pb, length (pb_blk pb)) <$> pr_pband p = [2; 2; 1]%nat ∧ nb_code_blocks p = 1%nat
  | _ => False
  end.
Proof. vm_compute. done. Qed.

(** The extra read of [dfs->type] (finding).  The direction of resolution 0 is
    read from [type[NL + 1]]; with five levels, the most the tables hold, that is
    one past the array, and building that resolution is undefined behaviour. *)
Theorem type_read_past_array stale tc dfs coc idx :
  length (dfs_type dfs) = 6%nat → coc_NL coc = MAX_DWT_LEVEL → new_res stale tc coc dfs 0 idx = UB.
Proof.
  intros Hl HN. unfold new_res. cbn zeta. rewrite HN. unfold mbind at 1, M_bind at 1, at_ at 1.
  destruct (tc_res tc !! _); [|done]. unfold mbind at 1, M_bind at 1, at_ at 1.
  rewrite (lookup_ge_None_2 (dfs_type dfs)); [done|]. rewrite Hl. vm_compute. lia.
Qed.

(** The same read below the array's end (finding): resolution 0 takes its direction from the
    entry behind the last level, which a stream latched before with more levels has left
    set, since DFS writes only its own entries.  The lowest band of 128 x 128 samples, four
    64 x 64 code-blocks, is then built as one block. *)
Definition one_level (behind : Z) : dfs_marker :=
  mkDfs 0 1 [0; BOTH; behind; 0; 0; 0] (zeros 6) (zeros 6) [0; 1; 1; 0; 0; 0] [0; 1; 1; 0; 0; 0].
Definition lowest_blocks (behind : Z) : option (list nat) :=
  match new_res (λ _, demo_blk) (mkTcomp (replicate 6 (mkRes (replicate 3 odd_extent) [] 0 odd_extent 0 0 0 0)) 0 (mkGeo 0 0 256 256) 1 1)
          (mkCoc 0 0 0 0 0 0 0 0 1 0 1 6 6 64 0 0 (replicate 6 15) (replicate 6 15) 0 0) (one_level behind) 0 0 with
  | Ret (rp, _) => Some (nb_code_blocks <$> res_prec rp)
  | _ => None
  end.
Theorem lowest_direction_stale : lowest_blocks 0 = Some [4%nat] ∧ lowest_blocks BOTH = Some [1%nat].
Proof. vm_compute. done. Qed.

(** ** Witnesses: the 32 x 16 component of [Progression] *)
Definition blank_res : res_ := mkRes (replicate 3 (mkGeo 0 0 0 0)) [] 0 (mkGeo 0 0 0 0) 0 0 0 0.
Definition blank_tcomp (g : geometry) : tcomp_ := mkTcomp (replicate 6 blank_res) 0 g 1 1.

Definition demo_coc5 (po : Z) : coc_marker :=
  mkCoc 0 0 0 0 0 0 0 po 1 0 5 4 4 64 0 0 (replicate 6 15) (replicate 6 15) 0 0.

Lemma small_build_ok po : build_ok (small_coc po) small_dfs.
Proof.
  split.
  - by vm_compute.
  - split; [done|]. repeat constructor; by vm_compute.
  - split; [done|]. repeat constructor; by vm_compute.
  - split; [done|]. repeat constructor; by vm_compute.
  - split; [done|]. repeat constructor; by vm_compute.
  - done.
  - intros r Hr. left. change (coc_NL (small_coc po)) with 1 in Hr. by assert (r = 1) as -> by lia.
  - by vm_compute.
Qed.

Lemma structure_built_witness :
  ∃ tc', parepare_tcomp_structure (λ _, demo_blk) (blank_tcomp (mkGeo 0 0 32 16)) (small_coc PCRL) small_dfs 0
         = Ret (tc', 1968)
    ∧ tcomp_built (mkGeo 0 0 32 16) (small_coc PCRL) small_dfs (blank_tcomp (mkGeo 0 0 32 16)) tc'.
Proof.
  destruct (structure_built (λ _, demo_blk) (small_coc PCRL) small_dfs (blank_tcomp (mkGeo 0 0 32 16)) 0
    (small_build_ok PCRL)) as (tc' & E & H & _).
  - unfold small_geo. cbn. lia.
  - reflexivity.
  - repeat constructor.
  - lia.
  - vm_compute. congruence.
  - exists tc'. split; [|exact H]. rewrite E. vm_compute. reflexivity.
Defined.

Lemma precincts_partition_witness :
  ∃ np, 0 ≤ np < 4 ∧ inside (prec_extent (mkGeo 0 0 32 16) 2 16 8 np) 17 3.
Proof.
  destruct (precincts_partition (mkGeo 0 0 32 16) 16 8 17 3) as (np & H1 & H2 & _);
    [unfold small_geo; cbn; lia|lia|lia|unfold inside; cbn; lia|].
  exists np. split; [exact H1|exact H2].
Defined.

Lemma tag_tree_in_bounds_witness :
  let '(links, root) := tag_tree_links tt_fuel 0 3 2 in
  root = 8 ∧ Forall (λ l, 0 ≤ l.1 < l.2 ∧ l.2 < 9) links.
Proof. apply (tag_tree_in_bounds 3 2). unfold grid_ok. lia. Defined.

Lemma type_read_past_array_witness :
  new_res (λ _, demo_blk) (blank_tcomp (mkGeo 0 0 32 16)) (demo_coc5 PCRL) dfs0 0 0 = UB.
Proof. apply type_read_past_array; reflexivity. Defined.
