(* ===== verification/TileHandler.v ===== *)
(** * TileHandler: packet_parser/tile_handler.hpp

    The tile handler owns the stream's tables and structure, the queue of resync
    signals, and the parsing of precincts: [create] builds the tiles, [parse]
    decodes the precincts that lie before the latest signal, [flush] the rest of
    the frame, [try_recover] snaps to the next signal after a failed packet, and
    [restart] makes the structure ready for the next frame.

    The codestream belongs to the frame handler and is passed in.  What the C++
    leaves uninitialised is a parameter: [uninit] is the memory a new tile's
    components are constructed in, [stale] the content of the arena. *)
From S2P Require Import Prelude Codestream BitReader Markers Structs MainHeader HeaderSpec PacketHeader.
From S2P Require Import PacketSpec Progression Geometry GeometrySpec.

Record Signal := mkSignal { byte_offset : Z; pid : Z }.

Record tile_handler := mkTh {
  tiles : list tile_;
  tabs : tables;                       (* siz, cod, cocs, qcd, dfs *)
  num_tiles_x : Z; num_tiles_y : Z;
  ready : bool;
  signal_queue_ : list Signal;
  crp_idx_by_pid_ : list (list Z);
  arena : Z;                           (* the fill level of the stackAlloc buffer *)
  parse_holdback_ : Z                  (* stored, read by nothing *)
}.

Definition new_tile_handler : tile_handler :=
  mkTh [] (mkHdr () siz0 cod0 [coc0; coc0; coc0] qcd0 dfs0 0 0) 0 0 false [] [] 0 0.

Section Setters.
Implicit Types t : tile_handler.
Definition set_tiles (l : list tile_) t : tile_handler :=
  mkTh l (tabs t) (num_tiles_x t) (num_tiles_y t) (ready t) (signal_queue_ t) (crp_idx_by_pid_ t) (arena t)
    (parse_holdback_ t).
Definition set_tabs (h : tables) t : tile_handler :=
  mkTh (tiles t) h (num_tiles_x t) (num_tiles_y t) (ready t) (signal_queue_ t) (crp_idx_by_pid_ t) (arena t)
    (parse_holdback_ t).
Definition set_grid (x y : Z) t : tile_handler :=
  mkTh (tiles t) (tabs t) x y (ready t) (signal_queue_ t) (crp_idx_by_pid_ t) (arena t) (parse_holdback_ t).
Definition set_ready (b : bool) t : tile_handler :=
  mkTh (tiles t) (tabs t) (num_tiles_x t) (num_tiles_y t) b (signal_queue_ t) (crp_idx_by_pid_ t) (arena t)
    (parse_holdback_ t).
Definition set_signals (l : list Signal) t : tile_handler :=
  mkTh (tiles t) (tabs t) (num_tiles_x t) (num_tiles_y t) (ready t) l (crp_idx_by_pid_ t) (arena t)
    (parse_holdback_ t).
Definition set_by_pid (l : list (list Z)) t : tile_handler :=
  mkTh (tiles t) (tabs t) (num_tiles_x t) (num_tiles_y t) (ready t) (signal_queue_ t) l (arena t)
    (parse_holdback_ t).
Definition set_arena (a : Z) t : tile_handler :=
  mkTh (tiles t) (tabs t) (num_tiles_x t) (num_tiles_y t) (ready t) (signal_queue_ t) (crp_idx_by_pid_ t) a
    (parse_holdback_ t).
Definition set_parse_holdback (n : Z) t : tile_handler :=
  mkTh (tiles t) (tabs t) (num_tiles_x t) (num_tiles_y t) (ready t) (signal_queue_ t) (crp_idx_by_pid_ t)
    (arena t) n.
End Setters.

(** ** Signals *)
Definition kSignalCap : Z := 16384.
Definition append_signal (offset p : Z) (t : tile_handler) : tile_handler :=
  let q := if kSignalCap <=? Z.of_nat (length (signal_queue_ t)) then [] else signal_queue_ t in
  set_signals (q ++ [mkSignal offset p]) t.

Definition invalidate_tiles (t : tile_handler) : tile_handler := set_ready false t.

(** The main header is parsed into the handler's tables. *)
Definition header_into (mem : memory) (t : tile_handler) (c : codestream)
    : outcome (Z * tile_handler * codestream) :=
  match parse_main_header (H := chain_reader mem) (swap_cs c (tabs t)) with
  | Ret (n, h) => Ret (n, set_tabs (swap_cs () h) t, h_cs h)
  | UB => UB
  | NoFuel => NoFuel
  end.

(** ** create *)
Section Create.
Context (uninit : list tcomp_) (stale : Z → blk_).

Definition lift_arena {A} (m : M Z A) : M tile_handler A := λ t,
  match m (arena t) with
  | Ret (a, i) => Ret (a, set_arena i t)
  | UB => UB
  | NoFuel => NoFuel
  end.

(** [ceildiv_int] on [uint32_t], division by zero being undefined. *)
Definition cdu_checked (a b : Z) : M tile_handler Z := if b =? 0 then undefined else mret (cdu a b).

Definition tile_extent (z : siz_marker) (p q : Z) : geometry :=
  mkGeo (i32 (Z.max (u32 (XTOsiz z + p * XTsiz z)) (XOsiz z)))
        (i32 (Z.max (u32 (YTOsiz z + q * YTsiz z)) (YOsiz z)))
        (i32 (Z.min (u32 (XTOsiz z + (p + 1) * XTsiz z)) (Xsiz z)))
        (i32 (Z.min (u32 (YTOsiz z + (q + 1) * YTsiz z)) (Ysiz z))).

(** [coc->NL > 32]: the level count comes from the DFS marker. *)
Definition resolve_NL (dfs : dfs_marker) (o : coc_marker) : coc_marker :=
  if 32 <? coc_NL o then
    mkCoc (coc_idx o) (coc_max_precinct o) (coc_use_SOP o) (coc_use_EPH o) (coc_use_h_offset o)
      (coc_use_v_offset o) (coc_use_blkcoder_extension o) (coc_progression_order o) (coc_num_layers o)
      (coc_mct o) (u8 (Idfs dfs)) (coc_cbw o) (coc_cbh o) (coc_cbs o) (coc_transform o) (coc_SSO o)
      (coc_prw o) (coc_prh o) (coc_step_x o) (coc_step_y o)
  else o.

(** One component of the tile under construction: the [int] coordinates are divided by
    the [uint8_t] sampling factors, promoted to [int]. *)
Definition build_component (tile : tile_) (c : Z) : M tile_handler tile_ :=
  t ← get_st;
  let z := h_siz (tabs t) in
  tcp ← at_ (tcomp tile) c;
  xr ← at_ (XRsiz z) c;
  yr ← at_ (YRsiz z) c;
  let g := tile_coord tile in
  a ← cdi_checked (x0 g) xr; b ← cdi_checked (y0 g) yr;
  d ← cdi_checked (x1 g) xr; e ← cdi_checked (y1 g) yr;
  let tcp := mkTcomp (tc_res tcp) c (mkGeo a b d e) xr yr in
  o ← at_ (h_cocs (tabs t)) c;
  let o := resolve_NL (h_dfs (tabs t)) o in
  modify (λ t, set_tabs (set_cocs (<[Z.to_nat c := o]> (h_cocs (tabs t))) (tabs t)) t) ;;
  tcp ← lift_arena (parepare_tcomp_structure stale tcp o (h_dfs (tabs t)));
  mret (set_tcomps (<[Z.to_nat c := tcp]> (tcomp tile)) tile).

Fixpoint build_components (n : nat) (c : Z) (tile : tile_) : M tile_handler tile_ :=
  match n with
  | O => mret tile
  | S n' => tile ← build_component tile c; build_components n' (c + 1) tile
  end.

(** One round of the tile loop; the result says whether to go on. *)
Definition build_tile (t : Z) : M tile_handler bool :=
  s ← get_st;
  o ← at_ (h_cocs (tabs s)) 0;
  let po := coc_progression_order o in
  if (num_tiles_x s =? 0) || (num_tiles_y s =? 0) then undefined else
  let p := t mod num_tiles_x s in
  let q := t / num_tiles_y s in
  let z := h_siz (tabs s) in
  let tile := mkTile uninit t (tile_extent z p q) (Csiz z) po [] 0 false in
  tile ← build_components (Z.to_nat (Csiz z)) 0 tile;
  s ← get_st;
  match prepare_precinct_structure tile (h_cocs (tabs s)) (h_dfs (tabs s)) with
  | Ret (ret, tile) =>
      modify (set_tiles (tiles s ++ [tile])) ;;
      if ret =? EXIT_SUCCESS then mret true else modify (set_ready false) ;; mret false
  | UB => undefined
  | NoFuel => out_of_fuel
  end.

Fixpoint build_tiles (n : nat) (t : Z) : M tile_handler bool :=
  match n with
  | O => mret true
  | S n' => ok ← build_tile t; if ok : bool then build_tiles n' (t + 1) else mret false
  end.

(** The CRP indices of each component, in order. *)
Definition index_by_pid (l : list crp_status) : list (list Z) :=
  (λ c, fst <$> filter (λ ie, crp_c ie.2 = c) (imap (λ i e, (Z.of_nat i, e)) l)) <$> seqZ 0 MAX_NUM_COMPONENTS.

Definition create : M tile_handler bool :=
  lift_arena stackReset ;;
  s ← get_st;
  let z := h_siz (tabs s) in
  nx ← cdu_checked (Xsiz z - XTOsiz z) (XTsiz z);
  ny ← cdu_checked (Ysiz z - YTOsiz z) (YTsiz z);
  modify (set_grid nx ny) ;;
  modify (set_tiles []) ;;
  ok ← build_tiles (if ny =? 0 then 0 else Z.to_nat nx) 0;
  if negb ok then mret false else
  s ← get_st;
  match tiles s with
  | [] => mret ()
  | tile :: _ => modify (set_by_pid (index_by_pid (crp tile)))
  end ;;
  modify (set_ready true) ;;
  mret true.

End Create.

(** ** Parsing *)

(** The parser's state: handler, codestream, callbacks fired so far. *)
Record pst := mkPst { ps_th : tile_handler; ps_cs : codestream; ps_ev : list (crp_status * prec_) }.
Definition set_pth (f : tile_handler → tile_handler) (s : pst) : pst := mkPst (f (ps_th s)) (ps_cs s) (ps_ev s).
Definition set_pcs (c : codestream) (s : pst) : pst := mkPst (ps_th s) c (ps_ev s).
Definition fire (e : crp_status * prec_) (s : pst) : pst := mkPst (ps_th s) (ps_cs s) (ps_ev s ++ [e]).

(** [tile = tiles.data()]: the first tile; the others are never parsed. *)
Definition tile0 : M pst tile_ :=
  s ← get_st; match tiles (ps_th s) with tile :: _ => mret tile | [] => undefined end.
Definition put_tile0 (tile : tile_) : M pst () :=
  modify (set_pth (λ t, set_tiles (tile :: tail (tiles t)) t)).

(** [tile->tcomp[c].res[r].prec[p]] *)
Definition get_prec (tile : tile_) (ct : crp_status) : option prec_ :=
  tcomp tile !! Z.to_nat (crp_c ct) ≫= λ tc, tc_res tc !! Z.to_nat (crp_r ct) ≫= λ r, res_prec r !! Z.to_nat (crp_p ct).
Definition put_prec (ct : crp_status) (pr : prec_) (tile : tile_) : tile_ :=
  set_tcomps (alter (λ tc, set_ress (alter (λ r, set_precs (<[Z.to_nat (crp_p ct) := pr]> (res_prec r)) r)
                                       (Z.to_nat (crp_r ct)) (tc_res tc)) tc)
                (Z.to_nat (crp_c ct)) (tcomp tile)) tile.

Section Parse.
Context (mem : memory).

(** The precinct at [crp_idx]: read its packet into the structure. *)
Definition parse_one_precinct : M pst Z :=
  tile ← tile0;
  s ← get_st;
  ct ← at_ (crp tile) (crp_idx tile);
  match get_prec tile ct, h_cocs (tabs (ps_th s)) !! Z.to_nat (crp_c ct) with
  | Some pr, Some coc =>
      match read_packet mem (ps_cs s) pr coc with
      | Ret (ret, c, pr) => modify (set_pcs c) ;; put_tile0 (put_prec ct pr tile) ;; mret ret
      | UB => undefined
      | NoFuel => out_of_fuel
      end
  | _, _ => undefined
  end.

(** [while (!empty() && front().byte_offset <= cur_pos) pop_front()] *)
Fixpoint pop_passed (cur_pos : Z) (q : list Signal) : list Signal :=
  match q with
  | [] => []
  | g :: q' => if byte_offset g <=? cur_pos then pop_passed cur_pos q' else q
  end.

Definition try_recover : M pst bool :=
  s ← get_st;
  tile ← tile0;
  let cur_pos := get_pos (ps_cs s) in
  let q := pop_passed cur_pos (signal_queue_ (ps_th s)) in
  modify (set_pth (set_signals q)) ;;
  match q with
  | [] => mret false
  | sig :: q' =>
      let nc := Csiz (h_siz (tabs (ps_th s))) in
      if nc =? 0 then mret false else
      match crp_idx_by_pid_ (ps_th s) !! Z.to_nat (pid sig mod nc) with
      | None => mret false
      | Some l =>
          match l !! Z.to_nat (pid sig / nc) with
          | None => mret false
          | Some i =>
              if i <? u32 (crp_idx tile) then mret false else
              modify (λ s, set_pcs (reset (byte_offset sig) (ps_cs s)) s) ;;
              put_tile0 (set_crp_idx (i32 i) tile) ;;
              modify (set_pth (set_signals q')) ;;
              mret true
          end
      end
  end.

(** [prec_cb_]: the precinct just parsed. *)
Definition precinct_callback (ct : crp_status) : M pst () :=
  tile ← tile0;
  match get_prec tile ct with
  | Some pr => modify (fire (ct, pr))
  | None => undefined
  end.

Definition bump_crp_idx : M pst () := tile ← tile0; put_tile0 (set_crp_idx (crp_idx tile + 1) tile).

(** One round of the [while (true)]: [Some ret] leaves the loop. *)
Definition parse_round : M pst (option Z) :=
  s ← get_st;
  match last (signal_queue_ (ps_th s)) with
  | None => mret (Some EXIT_SUCCESS)
  | Some back =>
      tile ← tile0;
      if byte_offset back <=? get_pos (ps_cs s) then mret (Some EXIT_SUCCESS) else
      ct ← at_ (crp tile) (crp_idx tile);
      ret ← parse_one_precinct;
      bump_crp_idx ;;
      if negb (ret =? 0) then
        ok ← try_recover;
        mret (if ok : bool then None else Some ret)
      else precinct_callback ct ;; mret None
  end.

Fixpoint rounds (round : M pst (option Z)) (fuel : nat) : M pst Z :=
  match fuel with
  | O => out_of_fuel
  | S fuel' => r ← round; match r with Some ret => mret ret | None => rounds round fuel' end
  end.

(** Every round moves [crp_idx] forward and needs it inside [crp]. *)
Definition parse_fuel (s : pst) : nat :=
  match tiles (ps_th s) with
  | tile :: _ => S (S (length (crp tile) - Z.to_nat (crp_idx tile)))
  | [] => 1
  end.
Definition parse : M pst Z := s ← get_st; rounds parse_round (parse_fuel s).

(** One round of the [for] loop; a recovery cancels its increment. *)
Definition flush_round : M pst (option Z) :=
  tile ← tile0;
  if Z.of_nat (length (crp tile)) <=? crp_idx tile then mret (Some EXIT_SUCCESS) else
  ct ← at_ (crp tile) (crp_idx tile);
  ret ← parse_one_precinct;
  if negb (ret =? 0) then
    ok ← try_recover;
    mret (if ok : bool then None else Some ret)
  else precinct_callback ct ;; bump_crp_idx ;; mret None.

(** Every round moves [crp_idx] forward or consumes a signal. *)
Definition flush_fuel (s : pst) : nat :=
  match tiles (ps_th s) with
  | tile :: _ => S (length (crp tile) - Z.to_nat (crp_idx tile) + length (signal_queue_ (ps_th s)))
  | [] => 1
  end.
Definition flush : M pst Z := s ← get_st; rounds flush_round (flush_fuel s).

End Parse.

(** ** restart *)

(** Apply [f] to the first [n] elements; fewer is undefined behaviour.  (The
    source walks them downwards; the elements are independent.) *)
Fixpoint reset_first {A} (n : nat) (f : A → outcome A) (l : list A) : outcome (list A) :=
  match n, l with
  | O, _ => Ret l
  | S _, [] => UB
  | S n', x :: l' =>
      match f x, reset_first n' f l' with
      | Ret y, Ret l'' => Ret (y :: l'')
      | NoFuel, _ | _, NoFuel => NoFuel
      | _, _ => UB
      end
  end.

Definition reset_blk (b : blk_) : outcome blk_ :=
  Ret (set_length 0 (set_npasses 0 (set_pass0 0 (set_pass1 0 b)))).

Definition reset_pband (w h : Z) (pb : pband_) : outcome pband_ :=
  match tag_tree_zero (pb_incl pb) w h (), tag_tree_zero (pb_zbp pb) w h (),
        reset_first (Z.to_nat (u32 (w * h))) reset_blk (pb_blk pb) with
  | Ret (ti, _), Ret (tz, _), Ret l => Ret (mkPband ti tz l)
  | _, _, _ => UB
  end.

Definition reset_prec (p : prec_) : outcome prec_ :=
  outcome_map (λ l, set_pbands l p) (reset_first (Z.to_nat (pr_num_bands p)) (reset_pband (ncbw p) (ncbh p)) (pr_pband p)).
Definition reset_res (r : res_) : outcome res_ :=
  outcome_map (λ l, set_precs l r) (reset_first (Z.to_nat (u32 (npw r * nph r))) reset_prec (res_prec r)).
Definition reset_tcomp (tc : tcomp_) : outcome tcomp_ :=
  outcome_map (λ l, set_ress l tc) (reset_first (Z.to_nat (MAX_DWT_LEVEL + 1)) reset_res (tc_res tc)).
Definition reset_tile (tile : tile_) : outcome tile_ :=
  outcome_map (λ l, set_tcomps l (set_crp_idx 0 tile))
    (reset_first (Z.to_nat (num_components tile)) reset_tcomp (tcomp tile)).

Definition restart_tiles (t : tile_handler) : outcome tile_handler :=
  outcome_map (λ l, set_arena 0 (set_tiles l (set_signals [] t)))
    (reset_first (length (tiles t)) reset_tile (tiles t)).
