(* ===== verification/TileSpec.v ===== *)
(** * TileSpec: what the tile handler guarantees

    Frame facts (parsing moves the reader and fills precincts, nothing else),
    termination of the precinct walks, the exact delivery of encoded precincts
    by [parse] and [flush], and [restart]. *)
From S2P Require Import Prelude Codestream BitReader Markers Structs MainHeader HeaderSpec PacketHeader.
From S2P Require Import PacketSpec Progression Geometry GeometrySpec TileHandler.

(** ** The header parser only moves the cursor of the codestream *)
Section HeaderFrame.
Context (mem : memory).
#[local] Instance rdr : Reader codestream := chain_reader mem.
Notation H := (hdr codestream).

(** Everything of the codestream but the cursor. *)
Definition core (c : codestream) : list Chunk * list (list Z) * Z * Z * Z :=
  (chunks_ c, staging_ c, cs_tmp c, cs_last c, cs_bits c).

Definition moves {A} (m : M H A) : Prop :=
  ∀ s, match m s with Ret (_, s') => core (h_cs s') = core (h_cs s) | _ => True end.

Lemma moves_ret {A} (a : A) : moves (mret a).
Proof. done. Qed.
Lemma moves_ub {A} : moves (A := A) undefined.
Proof. done. Qed.
Lemma moves_fuel {A} : moves (A := A) out_of_fuel.
Proof. done. Qed.
Lemma moves_bind {A B} (m : M H A) (k : A → M H B) : moves m → (∀ a, moves (k a)) → moves (m ≫= k).
Proof.
  intros Hm Hk s. unfold mbind, M_bind. specialize (Hm s). destruct (m s) as [[a s']| |]; [|done|done].
  specialize (Hk a s'). destruct (k a s') as [[b s'']| |]; [congruence|done|done].
Qed.
Lemma moves_get : moves get_st.
Proof. done. Qed.
Lemma moves_modify f : (∀ s, h_cs (f s) = h_cs s) → moves (modify f).
Proof. intros Hf s. cbn. by rewrite Hf. Qed.

Lemma get_byte_core c : core (get_byte mem c).2 = core c.
Proof. unfold get_byte. destruct (chunks_ c !! cur_chunk_ c); [|done]. by destruct (_ =? _). Qed.
Lemma get_word_core c : core (get_word mem c).2 = core c.
Proof.
  unfold get_word. pose proof (get_byte_core c). destruct (get_byte mem c) as [a c1].
  pose proof (get_byte_core c1). destruct (get_byte mem c1) as [b c2]. cbn [snd] in *. congruence.
Qed.
Lemma get_dword_core c : core (get_dword mem c).2 = core c.
Proof.
  unfold get_dword. pose proof (get_word_core c). destruct (get_word mem c) as [a c1].
  pose proof (get_word_core c1). destruct (get_word mem c1) as [b c2]. cbn [snd] in *. congruence.
Qed.
Lemma moves_lift {A} (op : codestream → A * codestream) :
  (∀ c, core (op c).2 = core c) → moves (lift_cs op).
Proof.
  intros Hop s. unfold lift_cs. specialize (Hop (h_cs s)). by destruct (op (h_cs s)).
Qed.
Lemma moves_byte : moves rd_byte.
Proof. apply moves_lift, get_byte_core. Qed.
Lemma moves_word : moves rd_word.
Proof. apply moves_lift, get_word_core. Qed.
Lemma moves_dword : moves rd_dword.
Proof. apply moves_lift, get_dword_core. Qed.
Lemma moves_for n lo (b : Z → M H ()) : (∀ i, moves (b i)) → moves (for_n n lo b).
Proof.
  intros Hb. revert lo. induction n as [|n IH]; intros lo; cbn [for_n]; [apply moves_ret|].
  apply moves_bind; [apply Hb|intros; apply IH].
Qed.
Lemma moves_store {A} (l : list A) i x : moves (store_at l i x).
Proof. unfold store_at. by destruct (arr_set l i x). Qed.
Lemma moves_arr_get l i : moves (arr_get l i).
Proof. unfold arr_get. by destruct (_ && _). Qed.

Create HintDb moves.
#[local] Hint Resolve moves_ret moves_ub moves_fuel moves_get moves_byte moves_word moves_dword
  moves_store moves_arr_get : moves.
Ltac move_step :=
  lazymatch goal with
  | |- moves (_ ≫= _) => apply moves_bind; [|intros ?]
  | |- moves (modify _) => apply moves_modify; done
  | |- moves (for_n _ _ _) => apply moves_for; intros ?
  | |- moves (if ?b then _ else _) => destruct b
  | |- moves (match ?o with _ => _ end) => destruct o
  | |- moves _ => auto with moves
  end.
Ltac move_solve := repeat (cbn zeta; move_step).

Lemma moves_precincts n i w h : moves (rd_precincts n i w h).
Proof. revert i w h. induction n; intros; cbn [rd_precincts]; move_solve. Qed.
Lemma moves_coc_precincts n i w h x y : moves (rd_coc_precincts n i w h x y).
Proof. revert i w h x y. induction n; intros; cbn [rd_coc_precincts]; move_solve. Qed.
Lemma moves_copy_arr n i a b : moves (copy_arr n i a b).
Proof. revert i b. induction n; intros; cbn [copy_arr]; move_solve. Qed.
Lemma moves_dfs_bits n b : moves (rd_dfs_bits n b).
Proof. revert b. induction n; intros; cbn [rd_dfs_bits]; move_solve. Qed.
Lemma moves_dfs_types i b x y z : moves (dfs_types i b x y z).
Proof. revert b x y z. induction i; intros; cbn [dfs_types]; move_solve. Qed.
Lemma moves_dfs_depths n i a b : moves (dfs_depths n i a b).
Proof. revert i b. induction n; intros; cbn [dfs_depths]; move_solve. Qed.
Lemma moves_cap_words n i p k : moves (cap_words n i p k).
Proof. revert i k. induction n; intros; cbn [cap_words]; move_solve. Qed.
Lemma moves_qcd_store b k : moves (qcd_store b k).
Proof. unfold qcd_store. move_solve. Qed.
#[local] Hint Resolve moves_precincts moves_coc_precincts moves_copy_arr moves_dfs_bits
  moves_dfs_types moves_dfs_depths moves_cap_words moves_qcd_store : moves.

Lemma moves_marker m : moves (marker_segment m).
Proof.
  unfold marker_segment, parse_SIZ, parse_CAP, parse_COD, copy_cod, parse_QCD, parse_COC, parse_DFS,
    skip_marker, siz_component, qcd_level. move_solve.
Qed.
#[local] Hint Resolve moves_marker : moves.
Lemma moves_header_loop n : moves (header_loop n).
Proof. induction n; cbn [header_loop]; move_solve. Qed.
#[local] Hint Resolve moves_header_loop : moves.
Lemma moves_main_header : moves parse_main_header.
Proof. unfold parse_main_header. move_solve. Qed.

End HeaderFrame.

Lemma header_into_core mem t c n t' c' :
  header_into mem t c = Ret (n, t', c') → core c' = core c ∧ ready t' = ready t.
Proof.
  unfold header_into. pose proof (moves_main_header mem (swap_cs c (tabs t))) as Hm.
  destruct (parse_main_header _) as [[a h]| |]; [|done|done]. intros [= <- <- <-]. by split.
Qed.

(** ** Parsing only moves the reader and fills precincts *)

(** The walk of the first tile, which nothing but [create] changes. *)
Definition walk_of (t : tile_handler) : option (list crp_status) := crp <$> head (tiles t).

Record psame (s s' : pst) : Prop := {
  ps_grown : grown (ps_cs s) (ps_cs s');
  ps_walk : walk_of (ps_th s') = walk_of (ps_th s);
  ps_tabs : tabs (ps_th s') = tabs (ps_th s);
  ps_ready : ready (ps_th s') = ready (ps_th s);
  ps_pid : crp_idx_by_pid_ (ps_th s') = crp_idx_by_pid_ (ps_th s);
  ps_queue : signal_queue_ (ps_th s') `suffix_of` signal_queue_ (ps_th s);
  ps_events : ps_ev s `prefix_of` ps_ev s'
}.

#[global] Instance psame_preorder : PreOrder psame.
Proof.
  split; [by intros s; split|].
  intros s1 s2 s3 [] []. split; try congruence; first [by eapply grown_trans|by etrans].
Qed.

Definition psteps {A} (m : M pst A) : Prop :=
  ∀ s, match m s with Ret (_, s') => psame s s' | _ => True end.

Lemma psteps_bind {A B} (m : M pst A) (k : A → M pst B) : psteps m → (∀ a, psteps (k a)) → psteps (m ≫= k).
Proof.
  intros Hm Hk s. unfold mbind, M_bind. specialize (Hm s). destruct (m s) as [[a s']| |]; [|done|done].
  specialize (Hk a s'). destruct (k a s') as [[b s'']| |]; [by etrans|done|done].
Qed.
Lemma psteps_ret {A} (a : A) : psteps (mret a).
Proof. intros s. apply (reflexivity (R := psame)). Qed.
Lemma psteps_get : psteps get_st.
Proof. intros s. apply (reflexivity (R := psame)). Qed.
Lemma psteps_tile0 : psteps tile0.
Proof. intros s. unfold tile0. rewrite bind_get. by destruct (tiles (ps_th s)); [|apply psteps_ret]. Qed.
Lemma psteps_at {A} (l : list A) i : psteps (at_ l i).
Proof. unfold at_. destruct (_ <=? _); [|done]. destruct (l !! _); [apply psteps_ret|done]. Qed.
Lemma psteps_fire e : psteps (modify (fire e)).
Proof. intros s. cbn. split; try done. by apply prefix_app_r. Qed.

Definition put_head (tile : tile_) (s : pst) : pst :=
  set_pth (λ t, set_tiles (tile :: tail (tiles t)) t) s.

(** Writing a tile with the same walk. *)
Lemma put_tile0_same tile tile' s s' :
  head (tiles (ps_th s)) = Some tile → crp tile' = crp tile → psame s s' →
  head (tiles (ps_th s')) = head (tiles (ps_th s)) →
  psame s (put_head tile' s').
Proof.
  intros E Hc [] Eh. split; try done. unfold walk_of in *. cbn. rewrite E. cbn. by rewrite Hc.
Qed.

Lemma tile0_run s : tile0 s = match head (tiles (ps_th s)) with Some t => Ret (t, s) | None => UB end.
Proof. unfold tile0. rewrite bind_get. by destruct (tiles (ps_th s)). Qed.

Lemma bind_tile0 {A} (k : tile_ → M pst A) s :
  (tile0 ≫= k) s = match head (tiles (ps_th s)) with Some t => k t s | None => UB end.
Proof. unfold mbind, M_bind. rewrite tile0_run. by destruct (head (tiles (ps_th s))). Qed.

(** The entry [crp_idx] points at. *)
Definition entry (tile : tile_) : option crp_status :=
  if 0 <=? crp_idx tile then crp tile !! Z.to_nat (crp_idx tile) else None.

Lemma bind_at {S A B} (l : list A) i (k : A → M S B) s :
  (at_ l i ≫= k) s = match (if 0 <=? i then l !! Z.to_nat i else None) with Some x => k x s | None => UB end.
Proof. unfold at_, mbind, M_bind. destruct (0 <=? i); [|done]. by destruct (l !! _). Qed.

Section Frame.
Context (mem : memory).

(** One precinct, as an equation. *)
Lemma one_run s :
  parse_one_precinct mem s
  = match head (tiles (ps_th s)) with
    | None => UB
    | Some tile =>
        match entry tile with
        | None => UB
        | Some ct =>
            match get_prec tile ct, h_cocs (tabs (ps_th s)) !! Z.to_nat (crp_c ct) with
            | Some pr, Some coc =>
                match read_packet mem (ps_cs s) pr coc with
                | Ret (ret, c, pr') => Ret (ret, put_head (put_prec ct pr' tile) (set_pcs c s))
                | UB => UB
                | NoFuel => NoFuel
                end
            | _, _ => UB
            end
        end
    end.
Proof.
  unfold parse_one_precinct. rewrite bind_tile0. destruct (head _) as [tile|]; [|done].
  rewrite bind_get, bind_at. fold (entry tile). destruct (entry tile) as [ct|]; [|done].
  destruct (get_prec tile ct) as [pr|]; [|done]. destruct (h_cocs _ !! _) as [coc|]; [|done].
  by destruct (read_packet mem (ps_cs s) pr coc) as [[[r c] pr']| |].
Qed.

Lemma psteps_one : psteps (parse_one_precinct mem).
Proof.
  intros s. rewrite one_run. destruct (head (tiles (ps_th s))) as [tile|] eqn:E; [|done].
  destruct (entry tile) as [ct|]; [|done]. destruct (get_prec tile ct) as [pr|]; [|done].
  destruct (h_cocs _ !! _) as [coc|]; [|done]. pose proof (read_packet_grown mem (ps_cs s) pr coc) as G.
  destruct (read_packet mem (ps_cs s) pr coc) as [[[r c] pr']| |]; [|done|done].
  by apply (put_tile0_same tile (put_prec ct pr' tile)); [..|split|].
Qed.

Lemma pop_passed_suffix p q : pop_passed p q `suffix_of` q.
Proof. induction q as [|g q IH]; [done|]. cbn. destruct (_ <=? _); [by apply suffix_cons_r|done]. Qed.

Lemma reset_store p c : store (reset p c) = store c.
Proof.
  assert (∀ n c, store (advance_loop n c) = store c) as Ha.
  { clear. induction n as [|n IH]; intros c; [done|]. cbn [advance_loop].
    destruct (chunks_ c !! _) as [k|]; [|done]. destruct (_ <=? _); [|done]. by rewrite IH. }
  unfold reset. by rewrite Ha.
Qed.

Lemma psteps_recover : psteps try_recover.
Proof.
  intros s. unfold try_recover. rewrite bind_get, bind_tile0.
  destruct (head (tiles (ps_th s))) as [tile|] eqn:E; [|done]. cbn zeta. rewrite bind_modify.
  pose proof (pop_passed_suffix (get_pos (ps_cs s)) (signal_queue_ (ps_th s))) as Hq.
  set (q := pop_passed _ _) in *. set (s1 := set_pth (set_signals q) s).
  assert (psame s s1) as H1 by (split; try done; apply grown_refl).
  destruct q as [|g q]; [done|]. destruct (_ =? 0); [done|]. destruct (_ !! _) as [l|]; [|done].
  destruct (l !! _) as [i|]; [|done]. destruct (i <? _); [done|]. cbn.
  split; cbn; try done; [by apply grown_store, reset_store| |].
  - unfold walk_of. cbn. by rewrite E.
  - etrans; [|exact Hq]. by apply suffix_cons_r.
Qed.

Lemma psteps_bump : psteps bump_crp_idx.
Proof.
  intros s. unfold bump_crp_idx. rewrite bind_tile0. destruct (head (tiles (ps_th s))) as [tile|] eqn:E; [|done].
  by apply (put_tile0_same tile).
Qed.
Lemma psteps_cb ct : psteps (precinct_callback ct).
Proof.
  apply psteps_bind; [apply psteps_tile0|intros tile]. destruct (get_prec tile ct); [apply psteps_fire|done].
Qed.

Lemma psteps_parse_round : psteps (parse_round mem).
Proof.
  apply psteps_bind; [apply psteps_get|intros s]. destruct (last _); [|apply psteps_ret].
  apply psteps_bind; [apply psteps_tile0|intros tile]. destruct (_ <=? _); [apply psteps_ret|].
  apply psteps_bind; [apply psteps_at|intros ct]. apply psteps_bind; [apply psteps_one|intros ret].
  apply psteps_bind; [apply psteps_bump|intros _]. destruct (negb _).
  - apply psteps_bind; [apply psteps_recover|intros ok; apply psteps_ret].
  - apply psteps_bind; [apply psteps_cb|intros _; apply psteps_ret].
Qed.
Lemma psteps_flush_round : psteps (flush_round mem).
Proof.
  apply psteps_bind; [apply psteps_tile0|intros tile]. destruct (_ <=? _); [apply psteps_ret|].
  apply psteps_bind; [apply psteps_at|intros ct]. apply psteps_bind; [apply psteps_one|intros ret].
  destruct (negb _).
  - apply psteps_bind; [apply psteps_recover|intros ok; apply psteps_ret].
  - apply psteps_bind; [apply psteps_cb|intros _].
    apply psteps_bind; [apply psteps_bump|intros _; apply psteps_ret].
Qed.
Lemma psteps_rounds round n : psteps round → psteps (rounds round n).
Proof.
  intros Hr. induction n as [|n IH]; [done|]. cbn [rounds]. apply psteps_bind; [done|].
  intros [r|]; [apply psteps_ret|done].
Qed.
Lemma psteps_parse : psteps (parse mem).
Proof. intros s. apply psteps_rounds, psteps_parse_round. Qed.
Lemma psteps_flush : psteps (flush mem).
Proof. intros s. apply psteps_rounds, psteps_flush_round. Qed.

End Frame.

(** ** Termination *)

(** The recovery index belongs to the walk, and the walk fits [int]. *)
Definition indexed (t : tile_handler) : Prop :=
  ∀ l, walk_of t = Some l →
    Z.of_nat (length l) < 2147483648 ∧ crp_idx_by_pid_ t = index_by_pid l.

Record pok (s : pst) : Prop := {
  pk_reader : rok (ps_cs s);
  pk_index : indexed (ps_th s);
  pk_signals : Forall (λ g, 0 ≤ byte_offset g) (signal_queue_ (ps_th s))
}.

Lemma pok_same s s' : psame s s' → rok (ps_cs s') → pok s → pok s'.
Proof.
  intros [] Hr [_ Hi Hq]. split; [done| |].
  - intros l. rewrite ps_walk0, ps_pid0. apply Hi.
  - destruct ps_queue0 as [k E]. rewrite E in Hq. by apply Forall_app in Hq as [_ ?].
Qed.

Lemma index_by_pid_lookup l c j k i :
  index_by_pid l !! c = Some k → k !! j = Some i →
  ∃ e, 0 ≤ i ∧ l !! Z.to_nat i = Some e ∧ crp_c e = Z.of_nat c.
Proof.
  intros Hc Hj. apply list_lookup_fmap_Some in Hc as (z & -> & Hz). apply lookup_seqZ in Hz as [-> _].
  apply list_lookup_fmap_Some in Hj as ([i' e] & -> & Hj). cbn.
  apply list_elem_of_lookup_2, list_elem_of_filter in Hj as [He Hj]. cbn in He.
  apply elem_of_lookup_imap in Hj as (n & e' & [= -> ->] & Hn). exists e'. rewrite Nat2Z.id. lia || split_and!; [lia|done|lia].
Qed.

Section Total.
Context (mem : memory).

Lemma one_step s tile :
  pok s → head (tiles (ps_th s)) = Some tile →
  match parse_one_precinct mem s with
  | Ret (_, s') =>
      ∃ ct pr', entry tile = Some ct ∧ pok s' ∧ signal_queue_ (ps_th s') = signal_queue_ (ps_th s)
        ∧ head (tiles (ps_th s')) = Some (put_prec ct pr' tile)
  | UB => True
  | NoFuel => False
  end.
Proof.
  intros Hs Ht. pose proof (psteps_one mem s) as Hp. rewrite one_run in *. rewrite Ht in *.
  destruct (entry tile) as [ct|]; [|done]. destruct (get_prec tile ct) as [pr|]; [|done].
  destruct (h_cocs _ !! _) as [coc|]; [|done]. pose proof (ptot_read_packet mem (ps_cs s) pr coc (pk_reader _ Hs)) as Hr.
  destruct (read_packet mem (ps_cs s) pr coc) as [[[r c] pr']| |]; [|done|done]. destruct Hr as [Hr _]. cbn in Hr.
  exists ct, pr'. split_and!; [done| |done|done]. by eapply pok_same.
Qed.

Lemma reset_rok p c : 0 ≤ p → rok c → rok (reset p c).
Proof.
  intros Hp [[Hw _] _]. destruct Hw as [Hne _ _ _ Ht].
  destruct (reset_spec mem p c Hne Ht Hp) as (H1 & _ & _ & H4). split; [done|].
  change (cs_bits (reset p c)) with (f_bits (abs mem (reset p c))). rewrite H4. cbn. lia.
Qed.

(** A recovery lands on a later (or the same) entry and uses up a signal. *)
Lemma recover_step s tile :
  pok s → head (tiles (ps_th s)) = Some tile →
  0 ≤ crp_idx tile ≤ Z.of_nat (length (crp tile)) →
  match try_recover s with
  | Ret (true, s') =>
      ∃ i, pok s' ∧ head (tiles (ps_th s')) = Some (set_crp_idx i tile)
        ∧ crp_idx tile ≤ i < Z.of_nat (length (crp tile))
        ∧ (length (signal_queue_ (ps_th s')) < length (signal_queue_ (ps_th s)))%nat
  | Ret (false, s') => pok s'
  | _ => False
  end.
Proof.
  intros Hs Ht Hk. pose proof (psteps_recover s) as Hp.
  assert (walk_of (ps_th s) = Some (crp tile)) as Hw by (unfold walk_of; by rewrite Ht).
  destruct (pk_index _ Hs _ Hw) as [Hlen Hidx]. unfold try_recover in *.
  rewrite bind_get, bind_tile0, Ht in *. cbn zeta in *. rewrite bind_modify in *.
  pose proof (pop_passed_suffix (get_pos (ps_cs s)) (signal_queue_ (ps_th s))) as Hq.
  set (q := pop_passed _ _) in *. rewrite Hidx in *.
  assert (rok (ps_cs s)) as Hr by apply Hs.
  destruct q as [|g q]; [by apply (pok_same s _ Hp)|]. destruct (_ =? 0); [by apply (pok_same s _ Hp)|].
  destruct (index_by_pid _ !! _) as [l|] eqn:Hl; [|by apply (pok_same s _ Hp)].
  destruct (l !! _) as [i|] eqn:Hi; [|by apply (pok_same s _ Hp)].
  destruct (index_by_pid_lookup _ _ _ _ _ Hl Hi) as (e & Hi0 & He & _). apply lookup_lt_Some in He.
  rewrite u32_small in * by lia. destruct (Z.ltb_spec i (crp_idx tile)); [by apply (pok_same s _ Hp)|].
  rewrite bind_modify in *. unfold put_tile0 in *. rewrite !bind_modify in *. cbv [mret M_ret] in *.
  exists i. split_and!; [|cbn; by rewrite i32_small by lia|lia..|].
  - eapply pok_same; [exact Hp| |done]. apply reset_rok; [|done].
    destruct Hq as [k E]. pose proof (pk_signals _ Hs) as Hqs. rewrite E in Hqs.
    apply Forall_app in Hqs as [_ Hqs]. by inversion Hqs.
  - cbn. apply suffix_length in Hq. cbn in Hq. lia.
Qed.

Definition ends_well {A} (o : outcome (A * pst)) : Prop :=
  match o with Ret (_, s') => pok s' | UB => True | NoFuel => False end.

Lemma entry_Some tile ct : entry tile = Some ct → 0 ≤ crp_idx tile < Z.of_nat (length (crp tile)).
Proof. unfold entry. destruct (Z.leb_spec 0 (crp_idx tile)); [|done]. intros E%lookup_lt_Some. lia. Qed.

Lemma cb_run ct s tile :
  head (tiles (ps_th s)) = Some tile →
  precinct_callback ct s
  = match get_prec tile ct with Some pr => Ret ((), fire (ct, pr) s) | None => UB end.
Proof. intros Ht. unfold precinct_callback. rewrite bind_tile0, Ht. by destruct (get_prec tile ct). Qed.
Lemma bump_run s tile :
  head (tiles (ps_th s)) = Some tile →
  bump_crp_idx s = Ret ((), put_head (set_crp_idx (crp_idx tile + 1) tile) s).
Proof. intros Ht. unfold bump_crp_idx. by rewrite bind_tile0, Ht. Qed.

Lemma pok_put s tile tile' :
  pok s → head (tiles (ps_th s)) = Some tile → crp tile' = crp tile → pok (put_head tile' s).
Proof.
  intros Hs Ht Hc. eapply pok_same; [|apply Hs|exact Hs]. by apply (put_tile0_same tile).
Qed.
Lemma pok_fire s e : pok s → pok (fire e s).
Proof. intros []. by split. Qed.

(** What a round leaves behind when the loop goes on. *)
Definition round_ok (m : pst → nat) (s : pst) (o : outcome (option Z * pst)) : Prop :=
  match o with
  | Ret (Some _, s') => pok s'
  | Ret (None, s') => pok s' ∧ (m s' < m s)%nat ∧ is_Some (head (tiles (ps_th s')))
  | UB => True
  | NoFuel => False
  end.

Definition parse_measure (s : pst) : nat :=
  match head (tiles (ps_th s)) with
  | Some tile => length (crp tile) - Z.to_nat (crp_idx tile)
  | None => 0
  end.
Definition flush_measure (s : pst) : nat := parse_measure s + length (signal_queue_ (ps_th s)).

Lemma parse_round_ok s tile :
  pok s → head (tiles (ps_th s)) = Some tile → round_ok parse_measure s (parse_round mem s).
Proof.
  intros Hs Ht. unfold parse_round. rewrite bind_get. destruct (last _) as [back|]; [|done].
  rewrite bind_tile0, Ht. destruct (_ <=? _); [done|]. rewrite bind_at. fold (entry tile).
  destruct (entry tile) as [ct|] eqn:He; [|done]. pose proof (entry_Some _ _ He) as Hk.
  pose proof (one_step s tile Hs Ht) as H1. unfold mbind at 1, M_bind at 1.
  destruct (parse_one_precinct mem s) as [[r s1]| |]; [|done|done].
  destruct H1 as (ct' & pr' & E & Hs1 & Hq1 & Ht1). rewrite He in E. injection E as <-.
  rewrite (bind_run _ _ _ _ _ (bump_run _ _ Ht1)). change (crp_idx (put_prec ct pr' tile)) with (crp_idx tile).
  set (tile2 := set_crp_idx _ _). set (s2 := put_head tile2 s1).
  assert (pok s2) as Hs2 by (by apply (pok_put s1 (put_prec ct pr' tile))).
  unfold parse_measure. destruct (negb _); unfold mbind at 1, M_bind at 1.
  - pose proof (recover_step s2 tile2 Hs2 eq_refl ltac:(cbn; lia)) as Hr.
    destruct (try_recover s2) as [[[] s3]| |]; [|done..]. destruct Hr as (i & Hs3 & Ht3 & Hi & _).
    split; [done|]. rewrite Ht, Ht3. cbn in *. split; [lia|done].
  - rewrite (cb_run _ _ tile2) by done. destruct (get_prec tile2 ct) as [pr|]; [|done].
    split; [by apply pok_fire|]. rewrite Ht. cbn. split; [lia|done].
Qed.

Lemma flush_round_ok s tile :
  pok s → head (tiles (ps_th s)) = Some tile → round_ok flush_measure s (flush_round mem s).
Proof.
  intros Hs Ht. unfold flush_round. rewrite bind_tile0, Ht. destruct (_ <=? _); [done|].
  rewrite bind_at. fold (entry tile). destruct (entry tile) as [ct|] eqn:He; [|done].
  pose proof (entry_Some _ _ He) as Hk. pose proof (one_step s tile Hs Ht) as H1. unfold mbind at 1, M_bind at 1.
  destruct (parse_one_precinct mem s) as [[r s1]| |]; [|done|done].
  destruct H1 as (ct' & pr' & E & Hs1 & Hq1 & Ht1). rewrite He in E. injection E as <-.
  unfold flush_measure, parse_measure. destruct (negb _); unfold mbind at 1, M_bind at 1.
  - pose proof (recover_step s1 _ Hs1 Ht1 ltac:(cbn; lia)) as Hr.
    destruct (try_recover s1) as [[[] s3]| |]; [|done..]. destruct Hr as (i & Hs3 & Ht3 & Hi & Hl).
    split; [done|]. rewrite Ht, Ht3. rewrite Hq1 in Hl. cbn in *. split; [lia|done].
  - rewrite (cb_run _ _ _ Ht1). destruct (get_prec _ ct) as [pr|]; [|done].
    rewrite (bind_run _ _ _ _ _ (bump_run (fire (ct, pr) s1) _ Ht1)).
    split; [by apply (pok_put _ (put_prec ct pr' tile)); [apply pok_fire|..]|]. rewrite Ht. cbn. rewrite Hq1. split; [lia|done].
Qed.

Lemma rounds_total round m n s :
  (∀ s tile, pok s → head (tiles (ps_th s)) = Some tile → round_ok m s (round s)) →
  pok s → is_Some (head (tiles (ps_th s))) → (m s < n)%nat → ends_well (rounds round n s).
Proof.
  intros Hr. revert s. induction n as [|n IH]; intros s Hs [tile Ht] Hn; [lia|]. cbn [rounds].
  specialize (Hr s tile Hs Ht). unfold mbind, M_bind. destruct (round s) as [[[r|] s']| |]; [done| |done|done].
  destruct Hr as (? & ? & ?). apply IH; [done..|lia].
Qed.

Lemma parse_ends s : pok s → ends_well (parse mem s).
Proof.
  intros Hs. unfold parse. rewrite bind_get. unfold parse_fuel. destruct (tiles (ps_th s)) as [|tile l] eqn:E.
  - cbn [rounds]. unfold mbind at 1, M_bind at 1. unfold parse_round. rewrite bind_get.
    destruct (last _); [|done]. by rewrite bind_tile0, E.
  - apply (rounds_total _ parse_measure); [apply parse_round_ok|done|by rewrite E|].
    unfold parse_measure. rewrite E. cbn. lia.
Qed.
Lemma flush_ends s : pok s → ends_well (flush mem s).
Proof.
  intros Hs. unfold flush. rewrite bind_get. unfold flush_fuel. destruct (tiles (ps_th s)) as [|tile l] eqn:E.
  - cbn [rounds]. unfold mbind at 1, M_bind at 1. unfold flush_round. by rewrite bind_tile0, E.
  - apply (rounds_total _ flush_measure); [apply flush_round_ok|done|by rewrite E|].
    unfold flush_measure, parse_measure. rewrite E. cbn. lia.
Qed.

End Total.

(** ** Exact delivery *)

(** Where an entry points, as array indices. *)
Definition key_of (ct : crp_status) : nat * nat * nat :=
  (Z.to_nat (crp_c ct), Z.to_nat (crp_r ct), Z.to_nat (crp_p ct)).

Lemma get_put_same ct pr tile : is_Some (get_prec tile ct) → get_prec (put_prec ct pr tile) ct = Some pr.
Proof.
  unfold get_prec, put_prec. cbn [tcomp set_tcomps]. rewrite list_lookup_alter_eq.
  destruct (tcomp tile !! _) as [tc|]; cbn; [|by intros []]. rewrite list_lookup_alter_eq.
  destruct (tc_res tc !! _) as [r|]; cbn; [|by intros []]. intros [p Hp].
  apply list_lookup_insert_eq. by eapply lookup_lt_Some.
Qed.

Lemma get_put_other ct ct' pr tile :
  key_of ct ≠ key_of ct' → get_prec (put_prec ct pr tile) ct' = get_prec tile ct'.
Proof.
  unfold get_prec, put_prec, key_of. cbn [tcomp set_tcomps]. intros Hk.
  destruct (decide (Z.to_nat (crp_c ct) = Z.to_nat (crp_c ct'))) as [Ec|]; [|by rewrite list_lookup_alter_ne].
  rewrite Ec, list_lookup_alter_eq. destruct (tcomp tile !! _) as [tc|]; cbn; [|done].
  destruct (decide (Z.to_nat (crp_r ct) = Z.to_nat (crp_r ct'))) as [Er|]; [|by rewrite list_lookup_alter_ne].
  rewrite Er, list_lookup_alter_eq. destruct (tc_res tc !! _) as [r|]; cbn; [|done].
  apply list_lookup_insert_ne. congruence.
Qed.

Section Deliver.
Context (mem : memory).

(** The packet [k] fits the precinct [ct] names. *)
Definition fits (t : tile_handler) (tile : tile_) (lk : crp_status * packet_desc) : Prop :=
  ∃ pr coc, get_prec tile lk.1 = Some pr ∧ h_cocs (tabs t) !! Z.to_nat (crp_c lk.1) = Some coc
    ∧ ht_style (coc_cbs coc) ∧ packet_for (coc_cbs coc) pr lk.2.

(** The reader stands at the encoded packets of the next entries of the walk. *)
Record poised (s : pst) (tile : tile_) (l : list (crp_status * packet_desc)) (post : list Z) : Prop := {
  po_head : head (tiles (ps_th s)) = Some tile;
  po_idx : 0 ≤ crp_idx tile;
  po_walk : (fst <$> l) `prefix_of` drop (Z.to_nat (crp_idx tile)) (crp tile);
  po_nodup : NoDup (key_of ∘ fst <$> l);
  po_fits : Forall (fits (ps_th s) tile) l;
  po_stands : stands mem (ps_cs s) ((l ≫= packet_bytes ∘ snd) ++ post)
}.

(** A callback: the entry, and the precinct with the packet's content. *)
Definition delivered (t : tile_handler) (tile : tile_) (c : codestream)
    (lk : crp_status * packet_desc) (e : crp_status * prec_) : Prop :=
  e.1 = lk.1 ∧ ∃ pr coc, get_prec tile lk.1 = Some pr
    ∧ h_cocs (tabs t) !! Z.to_nat (crp_c lk.1) = Some coc ∧ prec_read mem (coc_cbs coc) c lk.2 pr e.2.

(** One precinct further. *)
Definition advanced (tile : tile_) (ct : crp_status) (pr' : prec_) (c' : codestream) (s : pst) : pst :=
  put_head (set_crp_idx (crp_idx tile + 1) (put_prec ct pr' tile)) (fire (ct, pr') (set_pcs c' s)).

Lemma poised_entry s tile ct k l post :
  poised s tile ((ct, k) :: l) post → entry tile = Some ct.
Proof.
  intros [_ Hi [w Hw] _ _ _]. cbn in Hw. unfold entry. rewrite (proj2 (Z.leb_le _ _)) by done.
  rewrite <- (Nat.add_0_r (Z.to_nat (crp_idx tile))), <- lookup_drop. by rewrite Hw.
Qed.

Lemma poised_step s tile ct k l post :
  poised s tile ((ct, k) :: l) post →
  ∃ c' pr', parse_one_precinct mem s = Ret (EXIT_SUCCESS, put_head (put_prec ct pr' tile) (set_pcs c' s))
    ∧ get_prec (put_prec ct pr' tile) ct = Some pr'
    ∧ delivered (ps_th s) tile c' (ct, k) (ct, pr') ∧ grown (ps_cs s) c'
    ∧ poised (advanced tile ct pr' c' s) (set_crp_idx (crp_idx tile + 1) (put_prec ct pr' tile)) l post.
Proof.
  intros Hp. pose proof (poised_entry _ _ _ _ _ _ Hp) as He. destruct Hp as [Hh Hi Hw Hn Hf Hs].
  apply Forall_cons in Hf as [(pr & coc & Hg & Hc & Hst & Hpf) Hf]. cbn [fst snd] in *.
  cbn [mbind list_bind compose fst snd] in Hs. rewrite <- app_assoc in Hs.
  destruct (read_packet_run mem coc (ps_cs s) pr k _ Hst Hpf Hs) as (c' & pr' & E & Hs' & Hgr & Hrd).
  exists c', pr'. split_and!; [|by apply get_put_same|by split; [|exists pr, coc]|done|].
  { rewrite one_run, Hh, He, Hg, Hc, E. done. }
  apply NoDup_cons in Hn as [Hni Hn]. split; [done|cbn; lia| |done| |done].
  - destruct Hw as [w Hw]. exists w. cbn [crp_idx crp set_crp_idx put_prec set_tcomps].
    rewrite Z2Nat.inj_add by lia. by rewrite <- drop_drop, Hw.
  - rewrite Forall_forall in Hf |- *. intros lk Hlk. destruct (Hf lk Hlk) as (q & o & H1 & H2 & H3 & H4).
    exists q, o. split_and!; [|done..]. rewrite <- H1. apply (get_put_other ct).
    intros Ek. apply Hni. apply list_elem_of_fmap. by exists lk.
Qed.

Lemma prec_read_grown cbs c c' k pr pr' :
  grown c c' → prec_read mem cbs c k pr pr' → prec_read mem cbs c' k pr pr'.
Proof.
  intros Hg. destruct k as [|dss]; [done|]. intros (l & -> & H). exists l. split; [done|].
  eapply Forall3_impl; [exact H|]. intros. by eapply band_read_grown.
Qed.

(** What the later callbacks deliver does not depend on the earlier ones. *)
Lemma delivered_back t tile ct i pr' c l evs :
  key_of ct ∉ (key_of ∘ fst <$> l) →
  Forall2 (delivered t (set_crp_idx i (put_prec ct pr' tile)) c) l evs →
  Forall2 (delivered t tile c) l evs.
Proof.
  intros Hn H. induction H as [|lk e l evs (He & pr & coc & Hg & Hc & Hr) _ IH]; [constructor|].
  cbn in Hn. apply not_elem_of_cons in Hn as [Hne Hn]. constructor; [|by apply IH].
  split; [done|]. exists pr, coc. split_and!; [|done|done]. rewrite <- Hg. symmetry. by apply (get_put_other ct).
Qed.

(** After all of [l]: the callbacks, the reader, the rest of the state. *)
Record done_with (s : pst) (tile : tile_) (l : list (crp_status * packet_desc)) (post : list Z)
    (evs : list (crp_status * prec_)) (s' : pst) : Prop := {
  dw_events : ps_ev s' = ps_ev s ++ evs;
  dw_read : Forall2 (delivered (ps_th s) tile (ps_cs s')) l evs;
  dw_stands : stands mem (ps_cs s') post;
  dw_grown : grown (ps_cs s) (ps_cs s');
  dw_same : psame s s';
  dw_queue : signal_queue_ (ps_th s') = signal_queue_ (ps_th s);
  dw_tile : ∃ tile', head (tiles (ps_th s')) = Some tile' ∧ crp_idx tile' = crp_idx tile + Z.of_nat (length l)
    ∧ crp tile' = crp tile
    ∧ ∀ ct, key_of ct ∉ (key_of ∘ fst <$> l) → get_prec tile' ct = get_prec tile ct
}.

Lemma done_nil s tile post : poised s tile [] post → done_with s tile [] post [] s.
Proof.
  intros [Hh _ _ _ _ Hs]. split; try done; [by rewrite app_nil_r|].
  exists tile. cbn. split_and!; try done. lia.
Qed.

Lemma done_cons s tile ct k l post c' pr' evs s' :
  poised s tile ((ct, k) :: l) post →
  delivered (ps_th s) tile c' (ct, k) (ct, pr') → grown (ps_cs s) c' →
  done_with (advanced tile ct pr' c' s) (set_crp_idx (crp_idx tile + 1) (put_prec ct pr' tile)) l post evs s' →
  done_with s tile ((ct, k) :: l) post ((ct, pr') :: evs) s'.
Proof.
  intros Hp (He & pr & coc & Hg & Hc & Hr) Hgr [D1 D2 D3 D4 D5 D6 D7].
  assert (psame s (advanced tile ct pr' c' s)) as Hsame.
  { apply (put_tile0_same tile); try done; [apply Hp|]. split; try done. by apply prefix_app_r. }
  split; [| |done| | |done|].
  - rewrite D1. cbn. by rewrite <- app_assoc.
  - constructor.
    + split; [done|]. exists pr, coc. split_and!; [done..|]. by eapply prec_read_grown.
    + eapply delivered_back; [|exact D2]. pose proof (po_nodup _ _ _ _ Hp) as Hn. by apply NoDup_cons in Hn as [].
  - by eapply grown_trans.
  - by etrans.
  - destruct D7 as (tile' & T1 & T2 & T3 & T4). exists tile'. split_and!; [done|rewrite T2; cbn; lia|done|].
    intros ct' Hn. cbn in Hn. apply not_elem_of_cons in Hn as [Hne Hn]. rewrite T4 by done. by apply (get_put_other ct).
Qed.

(** [flush]: every precinct left. *)
Lemma flush_rounds l s tile post fuel :
  poised s tile l post → length (crp tile) = (Z.to_nat (crp_idx tile) + length l)%nat → (length l < fuel)%nat →
  ∃ evs s', rounds (flush_round mem) fuel s = Ret (EXIT_SUCCESS, s') ∧ done_with s tile l post evs s'.
Proof.
  revert s tile fuel. induction l as [|[ct k] l IH]; intros s tile [|fuel] Hp Hl Hf; [lia|..|lia|].
  { exists [], s. split; [|by apply done_nil]. cbn [rounds]. rewrite (bind_run _ _ s (Some EXIT_SUCCESS) s); [done|].
    unfold flush_round. rewrite bind_tile0, (po_head _ _ _ _ Hp). pose proof (po_idx _ _ _ _ Hp).
    by rewrite (proj2 (Z.leb_le _ _)) by (cbn in Hl; lia). }
  destruct (poised_step _ _ _ _ _ _ Hp) as (c' & pr' & E & Eg & Hd & Hgr & Hp').
  destruct (IH _ _ fuel Hp') as (evs & s' & Er & Hd').
  { cbn in *. rewrite Z2Nat.inj_add; [lia|apply Hp|lia]. }
  { cbn in *. lia. }
  exists ((ct, pr') :: evs), s'. split; [|by eapply done_cons]. cbn [rounds].
  rewrite (bind_run _ _ s None (advanced tile ct pr' c' s)); [done|].
  unfold flush_round. rewrite bind_tile0, (po_head _ _ _ _ Hp). pose proof (po_idx _ _ _ _ Hp).
  rewrite (proj2 (Z.leb_gt _ _)) by (cbn in Hl; lia). rewrite bind_at. fold (entry tile).
  rewrite (poised_entry _ _ _ _ _ _ Hp), (bind_run _ _ _ _ _ E). change (EXIT_SUCCESS =? 0) with true. cbn [negb].
  erewrite bind_run; [|by rewrite (cb_run _ _ (put_prec ct pr' tile)), Eg by done].
  by erewrite bind_run; [|by apply bump_run].
Qed.

Lemma stands_pos c l : stands mem c l → pos c + zlength l = total_len (chunks_ c) ∧ 0 ≤ pos c.
Proof.
  intros (Hw & _ & _ & Hp & <-). pose proof (length_flat_bytes mem (chunks_ c) (wf_nonempty _ (wf_cur _ Hw))) as Hl.
  assert (0 ≤ pos c).
  { unfold pos. destruct (wf_cur _ Hw) as [Hne _ Hc Ho _]. rewrite Hc.
    pose proof (total_len_nonneg _ (Forall_take _ (cur_chunk_ c) _ Hne)). lia. }
  unfold zlength. rewrite length_drop. lia.
Qed.

Lemma packet_bytes_pos k : 0 < zlength (packet_bytes k).
Proof.
  assert (∀ b l, 0 < zlength (pack_bits (b :: l))) as H.
  { intros b l. unfold pack_bits. cbn. unfold zlength. cbn [length]. lia. }
  destruct k; cbn [packet_bytes]; [apply H|]. rewrite zlength_app. unfold coded_bits.
  pose proof (H true ((dss ≫= id) ≫= block_bits)). unfold zlength in *. lia.
Qed.

(** [parse]: the precincts before the latest signal, and not one more. *)
Lemma parse_rounds l s tile post fuel back :
  poised s tile l post → last (signal_queue_ (ps_th s)) = Some back →
  byte_offset back = pos (ps_cs s) + zlength (l ≫= packet_bytes ∘ snd) →
  total_len (chunks_ (ps_cs s)) < 4294967296 → (length l < fuel)%nat →
  ∃ evs s', rounds (parse_round mem) fuel s = Ret (EXIT_SUCCESS, s') ∧ done_with s tile l post evs s'.
Proof.
  revert s tile fuel. induction l as [|[ct k] l IH]; intros s tile [|fuel] Hp Hq Hb Ht Hf; [lia|..|lia|].
  all: destruct (stands_pos _ _ (po_stands _ _ _ _ Hp)) as [Hpos Hpos0].
  { exists [], s. split; [|by apply done_nil]. cbn [rounds]. rewrite (bind_run _ _ s (Some EXIT_SUCCESS) s); [done|].
    unfold parse_round. rewrite bind_get, Hq, bind_tile0, (po_head _ _ _ _ Hp). unfold get_pos. fold (pos (ps_cs s)).
    unfold zlength in *. cbn in Hb. rewrite u32_small by lia. by rewrite (proj2 (Z.leb_le _ _)) by lia. }
  destruct (poised_step _ _ _ _ _ _ Hp) as (c' & pr' & E & Eg & Hd & Hgr & Hp').
  destruct (stands_pos _ _ (po_stands _ _ _ _ Hp')) as [Hpos' _]. cbn [ps_cs advanced put_head set_pth fire set_pcs] in Hpos'.
  pose proof (packet_bytes_pos k). destruct Hgr as [Hch Hst]. cbn [mbind list_bind compose snd] in Hb, Hpos.
  rewrite !zlength_app in *. rewrite Hch in Hpos'.
  destruct (IH _ _ fuel Hp') as (evs & s' & Er & Hd'); [done|cbn; unfold compose in *; lia|cbn; by rewrite Hch|cbn in *; lia|].
  exists ((ct, pr') :: evs), s'. split; [|eapply done_cons; [done|done|by split|done]]. cbn [rounds].
  rewrite (bind_run _ _ s None (advanced tile ct pr' c' s)); [done|].
  unfold parse_round. rewrite bind_get, Hq, bind_tile0, (po_head _ _ _ _ Hp). unfold get_pos. fold (pos (ps_cs s)).
  unfold zlength in *. rewrite u32_small by lia. rewrite (proj2 (Z.leb_gt _ _)) by lia. rewrite bind_at. fold (entry tile).
  rewrite (poised_entry _ _ _ _ _ _ Hp), (bind_run _ _ _ _ _ E).
  erewrite bind_run; [|by apply bump_run]. change (EXIT_SUCCESS =? 0) with true. cbn [negb].
  set (tile2 := set_crp_idx _ _). assert (get_prec tile2 ct = Some pr') as Eg2 by exact Eg.
  by erewrite bind_run; [|by rewrite (cb_run _ _ tile2), Eg2 by done].
Qed.

End Deliver.

(** ** Properties *)

(** C12: [flush] delivers the rest of the frame.  If the reader stands at the encoded
    packets of all entries of the walk that are left, wherever the RTP chunk
    boundaries fall, [flush] succeeds: the callback fires once per entry, in the
    order of the walk, each time with the precinct holding exactly that packet's
    content; the reader stands at the first byte after the packets, and the walk
    is used up. *)
Theorem flush_delivers mem s tile l post :
  poised mem s tile l post → crp_idx tile + zlength l = zlength (crp tile) →
  ∃ evs s', flush mem s = Ret (EXIT_SUCCESS, s') ∧ done_with mem s tile l post evs s'.
Proof.
  intros Hp Hl. pose proof (po_idx _ _ _ _ _ Hp). unfold zlength in Hl.
  change (flush mem s) with (rounds (flush_round mem) (flush_fuel s) s).
  apply (flush_rounds mem l s tile post (flush_fuel s) Hp); [lia|].
  unfold flush_fuel. pose proof (po_head _ _ _ _ _ Hp) as Hh. destruct (tiles (ps_th s)) as [|t ?]; [done|].
  injection Hh as ->. lia.
Qed.

(** C13: [parse] stops at the latest signal.  If the latest resync signal marks the
    packet boundary behind the next entries' packets, [parse] reads and reports
    exactly those precincts and leaves the reader on the boundary: it does not
    touch the precinct that starts there, whose body may not have arrived. *)
Theorem parse_delivers mem s tile l post back :
  poised mem s tile l post → last (signal_queue_ (ps_th s)) = Some back →
  byte_offset back = pos (ps_cs s) + zlength (l ≫= packet_bytes ∘ snd) →
  total_len (chunks_ (ps_cs s)) < 4294967296 →
  ∃ evs s', parse mem s = Ret (EXIT_SUCCESS, s') ∧ done_with mem s tile l post evs s'
    ∧ pos (ps_cs s') = byte_offset back.
Proof.
  intros Hp Hq Hb Ht. destruct (parse_rounds mem l s tile post (parse_fuel s) back Hp Hq Hb Ht) as (evs & s' & E & Hd).
  - unfold parse_fuel. destruct Hp as [Hh Hi [w Hw] _ _ _]. destruct (tiles (ps_th s)) as [|t ?]; [done|].
    injection Hh as ->. apply (f_equal length) in Hw. rewrite length_drop, length_app, length_fmap in Hw. lia.
  - exists evs, s'. split_and!; [exact E|done|].
    destruct (stands_pos mem _ _ (po_stands _ _ _ _ _ Hp)) as [H1 _], (stands_pos mem _ _ (dw_stands _ _ _ _ _ _ _ Hd)) as [H2 _].
    rewrite zlength_app in H1. rewrite (proj1 (dw_grown _ _ _ _ _ _ _ Hd)) in H2. lia.
Qed.

(** ** A tile with two precincts *)
Definition duo_walk : list crp_status := [mkCrp 0 0 0; mkCrp 0 0 1].
Definition duo_tile (i : Z) : tile_ :=
  mkTile [mkTcomp [mkRes [] [demo_prec 2; demo_prec 2] 0 demo_geo 2 1 0 1] 0 demo_geo 1 1] 0 demo_geo 1 PCRL duo_walk i false.
Definition duo_tabs : tables :=
  mkHdr () (mkSiz 0 64 64 0 0 64 64 0 0 1 [8] [1] [1]) cod0 [PacketSpec.demo_coc 64] qcd0 dfs0 0 0.
Definition duo (q : list Signal) (c : codestream) : pst :=
  mkPst (mkTh [duo_tile 0] duo_tabs 1 1 true q (index_by_pid duo_walk) 0 0) c [].
Definition duo_packets : list (crp_status * packet_desc) := zip duo_walk [demo_packet; EmptyPacket].
Definition duo_bytes : list Z := (duo_packets ≫= packet_bytes ∘ snd) ++ [77].


(** The code-block lengths of each delivered precinct. *)
Definition lengths_seen (o : outcome (Z * pst)) : option (Z * list (list (list Z))) :=
  match o with
  | Ret (r, s) => Some (r, (λ e, (λ pb, blk_length <$> pb_blk pb) <$> pr_pband e.2) <$> ps_ev s)
  | _ => None
  end.

(** Five bytes of a packet whose second block is corrupt, then the two packets. *)
Definition damaged_bytes : list Z :=
  pack_bits ([true; false; true; true] ++ replicate 16 true) ++ [0; 0] ++ duo_bytes.

(** A recovery onto the same precinct misplaces data (finding).  In [flush] a
    failed precinct may be resumed from the next signal; the comment calls this
    resuming from a corrected position.  But the tag trees and blocks the failed
    attempt has touched are not reset: here the intact packet at the signal has
    four bytes for the first code-block, and [flush] reports success with those
    bytes in the second one.  Read from a fresh precinct, the same packet is
    decoded correctly. *)
Theorem same_precinct_recovery_dirty :
  lengths_seen (flush (list_mem damaged_bytes) (duo [mkSignal 5 0] (two_chunks 4 damaged_bytes)))
  = Some (EXIT_SUCCESS, [[[0; 4]]; [[0; 0]]])
  ∧ lengths_seen (flush (list_mem damaged_bytes) (duo [] (reset 5 (two_chunks 4 damaged_bytes))))
    = Some (EXIT_SUCCESS, [[[4; 0]]; [[0; 0]]]).
Proof. vm_compute. done. Qed.

(** [parse] reads past the walk (finding).  A signal ahead of the last precinct's
    end (a corrupt POS field, or trailing bytes) makes [parse] go on after the last
    entry of the walk; past the end of the chain packets read as empty, so nothing
    else stops it. *)
Theorem parse_reads_past_walk :
  parse (list_mem duo_bytes) (duo [mkSignal 1000 0] (two_chunks 4 duo_bytes)) = UB.
Proof. vm_compute. done. Qed.

(** ** Witnesses *)
Lemma duo_stands : stands (list_mem duo_bytes) (two_chunks 4 duo_bytes) duo_bytes.
Proof.
  split; [|by vm_compute].
  assert (∃ n, two_chunks 4 duo_bytes = mkcs [mkChunk 0 4; mkChunk 4 n] [] 0 0 0 0 0 0 ∧ 0 < n < 100)
    as (n & -> & Hn) by (eexists; split; [reflexivity|vm_compute; done]).
  split; [split|]; simpl; try lia; [repeat constructor; simpl; lia|]. intros c [= <-]. simpl. lia.
Qed.

Lemma duo_poised q : poised (list_mem duo_bytes) (duo q (two_chunks 4 duo_bytes)) (duo_tile 0) duo_packets [77].
Proof.
  split; [done|done|by exists []| | |exact duo_stands].
  - apply NoDup_cons. split; [|apply NoDup_singleton]. rewrite list_elem_of_singleton. by vm_compute.
  - repeat constructor; eexists _, _; (split; [reflexivity|split; [reflexivity|split; [left; cbn; lia|]]]).
    + apply demo_packet_for.
    + done.
Qed.

Lemma flush_delivers_witness :
  ∃ evs s', flush (list_mem duo_bytes) (duo [] (two_chunks 4 duo_bytes)) = Ret (EXIT_SUCCESS, s')
    ∧ ps_ev s' = evs ∧ stands (list_mem duo_bytes) (ps_cs s') [77].
Proof.
  destruct (flush_delivers (list_mem duo_bytes) (duo [] (two_chunks 4 duo_bytes)) (duo_tile 0) duo_packets [77]
    (duo_poised []) eq_refl) as (evs & s' & E & D).
  exists evs, s'. split; [exact E|]. split; [exact (dw_events _ _ _ _ _ _ _ D)|exact (dw_stands _ _ _ _ _ _ _ D)].
Defined.

Lemma parse_delivers_witness :
  ∃ evs s', parse (list_mem duo_bytes) (duo [mkSignal 7 0] (two_chunks 4 duo_bytes)) = Ret (EXIT_SUCCESS, s')
    ∧ ps_ev s' = evs ∧ pos (ps_cs s') = 7.
Proof.
  destruct (parse_delivers (list_mem duo_bytes) (duo [mkSignal 7 0] (two_chunks 4 duo_bytes)) (duo_tile 0) duo_packets
    [77] (mkSignal 7 0) (duo_poised _)) as (evs & s' & E & D & P).
  - reflexivity.
  - vm_compute. reflexivity.
  - vm_compute. reflexivity.
  - exists evs, s'. split; [exact E|]. split; [exact (dw_events _ _ _ _ _ _ _ D)|exact P].
Defined.
