(* ===== verification/TileSafety.v ===== *)
(** * TileSafety: the precinct walks on arbitrary bytes

    The bytes of a frame are whatever the network delivered.  On a structure as
    [create] and [restart] leave it, with HT code-blocks only, [flush] without
    pending signals always returns, and the only undefined behaviour of [parse] is
    to run past the end of the walk. *)
From S2P Require Import Prelude Codestream BitReader Markers Structs MainHeader HeaderSpec PacketHeader.
From S2P Require Import PacketSpec PacketSafety Progression Geometry GeometrySpec TileHandler TileSpec.

Section Safe.
Context (mem : memory).

(** The entry names a precinct ready to be read. *)
Definition readable (t : tile_handler) (tile : tile_) (ct : crp_status) : Prop :=
  ∃ pr coc, get_prec tile ct = Some pr ∧ prec_shape pr ∧ prec_clear pr
    ∧ h_cocs (tabs t) !! Z.to_nat (crp_c ct) = Some coc ∧ 64 ≤ coc_cbs coc < 128.

(** All entries from [crp_idx] on are, and they are distinct. *)
Record armed (s : pst) (tile : tile_) : Prop := {
  ar_head : head (tiles (ps_th s)) = Some tile;
  ar_idx : 0 ≤ crp_idx tile;
  ar_nodup : NoDup (key_of <$> drop (Z.to_nat (crp_idx tile)) (crp tile));
  ar_precs : Forall (readable (ps_th s) tile) (drop (Z.to_nat (crp_idx tile)) (crp tile))
}.

Lemma armed_later s tile i :
  armed s tile → crp_idx tile ≤ i → 
  NoDup (key_of <$> drop (Z.to_nat i) (crp tile)) ∧ Forall (readable (ps_th s) tile) (drop (Z.to_nat i) (crp tile)).
Proof.
  intros [_ H0 Hn Hf] Hi. replace (Z.to_nat i) with (Z.to_nat (crp_idx tile) + Z.to_nat (i - crp_idx tile))%nat by lia.
  rewrite <- drop_drop. split; [|by apply Forall_drop]. rewrite fmap_drop.
  eapply sublist_NoDup; [exact Hn|apply sublist_drop].
Qed.

(** One precinct is read: the entries behind it stay readable. *)
Lemma armed_step s tile ct :
  pok s → armed s tile → entry tile = Some ct →
  ∃ r c' pr', parse_one_precinct mem s = Ret (r, put_head (put_prec ct pr' tile) (set_pcs c' s))
    ∧ get_prec (put_prec ct pr' tile) ct = Some pr'
    ∧ NoDup (key_of <$> drop (Z.to_nat (crp_idx tile + 1)) (crp tile))
    ∧ Forall (readable (ps_th s) (put_prec ct pr' tile)) (drop (Z.to_nat (crp_idx tile + 1)) (crp tile)).
Proof.
  intros Hs Ha He. pose proof (entry_Some _ _ He) as Hk. destruct (armed_later s tile (crp_idx tile + 1) Ha ltac:(lia)) as [Hn1 Hf1].
  destruct Ha as [Hh H0 Hn Hf]. unfold entry in He. rewrite (proj2 (Z.leb_le _ _)) in He by done.
  rewrite (drop_S _ ct) in Hn, Hf by done. apply Forall_cons in Hf as [(pr & coc & Hg & Hsh & Hcl & Hc & Hst) _].
  apply NoDup_cons in Hn as [Hni _].
  destruct (read_packet_returns mem coc (ps_cs s) pr Hst (pk_reader _ Hs) Hsh Hcl) as (r & c' & pr' & E & _).
  exists r, c', pr'. split_and!; [|by apply get_put_same|done|].
  - rewrite one_run, Hh. unfold entry. rewrite (proj2 (Z.leb_le _ _)), He, Hg, Hc, E by done. done.
  - rewrite Forall_forall in Hf1 |- *. intros ct' Hin. destruct (Hf1 ct' Hin) as (q & o & Hq & Hrest). exists q, o.
    split; [|done]. rewrite <- Hq. apply get_put_other. intros Ek. apply Hni. rewrite Ek. apply list_elem_of_fmap. exists ct'.
    split; [done|]. by replace (S (Z.to_nat (crp_idx tile))) with (Z.to_nat (crp_idx tile + 1)) by lia.
Qed.

(** A state with the walk moved on to entry [i]. *)
Lemma armed_moved s tile s' ct pr' i :
  0 ≤ crp_idx tile → crp_idx tile + 1 ≤ i →
  NoDup (key_of <$> drop (Z.to_nat (crp_idx tile + 1)) (crp tile)) →
  Forall (readable (ps_th s) (put_prec ct pr' tile)) (drop (Z.to_nat (crp_idx tile + 1)) (crp tile)) →
  tabs (ps_th s') = tabs (ps_th s) → head (tiles (ps_th s')) = Some (set_crp_idx i (put_prec ct pr' tile)) →
  armed s' (set_crp_idx i (put_prec ct pr' tile)).
Proof.
  intros H0 Hi Hn Hf Ht Hh.
  set (tile1 := set_crp_idx (crp_idx tile + 1) (put_prec ct pr' tile)).
  assert (armed (put_head tile1 s) tile1) as Ha by (split; [done|cbn; lia|done|done]).
  destruct (armed_later _ _ i Ha Hi) as [Hn' Hf']. split; [done|cbn; lia|done|].
  eapply Forall_impl; [exact Hf'|]. intros e (pr & coc & Hg & Hs & Hc & Hl & Hst).
  exists pr, coc. rewrite Ht. cbn in Hl. split_and!; try done; lia.
Qed.

(** The walk is used up but the latest signal lies ahead of the reader. *)
Definition overrun (s : pst) : Prop :=
  ∃ tile back, head (tiles (ps_th s)) = Some tile ∧ last (signal_queue_ (ps_th s)) = Some back
    ∧ Z.of_nat (length (crp tile)) ≤ crp_idx tile ∧ get_pos (ps_cs s) < byte_offset back.

Lemma entry_None tile : 0 ≤ crp_idx tile → entry tile = None → Z.of_nat (length (crp tile)) ≤ crp_idx tile.
Proof.
  intros Hi. unfold entry. rewrite (proj2 (Z.leb_le _ _)) by done. intros E%lookup_ge_None. lia.
Qed.

Lemma parse_round_safe s tile :
  pok s → armed s tile →
  match parse_round mem s with
  | Ret (None, s') => pok s' ∧ ∃ tile', armed s' tile'
  | Ret (Some _, _) => True
  | UB => overrun s
  | NoFuel => False
  end.
Proof.
  intros Hs Ha. pose proof (parse_round_ok mem s tile Hs (ar_head _ _ Ha)) as Hok.
  unfold parse_round in *. rewrite bind_get in *. destruct (last _) as [back|] eqn:Hb; [|done].
  rewrite bind_tile0, (ar_head _ _ Ha) in *. destruct (Z.leb_spec (byte_offset back) (get_pos (ps_cs s))); [done|].
  rewrite bind_at in *. fold (entry tile) in *. destruct (entry tile) as [ct|] eqn:He.
  2:{ exists tile, back. split_and!; [apply Ha|done| |done]. apply entry_None; [apply Ha|done]. }
  destruct (armed_step s tile ct Hs Ha He) as (r & c' & pr' & E & Eg & Hn & Hf).
  pose proof (ar_idx _ _ Ha) as H0. rewrite (bind_run _ _ _ _ _ E) in *.
  assert (bump_crp_idx (put_head (put_prec ct pr' tile) (set_pcs c' s))
    = Ret ((), put_head (set_crp_idx (crp_idx tile + 1) (put_prec ct pr' tile)) (put_head (put_prec ct pr' tile) (set_pcs c' s))))
    as Eb by done.
  rewrite (bind_run _ _ _ _ _ Eb) in *. clear Eb.
  set (s1 := put_head _ (put_head _ _)) in *. set (tile1 := put_prec ct pr' tile) in *.
  destruct (negb _).
  - unfold mbind at 1, M_bind at 1. unfold mbind at 1, M_bind at 1 in Hok.
    pose proof (psteps_recover s1) as Hp.
    assert (pok s1) as Hs1.
    { pose proof (one_step mem s tile Hs (ar_head _ _ Ha)) as H1. rewrite E in H1.
      destruct H1 as (ct' & q & _ & H1 & _ & H2). apply (pok_put _ tile1); done. }
    pose proof (entry_Some _ _ He) as Hk.
    pose proof (recover_step mem s1 (set_crp_idx (crp_idx tile1 + 1) tile1) Hs1 eq_refl ltac:(cbn; lia)) as Hr.
    destruct (try_recover s1) as [[[] s2]| |]; [|done..]. destruct Hr as (i & Hs2 & Ht2 & Hi & _).
    split; [done|]. eexists. apply (armed_moved s tile s2 ct pr' i); try done; [cbn in Hi; lia|].
    by rewrite (ps_tabs _ _ Hp).
  - assert (get_prec (set_crp_idx (crp_idx tile1 + 1) tile1) ct = Some pr') as Eg2 by exact Eg.
    unfold mbind at 1, M_bind at 1. unfold mbind at 1, M_bind at 1 in Hok.
    rewrite (cb_run _ _ (set_crp_idx (crp_idx tile1 + 1) tile1)), Eg2 in * by done.
    split; [apply Hok|]. eexists. by apply (armed_moved s tile _ ct pr' (crp_idx tile + 1)).
Qed.

Lemma flush_round_safe s tile :
  pok s → armed s tile → signal_queue_ (ps_th s) = [] →
  match flush_round mem s with
  | Ret (None, s') => pok s' ∧ signal_queue_ (ps_th s') = [] ∧ ∃ tile', armed s' tile'
  | Ret (Some _, _) => True
  | _ => False
  end.
Proof.
  intros Hs Ha Hq. pose proof (flush_round_ok mem s tile Hs (ar_head _ _ Ha)) as Hok.
  pose proof (psteps_flush_round mem s) as Hp. unfold flush_round in *. rewrite bind_tile0, (ar_head _ _ Ha) in *.
  destruct (Z.leb_spec (Z.of_nat (length (crp tile))) (crp_idx tile)); [done|].
  rewrite bind_at in *. fold (entry tile) in *. pose proof (ar_idx _ _ Ha) as H0. destruct (entry tile) as [ct|] eqn:He.
  2:{ apply entry_None in He; [lia|done]. }
  destruct (armed_step s tile ct Hs Ha He) as (r & c' & pr' & E & Eg & Hn & Hf).
  rewrite (bind_run _ _ _ _ _ E) in *. set (tile1 := put_prec ct pr' tile) in *. destruct (negb _).
  - rewrite (bind_run try_recover _ _ false (set_pth (set_signals []) (put_head tile1 (set_pcs c' s)))); [done|].
    unfold try_recover. rewrite bind_get, bind_tile0. cbn. by rewrite Hq.
  - rewrite (bind_run _ _ _ () (fire (ct, pr') (put_head tile1 (set_pcs c' s)))) in *
      by (by rewrite (cb_run _ _ tile1), Eg by done).
    destruct Hok as [Hs1 _]. split_and!; [done|done|].
    eexists. by apply (armed_moved s tile _ ct pr' (crp_idx tile + 1)).
Qed.

Definition goes_on (s s' : pst) : Prop := parse_round mem s = Ret (None, s').

Lemma parse_rounds_safe n s tile :
  pok s → armed s tile → rounds (parse_round mem) n s = UB → ∃ s', rtc goes_on s s' ∧ overrun s'.
Proof.
  revert s tile. induction n as [|n IH]; intros s tile Hs Ha; [done|]. cbn [rounds]. unfold mbind, M_bind.
  pose proof (parse_round_safe s tile Hs Ha) as Hr. destruct (parse_round mem s) as [[[r|] s1]| |] eqn:E; [done| | |done].
  - destruct Hr as (Hs1 & tile1 & Ha1). intros Hub. destruct (IH s1 tile1 Hs1 Ha1 Hub) as (s' & H1 & H2).
    exists s'. split; [|done]. by eapply rtc_l.
  - intros _. by exists s.
Qed.

Lemma flush_rounds_safe n s tile :
  pok s → armed s tile → signal_queue_ (ps_th s) = [] → rounds (flush_round mem) n s ≠ UB.
Proof.
  revert s tile. induction n as [|n IH]; intros s tile Hs Ha Hq; [done|]. cbn [rounds]. unfold mbind, M_bind.
  pose proof (flush_round_safe s tile Hs Ha Hq) as Hr. destruct (flush_round mem s) as [[[r|] s1]| |]; [done| |done|done].
  destruct Hr as (Hs1 & Hq1 & tile1 & Ha1). by eapply IH.
Qed.

End Safe.

(** ** Properties *)

(** The two walks of the precincts of a frame. *)
Definition precinct_walk (mem : memory) (walk : M pst Z) : Prop := walk = parse mem ∨ walk = flush mem.

(** C21: the precinct walks terminate.  Whatever the bytes, the structure and the
    queued signals, from a well-formed reader neither [parse] nor [flush] runs out
    of the rounds given by the entries left (for [flush] plus the queued signals):
    a recovery never goes back and uses up a signal.  When they return, the reader
    is well formed over the same chunks, the walk, the tables and the latch are
    unchanged, signals were only consumed from the front and callbacks only added. *)
Theorem walks_terminate mem s :
  rok (ps_cs s) → indexed (ps_th s) → Forall (λ g, 0 ≤ byte_offset g) (signal_queue_ (ps_th s)) →
  ∀ walk, precinct_walk mem walk →
  match walk s with
  | Ret (_, s') => rok (ps_cs s') ∧ psame s s'
  | UB => True
  | NoFuel => False
  end.
Proof.
  intros Hr Hi Hq walk Hw. assert (pok s) as Hs by done.
  assert (psteps walk ∧ ends_well (walk s)) as [Hp He].
  { destruct Hw as [-> | ->].
    - split; [apply psteps_parse|by apply parse_ends].
    - split; [apply psteps_flush|by apply flush_ends]. }
  specialize (Hp s). destruct (walk s) as [[r s']| |]; [|done|done]. split; [apply He|done].
Qed.

(** C18: [flush] is safe on any bytes.  With HT code-blocks, a structure as [create]
    and [restart] leave it and no pending signals, [flush] returns, with success
    or failure, whatever the chain holds: no precinct, band, block, tag-tree or
    data access is out of bounds. *)
Theorem flush_safe mem s tile :
  pok s → armed s tile → signal_queue_ (ps_th s) = [] →
  ∃ r s', flush mem s = Ret (r, s') ∧ rok (ps_cs s') ∧ chunks_ (ps_cs s') = chunks_ (ps_cs s).
Proof.
  intros Hs Ha Hq. pose proof (flush_ends mem s Hs) as He. pose proof (psteps_flush mem s) as Hp.
  pose proof (flush_rounds_safe mem (flush_fuel s) s tile Hs Ha Hq) as Hub.
  change (rounds (flush_round mem) (flush_fuel s) s) with (flush mem s) in Hub.
  destruct (flush mem s) as [[r s']| |]; [|done|done]. exists r, s'. split_and!; [done|apply He|apply Hp].
Qed.

(** C19: the one way [parse] can go wrong on HT code-blocks.  Under the same conditions
    (an armed structure, every component's code-block style HT only, 64 to 127; mixed
    styles have the further access of [mixed_scup_out_of_bounds]), with any signals queued,
    the only undefined behaviour of [parse] is reading the walk
    past its end: it is reached exactly when all precincts are used up and the
    latest signal still lies ahead of the reader.  Recoveries never leave the walk
    and never revisit a precinct. *)
Theorem parse_safe mem s tile :
  pok s → armed s tile →
  match parse mem s with
  | Ret (_, s') => rok (ps_cs s') ∧ chunks_ (ps_cs s') = chunks_ (ps_cs s)
  | UB => ∃ s', rtc (goes_on mem) s s' ∧ overrun s'
  | NoFuel => False
  end.
Proof.
  intros Hs Ha. pose proof (parse_ends mem s Hs) as He. pose proof (psteps_parse mem s) as Hp.
  pose proof (parse_rounds_safe mem (parse_fuel s) s tile Hs Ha) as Hub.
  change (rounds (parse_round mem) (parse_fuel s) s) with (parse mem s) in Hub.
  destruct (parse mem s) as [[r s']| |]; [|by apply Hub|done]. split; [apply He|apply Hp].
Qed.

(** ** Witnesses: the two-precinct tile on bytes that are not packets *)
Definition noise : list Z := replicate 40 203.

Lemma noise_rok : rok (two_chunks 4 noise).
Proof.
  split; [|cbn; lia]. split; [split|].
  - apply Forall_cons. split; [done|]. by apply Forall_singleton.
  - cbn. lia.
  - reflexivity.
  - cbn. lia.
  - vm_compute. reflexivity.
  - intros k [= <-]. cbn. lia.
Qed.

Lemma duo_pok q : Forall (λ g, 0 ≤ byte_offset g) q → pok (duo q (two_chunks 4 noise)).
Proof. intros Hq. split; [exact noise_rok| |exact Hq]. intros l [= <-]. by split. Qed.

Lemma duo_armed q c : armed (duo q c) (duo_tile 0).
Proof.
  split; [done|done| |].
  - apply NoDup_cons. split; [|apply NoDup_singleton]. rewrite list_elem_of_singleton. by vm_compute.
  - repeat constructor; exists (demo_prec 2), (PacketSpec.demo_coc 64);
      (split; [done|]; split; [apply demo_shape|]; split; [apply demo_shape|]; split; [done|cbn; lia]).
Qed.

Lemma walks_terminate_witness :
  match parse (list_mem noise) (duo [mkSignal 30 1] (two_chunks 4 noise)) with NoFuel => False | _ => True end.
Proof.
  pose proof (walks_terminate (list_mem noise) (duo [mkSignal 30 1] (two_chunks 4 noise)) noise_rok) as H.
  specialize (H ltac:(intros l [= <-]; by split) ltac:(by apply Forall_singleton) (parse (list_mem noise)) (or_introl eq_refl)).
  destruct (parse _ _) as [[]| |]; [exact I|exact I|exact H].
Defined.

Lemma flush_safe_witness :
  ∃ r s', flush (list_mem noise) (duo [] (two_chunks 4 noise)) = Ret (r, s').
Proof.
  destruct (flush_safe (list_mem noise) (duo [] (two_chunks 4 noise)) (duo_tile 0)) as (r & s' & E & _).
  - apply duo_pok. by apply Forall_nil.
  - apply duo_armed.
  - reflexivity.
  - exists r, s'. exact E.
Defined.

Lemma parse_safe_witness :
  match parse (list_mem noise) (duo [mkSignal 1000 0] (two_chunks 4 noise)) with
  | UB => ∃ s', rtc (goes_on (list_mem noise)) (duo [mkSignal 1000 0] (two_chunks 4 noise)) s' ∧ overrun s'
  | Ret _ => True
  | NoFuel => False
  end.
Proof.
  pose proof (parse_safe (list_mem noise) (duo [mkSignal 1000 0] (two_chunks 4 noise)) (duo_tile 0)) as H.
  specialize (H ltac:(apply duo_pok; by apply Forall_singleton) ltac:(apply duo_armed)).
  destruct (parse _ _) as [[]| |]; [exact I|exact H|exact H].
Defined.
