(* ===== verification/Recovery.v ===== *)
(** * Recovery: resuming after damage

    When a packet cannot be parsed, [try_recover] looks for the next resync signal behind
    the reader, snaps to its byte and continues with the precinct it names.  Here: from a
    state in which the current precinct fails, both walks deliver exactly the precincts
    from the signalled one on, each with its own content, although the failed attempt has
    left the reader and its own precinct in an arbitrary state. *)
From S2P Require Import Prelude Codestream BitReader Markers Structs MainHeader HeaderSpec PacketHeader.
From S2P Require Import PacketSpec Progression Geometry TileHandler TileSpec.

(** The entry of the walk a signal names. *)
Definition signalled (t : tile_handler) (sig : Signal) : option Z :=
  let nc := Csiz (h_siz (tabs t)) in
  if nc =? 0 then None else crp_idx_by_pid_ t !! Z.to_nat (pid sig mod nc) ≫= λ l, l !! Z.to_nat (pid sig / nc).

(** The state in which [try_recover] succeeds. *)
Definition snapped (tile : tile_) (i : Z) (sig : Signal) (q : list Signal) (s : pst) : pst :=
  set_pth (set_signals q) (put_head (set_crp_idx i tile) (set_pcs (reset (byte_offset sig) (ps_cs s)) s)).

Lemma signalled_walk t l sig i :
  indexed t → walk_of t = Some l → signalled t sig = Some i → 0 ≤ i < Z.of_nat (length l) ∧ Z.of_nat (length l) < 2147483648.
Proof.
  intros Hi Hl. destruct (Hi l Hl) as [Hlen Hidx]. unfold signalled. destruct (_ =? 0); [done|]. rewrite Hidx.
  destruct (index_by_pid l !! _) as [k|] eqn:Ek; cbn; [|done]. intros Ej.
  destruct (index_by_pid_lookup _ _ _ _ _ Ek Ej) as (e & H0 & He & _). apply lookup_lt_Some in He. lia.
Qed.

Lemma recover_run s tile sig q i :
  head (tiles (ps_th s)) = Some tile → pop_passed (get_pos (ps_cs s)) (signal_queue_ (ps_th s)) = sig :: q →
  signalled (ps_th s) sig = Some i → 0 ≤ crp_idx tile ≤ i → i < 2147483648 →
  try_recover s = Ret (true, snapped tile i sig q s).
Proof.
  intros Ht Hq Hi Hc Hb. unfold signalled in Hi. unfold try_recover. rewrite bind_get, bind_tile0, Ht. cbn zeta.
  rewrite bind_modify, Hq. destruct (_ =? 0); [done|]. destruct (crp_idx_by_pid_ (ps_th s) !! _) as [k|]; [|done]. cbn in Hi.
  rewrite Hi, u32_small by lia. rewrite (proj2 (Z.ltb_ge _ _)) by lia. rewrite bind_modify. unfold put_tile0.
  rewrite !bind_modify. rewrite i32_small by lia. by destruct s as [[] ? ?].
Qed.

Section Resume.
Context (mem : memory).

(** From any state: the snap puts the reader at the signalled packets. *)
Lemma snap_poised s tile sig q i l post :
  pok s → head (tiles (ps_th s)) = Some tile → 0 ≤ crp_idx tile ≤ i →
  pop_passed (get_pos (ps_cs s)) (signal_queue_ (ps_th s)) = sig :: q → signalled (ps_th s) sig = Some i →
  (fst <$> l) `prefix_of` drop (Z.to_nat i) (crp tile) → NoDup (key_of ∘ fst <$> l) → Forall (fits (ps_th s) tile) l →
  byte_offset sig ≤ total_len (chunks_ (ps_cs s)) →
  drop (Z.to_nat (byte_offset sig)) (flat_bytes mem (chunks_ (ps_cs s))) = (l ≫= packet_bytes ∘ snd) ++ post →
  try_recover s = Ret (true, snapped tile i sig q s) ∧ poised mem (snapped tile i sig q s) (set_crp_idx i tile) l post.
Proof.
  intros Hok Ht Hc Hq Hi Hw Hn Hf Hin Hb.
  destruct (signalled_walk _ (crp tile) sig i (pk_index _ Hok)) as [H1 H2]; [by unfold walk_of; rewrite Ht|done|].
  split; [apply recover_run; [done|done|done|done|lia]|]. split; [done|cbn; lia|done|done|done|]. cbn [snapped set_pth ps_cs put_head set_pcs].
  assert (0 ≤ byte_offset sig) as H0.
  { pose proof (pk_signals _ Hok) as Hs. destruct (pop_passed_suffix (get_pos (ps_cs s)) (signal_queue_ (ps_th s))) as [k E].
    rewrite Hq in E. rewrite E, Forall_app, Forall_cons in Hs. tauto. }
  destruct (pk_reader _ Hok) as [[Hwc _] _]. destruct (reset_spec mem (byte_offset sig) (ps_cs s)) as (R1 & _ & R3 & R4);
    [apply Hwc|apply Hwc|done|]. unfold abs in R4. injection R4 as R5 R6 R7 R8 R9. unfold stands.
  rewrite R7, R9, R6, R3. by split_and!.
Qed.

(** The current precinct fails; the next signal names a later one, [i], and marks the
    packets [l] of the entries from there on. *)
Record damaged (s : pst) (tile : tile_) (ret : Z) (s1 : pst) (sig : Signal) (q : list Signal) (i : Z)
    (l : list (crp_status * packet_desc)) (post : list Z) : Prop := {
  dm_ok : pok s;
  dm_head : head (tiles (ps_th s)) = Some tile;
  dm_idx : 0 ≤ crp_idx tile;
  dm_keys : NoDup (key_of <$> crp tile);
  dm_fail : parse_one_precinct mem s = Ret (ret, s1);
  dm_ret : ret ≠ 0;
  dm_next : pop_passed (get_pos (ps_cs s1)) (signal_queue_ (ps_th s)) = sig :: q;
  dm_target : signalled (ps_th s) sig = Some i;
  dm_forward : crp_idx tile < i;
  dm_walk : (fst <$> l) `prefix_of` drop (Z.to_nat i) (crp tile);
  dm_fits : Forall (fits (ps_th s) tile) l;
  dm_in : byte_offset sig ≤ total_len (chunks_ (ps_cs s));
  dm_bytes : drop (Z.to_nat (byte_offset sig)) (flat_bytes mem (chunks_ (ps_cs s))) = (l ≫= packet_bytes ∘ snd) ++ post
}.

(** What a recovery keeps. *)
Record resumed (s : pst) (tile tile1 : tile_) (q : list Signal) (l : list (crp_status * packet_desc)) (s2 : pst) : Prop := {
  rs_prec : ∀ lk, lk ∈ l → get_prec tile1 lk.1 = get_prec tile lk.1;
  rs_tabs : tabs (ps_th s2) = tabs (ps_th s);
  rs_ev : ps_ev s2 = ps_ev s;
  rs_queue : signal_queue_ (ps_th s2) = q;
  rs_chunks : chunks_ (ps_cs s2) = chunks_ (ps_cs s)
}.

(** The failed attempt touches no precinct but its own. *)
Lemma failed_state s tile ret s1 sig q i l post :
  damaged s tile ret s1 sig q i l post →
  ∃ ct pr c, entry tile = Some ct ∧ s1 = put_head (put_prec ct pr tile) (set_pcs c s) ∧ pok s1 ∧ grown (ps_cs s) c
    ∧ (∀ lk, lk ∈ l → get_prec (put_prec ct pr tile) lk.1 = get_prec tile lk.1) ∧ NoDup (key_of ∘ fst <$> l).
Proof.
  intros D. pose proof (one_step mem s tile (dm_ok _ _ _ _ _ _ _ _ _ D) (dm_head _ _ _ _ _ _ _ _ _ D)) as H.
  pose proof (psteps_one mem s) as Hp. pose proof (dm_fail _ _ _ _ _ _ _ _ _ D) as E. rewrite E in H, Hp.
  destruct H as (ct & pr0 & He & Hok & _ & _). rewrite one_run, (dm_head _ _ _ _ _ _ _ _ _ D), He in E.
  destruct (get_prec tile ct) as [pr|]; [|done]. destruct (h_cocs _ !! _) as [coc|]; [|done].
  destruct (read_packet _ _ _ _) as [[[r c] pr']| |]; [|done|done]. injection E as -> <-. exists ct, pr', c.
  split_and!; [done|done|done|apply Hp| |].
  - intros lk Hlk. apply get_put_other. intros Hk.
    unfold entry in He. destruct (Z.leb_spec 0 (crp_idx tile)); [|done].
    apply (list_elem_of_fmap_2 fst) in Hlk. destruct (dm_walk _ _ _ _ _ _ _ _ _ D) as [w Hw].
    assert (lk.1 ∈ drop (Z.to_nat i) (crp tile)) as Hm by (rewrite Hw; apply elem_of_app; by left).
    apply list_elem_of_lookup_1 in Hm as [n Hm]. rewrite lookup_drop in Hm.
    pose proof (dm_keys _ _ _ _ _ _ _ _ _ D) as Hn. pose proof (dm_forward _ _ _ _ _ _ _ _ _ D).
    assert (Z.to_nat (crp_idx tile) = Z.to_nat i + n)%nat; [|lia].
    eapply NoDup_lookup; [exact Hn|by rewrite list_lookup_fmap, He|]. rewrite list_lookup_fmap, Hm. cbn. by rewrite Hk.
  - pose proof (dm_keys _ _ _ _ _ _ _ _ _ D) as Hn. destruct (dm_walk _ _ _ _ _ _ _ _ _ D) as [w Hw].
    rewrite <- (take_drop (Z.to_nat i) (crp tile)), Hw, !fmap_app in Hn. apply NoDup_app in Hn as (_ & _ & Hn).
    apply NoDup_app in Hn as [Hn _]. by rewrite <- list_fmap_compose in Hn.
Qed.

Lemma fits_same t t' tile tile' l :
  tabs t' = tabs t → (∀ lk, lk ∈ l → get_prec tile' lk.1 = get_prec tile lk.1) → Forall (fits t tile) l → Forall (fits t' tile') l.
Proof.
  intros Ht Hg Hf. rewrite Forall_forall in *. intros lk Hlk. destruct (Hf lk Hlk) as (pr & coc & H1 & H2 & H3).
  exists pr, coc. by rewrite Hg, Ht.
Qed.
Lemma delivered_same t t' tile tile' c l evs :
  tabs t' = tabs t → (∀ lk, lk ∈ l → get_prec tile' lk.1 = get_prec tile lk.1) →
  Forall2 (delivered mem t' tile' c) l evs → Forall2 (delivered mem t tile c) l evs.
Proof.
  intros Ht Hg Hf. induction Hf as [|lk e l evs (He & pr & coc & H1 & H2 & H3) _ IH]; constructor.
  - split; [done|]. exists pr, coc. by rewrite <- Hg, <- Ht by (by left).
  - apply IH. intros lk' Hlk. apply Hg. by right.
Qed.

(** The recovery itself, from the index [j] the walk has counted to. *)
Lemma damaged_snaps s tile ret s1 sig q i l post ct pr j :
  damaged s tile ret s1 sig q i l post → entry tile = Some ct →
  let tile1 := set_crp_idx j (put_prec ct pr tile) in
  head (tiles (ps_th s1)) = Some (put_prec ct pr tile) → crp_idx tile ≤ j ≤ i → pok (put_head tile1 s1) →
  (∀ lk, lk ∈ l → get_prec tile1 lk.1 = get_prec tile lk.1) → NoDup (key_of ∘ fst <$> l) →
  ps_ev s1 = ps_ev s → tabs (ps_th s1) = tabs (ps_th s) → crp_idx_by_pid_ (ps_th s1) = crp_idx_by_pid_ (ps_th s) →
  signal_queue_ (ps_th s1) = signal_queue_ (ps_th s) → chunks_ (ps_cs s1) = chunks_ (ps_cs s) →
  ∃ s2, try_recover (put_head tile1 s1) = Ret (true, s2) ∧ poised mem s2 (set_crp_idx i tile1) l post
    ∧ resumed s tile (set_crp_idx i tile1) q l s2.
Proof.
  intros D He tile1 Hh Hj Hok Hg Hn Ev Et Ep Eq Ec. destruct D as [_ _ Hi _ _ _ Hq Ht Hfw Hw Hfi Hin Hb].
  destruct (snap_poised (put_head tile1 s1) tile1 sig q i l post) as [E Hp]; try done.
  { cbn. lia. }
  { cbn. by rewrite Eq. }
  { unfold signalled in *. cbn. by rewrite Et, Ep. }
  { by eapply fits_same. }
  { cbn. by rewrite Ec. }
  { cbn. by rewrite Ec. }
  exists (snapped tile1 i sig q (put_head tile1 s1)). split_and!; [done|done|]. split; try done.
  exact (eq_trans (f_equal fst (reset_store _ (ps_cs s1))) Ec).
Qed.

Lemma set_crp_idx_same tile : set_crp_idx (crp_idx tile) tile = tile.
Proof. by destruct tile. Qed.
Lemma put_head_same tile s : head (tiles (ps_th s)) = Some tile → put_head tile s = s.
Proof. destruct s as [[ts] ? ?]. cbn. destruct ts as [|t ts]; [done|]. by intros [= ->]. Qed.

(** One round of [flush] on a damaged packet. *)
Lemma flush_round_damaged s tile ret s1 sig q i l post :
  damaged s tile ret s1 sig q i l post →
  ∃ tile2 s2, flush_round mem s = Ret (None, s2) ∧ poised mem s2 tile2 l post
    ∧ crp tile2 = crp tile ∧ crp_idx tile2 = i ∧ resumed s tile tile2 q l s2.
Proof.
  intros D. destruct (failed_state _ _ _ _ _ _ _ _ _ D) as (ct & pr & c & He & E1 & Hok & Hgr & Hg & Hn).
  pose proof D as [_ Hh Hi _ Hf Hr _ _ Hfw _ _ _ _].
  assert (head (tiles (ps_th s1)) = Some (put_prec ct pr tile)) as Hh1 by (by rewrite E1).
  destruct (damaged_snaps s tile ret s1 sig q i l post ct pr (crp_idx (put_prec ct pr tile)) D He Hh1) as (s2 & E & Hp & Hs);
    [cbn; lia|by rewrite set_crp_idx_same, put_head_same|done|done|by rewrite E1..|rewrite E1; apply Hgr|].
  rewrite set_crp_idx_same, put_head_same in E by done.
  eexists _, s2. split; [|by split_and!].
  unfold flush_round. rewrite bind_tile0, Hh. pose proof (entry_Some _ _ He). rewrite (proj2 (Z.leb_gt _ _)) by lia.
  rewrite bind_at. fold (entry tile). rewrite He, (bind_run _ _ _ _ _ Hf), (proj2 (Z.eqb_neq _ _)) by done. cbn [negb].
  by rewrite (bind_run _ _ _ _ _ E).
Qed.

(** One round of [parse], whose counter has already moved on. *)
Lemma parse_round_damaged s tile ret s1 sig q i l post back :
  damaged s tile ret s1 sig q i l post → last (signal_queue_ (ps_th s)) = Some back → get_pos (ps_cs s) < byte_offset back →
  ∃ tile2 s2, parse_round mem s = Ret (None, s2) ∧ poised mem s2 tile2 l post
    ∧ crp tile2 = crp tile ∧ crp_idx tile2 = i ∧ resumed s tile tile2 q l s2.
Proof.
  intros D Hb Hpos. destruct (failed_state _ _ _ _ _ _ _ _ _ D) as (ct & pr & c & He & E1 & Hok & Hgr & Hg & Hn).
  pose proof D as [_ Hh Hi _ Hf Hr _ _ Hfw _ _ _ _].
  assert (head (tiles (ps_th s1)) = Some (put_prec ct pr tile)) as Hh1 by (by rewrite E1).
  destruct (damaged_snaps s tile ret s1 sig q i l post ct pr (crp_idx tile + 1) D He Hh1) as (s2 & E & Hp & Hs);
    [lia|by eapply pok_put|done|done|by rewrite E1..|rewrite E1; apply Hgr|].
  eexists _, s2. split; [|by split_and!].
  unfold parse_round. rewrite bind_get, Hb, bind_tile0, Hh, (proj2 (Z.leb_gt _ _)) by lia.
  rewrite bind_at. fold (entry tile). rewrite He, (bind_run _ _ _ _ _ Hf). erewrite bind_run; [|by apply bump_run].
  rewrite (proj2 (Z.eqb_neq _ _)) by done. cbn [negb]. by rewrite (bind_run _ _ _ _ _ E).
Qed.

(** The walk ends with success and has reported exactly [l], each with its content. *)
Definition resumes (s : pst) (tile : tile_) (l : list (crp_status * packet_desc)) (post : list Z) (o : outcome (Z * pst)) : Prop :=
  ∃ evs s', o = Ret (EXIT_SUCCESS, s') ∧ ps_ev s' = ps_ev s ++ evs
    ∧ Forall2 (delivered mem (ps_th s) tile (ps_cs s')) l evs ∧ stands mem (ps_cs s') post.

Lemma done_resumes s tile tile2 q l post s2 evs s' :
  resumed s tile tile2 q l s2 → done_with mem s2 tile2 l post evs s' → resumes s tile l post (Ret (EXIT_SUCCESS, s')).
Proof.
  intros [R1 R2 R3 _ _] [D1 D2 D3 _ _ _ _]. exists evs, s'. split; [done|]. rewrite D1, R3. split; [done|]. split; [|done].
  by eapply delivered_same.
Qed.

Lemma flush_resumes s tile ret s1 sig q i l post :
  damaged s tile ret s1 sig q i l post → i + zlength l = zlength (crp tile) → resumes s tile l post (flush mem s).
Proof.
  intros D Hl. destruct (flush_round_damaged _ _ _ _ _ _ _ _ _ D) as (tile2 & s2 & E & Hp & Hc & Hi & Hs).
  pose proof D as [_ Hh Hidx _ _ _ _ _ Hfw _ _ _ _]. unfold zlength in Hl.
  change (flush mem s) with (rounds (flush_round mem) (flush_fuel s) s). unfold flush_fuel.
  destruct (tiles (ps_th s)) as [|t ts]; [done|]. injection Hh as ->. cbn [rounds]. rewrite (bind_run _ _ _ _ _ E).
  destruct (flush_rounds mem l s2 tile2 post (length (crp tile) - Z.to_nat (crp_idx tile) + length (signal_queue_ (ps_th s))) Hp)
    as (evs & s' & -> & Hd); [rewrite Hc, Hi; lia|lia|]. by eapply done_resumes.
Qed.

Lemma snap_pos s tile ret s1 sig q i l post tile2 s2 :
  damaged s tile ret s1 sig q i l post → poised mem s2 tile2 l post → resumed s tile tile2 q l s2 →
  0 ≤ byte_offset sig → pos (ps_cs s2) = byte_offset sig.
Proof.
  intros D Hp Hs H0. destruct (stands_pos mem _ _ (po_stands _ _ _ _ _ Hp)) as [H1 _]. rewrite (rs_chunks _ _ _ _ _ _ Hs) in H1.
  pose proof (dm_in _ _ _ _ _ _ _ _ _ D) as H2.
  pose proof (f_equal zlength (dm_bytes _ _ _ _ _ _ _ _ _ D)) as H3. rewrite <- H3 in H1. unfold zlength in H1.
  rewrite length_drop in H1. destruct (dm_ok _ _ _ _ _ _ _ _ _ D) as [[[Hw _] _] _ _].
  pose proof (length_flat_bytes mem _ (wf_nonempty _ Hw)). lia.
Qed.

Lemma parse_resumes s tile ret s1 sig q i l post back :
  damaged s tile ret s1 sig q i l post → last (signal_queue_ (ps_th s)) = Some back → get_pos (ps_cs s) < byte_offset back →
  byte_offset back = byte_offset sig + zlength (l ≫= packet_bytes ∘ snd) → total_len (chunks_ (ps_cs s)) < 4294967296 →
  resumes s tile l post (parse mem s).
Proof.
  intros D Hb Hpos Ho Ht. destruct (parse_round_damaged _ _ _ _ _ _ _ _ _ _ D Hb Hpos) as (tile2 & s2 & E & Hp & Hc & Hi & Hs).
  pose proof D as [Hok Hh Hidx _ _ _ Hq _ Hfw _ _ _ _]. destruct (pop_passed_suffix (get_pos (ps_cs s1)) (signal_queue_ (ps_th s))) as [k Ek].
  rewrite Hq in Ek. assert (0 ≤ byte_offset sig) as H0.
  { pose proof (pk_signals _ Hok) as Hsg. rewrite Ek, Forall_app, Forall_cons in Hsg. tauto. }
  pose proof (snap_pos _ _ _ _ _ _ _ _ _ _ _ D Hp Hs H0) as Hp2. rewrite Ek, last_app_cons in Hb.
  change (parse mem s) with (rounds (parse_round mem) (parse_fuel s) s). unfold parse_fuel.
  destruct (tiles (ps_th s)) as [|t ts]; [done|]. injection Hh as ->. cbn [rounds]. rewrite (bind_run _ _ _ _ _ E).
  change (resumes s tile l post (rounds (parse_round mem) (S (length (crp tile) - Z.to_nat (crp_idx tile))) s2)).
  destruct q as [|g q].
  - injection Hb as <-. destruct l as [|lk l].
    + cbn [rounds]. rewrite (bind_run _ _ s2 (Some EXIT_SUCCESS) s2).
      { eapply done_resumes; [done|]. by apply done_nil. }
      unfold parse_round. by rewrite bind_get, (rs_queue _ _ _ _ _ _ Hs).
    + pose proof (packet_bytes_pos lk.2). cbn [mbind list_bind] in Ho. rewrite zlength_app in Ho. unfold compose, zlength in *. lia.
  - destruct (parse_rounds mem l s2 tile2 post (S (length (crp tile) - Z.to_nat (crp_idx tile))) back Hp) as (evs & s' & -> & Hd).
    + rewrite (rs_queue _ _ _ _ _ _ Hs). by rewrite last_cons_cons in Hb.
    + lia.
    + by rewrite (rs_chunks _ _ _ _ _ _ Hs).
    + destruct (po_walk _ _ _ _ _ Hp) as [w Hw]. apply (f_equal length) in Hw. rewrite length_drop, length_app, length_fmap, Hc in Hw. lia.
    + by eapply done_resumes.
Qed.
End Resume.

(** ** Property *)

(** C6: damage costs only the precincts up to the next signal.  Suppose the packet of the
    current precinct cannot be parsed, in whatever state that leaves the reader and that
    precinct, and the next resync signal behind the reader names a later entry of the walk
    and marks the byte where its packet starts.  Then [flush], with the packets of all
    entries from there on in the chain, and [parse], up to the latest signal, end with
    success and report exactly those entries, in order, each with exactly its packet's
    content; nothing is reported for the entries in between, and the reader stands behind
    the last packet. *)
Theorem damage_recovered mem s tile ret s1 sig q i l post :
  damaged mem s tile ret s1 sig q i l post →
  (i + zlength l = zlength (crp tile) → resumes mem s tile l post (flush mem s))
  ∧ (∀ back, last (signal_queue_ (ps_th s)) = Some back → get_pos (ps_cs s) < byte_offset back →
      byte_offset back = byte_offset sig + zlength (l ≫= packet_bytes ∘ snd) → total_len (chunks_ (ps_cs s)) < 4294967296 →
      resumes mem s tile l post (parse mem s)).
Proof.
  intros D. split; [by eapply flush_resumes|]. intros back. by eapply parse_resumes.
Qed.

(** ** Witness: five bad bytes in the first precinct, a signal at the second *)
Definition hurt : pst := duo [mkSignal 11 1] (two_chunks 4 damaged_bytes).
Lemma hurt_pok : pok hurt.
Proof.
  split; [| |by apply Forall_singleton].
  - split; [|cbn; lia]. split; [split|].
    + apply Forall_cons. split; [done|]. by apply Forall_singleton.
    + cbn. lia.
    + reflexivity.
    + cbn. lia.
    + vm_compute. reflexivity.
    + intros k [= <-]. cbn. lia.
  - intros l [= <-]. by split.
Qed.
Lemma damage_recovered_witness :
  ∃ s', flush (list_mem damaged_bytes) hurt = Ret (EXIT_SUCCESS, s') ∧ length (ps_ev s') = 1%nat
    ∧ stands (list_mem damaged_bytes) (ps_cs s') [77].
Proof.
  destruct (parse_one_precinct (list_mem damaged_bytes) hurt) as [[ret s1]| |] eqn:E; [|vm_compute in E; discriminate..].
  destruct (damage_recovered (list_mem damaged_bytes) hurt (duo_tile 0) ret s1 (mkSignal 11 1) [] 1
    [(mkCrp 0 0 1, EmptyPacket)] [77]) as [H _].
  - assert (ret ≠ 0 ∧ pop_passed (get_pos (ps_cs s1)) [mkSignal 11 1] = [mkSignal 11 1]) as [Hr Hq].
    { vm_compute in E. injection E as <- <-. split; [discriminate|vm_compute; reflexivity]. }
    split; [exact hurt_pok|reflexivity|cbn; lia| |exact E|exact Hr|exact Hq|reflexivity|cbn; lia| | |vm_compute; discriminate|].
    + apply NoDup_cons. split; [|apply NoDup_singleton]. rewrite list_elem_of_singleton. vm_compute. discriminate.
    + exists []. reflexivity.
    + apply Forall_singleton. eexists _, _. split; [reflexivity|]. split; [reflexivity|]. split; [left; cbn; lia|done].
    + vm_compute. reflexivity.
  - destruct (H eq_refl) as (evs & s' & E' & Ev & Hd & Hs). exists s'. split; [exact E'|]. split; [|exact Hs].
    rewrite Ev. apply Forall2_length in Hd. symmetry. exact Hd.
Defined.
