(* ===== verification/TileRestart.v ===== *)
(** * TileRestart: [restart] makes the structure as new

    Whatever the packets of a frame did to the precincts, [restart] at the frame
    boundary finds every array at the size [create] gave it and leaves all tag
    trees and block lengths cleared, so the next frame's packets are decoded as on
    a freshly built structure. *)
From S2P Require Import Prelude Codestream BitReader Markers Structs MainHeader HeaderSpec PacketHeader.
From S2P Require Import PacketSpec PacketSafety Progression Geometry GeometrySpec TileHandler TileSpec TileSafety.

(** ** Sizes *)

(** The arrays of a precinct-band have the sizes its code-block grid implies. *)
Record band_sized (w h : Z) (pb : pband_) : Prop := {
  bz_incl : length (pb_incl pb) = Z.to_nat (tag_tree_size w h);
  bz_zbp : length (pb_zbp pb) = Z.to_nat (tag_tree_size w h);
  bz_blk : length (pb_blk pb) = Z.to_nat (u32 (w * h));
  bz_leaves : (Z.to_nat (u32 (w * h)) ≤ Z.to_nat (tag_tree_size w h))%nat
}.
Definition prec_sized (p : prec_) : Prop :=
  length (pr_pband p) = Z.to_nat (pr_num_bands p) ∧ Forall (band_sized (ncbw p) (ncbh p)) (pr_pband p).
Definition res_sized (r : res_) : Prop :=
  length (res_prec r) = Z.to_nat (u32 (npw r * nph r)) ∧ Forall prec_sized (res_prec r).
Definition tcomp_sized (tc : tcomp_) : Prop :=
  length (tc_res tc) = Z.to_nat (MAX_DWT_LEVEL + 1) ∧ Forall res_sized (tc_res tc).
Definition tile_sized (tile : tile_) : Prop :=
  length (tcomp tile) = Z.to_nat (num_components tile) ∧ Forall tcomp_sized (tcomp tile).

#[global] Instance band_sized_dec w h pb : Decision (band_sized w h pb).
Proof.
  refine (cast_if (decide (length (pb_incl pb) = Z.to_nat (tag_tree_size w h)
    ∧ length (pb_zbp pb) = Z.to_nat (tag_tree_size w h) ∧ length (pb_blk pb) = Z.to_nat (u32 (w * h))
    ∧ (Z.to_nat (u32 (w * h)) ≤ Z.to_nat (tag_tree_size w h))%nat))).
  - by destruct_and!.
  - intros []. naive_solver.
Defined.
#[global] Instance prec_sized_dec p : Decision (prec_sized p).
Proof. unfold prec_sized. apply _. Defined.
#[global] Instance res_sized_dec r : Decision (res_sized r).
Proof. unfold res_sized. apply _. Defined.
#[global] Instance tcomp_sized_dec tc : Decision (tcomp_sized tc).
Proof. unfold tcomp_sized. apply _. Defined.
#[global] Instance tile_sized_dec tile : Decision (tile_sized tile).
Proof. unfold tile_sized. apply _. Defined.

(** ** Fresh structures *)
Definition prec_new (p : prec_) : Prop := Forall (fresh_band (nb_code_blocks p)) (pr_pband p).

(** [reset_first] over a whole array. *)
Lemma reset_all {A} (P : A → Prop) (Q : A → A → Prop) (f : A → outcome A) l :
  (∀ x, P x → ∃ y, f x = Ret y ∧ Q x y) → Forall P l →
  ∃ l', reset_first (length l) f l = Ret l' ∧ Forall2 Q l l'.
Proof.
  intros Hf. induction 1 as [|x l Hx _ (l' & E & H)]; [by exists []|].
  destruct (Hf x Hx) as (y & Ey & Hy). exists (y :: l'). cbn. rewrite Ey, E. split; [done|by constructor].
Qed.

(** An array related elementwise has the same length and what [Q] gives. *)
Lemma Forall2_keep {A} (R : A → Prop) (Q : A → A → Prop) l l' :
  Forall2 Q l l' → (∀ x y, Q x y → R y) → length l' = length l ∧ Forall R l'.
Proof.
  intros H HR. split; [symmetry; by eapply Forall2_length|]. induction H as [|x y l l' Hxy _ IH]; constructor; eauto.
Qed.

Lemma zero_tree w h (t : list tagtree_node) :
  length t = Z.to_nat (tag_tree_size w h) →
  tag_tree_zero (S := ()) t w h () = Ret (replicate (length t) (mkNode 0 0), ()).
Proof.
  intros Hl. unfold tag_tree_zero. rewrite <- Hl, Nat.leb_refl, drop_all, app_nil_r. done.
Qed.

Lemma reset_pband_fresh w h pb :
  band_sized w h pb →
  ∃ pb', reset_pband w h pb = Ret pb' ∧ band_sized w h pb' ∧ fresh_band (Z.to_nat (u32 (w * h))) pb'.
Proof.
  intros [Hi Hz Hb Hl]. unfold reset_pband. rewrite !zero_tree by done. rewrite <- Hb.
  destruct (reset_all (λ _, True) (λ _ b, fresh_blk b) reset_blk (pb_blk pb)) as (l' & -> & Hf);
    [by intros x _; eexists|by apply Forall_true|].
  apply (Forall2_keep fresh_blk) in Hf as [El Hf]; [|done]. eexists. split; [done|].
  split; split; cbn; rewrite ?length_replicate; try congruence; try lia; try done.
  - split; [rewrite length_replicate; lia|by apply Forall_replicate].
  - split; [rewrite length_replicate; lia|by apply Forall_replicate].
Qed.

Lemma reset_prec_fresh p :
  prec_sized p → ∃ p', reset_prec p = Ret p' ∧ prec_sized p' ∧ prec_new p' ∧ pr_num_bands p' = pr_num_bands p.
Proof.
  intros [Hl Hb]. unfold reset_prec. rewrite <- Hl.
  destruct (reset_all (band_sized (ncbw p) (ncbh p)) (λ _ pb', band_sized (ncbw p) (ncbh p) pb' ∧ fresh_band (nb_code_blocks p) pb')
    (reset_pband (ncbw p) (ncbh p)) (pr_pband p)) as (l' & -> & Hf); [|done|].
  { intros pb Hpb. destruct (reset_pband_fresh _ _ _ Hpb) as (pb' & ? & ? & ?). by exists pb'. }
  eexists. split; [done|]. split; [|split; [|done]].
  - destruct (Forall2_keep (band_sized (ncbw p) (ncbh p)) _ _ _ Hf) as [El Hs]; [by intros ? ? []|].
    split; [cbn; congruence|done].
  - destruct (Forall2_keep (fresh_band (nb_code_blocks p)) _ _ _ Hf) as [_ Hs]; [by intros ? ? []|done].
Qed.

(** One level up: reset every element of an array held in a record. *)
Lemma reset_level {A B} (P : A → Prop) (N : A → Prop) (f : A → outcome A) (put : list A → B) (n : nat) l :
  (∀ x, P x → ∃ y, f x = Ret y ∧ P y ∧ N y) → length l = n → Forall P l →
  ∃ l', outcome_map put (reset_first n f l) = Ret (put l') ∧ length l' = n ∧ Forall P l' ∧ Forall N l'.
Proof.
  intros Hf <- Hl. destruct (reset_all P (λ _ y, P y ∧ N y) f l) as (l' & -> & H); [|done|].
  { intros x Hx. destruct (Hf x Hx) as (y & ? & ? & ?). by exists y. }
  exists l'. split; [done|]. destruct (Forall2_keep P _ _ _ H) as [? ?]; [by intros ? ? []|].
  destruct (Forall2_keep N _ _ _ H) as [? ?]; [by intros ? ? []|]. done.
Qed.

Definition res_new (r : res_) : Prop := Forall prec_new (res_prec r).
Definition tcomp_new (tc : tcomp_) : Prop := Forall res_new (tc_res tc).
Definition tile_new (tile : tile_) : Prop := Forall tcomp_new (tcomp tile) ∧ crp_idx tile = 0.

Lemma reset_res_fresh r : res_sized r → ∃ r', reset_res r = Ret r' ∧ res_sized r' ∧ res_new r'.
Proof.
  intros [Hl Hp]. destruct (reset_level prec_sized prec_new reset_prec (λ l, set_precs l r)
    (Z.to_nat (u32 (npw r * nph r))) (res_prec r)) as (l' & E & ? & ? & ?); [|done..|].
  - intros p Hs. destruct (reset_prec_fresh p Hs) as (p' & ? & ? & ? & _). by exists p'.
  - by exists (set_precs l' r).
Qed.
Lemma reset_tcomp_fresh tc : tcomp_sized tc → ∃ tc', reset_tcomp tc = Ret tc' ∧ tcomp_sized tc' ∧ tcomp_new tc'.
Proof.
  intros [Hl Hp]. destruct (reset_level res_sized res_new reset_res (λ l, set_ress l tc) _ _ reset_res_fresh Hl Hp)
    as (l' & E & ? & ? & ?). by exists (set_ress l' tc).
Qed.
Lemma reset_tile_fresh tile :
  tile_sized tile →
  ∃ tile', reset_tile tile = Ret tile' ∧ tile_sized tile' ∧ tile_new tile' ∧ crp tile' = crp tile.
Proof.
  intros [Hl Hp]. destruct (reset_level tcomp_sized tcomp_new reset_tcomp
    (λ l, set_tcomps l (set_crp_idx 0 tile)) _ _ reset_tcomp_fresh Hl Hp) as (l' & E & ? & ? & ?).
  by exists (set_tcomps l' (set_crp_idx 0 tile)).
Qed.

(** ** What a frame does to the sizes: nothing *)
Definition sizes (pb : pband_) : nat * nat * nat := (length (pb_incl pb), length (pb_zbp pb), length (pb_blk pb)).
Definition same_sizes (p p' : prec_) : Prop :=
  ncbw p' = ncbw p ∧ ncbh p' = ncbh p ∧ pr_num_bands p' = pr_num_bands p
  ∧ sizes <$> pr_pband p' = sizes <$> pr_pband p.

Lemma same_sizes_refl p : same_sizes p p.
Proof. done. Qed.

Lemma same_sizes_sized p p' : same_sizes p p' → prec_sized p → prec_sized p'.
Proof.
  intros (E1 & E2 & E3 & E4) [Hl Hb]. split.
  - apply (f_equal length) in E4. rewrite !length_fmap in E4. congruence.
  - apply Forall_forall. intros pb Hpb. rewrite E1, E2. rewrite Forall_forall in Hb.
    assert (sizes pb ∈ sizes <$> pr_pband p) as H by (rewrite <- E4; apply list_elem_of_fmap; by exists pb).
    apply list_elem_of_fmap in H as (pb0 & [= Q1 Q2 Q3] & H0). destruct (Hb pb0 H0). split; congruence.
Qed.

Section Sizes.
Context (mem : memory).

Lemma header_blocks_sizes n i cbs c pb r c' pb' :
  header_blocks mem n i cbs c pb = Ret (r, c', pb') → sizes pb' = sizes pb.
Proof.
  revert i c pb. induction n as [|n IH]; intros i c pb; cbn [header_blocks]; [by intros [= _ _ <-]|].
  destruct (pb_blk pb !! i), (pb_incl pb !! i), (pb_zbp pb !! i); try done.
  destruct (cblk_header _ _ _) as [[r1 s]| |]; [|done|done].
  assert (sizes (mkPband (<[i:=k_incl s]> (pb_incl pb)) (<[i:=k_zbp s]> (pb_zbp pb)) (<[i:=k_blk s]> (pb_blk pb))) = sizes pb) as E
    by (unfold sizes; cbn; by rewrite !length_insert).
  destruct (_ =? _); [|by intros [= _ _ <-]]. intros H. apply IH in H. congruence.
Qed.

Lemma body_blocks_sizes n i c pb c' pb' :
  body_blocks mem n i c pb = Ret (c', pb') → sizes pb' = sizes pb.
Proof.
  revert i c pb. induction n as [|n IH]; intros i c pb; cbn [body_blocks]; [by intros [= _ <-]|].
  destruct (pb_blk pb !! i); [|done]. destruct (blk_body _ _ _) as [[c1 b1]| |]; [|done|done].
  intros H. apply IH in H. rewrite H. unfold sizes. cbn. by rewrite length_insert.
Qed.

Lemma set_band_sizes (p : prec_) b pb pb' :
  pr_pband p !! b = Some pb → sizes pb' = sizes pb → same_sizes p (set_pbands (<[b:=pb']> (pr_pband p)) p).
Proof.
  intros Hb E. split_and!; [done..|]. cbn. rewrite list_fmap_insert, E. apply list_insert_id.
  by rewrite list_lookup_fmap, Hb.
Qed.

Lemma same_sizes_trans p1 p2 p3 : same_sizes p1 p2 → same_sizes p2 p3 → same_sizes p1 p3.
Proof. intros (? & ? & ? & ?) (? & ? & ? & ?). split_and!; congruence. Qed.

Lemma header_bands_sizes n b cbs c p r c' p' :
  header_bands mem n b cbs c p = Ret (r, c', p') → same_sizes p p'.
Proof.
  revert b c p. induction n as [|n IH]; intros b c p; cbn [header_bands]; [by intros [= _ _ <-]|].
  destruct (pr_pband p !! b) as [pb|] eqn:Hb; [|done].
  destruct (header_blocks _ _ _ _ _ _) as [[[r1 c1] pb1]| |] eqn:E; [|done|done]. apply header_blocks_sizes in E.
  pose proof (set_band_sizes p b pb pb1 Hb E) as H1. destruct (_ =? _); [|by intros [= _ _ <-]].
  intros H. apply IH in H. by eapply same_sizes_trans.
Qed.

Lemma body_bands_sizes n b c p c' p' : body_bands mem n b c p = Ret (c', p') → same_sizes p p'.
Proof.
  revert b c p. induction n as [|n IH]; intros b c p; cbn [body_bands]; [by intros [= _ <-]|].
  destruct (pr_pband p !! b) as [pb|] eqn:Hb; [|done].
  destruct (body_blocks _ _ _ _ _) as [[c1 pb1]| |] eqn:E; [|done|done]. apply body_blocks_sizes in E.
  pose proof (set_band_sizes p b pb pb1 Hb E) as H1. intros H. apply IH in H. by eapply same_sizes_trans.
Qed.

Lemma read_packet_sizes c p coc r c' p' : read_packet mem c p coc = Ret (r, c', p') → same_sizes p p'.
Proof.
  unfold read_packet. destruct (get_bit mem c) as [b c1]. destruct (b =? 0); [by intros [= _ _ <-]|].
  unfold parse_packet_header. destruct (header_bands _ _ _ _ _ _) as [[[r1 c2] p1]| |] eqn:E; [|done|done].
  apply header_bands_sizes in E. destruct (_ =? _); [|by intros [= _ _ <-]].
  destruct (body_bands _ _ _ _ _) as [[c3 p2]| |] eqn:E2; [|done|done]. apply body_bands_sizes in E2.
  intros [= _ _ <-]. by eapply same_sizes_trans.
Qed.

End Sizes.

Lemma Forall_alter_keep {A} (P : A → Prop) (f : A → A) i (l : list A) :
  (∀ x, l !! i = Some x → P x → P (f x)) → Forall P l → Forall P (alter f i l).
Proof.
  intros Hf Hl. apply Forall_lookup. intros j y. destruct (decide (i = j)) as [->|].
  - rewrite list_lookup_alter_eq. intros (x & Hx & ->)%fmap_Some. apply Hf; [done|]. by eapply Forall_lookup_1.
  - rewrite list_lookup_alter_ne by done. by apply Forall_lookup_1.
Qed.

Lemma put_prec_sized ct p p' tile :
  get_prec tile ct = Some p → same_sizes p p' → tile_sized tile → tile_sized (put_prec ct p' tile).
Proof.
  unfold get_prec. intros Hg Hs [Hl Ht]. split; cbn; [by rewrite length_alter|].
  apply Forall_alter_keep; [|done]. intros tc Htc [Hr Hrs]. rewrite Htc in Hg. cbn in Hg.
  split; cbn; [by rewrite length_alter|]. apply Forall_alter_keep; [|done].
  intros r Hres [Hn Hps]. rewrite Hres in Hg. cbn in Hg. split; cbn; [by rewrite length_insert|].
  apply Forall_insert; [done|]. eapply same_sizes_sized; [done|]. by eapply Forall_lookup_1.
Qed.

Definition th_sized (t : tile_handler) : Prop := Forall tile_sized (tiles t).
#[global] Instance th_sized_dec t : Decision (th_sized t).
Proof. unfold th_sized. apply _. Defined.

(** The bands and the code-block grid of every precinct of the first tile. *)
Definition shape_of (p : prec_) : Z * Z * Z := (pr_num_bands p, ncbw p, ncbh p).
Definition tile_layout (tile : tile_) (ct : crp_status) : option (Z * Z * Z) := shape_of <$> get_prec tile ct.
Definition layout (t : tile_handler) (ct : crp_status) : option (Z * Z * Z) :=
  head (tiles t) ≫= λ tile, tile_layout tile ct.

Lemma put_prec_layout ct p p' tile ct' :
  get_prec tile ct = Some p → same_sizes p p' → tile_layout (put_prec ct p' tile) ct' = tile_layout tile ct'.
Proof.
  intros Hg (E1 & E2 & E3 & _). unfold tile_layout. destruct (decide (key_of ct = key_of ct')) as [Ek|Ek].
  - assert (∀ tl : tile_, get_prec tl ct' = get_prec tl ct) as El
      by (intros tl; unfold get_prec; by injection Ek as -> -> ->).
    rewrite !El, get_put_same, Hg by (by eexists). unfold shape_of. cbn. congruence.
  - by rewrite get_put_other.
Qed.

Definition szd {A} (m : M pst A) : Prop :=
  ∀ s, th_sized (ps_th s) →
    match m s with
    | Ret (_, s') => th_sized (ps_th s') ∧ ∀ ct, layout (ps_th s') ct = layout (ps_th s) ct
    | _ => True
    end.

Lemma szd_bind {A B} (m : M pst A) (k : A → M pst B) : szd m → (∀ a, szd (k a)) → szd (m ≫= k).
Proof.
  intros Hm Hk s Hs. unfold mbind, M_bind. specialize (Hm s Hs). destruct (m s) as [[a s']| |]; [|done|done].
  destruct Hm as [Hs' El]. specialize (Hk a s' Hs'). destruct (k a s') as [[b s'']| |]; [|done|done].
  destruct Hk as [Hs'' El']. split; [done|]. intros ct. by rewrite El', El.
Qed.
Lemma szd_ret {A} (a : A) : szd (mret a).
Proof. by intros s Hs. Qed.
Lemma szd_put s tile tile' :
  th_sized (ps_th s) → head (tiles (ps_th s)) = Some tile → (tile_sized tile → tile_sized tile') →
  (∀ ct, tile_layout tile' ct = tile_layout tile ct) →
  th_sized (ps_th (put_head tile' s)) ∧ ∀ ct, layout (ps_th (put_head tile' s)) ct = layout (ps_th s) ct.
Proof.
  unfold th_sized, layout. cbn. destruct (tiles (ps_th s)) as [|t l]; [done|]. intros [Ht Hl]%Forall_cons [= ->] H El.
  split; [|done]. constructor; auto.
Qed.
Lemma szd_at {A} (l : list A) i : szd (at_ l i).
Proof. intros s Hs. unfold at_. destruct (_ <=? _); [|done]. by destruct (l !! _). Qed.
Lemma szd_tile0 : szd tile0.
Proof. intros s Hs. rewrite tile0_run. by destruct (head _). Qed.

Section Frames.
Context (mem : memory).

Lemma szd_one : szd (parse_one_precinct mem).
Proof.
  intros s Hs. rewrite one_run. destruct (head (tiles (ps_th s))) as [tile|] eqn:E; [|done].
  destruct (entry tile) as [ct|]; [|done]. destruct (get_prec tile ct) as [p|] eqn:Hg; [|done].
  destruct (h_cocs _ !! _) as [coc|]; [|done].
  destruct (read_packet mem (ps_cs s) p coc) as [[[r c] p']| |] eqn:Er; [|done|done].
  apply read_packet_sizes in Er. apply (szd_put (set_pcs c s) tile); [done|done|by eapply put_prec_sized|].
  intros ct'. by eapply put_prec_layout.
Qed.
Lemma szd_recover : szd try_recover.
Proof.
  intros s Hs. unfold try_recover. rewrite bind_get, bind_tile0.
  destruct (head (tiles (ps_th s))) as [tile|] eqn:E; [|done]. cbn zeta. rewrite bind_modify.
  destruct (pop_passed _ _) as [|g q]; [done|]. destruct (_ =? 0); [done|]. destruct (_ !! _) as [l|]; [|done].
  destruct (l !! _) as [i|]; [|done]. destruct (i <? _); [done|].
  by apply (szd_put (set_pth (set_signals q) s) tile).
Qed.
Lemma szd_bump : szd bump_crp_idx.
Proof.
  intros s Hs. unfold bump_crp_idx. rewrite bind_tile0. destruct (head (tiles (ps_th s))) as [tile|] eqn:E; [|done].
  by apply (szd_put s tile).
Qed.
Lemma szd_cb ct : szd (precinct_callback ct).
Proof. apply szd_bind; [apply szd_tile0|intros tile]. destruct (get_prec tile ct); by intros s Hs. Qed.

Lemma szd_parse_round : szd (parse_round mem).
Proof.
  apply szd_bind; [by intros s Hs|intros s]. destruct (last _); [|apply szd_ret].
  apply szd_bind; [apply szd_tile0|intros tile]. destruct (_ <=? _); [apply szd_ret|].
  apply szd_bind; [apply szd_at|intros ct]. apply szd_bind; [apply szd_one|intros ret].
  apply szd_bind; [apply szd_bump|intros _]. destruct (negb _).
  - apply szd_bind; [apply szd_recover|intros ok; apply szd_ret].
  - apply szd_bind; [apply szd_cb|intros _; apply szd_ret].
Qed.
Lemma szd_flush_round : szd (flush_round mem).
Proof.
  apply szd_bind; [apply szd_tile0|intros tile]. destruct (_ <=? _); [apply szd_ret|].
  apply szd_bind; [apply szd_at|intros ct]. apply szd_bind; [apply szd_one|intros ret]. destruct (negb _).
  - apply szd_bind; [apply szd_recover|intros ok; apply szd_ret].
  - apply szd_bind; [apply szd_cb|intros _]. apply szd_bind; [apply szd_bump|intros _; apply szd_ret].
Qed.
Lemma szd_rounds round n : szd round → szd (rounds round n).
Proof.
  intros Hr. induction n as [|n IH]; [by intros s Hs|]. cbn [rounds]. apply szd_bind; [done|].
  intros [r|]; [apply szd_ret|done].
Qed.

End Frames.

(** The precinct walks of a frame, in any number and order. *)
Inductive frame_run (mem : memory) : pst → pst → Prop :=
  | run_nil s : frame_run mem s s
  | run_step s r s1 c' q s2 :
      (parse mem s = Ret (r, s1) ∨ flush mem s = Ret (r, s1)) →
      frame_run mem (set_pcs c' (set_pth (set_signals q) s1)) s2 → frame_run mem s s2.

Lemma frame_run_keeps mem s s' :
  frame_run mem s s' → th_sized (ps_th s) →
  th_sized (ps_th s') ∧ walk_of (ps_th s') = walk_of (ps_th s) ∧ tabs (ps_th s') = tabs (ps_th s)
  ∧ ready (ps_th s') = ready (ps_th s) ∧ ∀ ct, layout (ps_th s') ct = layout (ps_th s) ct.
Proof.
  induction 1 as [s|s r s1 c' q s2 Hw _ IH]; intros Hs; [done|].
  assert ((th_sized (ps_th s1) ∧ ∀ ct, layout (ps_th s1) ct = layout (ps_th s) ct) ∧ psame s s1) as [[Hs1 Hl] Hp].
  { destruct Hw as [E|E].
    - pose proof (szd_rounds _ (parse_fuel s) (szd_parse_round mem) s Hs) as H. change (rounds _ _ s) with (parse mem s) in H.
      pose proof (psteps_parse mem s) as Hp. by rewrite E in *.
    - pose proof (szd_rounds _ (flush_fuel s) (szd_flush_round mem) s Hs) as H. change (rounds _ _ s) with (flush mem s) in H.
      pose proof (psteps_flush mem s) as Hp. by rewrite E in *. }
  destruct (IH Hs1) as (? & E1 & E2 & E3 & E4). cbn in E1, E2, E3. rewrite E1, E2, E3.
  split_and!; [done|apply Hp..|]. intros ct. rewrite E4. apply Hl.
Qed.

(** A cleared structure is ready for [PacketSpec] and [PacketSafety]. *)
Lemma prec_of_new tile ct p :
  tile_sized tile → tile_new tile → get_prec tile ct = Some p →
  prec_shape p ∧ prec_clear p ∧ Forall (fresh_band (nb_code_blocks p)) (pr_pband p).
Proof.
  intros [_ Hs] [Ht _] Hg. unfold get_prec in Hg.
  apply bind_Some in Hg as (tc & Htc & Hg). apply bind_Some in Hg as (r & Hr & Hp).
  destruct (Forall_lookup_1 _ _ _ _ Hs Htc) as [_ Hs1]. destruct (Forall_lookup_1 _ _ _ _ Hs1 Hr) as [_ Hs2].
  destruct (Forall_lookup_1 _ _ _ _ Hs2 Hp) as [Hn _].
  pose proof (Forall_lookup_1 _ _ _ _ Ht Htc) as H1. pose proof (Forall_lookup_1 _ _ _ _ H1 Hr) as H2.
  pose proof (Forall_lookup_1 _ _ _ _ H2 Hp) as H3. destruct (fresh_shape p (eq_sym Hn) H3). done.
Qed.

(** [reset_first] works in place. *)
Lemma reset_first_lookup {A} (f : A → outcome A) n l l' i x :
  reset_first n f l = Ret l' → l !! i = Some x → ∃ y, l' !! i = Some y ∧ (y = x ∨ f x = Ret y).
Proof.
  revert n l' i. induction l as [|z l IH]; intros [|n] l' i; cbn [reset_first]; try done.
  { intros [= <-] Hi. by exists x; auto. }
  destruct (f z) as [y| |] eqn:Ef, (reset_first n f l) as [l''| |] eqn:El; try done. intros [= <-].
  destruct i as [|i]; cbn; [intros [= ->]; eauto|]. by apply (IH n).
Qed.

Lemma outcome_map_Ret {A B} (f : A → B) o b : outcome_map f o = Ret b → ∃ a, o = Ret a ∧ b = f a.
Proof. destruct o as [a| |]; [|done|done]. intros [= <-]. by exists a. Qed.

Lemma reset_prec_shape p p' : p' = p ∨ reset_prec p = Ret p' → shape_of p' = shape_of p.
Proof. intros [-> |(l & _ & ->)%outcome_map_Ret]; done. Qed.

Lemma reset_tile_layout tile tile' ct s :
  reset_tile tile = Ret tile' → tile_layout tile ct = Some s → tile_layout tile' ct = Some s.
Proof.
  intros (l & E & ->)%outcome_map_Ret Hl. unfold tile_layout, get_prec in *. cbn [tcomp set_tcomps] in *.
  apply fmap_Some in Hl as (p & Hp & ->). apply bind_Some in Hp as (tc & Htc & Hp). apply bind_Some in Hp as (r & Hr & Hp).
  destruct (reset_first_lookup _ _ _ _ _ _ E Htc) as (tc' & -> & Ht). cbn.
  assert (∃ r', tc_res tc' !! Z.to_nat (crp_r ct) = Some r' ∧ (r' = r ∨ reset_res r = Ret r')) as (r' & -> & Hr').
  { destruct Ht as [-> |(l1 & E1 & ->)%outcome_map_Ret]; [by eauto|]. by eapply reset_first_lookup. }
  assert (∃ p', res_prec r' !! Z.to_nat (crp_p ct) = Some p' ∧ (p' = p ∨ reset_prec p = Ret p')) as (p' & E2 & Hp').
  { destruct Hr' as [-> |(l2 & E2 & ->)%outcome_map_Ret]; [by eauto|]. by eapply reset_first_lookup. }
  cbn. rewrite E2. cbn. f_equal. by apply reset_prec_shape.
Qed.

Lemma restart_run mem s s' :
  th_sized (ps_th s) → frame_run mem s s' →
  ∃ t', restart_tiles (ps_th s') = Ret t' ∧ th_sized t'
    ∧ Forall (λ tile, crp_idx tile = 0 ∧ ∀ ct p, get_prec tile ct = Some p →
        prec_shape p ∧ prec_clear p ∧ Forall (fresh_band (nb_code_blocks p)) (pr_pband p)) (tiles t')
    ∧ signal_queue_ t' = [] ∧ walk_of t' = walk_of (ps_th s) ∧ tabs t' = tabs (ps_th s)
    ∧ ready t' = ready (ps_th s)
    ∧ ∀ ct g, layout (ps_th s) ct = Some g → layout t' ct = Some g.
Proof.
  intros Hs Hr. destruct (frame_run_keeps mem s s' Hr Hs) as (Hs' & <- & <- & <- & Hlay). clear Hr Hs.
  unfold restart_tiles. set (t := ps_th s') in *.
  destruct (reset_all tile_sized (λ x y, tile_sized y ∧ tile_new y ∧ crp y = crp x ∧ reset_tile x = Ret y) reset_tile (tiles t))
    as (l' & -> & H).
  { intros tile Ht. destruct (reset_tile_fresh tile Ht) as (y & ? & ? & ? & ?). by exists y. }
  { done. }
  destruct (Forall2_keep tile_sized _ _ _ H) as [_ H1]; [by intros ? ? (? & ? & ? & ?)|].
  destruct (Forall2_keep (λ tile, crp_idx tile = 0 ∧ ∀ ct p, get_prec tile ct = Some p →
    prec_shape p ∧ prec_clear p ∧ Forall (fresh_band (nb_code_blocks p)) (pr_pband p)) _ _ _ H) as [_ H2].
  { intros x y (Hy & Hn & _). split; [apply Hn|]. intros ct p. by apply prec_of_new. }
  eexists. split; [done|]. split_and!; try done.
  - unfold walk_of. cbn. destruct H as [|x y l l'' (_ & _ & E & _)]; [done|]. cbn. by rewrite E.
  - intros ct g. rewrite <- Hlay. unfold layout. cbn. destruct H as [|x y l l'' (_ & _ & _ & E)]; [done|]. cbn.
    by apply reset_tile_layout.
Qed.

(** ** Properties *)

(** C20: every frame starts from a clean structure.  Take a handler that is sized
    ([th_sized]): all six resolutions of every component, also those above its level count
    that [create] leaves as they were, have arrays that fit their counts, and the bands of a
    precinct share one code-block grid (otherwise [restart] is undefined:
    [restart_clears_missing_tree]).  Run any precinct walks of a frame, with any
    signals, any bytes, any failures and recoveries.  Then [restart] never accesses
    anything out of bounds, every precinct of every resolution is again as before
    its first packet (tag trees zero, no passes, no lengths: what the packet theorems
    ask for), the walk stands at its start, the queue of signals is empty, and the walk, the tables, the latch, the bands and
    code-block grid of every precinct and all array sizes are those of before the frame. *)
Theorem restart_renews mem s s' :
  th_sized (ps_th s) → frame_run mem s s' →
  ∃ t', restart_tiles (ps_th s') = Ret t' ∧ th_sized t'
    ∧ Forall (λ tile, crp_idx tile = 0 ∧ ∀ ct p, get_prec tile ct = Some p →
        prec_shape p ∧ prec_clear p ∧ Forall (fresh_band (nb_code_blocks p)) (pr_pband p)) (tiles t')
    ∧ signal_queue_ t' = [] ∧ walk_of t' = walk_of (ps_th s) ∧ tabs t' = tabs (ps_th s)
    ∧ ready t' = ready (ps_th s)
    ∧ ∀ ct g, layout (ps_th s) ct = Some g → layout t' ct = Some g.
Proof. apply restart_run. Qed.


(** ** Witness: a whole tile after one decoded frame *)
Definition whole_prec : prec_ :=
  mkPrec [mkPband (replicate 3 (mkNode 0 0)) (replicate 3 (mkNode 0 0)) (replicate 2 demo_blk)] demo_geo 0 1 2 1 0 0.
Definition whole_tile : tile_ :=
  mkTile [mkTcomp (mkRes [] [whole_prec] 0 demo_geo 1 1 0 1 :: replicate 5 blank_res) 0 demo_geo 1 1]
    0 demo_geo 1 PCRL [mkCrp 0 0 0] 0 false.
Definition whole : pst :=
  mkPst (mkTh [whole_tile] duo_tabs 1 1 true [] (index_by_pid [mkCrp 0 0 0]) 0 0) (two_chunks 4 demo_stream) [].
Definition whole_after : pst :=
  match flush (list_mem demo_stream) whole with Ret (_, s) => s | _ => whole end.

Lemma whole_sized : th_sized (ps_th whole).
Proof. apply (bool_decide_eq_true_1 (th_sized _)). vm_compute. reflexivity. Qed.

Lemma restart_renews_witness :
  (λ e, (λ pb, blk_length <$> pb_blk pb) <$> pr_pband e.2) <$> ps_ev whole_after = [[[4; 0]]]
  ∧ ∃ t', restart_tiles (ps_th whole_after) = Ret t' ∧ signal_queue_ t' = []
      ∧ walk_of t' = Some [mkCrp 0 0 0].
Proof.
  split; [vm_compute; reflexivity|].
  destruct (restart_renews (list_mem demo_stream) whole whole_after whole_sized) as (t' & E & _ & _ & Q & W & _).
  - apply (run_step _ whole EXIT_SUCCESS whole_after (ps_cs whole_after) (signal_queue_ (ps_th whole_after))).
    + right. vm_compute. reflexivity.
    + assert (set_pcs (ps_cs whole_after) (set_pth (set_signals (signal_queue_ (ps_th whole_after))) whole_after)
        = whole_after) as -> by (vm_compute; reflexivity). apply run_nil.
  - exists t'. split; [exact E|]. split; [exact Q|exact W].
Defined.
