(* ===== verification/Create.v ===== *)
(** * Create: what [tile_handler::create] builds for a supported stream

    [Geometry] builds one component, [Progression] one walk.  Here they are put together
    as [create] does: for a stream of one tile and three components the structure of
    every component is the one the main header describes, every precinct is fresh, the
    walk lists every precinct once, and all arrays have the sizes [restart] relies on. *)
From S2P Require Import Prelude Codestream BitReader Markers Structs MainHeader HeaderSpec PacketHeader.
From S2P Require Import PacketSpec PacketSafety Progression Geometry GeometrySpec TileHandler TileSpec TileSafety.
From S2P Require Import TileRestart.

Section Create.
Context (uninit : list tcomp_) (stale : Z → blk_) (h : tables).
Notation z := (h_siz h).
Notation dfs := (h_dfs h).

(** ** The stream described by the tables *)
Definition tile_geo : geometry := mkGeo (XOsiz z) (YOsiz z) (Xsiz z) (Ysiz z).
Definition sub_of (c : Z) : Z * Z := (XRsiz z !!! Z.to_nat c, YRsiz z !!! Z.to_nat c).
Definition comp_geo (c : Z) : geometry :=
  mkGeo (ceildiv_int (XOsiz z) (sub_of c).1) (ceildiv_int (YOsiz z) (sub_of c).2)
        (ceildiv_int (Xsiz z) (sub_of c).1) (ceildiv_int (Ysiz z) (sub_of c).2).
(** The coding parameters of a component, its level count resolved. *)
Definition coc_at (c : Z) : coc_marker := resolve_NL dfs (h_cocs h !!! Z.to_nat c).
Definition cocs_of : list coc_marker := coc_at <$> seqZ 0 3.
Definition cost_of (c : Z) : Z := tcomp_cost (comp_geo c) (coc_at c) dfs.
Definition prec_geo (c r np : Z) : geometry :=
  prec_extent (rc_of (comp_geo c) (coc_at c) dfs r) (npw_of (comp_geo c) (coc_at c) dfs r)
    (2 ^ pw_of (coc_at c) r) (2 ^ ph_of (coc_at c) r) np.
Definition grid_at (c r np b : Z) : Z * Z :=
  grid_of (prec_geo c r np) (dir_of (coc_at c) dfs r) (bands_of (coc_at c) dfs r)
    (2 ^ coc_cbw (coc_at c)) (2 ^ coc_cbh (coc_at c)) b.
Definition precincts_of (c r : Z) : Z :=
  nph_of (comp_geo c) (coc_at c) dfs r * npw_of (comp_geo c) (coc_at c) dfs r.

(** A supported stream: one tile, three components, at most four levels, every
    resolution non-empty, the origin on the position grid, the bands of a precinct with
    the same code-block grid, and a structure that fits the arena. *)
Record stream_ok : Prop := {
  so_wf : tables_wf h;
  so_Csiz : Csiz z = 3;
  so_x : 0 ≤ XTOsiz z ≤ XOsiz z ∧ XOsiz z < Xsiz z ∧ Xsiz z ≤ XTOsiz z + XTsiz z
         ∧ Xsiz z < 1073741824 ∧ XTsiz z < 1073741824;
  so_y : 0 ≤ YTOsiz z ≤ YOsiz z ∧ YOsiz z < Ysiz z ∧ Ysiz z ≤ YTOsiz z + YTsiz z
         ∧ Ysiz z < 1073741824 ∧ YTsiz z < 1073741824;
  so_sub c : 0 ≤ c < 3 → 1 ≤ (sub_of c).1 ≤ 255 ∧ 1 ≤ (sub_of c).2 ≤ 255;
  so_build c : 0 ≤ c < 3 → build_ok (coc_at c) dfs;
  so_po : coc_progression_order (coc_at 0) = PCRL ∨ coc_progression_order (coc_at 0) = PRCL;
  so_origin : XOsiz z mod step_x cocs_of = 0 ∧ YOsiz z mod step_y cocs_of = 0;
  so_res c r : 0 ≤ c < 3 → 0 ≤ r ≤ coc_NL (coc_at c) →
    let rc := rc_of (comp_geo c) (coc_at c) dfs r in
    x0 rc < x1 rc ∧ y0 rc < y1 rc ∧ precincts_of c r ≤ 65536;
  so_bands c r np : 0 ≤ c < 3 → 0 ≤ r ≤ coc_NL (coc_at c) → 0 ≤ np < precincts_of c r →
    1 ≤ (grid_at c r np 0).1 ∧ 1 ≤ (grid_at c r np 0).2
    ∧ ∀ b, 0 ≤ b < bands_of (coc_at c) dfs r → grid_at c r np b = grid_at c r np 0;
  so_arena : cost_of 0 + cost_of 1 + cost_of 2 ≤ BUFSIZE
}.

(** The memory the components are constructed in: arrays of the declared sizes, and
    resolutions above the level count that [restart] can walk (for instance zeros). *)
Definition uninit_ok : Prop :=
  length uninit = 3%nat ∧
  ∀ c tc, 0 ≤ c < 3 → uninit !! Z.to_nat c = Some tc →
    length (tc_res tc) = 6%nat ∧ Forall (λ rp, length (band rp) = 3%nat) (tc_res tc)
    ∧ ∀ r rp, coc_NL (coc_at c) < r → tc_res tc !! Z.to_nat r = Some rp → res_sized rp.

Context (Hok : stream_ok).

Lemma cdu_ceil a b : 0 ≤ a < 1073741824 → 1 ≤ b < 1073741824 → cdu a b = ceildiv_int a b.
Proof. intros Ha Hb. unfold cdu, ceildiv_int. rewrite (u32_small a), u32_small by lia. done. Qed.

Lemma cdi_checked_ceil {S} a b : 0 ≤ a < 1073741824 → 1 ≤ b ≤ 255 → @cdi_checked S a b = mret (ceildiv_int a b).
Proof.
  intros Ha Hb. unfold cdi_checked. rewrite (proj2 (Z.eqb_neq _ _)), (proj2 (Z.ltb_ge _ _)) by lia.
  by rewrite cdi_ceil by lia.
Qed.

Lemma comp_small c : 0 ≤ c < 3 → small_geo (comp_geo c).
Proof.
  intros Hc. destruct (so_sub Hok c Hc) as [Hx Hy]. pose proof (so_x Hok). pose proof (so_y Hok).
  pose proof (ceildiv_small (XOsiz z) (sub_of c).1). pose proof (ceildiv_small (Xsiz z) (sub_of c).1).
  pose proof (ceildiv_small (YOsiz z) (sub_of c).2). pose proof (ceildiv_small (Ysiz z) (sub_of c).2).
  pose proof (ceildiv_le (XOsiz z) (Xsiz z) (sub_of c).1). pose proof (ceildiv_le (YOsiz z) (Ysiz z) (sub_of c).2).
  unfold small_geo, comp_geo. cbn [x0 x1 y0 y1]. lia.
Qed.

(** ** One component *)
Definition comp_start (c : Z) (tc : tcomp_) : tcomp_ :=
  mkTcomp (tc_res tc) c (comp_geo c) (sub_of c).1 (sub_of c).2.
Definition comp_built (c : Z) (tc tc' : tcomp_) : Prop :=
  tcomp_built (comp_geo c) (coc_at c) dfs (comp_start c tc) tc'.

(** The handler while [create] runs: the tables may have some level counts resolved. *)
Record building (c : Z) (t : tile_handler) : Prop := {
  bu_siz : h_siz (tabs t) = z;
  bu_dfs : h_dfs (tabs t) = dfs;
  bu_coc : h_cocs (tabs t) !! Z.to_nat c = Some (h_cocs h !!! Z.to_nat c);
  bu_arena : 0 ≤ arena t ∧ arena t + cost_of c ≤ BUFSIZE
}.
Definition built_state (c : Z) (t : tile_handler) : tile_handler :=
  set_arena (arena t + cost_of c)
    (set_tabs (set_cocs (<[Z.to_nat c := coc_at c]> (h_cocs (tabs t))) (tabs t)) t).

Lemma at_run {S A} (l : list A) i x (s : S) : 0 ≤ i → l !! Z.to_nat i = Some x → at_ l i s = Ret (x, s).
Proof. intros Hi E. unfold at_. rewrite (proj2 (Z.leb_le _ _)) by done. by rewrite E. Qed.

Lemma component_run c tile t tc :
  0 ≤ c < 3 → building c t → tile_coord tile = tile_geo → tcomp tile !! Z.to_nat c = Some tc →
  length (tc_res tc) = 6%nat → Forall (λ rp, length (band rp) = 3%nat) (tc_res tc) →
  ∃ tc', build_component stale tile c t
         = Ret (set_tcomps (<[Z.to_nat c := tc']> (tcomp tile)) tile, built_state c t)
    ∧ comp_built c tc tc'.
Proof.
  intros Hc [B1 B2 B3 [B4 B5]] Ht Htc Hl Hb. destruct (so_sub Hok c Hc) as [Hx Hy].
  pose proof (so_x Hok) as Sx. pose proof (so_y Hok) as Sy.
  assert (Z.to_nat c < length (XRsiz z))%nat as Lx by (rewrite (tw_XRsiz _ (so_wf Hok)); lia).
  assert (Z.to_nat c < length (YRsiz z))%nat as Ly by (rewrite (tw_YRsiz _ (so_wf Hok)); lia).
  destruct (costs_build stale (comp_geo c) (coc_at c) dfs (comp_start c tc) (so_build Hok c Hc) eq_refl Hl Hb
    (arena t) B4 B5) as (tc' & E & HB).
  exists tc'. split; [|done]. unfold build_component. rewrite bind_get. cbn zeta. rewrite B1, B2.
  rewrite (bind_run _ _ _ _ _ (at_run _ _ _ t (proj1 Hc) Htc)).
  rewrite (bind_run _ _ _ _ _ (at_run (XRsiz z) c _ t (proj1 Hc) (lookup_total_some _ _ Lx))).
  rewrite (bind_run _ _ _ _ _ (at_run (YRsiz z) c _ t (proj1 Hc) (lookup_total_some _ _ Ly))).
  change (XRsiz z !!! Z.to_nat c) with (sub_of c).1. change (YRsiz z !!! Z.to_nat c) with (sub_of c).2.
  rewrite Ht. cbn [tile_geo x0 x1 y0 y1]. rewrite !cdi_checked_ceil, !bind_ret by lia.
  rewrite (bind_run _ _ _ _ _ (at_run _ _ _ t (proj1 Hc) B3)), bind_modify.
  unfold lift_arena at 1, mbind at 1, M_bind at 1. cbn [arena set_tabs].
  change (mkTcomp _ _ _ _ _) with (comp_start c tc). fold (coc_at c). rewrite E. done.
Qed.

(** ** All components *)
Definition total_cost : Z := cost_of 0 + (cost_of 1 + cost_of 2).
Definition comps_built (tcs : list tcomp_) : Prop :=
  length tcs = 3%nat ∧
  ∀ c, 0 ≤ c < 3 → ∃ tc tc', uninit !! Z.to_nat c = Some tc ∧ tcs !! Z.to_nat c = Some tc' ∧ comp_built c tc tc'.

Lemma cost_of_nonneg c : 0 ≤ cost_of c.
Proof. apply Zsum_nonneg, Forall_fmap, Forall_true. apply res_cost_nonneg. Qed.

Lemma three (P : Z → Prop) : P 0 → P 1 → P 2 → ∀ c, 0 ≤ c < 3 → P c.
Proof. intros H0 H1 H2 c Hc. assert (c = 0 ∨ c = 1 ∨ c = 2) as [-> | [-> | ->]] by lia; done. Qed.

Lemma components_run tile t :
  uninit_ok → tile_coord tile = tile_geo → tcomp tile = uninit → tabs t = h → arena t = 0 →
  ∃ tcs, build_components stale 3 0 tile t
         = Ret (set_tcomps tcs tile, set_arena total_cost (set_tabs (set_cocs cocs_of h) t))
    ∧ comps_built tcs.
Proof.
  intros [Hlen Hu] Ht Htc Htabs Ha. pose proof (so_arena Hok) as Har.
  pose proof (cost_of_nonneg 0). pose proof (cost_of_nonneg 1). pose proof (cost_of_nonneg 2).
  destruct uninit as [|u0 [|u1 [|u2 [|? ?]]]] eqn:Eu; try done.
  pose proof (Hu 0 u0 ltac:(lia) eq_refl) as (L0 & F0 & _). pose proof (Hu 1 u1 ltac:(lia) eq_refl) as (L1 & F1 & _).
  pose proof (Hu 2 u2 ltac:(lia) eq_refl) as (L2 & F2 & _).
  pose proof (tw_cocs _ (so_wf Hok)) as Hcl. destruct (h_cocs h) as [|o0 [|o1 [|o2 [|? ?]]]] eqn:Ec; try done.
  assert (building 0 t) as G0 by (split; rewrite ?Htabs, ?Ec, ?Ha; try done; lia).
  destruct (component_run 0 tile t u0 ltac:(lia) G0 Ht ltac:(by rewrite Htc) L0 F0) as (v0 & E0 & B0).
  assert (building 1 (built_state 0 t)) as G1 by (split; cbn; rewrite ?Htabs, ?Ec, ?Ha; try done; lia).
  destruct (component_run 1 (set_tcomps [v0; u1; u2] tile) (built_state 0 t) u1 ltac:(lia) G1 Ht eq_refl L1 F1)
    as (v1 & E1 & B1).
  assert (building 2 (built_state 1 (built_state 0 t))) as G2 by (split; cbn; rewrite ?Htabs, ?Ec, ?Ha; try done; lia).
  destruct (component_run 2 (set_tcomps [v0; v1; u2] tile) (built_state 1 (built_state 0 t)) u2 ltac:(lia) G2 Ht eq_refl
    L2 F2) as (v2 & E2 & B2).
  exists [v0; v1; v2]. split.
  - cbn [build_components]. rewrite (bind_run _ _ _ _ _ E0), Htc. cbn [Z.to_nat insert list_insert Z.add].
    rewrite (bind_run _ _ _ _ _ E1). cbn [set_tcomps tcomp Z.to_nat insert list_insert Z.add].
    rewrite (bind_run _ _ _ _ _ E2). unfold mret, M_ret. f_equal. f_equal.
    unfold built_state, total_cost. cbn [tabs arena set_tabs set_arena h_cocs set_cocs tiles num_tiles_x num_tiles_y ready
      signal_queue_ crp_idx_by_pid_ parse_holdback_]. rewrite Htabs, Ha, Ec. unfold set_arena, set_tabs. cbn.
    rewrite Z.add_assoc. done.
  - split; [done|]. apply three; [exists u0, v0|exists u1, v1|exists u2, v2]; rewrite ?Eu; split_and!; first [reflexivity|assumption].
Qed.
(** ** The walk over the built tile *)
Definition new_tile (tcs : list tcomp_) : tile_ :=
  mkTile tcs 0 tile_geo 3 (coc_progression_order (coc_at 0)) [] 0 false.

Lemma cocv_at c : 0 ≤ c < 3 → cocv cocs_of c = coc_at c.
Proof. revert c. by apply three. Qed.

(** A resolution of the built tile. *)
Lemma res_at tcs c r :
  comps_built tcs → 0 ≤ c < 3 → 0 ≤ r ≤ coc_NL (coc_at c) →
  ∃ tc' rp, tcs !! Z.to_nat c = Some tc' ∧ tc_res tc' !! Z.to_nat r = Some rp
    ∧ res_built (comp_geo c) (coc_at c) dfs r rp.
Proof.
  intros [_ H] Hc Hr. destruct (H c Hc) as (tc & tc' & _ & E & HB). destruct (tb_res _ _ _ _ _ HB r Hr) as (rp & E' & R).
  by exists tc', rp.
Qed.

Lemma resv_built tcs c r :
  comps_built tcs → 0 ≤ c < 3 → 0 ≤ r ≤ coc_NL (coc_at c) →
  res_built (comp_geo c) (coc_at c) dfs r (resv (new_tile tcs) c r).
Proof.
  intros HB Hc Hr. destruct (res_at tcs c r HB Hc Hr) as (tc' & rp & E1 & E2 & R). unfold resv, tcv. cbn [new_tile tcomp].
  by rewrite (list_lookup_total_correct _ _ _ E1), (list_lookup_total_correct _ _ _ E2).
Qed.

Lemma tcv_built tcs c :
  comps_built tcs → 0 ≤ c < 3 →
  length (tc_res (tcv (new_tile tcs) c)) = 6%nat ∧ sub_x (tcv (new_tile tcs) c) = (sub_of c).1
  ∧ sub_y (tcv (new_tile tcs) c) = (sub_of c).2.
Proof.
  intros [_ H] Hc. destruct (H c Hc) as (tc & tc' & _ & E & [_ _ L (_ & _ & Sx & Sy)]). unfold tcv. cbn [new_tile tcomp].
  by rewrite (list_lookup_total_correct _ _ _ E).
Qed.

(** The exponents of a resolution. *)
Lemma exps_small c r :
  0 ≤ c < 3 → 0 ≤ r ≤ coc_NL (coc_at c) →
  0 ≤ pw_of (coc_at c) r ≤ 15 ∧ 0 ≤ ph_of (coc_at c) r ≤ 15
  ∧ 0 ≤ hd_of (coc_at c) dfs r ≤ 5 ∧ 0 ≤ vd_of (coc_at c) dfs r ≤ 5.
Proof.
  intros Hc Hr. destruct (so_build Hok c Hc) as [HN [Lw Fw] [Lh Fh] [Lx Fx] [Ly Fy] _ _ _]. unfold MAX_DWT_LEVEL in *.
  assert (0 ≤ pw_of (coc_at c) r < 16) by (apply (Forall_lookup_total _ _ _ Fw); lia).
  assert (0 ≤ ph_of (coc_at c) r < 16) by (apply (Forall_lookup_total _ _ _ Fh); lia).
  assert (0 ≤ hd_of (coc_at c) dfs r ≤ 5) by (apply (Forall_lookup_total _ _ _ Fx); lia).
  assert (0 ≤ vd_of (coc_at c) dfs r ≤ 5) by (apply (Forall_lookup_total _ _ _ Fy); lia).
  lia.
Qed.

Lemma ceildiv_mul_lt a b : 0 ≤ a < 1073741824 → 1 ≤ b ≤ 32 → ceildiv_int a b * b < 4294967296.
Proof. intros Ha Hb. pose proof (ceildiv_bounds a b ltac:(lia)). lia. Qed.
(** The geometry the walk relies on is the builder's. *)
Lemma built_geometry tcs c r :
  comps_built tcs → 0 ≤ c < 3 → 0 ≤ r ≤ coc_NL (coc_at c) →
  res_geometry (new_tile tcs) cocs_of dfs c r
  ∧ nph (resv (new_tile tcs) c r) * npw (resv (new_tile tcs) c r) ≤ 65536.
Proof.
  intros HB Hc Hr. pose proof (resv_built tcs c r HB Hc Hr) as [_ Rc Rw Rh _ _ _ _].
  destruct (tcv_built tcs c HB Hc) as (_ & Sx & Sy). destruct (so_res Hok c r Hc Hr) as (Nx & Ny & Np).
  destruct (level_extents (comp_geo c) (coc_at c) dfs r (so_build Hok c Hc) (comp_small c Hc) Hr) as (El & Ew & Eh).
  rewrite (proj2 (Z.ltb_lt _ _) Nx) in Ew. rewrite (proj2 (Z.ltb_lt _ _) Ny) in Eh.
  split; [|rewrite Rw, Rh; exact Np].
  split; unfold xdv, ydv, pwv, phv, NLv; rewrite ?Rc, ?Sx, ?Sy, ?Rw, ?Rh, ?cocv_at by done; try done.
  all: rewrite El; done.
Qed.

Lemma built_walk_ok tcs : comps_built tcs → walk_ok (new_tile tcs) cocs_of dfs.
Proof.
  intros HB. destruct (so_build Hok 0 ltac:(lia)) as [_ _ _ [Lx _] [Ly _] _ _ _].
  pose proof (so_x Hok). pose proof (so_y Hok).
  split; [done|cbn; destruct HB; lia|done|done|cbn; lia|cbn; lia| |].
  - intros c Hc. destruct (so_build Hok c Hc) as [HN [Lw _] [Lh _] _ _ _ _ _]. destruct (so_sub Hok c Hc).
    destruct (tcv_built tcs c HB Hc) as (L & Sx & Sy).
    split; unfold NLv; rewrite ?cocv_at, ?L, ?Sx, ?Sy by done; try done; unfold MAX_DWT_LEVEL in *; lia.
  - intros c r Hc. unfold NLv. rewrite cocv_at by done. intros Hr.
    destruct (exps_small c r Hc Hr) as (Ew & Eh & Ex & Ey). destruct (built_geometry tcs c r HB Hc Hr) as [G _].
    pose proof (resv_built tcs c r HB Hc Hr) as [_ Rc Rw _ _ _ _ _].
    pose proof (comp_small c Hc) as (? & ? & ? & ?). pose proof (pow2_small _ 5 Ex). pose proof (pow2_small _ 5 Ey).
    change (2 ^ 5) with 32 in *.
    destruct (level_extents (comp_geo c) (coc_at c) dfs r (so_build Hok c Hc) (comp_small c Hc) Hr) as (El & _ & _).
    split; unfold pwv, phv, xdv, ydv, NLv; rewrite ?cocv_at by done; fold (hd_of (coc_at c) dfs r) (vd_of (coc_at c) dfs r); try done.
    + rewrite Rc, El. cbn [x0]. split; [apply ceildiv_small|apply ceildiv_mul_lt]; lia.
    + rewrite Rc, El. cbn [y0]. split; [apply ceildiv_small|apply ceildiv_mul_lt]; lia.
    + rewrite Rw. apply u32_range.
Qed.
(** ** The precincts *)

(** A precinct in the state the first frame finds it. *)
Record prec_ready (c r np : Z) (p : prec_) : Prop := {
  pr_bands : pr_num_bands p = bands_of (coc_at c) dfs r ∧ zlength (pr_pband p) = bands_of (coc_at c) dfs r;
  pr_grid : (ncbw p, ncbh p) = grid_at c r np 0;
  pr_built : Forall (grid_built (grid_at c r np 0).1 (grid_at c r np 0).2) (pr_pband p)
}.

Lemma prec_at rp c r np :
  res_built (comp_geo c) (coc_at c) dfs r rp → 0 ≤ c < 3 → 0 ≤ r ≤ coc_NL (coc_at c) → 0 ≤ np < precincts_of c r →
  ∃ p, res_prec rp !! Z.to_nat np = Some p ∧ prec_ready c r np p.
Proof.
  intros [_ _ _ _ _ _ _ HF] Hc Hr Hp. unfold precincts_of in Hp. rewrite Z.mul_comm in Hp.
  assert (seqZ 0 (npw_of (comp_geo c) (coc_at c) dfs r * nph_of (comp_geo c) (coc_at c) dfs r) !! Z.to_nat np = Some np) as El
    by (apply lookup_seqZ; lia).
  destruct (Forall2_lookup_l _ _ _ _ _ HF El) as (p & E & HB). exists p. split; [done|].
  destruct (so_bands Hok c r np Hc Hr ltac:(unfold precincts_of; lia)) as (G1 & G2 & Gb).
  assert (1 ≤ bands_of (coc_at c) dfs r) by (destruct (bands_range (coc_at c) dfs r); lia).
  destruct (prec_fresh _ _ _ _ _ _ _ _ _ _ _ _ (grid_at c r np 0) HB) as (Eg & El' & Hf); [done..| |].
  - intros b Hb. rewrite (pb_extent _ _ _ _ _ _ _ _ _ _ _ _ HB). by apply Gb.
  - split; [split; [apply (pb_nb _ _ _ _ _ _ _ _ _ _ _ _ HB)|done]|done|done].
Qed.

Lemma ready_blocks c r np p :
  prec_ready c r np p → pr_pband p ≠ [] →
  nb_code_blocks p = Z.to_nat ((grid_at c r np 0).1 * (grid_at c r np 0).2)
  ∧ u32 (ncbw p * ncbh p) = (grid_at c r np 0).1 * (grid_at c r np 0).2.
Proof.
  intros [_ Eg HF] Hn. destruct (pr_pband p) as [|pb l]; [done|]. apply Forall_cons in HF as [[(H1 & H2 & H3) _ _ _] _].
  unfold nb_code_blocks. rewrite <- Eg in *. cbn [fst snd] in *. rewrite u32_small by nia. done.
Qed.

Lemma bands_some c r np p : prec_ready c r np p → pr_pband p ≠ [].
Proof. intros [[_ Hl] _ _] E. assert (zlength (pr_pband p) = 0) by (by rewrite E). destruct (bands_range (coc_at c) dfs r); lia. Qed.

Lemma ready_sized c r np p : prec_ready c r np p → prec_sized p.
Proof.
  intros HP. destruct (ready_blocks _ _ _ _ HP (bands_some _ _ _ _ HP)) as [_ Eu]. destruct HP as [[Hn Hl] Eg HF].
  split; [unfold zlength in Hl; lia|]. eapply Forall_impl; [exact HF|]. intros pb [Hg Hi Hz [Fi Fz Fl _]].
  rewrite <- Eg in *. cbn [fst snd] in *. destruct (tag_tree_size_spec _ _ Hg) as [_ Hs].
  split; [done|done|rewrite Eu; done|rewrite Eu; lia].
Qed.
Lemma built_res_sized rp c r :
  res_built (comp_geo c) (coc_at c) dfs r rp → 0 ≤ c < 3 → 0 ≤ r ≤ coc_NL (coc_at c) → res_sized rp.
Proof.
  intros HR Hc Hr. pose proof HR as [_ _ Ew Eh _ _ _ HF]. destruct (so_res Hok c r Hc Hr) as (_ & _ & Hp).
  destruct (npw_range (comp_geo c) (coc_at c) dfs r) as [Hw Hh]. unfold precincts_of in Hp.
  pose proof (Forall2_length _ _ _ HF) as Hl. rewrite length_seqZ in Hl.
  split; [rewrite Ew, Eh, u32_small by nia; done|].
  apply Forall_lookup_2. intros i p Ei. pose proof (lookup_lt_Some _ _ _ Ei).
  destruct (prec_at rp c r (Z.of_nat i) HR Hc Hr) as (p' & E & HP); [unfold precincts_of; lia|].
  rewrite Nat2Z.id, Ei in E. injection E as <-. by eapply ready_sized.
Qed.

Lemma built_sized tcs crp' : uninit_ok → comps_built tcs → tile_sized (set_crp crp' true (new_tile tcs)).
Proof.
  intros [Hul Hu] [Hl HB]. split; [done|]. apply Forall_lookup_2. intros i tc' Ei. cbn in Ei.
  pose proof (lookup_lt_Some _ _ _ Ei). assert (0 ≤ Z.of_nat i < 3) as Hc by lia.
  destruct (HB _ Hc) as (tc & tc'' & Eu & E & B). rewrite Nat2Z.id in Eu, E. rewrite Ei in E. injection E as <-.
  destruct (Hu (Z.of_nat i) tc Hc) as (_ & _ & Hrest); [by rewrite Nat2Z.id|].
  destruct B as [B1 B2 B3 _]. split; [done|]. apply Forall_lookup_2. intros r rp Er.
  destruct (decide (Z.of_nat r ≤ coc_NL (coc_at (Z.of_nat i)))) as [Hr|Hr].
  - destruct (B1 (Z.of_nat r)) as (rp' & E & R); [lia|]. rewrite Nat2Z.id, Er in E. injection E as <-.
    eapply (built_res_sized rp _ _ R); [done|lia].
  - apply (Hrest (Z.of_nat r)); [lia|]. rewrite <- B2, Nat2Z.id by lia. done.
Qed.

(** ** The handler *)
Lemma cdu_one a o s : 0 ≤ o < a → a ≤ o + s → a < 1073741824 → s < 1073741824 → cdu (a - o) s = 1.
Proof. intros. rewrite cdu_ceil by lia. apply ceildiv_unique; lia. Qed.

Lemma one_tile_extent : tile_extent z 0 0 = tile_geo.
Proof.
  pose proof (so_x Hok). pose proof (so_y Hok). unfold tile_extent, tile_geo.
  rewrite !u32_small by lia. rewrite !i32_small by lia. f_equal; lia.
Qed.

Definition created_handler (tcs : list tcomp_) (walk : list crp_status) (t : tile_handler) : tile_handler :=
  mkTh [set_crp walk true (new_tile tcs)] (set_cocs cocs_of h) 1 1 true (signal_queue_ t) (index_by_pid walk) total_cost
    (parse_holdback_ t).

(** The walk: every precinct of every resolution, in its resolution's order. *)
Definition walk_of_stream (walk : list crp_status) : Prop :=
  Forall (λ e, 0 ≤ crp_c e < 3 ∧ 0 ≤ crp_r e ≤ coc_NL (coc_at (crp_c e))) walk
  ∧ ∀ c r, 0 ≤ c < 3 → 0 ≤ r ≤ coc_NL (coc_at c) →
      filter (λ e, crp_c e = c ∧ crp_r e = r) walk = mkCrp c r <$> seqZ 0 (precincts_of c r).

Lemma walk_run_built tcs :
  comps_built tcs →
  ∃ walk, prepare_precinct_structure (new_tile tcs) cocs_of dfs = Ret (EXIT_SUCCESS, set_crp walk true (new_tile tcs))
    ∧ walk_of_stream walk.
Proof.
  intros HB. destruct (so_origin Hok) as [Ox Oy].
  destruct (enumerate_run (new_tile tcs) cocs_of dfs (coc_at 0) [coc_at 1; coc_at 2] (built_walk_ok tcs HB) eq_refl
    (so_po Hok) eq_refl Ox Oy) as (walk & E & F1 & F2).
  { intros c r Hc. unfold NLv. rewrite cocv_at by done. intros Hr. by apply built_geometry. }
  exists walk. split; [done|]. split.
  - eapply Forall_impl; [exact F1|]. intros e [Hc Hr]. unfold NLv in Hr. by rewrite cocv_at in Hr.
  - intros c r Hc Hr. rewrite F2; [|done|unfold NLv; by rewrite cocv_at].
    by destruct (resv_built tcs c r HB Hc Hr) as [_ _ -> -> _ _ _ _].
Qed.
Lemma resolve_po o : coc_progression_order (resolve_NL dfs o) = coc_progression_order o.
Proof. unfold resolve_NL. by destruct (_ <? _). Qed.

(** The only round of the tile loop. *)
Lemma tile_run t :
  uninit_ok → tabs t = h → arena t = 0 → num_tiles_x t = 1 → num_tiles_y t = 1 → tiles t = [] →
  ∃ tcs walk, build_tile uninit stale 0 t
      = Ret (true, set_tiles [set_crp walk true (new_tile tcs)] (set_arena total_cost (set_tabs (set_cocs cocs_of h) t)))
    ∧ comps_built tcs ∧ walk_of_stream walk.
Proof.
  intros Hu Htabs Ha Hnx Hny Htl. unfold build_tile. rewrite bind_get, Htabs, Hnx, Hny.
  assert (h_cocs h !! Z.to_nat 0 = Some (h_cocs h !!! Z.to_nat 0)) as E0
    by (apply lookup_total_some; rewrite (tw_cocs _ (so_wf Hok)); lia).
  rewrite (bind_run _ _ _ _ _ (at_run _ 0 _ t ltac:(lia) E0)). cbn [Z.eqb orb]. change (0 mod 1) with 0. change (0 / 1) with 0.
  cbn zeta. rewrite one_tile_extent, (so_Csiz Hok). rewrite <- (resolve_po (h_cocs h !!! Z.to_nat 0)).
  fold (coc_at 0). fold (new_tile uninit). change (Z.to_nat 3) with 3%nat.
  destruct (components_run (new_tile uninit) t Hu eq_refl eq_refl Htabs Ha) as (tcs & E & HB).
  destruct (walk_run_built tcs HB) as (walk & Ew & HW). exists tcs, walk. split; [|done].
  rewrite (bind_run _ _ _ _ _ E), bind_get. cbn [tabs set_arena set_tabs h_cocs h_dfs set_cocs].
  change (set_tcomps tcs (new_tile uninit)) with (new_tile tcs). rewrite Ew, bind_modify. cbn [tiles set_arena set_tabs].
  rewrite Htl. done.
Qed.

Lemma create_run t :
  uninit_ok → tabs t = h →
  ∃ tcs walk, create uninit stale t = Ret (true, created_handler tcs walk t) ∧ comps_built tcs ∧ walk_of_stream walk.
Proof.
  intros Hu Htabs. pose proof (so_x Hok). pose proof (so_y Hok).
  destruct (tile_run (set_tiles [] (set_grid 1 1 (set_arena 0 t))) Hu Htabs eq_refl eq_refl eq_refl eq_refl)
    as (tcs & walk & E & HB & HW).
  exists tcs, walk. split; [|done]. unfold create.
  rewrite (bind_run _ _ t () (set_arena 0 t)) by done. rewrite bind_get. cbn zeta. cbn [tabs set_arena]. rewrite Htabs.
  unfold cdu_checked. rewrite (proj2 (Z.eqb_neq (XTsiz z) 0)), (proj2 (Z.eqb_neq (YTsiz z) 0)) by lia. rewrite !bind_ret.
  rewrite !cdu_one by lia. rewrite !bind_modify. change (1 =? 0) with false. cbn [build_tiles Z.to_nat Pos.to_nat Pos.iter_op].
  change (Z.to_nat 1) with 1%nat. cbn [build_tiles].
  erewrite bind_run; [|erewrite bind_run by exact E; reflexivity]. cbn [negb]. rewrite bind_get. cbn [tiles set_tiles crp set_crp].
  rewrite !bind_modify. reflexivity.
Qed.
(** ** Every precinct once *)
Lemma walk_elem walk e :
  walk_of_stream walk →
  e ∈ walk ↔ 0 ≤ crp_c e < 3 ∧ 0 ≤ crp_r e ≤ coc_NL (coc_at (crp_c e)) ∧ 0 ≤ crp_p e < precincts_of (crp_c e) (crp_r e).
Proof.
  intros [HF HW]. rewrite Forall_forall in HF.
  assert (0 ≤ crp_c e < 3 ∧ 0 ≤ crp_r e ≤ coc_NL (coc_at (crp_c e)) →
    e ∈ walk ↔ 0 ≤ crp_p e < precincts_of (crp_c e) (crp_r e)) as H.
  { intros [Hc Hr]. transitivity (e ∈ filter (λ e', crp_c e' = crp_c e ∧ crp_r e' = crp_r e) walk).
    { rewrite list_elem_of_filter. tauto. }
    rewrite HW, list_elem_of_fmap by done. split.
    - intros (p & -> & Hp%elem_of_seqZ). cbn in *. lia.
    - intros Hp. exists (crp_p e). split; [by destruct e|]. apply elem_of_seqZ. lia. }
  split; [|intros (Hc & Hr & Hp); by apply H].
  intros He. specialize (HF e He). destruct HF as [Hc Hr]. split; [done|]. split; [done|]. by apply H.
Qed.

Lemma NoDup_by_class {A B} `{EqDecision B} (f : A → B) (l : list A) :
  (∀ a, a ∈ l → NoDup (filter (λ x, f x = f a) l)) → NoDup l.
Proof.
  induction l as [|a l IH]; [constructor|]. intros H. constructor.
  - intros Ha. specialize (H a ltac:(left)). rewrite filter_cons_True in H by done. apply NoDup_cons in H as [H _].
    apply H. by apply list_elem_of_filter.
  - apply IH. intros x Hx. specialize (H x ltac:(by right)). rewrite filter_cons in H.
    destruct (decide _); [by apply NoDup_cons in H as [_ H]|done].
Qed.

Lemma walk_nodup walk : walk_of_stream walk → NoDup walk.
Proof.
  intros HW. apply (NoDup_by_class (λ e, (crp_c e, crp_r e))). intros e He.
  rewrite (list_filter_iff _ (λ x, crp_c x = crp_c e ∧ crp_r x = crp_r e)) 
    by (intros x; split; [by intros [= -> ->]|by intros [-> ->]]).
  apply walk_elem in He as (Hc & Hr & _); [|done]. rewrite (proj2 HW) by done.
  apply NoDup_fmap_2; [by intros ? ? [=]|apply NoDup_seqZ].
Qed.

Lemma walk_keys_nodup walk : walk_of_stream walk → NoDup (key_of <$> walk).
Proof.
  intros HW. apply NoDup_fmap_2_strong; [|by apply walk_nodup]. intros e e' He He'.
  apply walk_elem in He as (? & ? & ?); [|done]. apply walk_elem in He' as (? & ? & ?); [|done].
  destruct e, e'. unfold key_of. cbn in *. intros [= ? ? ?]. f_equal; lia.
Qed.

Lemma walk_precinct tcs walk b e :
  comps_built tcs → walk_of_stream walk → e ∈ walk →
  ∃ p, get_prec (set_crp walk b (new_tile tcs)) e = Some p ∧ prec_ready (crp_c e) (crp_r e) (crp_p e) p.
Proof.
  intros HB HW He. apply walk_elem in He as (Hc & Hr & Hp); [|done].
  destruct (res_at tcs _ _ HB Hc Hr) as (tc & rp & E1 & E2 & HR). destruct (prec_at rp _ _ _ HR Hc Hr Hp) as (p & E3 & HP).
  exists p. split; [|done]. unfold get_prec. cbn [tcomp set_crp new_tile]. rewrite E1. cbn. rewrite E2. cbn. by rewrite E3.
Qed.
End Create.

(** ** Deciding that a stream is supported *)
Definition all_below (n : Z) (P : Z → bool) : bool := forallb P (seqZ 0 n).
Lemma all_below_ok n P : all_below n P = true → ∀ i, 0 ≤ i < n → P i = true.
Proof. unfold all_below. rewrite forallb_forall. intros H i Hi. apply H, list_elem_of_In, elem_of_seqZ. lia. Qed.

Definition build_okb (coc : coc_marker) (dfs : dfs_marker) : bool :=
  bool_decide (0 ≤ coc_NL coc < MAX_DWT_LEVEL
    ∧ (length (coc_prw coc) = 6%nat ∧ Forall (λ x, 0 ≤ x < 16) (coc_prw coc))
    ∧ (length (coc_prh coc) = 6%nat ∧ Forall (λ x, 0 ≤ x < 16) (coc_prh coc))
    ∧ (length (hor_depth dfs) = 6%nat ∧ Forall (λ x, 0 ≤ x ≤ MAX_DWT_LEVEL) (hor_depth dfs))
    ∧ (length (ver_depth dfs) = 6%nat ∧ Forall (λ x, 0 ≤ x ≤ MAX_DWT_LEVEL) (ver_depth dfs))
    ∧ length (dfs_type dfs) = 6%nat
    ∧ (0 ≤ coc_cbw coc < 32 ∧ 0 ≤ coc_cbh coc < 32))
  && all_below (coc_NL coc + 1) (λ r, (r =? 0) || bool_decide (dir_of coc dfs r = BOTH ∨ dir_of coc dfs r = HORZ ∨ dir_of coc dfs r = VERT)).

Lemma build_okb_ok coc dfs : build_okb coc dfs = true → build_ok coc dfs.
Proof.
  unfold build_okb. rewrite andb_true_iff, bool_decide_eq_true. intros [(H1 & H2 & H3 & H4 & H5 & H6 & H7) Hd].
  split; try done. intros r Hr. pose proof (all_below_ok _ _ Hd r ltac:(lia)) as H.
  cbn beta in H. rewrite (proj2 (Z.eqb_neq r 0)) in H by lia. by apply bool_decide_eq_true in H.
Qed.

Definition tables_wfb (h : tables) : bool :=
  bool_decide (length (Ssiz (h_siz h)) = 3%nat ∧ length (XRsiz (h_siz h)) = 3%nat ∧ length (YRsiz (h_siz h)) = 3%nat
    ∧ (length (cod_prw (h_cod h)) = 6%nat ∧ length (cod_prh (h_cod h)) = 6%nat)
    ∧ length (h_cocs h) = 3%nat
    ∧ Forall (λ o, length (coc_prw o) = 6%nat ∧ length (coc_prh o) = 6%nat) (h_cocs h)
    ∧ (length (exponent (h_qcd h)) = 16%nat ∧ length (mantissa (h_qcd h)) = 16%nat)
    ∧ (length (dfs_type (h_dfs h)) = 6%nat ∧ length (h_orient (h_dfs h)) = 6%nat
       ∧ length (v_orient (h_dfs h)) = 6%nat ∧ length (hor_depth (h_dfs h)) = 6%nat
       ∧ length (ver_depth (h_dfs h)) = 6%nat)).

Definition image_okb (h : tables) : bool :=
  let z := h_siz h in
  bool_decide (Csiz z = 3
    ∧ (0 ≤ XTOsiz z ≤ XOsiz z ∧ XOsiz z < Xsiz z ∧ Xsiz z ≤ XTOsiz z + XTsiz z ∧ Xsiz z < 1073741824 ∧ XTsiz z < 1073741824)
    ∧ (0 ≤ YTOsiz z ≤ YOsiz z ∧ YOsiz z < Ysiz z ∧ Ysiz z ≤ YTOsiz z + YTsiz z ∧ Ysiz z < 1073741824 ∧ YTsiz z < 1073741824)
    ∧ (coc_progression_order (coc_at h 0) = PCRL ∨ coc_progression_order (coc_at h 0) = PRCL)
    ∧ (XOsiz z mod step_x (cocs_of h) = 0 ∧ YOsiz z mod step_y (cocs_of h) = 0)
    ∧ cost_of h 0 + cost_of h 1 + cost_of h 2 ≤ BUFSIZE).

Definition level_okb (h : tables) (c r : Z) : bool :=
  let rc := rc_of (comp_geo h c) (coc_at h c) (h_dfs h) r in
  bool_decide (x0 rc < x1 rc ∧ y0 rc < y1 rc ∧ precincts_of h c r ≤ 65536)
  && all_below (precincts_of h c r) (λ np,
       bool_decide (1 ≤ (grid_at h c r np 0).1 ∧ 1 ≤ (grid_at h c r np 0).2)
       && all_below (bands_of (coc_at h c) (h_dfs h) r) (λ b, bool_decide (grid_at h c r np b = grid_at h c r np 0))).

Definition comp_okb (h : tables) (c : Z) : bool :=
  bool_decide (1 ≤ (sub_of h c).1 ≤ 255 ∧ 1 ≤ (sub_of h c).2 ≤ 255) && build_okb (coc_at h c) (h_dfs h)
  && all_below (coc_NL (coc_at h c) + 1) (level_okb h c).

Definition stream_okb (h : tables) : bool := tables_wfb h && image_okb h && all_below 3 (comp_okb h).

Lemma stream_okb_ok h : stream_okb h = true → stream_ok h.
Proof.
  unfold stream_okb, tables_wfb, image_okb. rewrite !andb_true_iff, !bool_decide_eq_true.
  intros [[(W1 & W2 & W3 & W4 & W5 & W6 & W7 & W8) (I1 & I2 & I3 & I4 & I5 & I6)] HC].
  pose proof (all_below_ok _ _ HC) as HC'. clear HC.
  assert (∀ c r, 0 ≤ c < 3 → 0 ≤ r ≤ coc_NL (coc_at h c) → level_okb h c r = true) as HL.
  { intros c r Hc Hr. specialize (HC' c Hc). apply andb_true_iff in HC' as [_ HL]. apply (all_below_ok _ _ HL). lia. }
  split; [by split|exact I1|exact I2|exact I3| | |exact I4|exact I5| | |exact I6].
  - intros c Hc. specialize (HC' c Hc). unfold comp_okb in HC'. rewrite !andb_true_iff, bool_decide_eq_true in HC'. tauto.
  - intros c Hc. specialize (HC' c Hc). unfold comp_okb in HC'. rewrite !andb_true_iff in HC'. apply build_okb_ok, HC'.
  - intros c r Hc Hr. specialize (HL c r Hc Hr). apply andb_true_iff in HL as [HL _]. by apply bool_decide_eq_true in HL.
  - intros c r np Hc Hr Hp. specialize (HL c r Hc Hr). apply andb_true_iff in HL as [_ HL].
    pose proof (all_below_ok _ _ HL np Hp) as H. cbn beta in H. rewrite andb_true_iff, bool_decide_eq_true in H. destruct H as [[G1 G2] Hb].
    split; [done|]. split; [done|]. intros b Hb'. pose proof (all_below_ok _ _ Hb b Hb') as H.
    by apply bool_decide_eq_true in H.
Qed.

(** Zeroed memory is fine. *)
Lemma blank_uninit_ok h g : uninit_ok (replicate 3 (blank_tcomp g)) h.
Proof.
  split; [done|]. intros c tc Hc E. apply lookup_replicate in E as [-> _]. split; [done|]. split; [repeat constructor|].
  intros r rp _ Er. apply lookup_replicate in Er as [-> _]. split; [done|constructor].
Qed.

(** ** The layout in the standard's terms

    What the marker segments describe, written from the formulas of the codestream syntax
    and sharing nothing with the builder: the rounded-up quotient is [- (- a / b)], and the
    sub-band of a resolution has its own origin and subsampling. *)
Definition ceil (a b : Z) : Z := - (- a / b).

Section Layout.
Context (h : tables).
Notation z := (h_siz h).
Notation dfs := (h_dfs h).
Notation coc c := (h_cocs h !!! Z.to_nat c).

Definition std_NL (c : Z) : Z := if 32 <? coc_NL (coc c) then Idfs dfs mod 256 else coc_NL (coc c).
Definition std_comp (c : Z) : geometry :=
  let xr := XRsiz z !!! Z.to_nat c in
  let yr := YRsiz z !!! Z.to_nat c in
  mkGeo (ceil (XOsiz z) xr) (ceil (YOsiz z) yr) (ceil (Xsiz z) xr) (ceil (Ysiz z) yr).
Definition std_res (c r : Z) : geometry :=
  let dx := 2 ^ (hor_depth dfs !!! Z.to_nat (std_NL c - r)) in
  let dy := 2 ^ (ver_depth dfs !!! Z.to_nat (std_NL c - r)) in
  let g := std_comp c in
  mkGeo (ceil (x0 g) dx) (ceil (y0 g) dy) (ceil (x1 g) dx) (ceil (y1 g) dy).

(** Cells of size [p] over [v0, v1): how many, and the part of the [k]th. *)
Definition std_cells (v0 v1 p : Z) : Z := ceil v1 p - v0 / p.
Definition std_lo (v0 p k : Z) : Z := Z.max v0 (p * (v0 / p + k)).
Definition std_hi (v0 v1 p k : Z) : Z := Z.min v1 (p * (v0 / p + k + 1)).

Definition std_pw (c r : Z) : Z := 2 ^ (coc_prw (coc c) !!! Z.to_nat r).
Definition std_ph (c r : Z) : Z := 2 ^ (coc_prh (coc c) !!! Z.to_nat r).
Definition std_npw (c r : Z) : Z := std_cells (x0 (std_res c r)) (x1 (std_res c r)) (std_pw c r).
Definition std_nph (c r : Z) : Z := std_cells (y0 (std_res c r)) (y1 (std_res c r)) (std_ph c r).
Definition std_prec (c r np : Z) : geometry :=
  let g := std_res c r in
  let i := np mod std_npw c r in
  let j := np / std_npw c r in
  mkGeo (std_lo (x0 g) (std_pw c r) i) (std_lo (y0 g) (std_ph c r) j)
        (std_hi (x0 g) (x1 g) (std_pw c r) i) (std_hi (y0 g) (y1 g) (std_ph c r) j).

(** The direction of the decomposition that made resolution [r], its number of sub-bands,
    and for a sub-band its origin and subsampling: HL, LH and HH of a split in both
    directions; a split in one direction is laid out from its low-pass samples.  For
    resolution 0 the direction is the entry behind the last level, none in tables that only
    held this stream ([lowest_direction_stale]). *)
Definition std_dir (c r : Z) : Z := dfs_type dfs !!! Z.to_nat (std_NL c - r + 1).
Definition std_nb (c r : Z) : Z := if (std_dir c r =? BOTH) && (0 <? r) then 3 else 1.
Definition std_origin (c r b : Z) : Z * Z :=
  if std_nb c r =? 1 then (0, 0) else if b =? 0 then (1, 0) else if b =? 1 then (0, 1) else (1, 1).
Definition std_ratio (c r : Z) : Z * Z :=
  if std_dir c r =? BOTH then (2, 2) else if std_dir c r =? HORZ then (2, 1)
  else if std_dir c r =? VERT then (1, 2) else (1, 1).
(** The part of sub-band [b] that belongs to a precinct. *)
Definition std_band (c r np b : Z) : geometry :=
  let g := std_prec c r np in
  let o := std_origin c r b in
  let s := std_ratio c r in
  mkGeo (ceil (x0 g - o.1) s.1) (ceil (y0 g - o.2) s.2) (ceil (x1 g - o.1) s.1) (ceil (y1 g - o.2) s.2).
Definition std_grid (c r np b : Z) : Z * Z :=
  let g := std_band c r np b in
  (std_cells (x0 g) (x1 g) (2 ^ coc_cbw (coc c)), std_cells (y0 g) (y1 g) (2 ^ coc_cbh (coc c))).

(** A sub-band of a precinct: its code-blocks are the cells of its part, the first one
    starting where the part does. *)
Record band_layout (c r np b : Z) (pb : pband_) : Prop := {
  bl_part : x0 (std_band c r np b) < x1 (std_band c r np b) ∧ y0 (std_band c r np b) < y1 (std_band c r np b);
  bl_blocks : zlength (pb_blk pb) = (std_grid c r np b).1 * (std_grid c r np b).2;
  bl_first : ∃ bk, pb_blk pb !! 0%nat = Some bk
    ∧ x0 (blk_coord bk) = x0 (std_band c r np b) ∧ y0 (blk_coord bk) = y0 (std_band c r np b)
}.
Record prec_layout (c r np : Z) (p : prec_) : Prop := {
  pl_coord : pr_coord p = std_prec c r np;
  pl_res : res_num p = r;
  pl_markers : use_SOP p = coc_use_SOP (coc c) ∧ use_EPH p = coc_use_EPH (coc c);
  pl_nb : pr_num_bands p = std_nb c r ∧ zlength (pr_pband p) = std_nb c r;
  pl_bands b pb : 0 ≤ b → pr_pband p !! Z.to_nat b = Some pb →
    band_layout c r np b pb ∧ (ncbw p, ncbh p) = std_grid c r np b
}.
Record res_layout (c r : Z) (rp : res_) : Prop := {
  rl_coord : res_coord rp = std_res c r;
  rl_grid : npw rp = std_npw c r ∧ nph rp = std_nph c r;
  rl_dir : transform_direction rp = std_dir c r ∧ res_num_bands rp = std_nb c r;
  rl_count : zlength (res_prec rp) = std_npw c r * std_nph c r;
  rl_prec np p : 0 ≤ np → res_prec rp !! Z.to_nat np = Some p → prec_layout c r np p
}.
Record comp_layout (c : Z) (tc : tcomp_) : Prop := {
  cl_idx : tc_idx tc = c;
  cl_coord : tc_coord tc = std_comp c;
  cl_sub : sub_x tc = XRsiz z !!! Z.to_nat c ∧ sub_y tc = YRsiz z !!! Z.to_nat c;
  cl_res r : 0 ≤ r ≤ std_NL c → ∃ rp, tc_res tc !! Z.to_nat r = Some rp ∧ res_layout c r rp
}.
Definition std_layout (tcs : list tcomp_) : Prop :=
  length tcs = 3%nat ∧ ∀ c, 0 ≤ c < 3 → ∃ tc, tcs !! Z.to_nat c = Some tc ∧ comp_layout c tc.

(** *** The builder's arithmetic is the standard's *)
Lemma ceil_eq a b : 1 ≤ b → ceildiv_int a b = ceil a b.
Proof.
  intros Hb. unfold ceildiv_int, ceil. pose proof (Z.div_mod (- a) b ltac:(lia)).
  pose proof (Z.mod_pos_bound (- a) b ltac:(lia)). symmetry.
  apply (Z.div_unique _ _ _ (b - 1 - (- a) mod b)); [left; lia|]. nia.
Qed.

Lemma cdu_std v o r : 0 ≤ v < 1073741824 → (o = 0 ∧ (r = 1 ∨ r = 2)) ∨ (o = 1 ∧ r = 2) → cdu (v - o) r = ceil (v - o) r.
Proof.
  intros Hv Hor. destruct (decide (v - o = -1)) as [E|]; [by assert (r = 2) as -> by lia; rewrite E|].
  rewrite <- ceil_eq by lia. apply cdu_ceil; lia.
Qed.

Context (Hok : stream_ok h).

Lemma std_NL_eq c : coc_NL (coc_at h c) = std_NL c.
Proof. unfold coc_at, resolve_NL, std_NL. by destruct (32 <? _). Qed.
Lemma coc_at_rest c :
  coc_prw (coc_at h c) = coc_prw (coc c) ∧ coc_prh (coc_at h c) = coc_prh (coc c)
  ∧ coc_cbw (coc_at h c) = coc_cbw (coc c) ∧ coc_cbh (coc_at h c) = coc_cbh (coc c)
  ∧ coc_use_SOP (coc_at h c) = coc_use_SOP (coc c) ∧ coc_use_EPH (coc_at h c) = coc_use_EPH (coc c).
Proof. unfold coc_at, resolve_NL. by destruct (32 <? _). Qed.

Lemma comp_geo_std c : 0 ≤ c < 3 → comp_geo h c = std_comp c.
Proof. intros Hc. destruct (so_sub _ Hok c Hc). unfold comp_geo, std_comp, sub_of in *. cbn [fst snd] in *. by rewrite !ceil_eq by lia. Qed.

Lemma res_geo_std c r :
  0 ≤ c < 3 → 0 ≤ r ≤ std_NL c →
  rc_of (comp_geo h c) (coc_at h c) dfs r = std_res c r
  ∧ npw_of (comp_geo h c) (coc_at h c) dfs r = std_npw c r ∧ nph_of (comp_geo h c) (coc_at h c) dfs r = std_nph c r.
Proof.
  intros Hc Hr. rewrite <- std_NL_eq in Hr. destruct (exps_small h Hok c r Hc Hr) as (Ew & Eh & Ex & Ey).
  destruct (level_extents (comp_geo h c) (coc_at h c) dfs r (so_build _ Hok c Hc) (comp_small h Hok c Hc) Hr) as (El & Ew' & Eh').
  destruct (so_res _ Hok c r Hc Hr) as (Nx & Ny & _). rewrite (proj2 (Z.ltb_lt _ _) Nx) in Ew'.
  rewrite (proj2 (Z.ltb_lt _ _) Ny) in Eh'. cbn zeta in *. pose proof (pow2_small _ _ Ew). pose proof (pow2_small _ _ Eh).
  pose proof (pow2_small _ _ Ex). pose proof (pow2_small _ _ Ey). rewrite !ceil_eq in El by lia. rewrite ceil_eq in Ew', Eh' by lia.
  assert (rc_of (comp_geo h c) (coc_at h c) dfs r = std_res c r) as E.
  { rewrite El, comp_geo_std by done. unfold hd_of, vd_of. by rewrite std_NL_eq. }
  split; [done|]. rewrite Ew', Eh', E. unfold pw_of, ph_of. destruct (coc_at_rest c) as (-> & -> & _). done.
Qed.

Lemma lo_std v0 p k : 0 ≤ v0 < 1073741824 → 1 ≤ p ≤ 65536 → 0 ≤ k → k * p ≤ 1073741824 →
  i32 (Z.max (u32 v0) (u32 (p * u32 (k + u32 v0 / p)))) = std_lo v0 p k.
Proof.
  intros Hv Hp Hk Hkp. unfold std_lo. pose proof (Z.mul_div_le v0 p ltac:(lia)).
  assert (0 ≤ v0 / p ≤ v0) by (split; [apply Z.div_pos; lia|apply Z.div_le_upper_bound; nia]).
  rewrite (u32_small v0), (u32_small (k + _)), u32_small, i32_small by nia. f_equal. lia.
Qed.
Lemma hi_std v0 v1 p k : 0 ≤ v0 ≤ v1 → v1 < 1073741824 → 1 ≤ p ≤ 65536 → 0 ≤ k → k * p ≤ 1073741824 →
  i32 (Z.min (u32 v1) (u32 (p * u32 (k + 1 + u32 v0 / p)))) = std_hi v0 v1 p k.
Proof.
  intros Hv Hv1 Hp Hk Hkp. unfold std_hi. pose proof (Z.mul_div_le v0 p ltac:(lia)).
  assert (0 ≤ v0 / p ≤ v0) by (split; [apply Z.div_pos; lia|apply Z.div_le_upper_bound; nia]).
  rewrite (u32_small v0), (u32_small v1), (u32_small (k + 1 + _)), u32_small, i32_small by nia. f_equal. lia.
Qed.

Lemma prec_extent_std rc ppx ppy np :
  small_geo rc → 1 ≤ ppx ≤ 65536 → 1 ≤ ppy ≤ 65536 →
  let w := precincts_along (x0 rc) (x1 rc) ppx in
  0 ≤ np < w * precincts_along (y0 rc) (y1 rc) ppy →
  prec_extent rc w ppx ppy np
  = mkGeo (std_lo (x0 rc) ppx (np mod w)) (std_lo (y0 rc) ppy (np / w))
          (std_hi (x0 rc) (x1 rc) ppx (np mod w)) (std_hi (y0 rc) (y1 rc) ppy (np / w)).
Proof.
  intros (Hx & Hx1 & Hy & Hy1) Hpx Hpy w Hnp. set (t := precincts_along (y0 rc) (y1 rc) ppy) in *.
  assert (0 ≤ w ∧ 0 ≤ t) as [Hw Ht] by (unfold w, t, precincts_along; split; apply u32_range).
  assert (0 < w) by nia. pose proof (Z.mod_pos_bound np w ltac:(lia)).
  assert (0 ≤ np / w < t) by (split; [apply Z.div_pos; lia|apply Z.div_lt_upper_bound; lia]).
  pose proof (along_small (x0 rc) (x1 rc) ppx (np mod w) ltac:(lia) Hx1 Hpx ltac:(done)).
  pose proof (along_small (y0 rc) (y1 rc) ppy (np / w) ltac:(lia) Hy1 Hpy ltac:(done)).
  unfold prec_extent. by rewrite !lo_std, !hi_std by lia.
Qed.

Lemma res_small c r : 0 ≤ c < 3 → 0 ≤ r ≤ std_NL c → small_geo (std_res c r).
Proof.
  intros Hc Hr. pose proof Hr as Hr'. rewrite <- std_NL_eq in Hr'. destruct (exps_small h Hok c r Hc Hr') as (_ & _ & Ex & Ey).
  pose proof (pow2_small _ _ Ex). pose proof (pow2_small _ _ Ey). change (2 ^ 5) with 32 in *.
  rewrite <- (proj1 (res_geo_std c r Hc Hr)). apply res_extent_std; [by apply comp_small|lia|lia].
Qed.

Lemma pow_of_std c r : pw_of (coc_at h c) r = coc_prw (coc c) !!! Z.to_nat r ∧ ph_of (coc_at h c) r = coc_prh (coc c) !!! Z.to_nat r.
Proof. unfold pw_of, ph_of. by destruct (coc_at_rest c) as (-> & -> & _). Qed.

Lemma prec_geo_std c r np :
  0 ≤ c < 3 → 0 ≤ r ≤ std_NL c → 0 ≤ np < std_npw c r * std_nph c r → prec_geo h c r np = std_prec c r np.
Proof.
  intros Hc Hr Hnp. pose proof Hr as Hr'. rewrite <- std_NL_eq in Hr'. destruct (exps_small h Hok c r Hc Hr') as (Ew & Eh & _).
  pose proof (pow2_small _ _ Ew). pose proof (pow2_small _ _ Eh). change (2 ^ 15) with 32768 in *.
  destruct (res_geo_std c r Hc Hr) as (Er & Enw & Enh). unfold prec_geo, std_prec. rewrite <- Enw, <- Enh in *. rewrite Er.
  unfold npw_of, nph_of in *. rewrite Er in *. destruct (pow_of_std c r) as [Epw Eph]. unfold std_pw, std_ph.
  rewrite <- Epw, <- Eph. apply prec_extent_std; [by apply res_small|lia|lia|done].
Qed.

(** *** Sub-bands and code-blocks *)
Lemma cell_bounds v0 v1 p k :
  0 ≤ v0 → 1 ≤ p → 0 ≤ k < std_cells v0 v1 p → v0 ≤ std_lo v0 p k < v1 ∧ 0 ≤ std_hi v0 v1 p k ≤ v1 ∨ v1 ≤ v0.
Proof.
  intros Hv Hp Hk. unfold std_cells, std_lo, std_hi in *. rewrite <- ceil_eq in Hk by lia.
  pose proof (ceildiv_bounds v1 p ltac:(lia)). assert (0 ≤ v0 / p) by (apply Z.div_pos; lia).
  assert (p * (v0 / p + k) < v1) by nia. nia.
Qed.

Lemma std_prec_bounds c r np :
  0 ≤ c < 3 → 0 ≤ r ≤ std_NL c → 0 ≤ np < std_npw c r * std_nph c r →
  let g := std_prec c r np in
  0 ≤ x0 g < 1073741824 ∧ 0 ≤ x1 g < 1073741824 ∧ 0 ≤ y0 g < 1073741824 ∧ 0 ≤ y1 g < 1073741824.
Proof.
  intros Hc Hr Hnp. cbn zeta. destruct (res_small c r Hc Hr) as (Hx & Hx1 & Hy & Hy1). pose proof Hr as Hr'.
  rewrite <- std_NL_eq in Hr'. destruct (so_res _ Hok c r Hc Hr') as (Nx & Ny & _).
  destruct (res_geo_std c r Hc Hr) as (Er & Ew & Eh). rewrite Er in Nx, Ny. destruct (npw_range (comp_geo h c) (coc_at h c) dfs r).
  rewrite <- Ew, <- Eh in Hnp. rewrite Ew, Eh in *. destruct (exps_small h Hok c r Hc Hr') as (Bw & Bh & _).
  destruct (pow_of_std c r) as [Ep Eq]. rewrite Ep in Bw. rewrite Eq in Bh. apply pow2_small in Bw, Bh.
  assert (0 < std_npw c r) by nia. pose proof (Z.mod_pos_bound np (std_npw c r) ltac:(lia)).
  assert (0 ≤ np / std_npw c r < std_nph c r) by (split; [apply Z.div_pos; lia|apply Z.div_lt_upper_bound; lia]).
  assert (1 ≤ std_pw c r ∧ 1 ≤ std_ph c r) as [? ?] by (unfold std_pw, std_ph; lia). cbn [std_prec x0 x1 y0 y1].
  destruct (cell_bounds (x0 (std_res c r)) (x1 (std_res c r)) (std_pw c r) (np mod std_npw c r)) as [Cx|?]; [lia|lia|done| |lia].
  destruct (cell_bounds (y0 (std_res c r)) (y1 (std_res c r)) (std_ph c r) (np / std_npw c r)) as [Cy|?]; [lia|lia|done| |lia].
  lia.
Qed.

Lemma dir_std c r : dir_of (coc_at h c) dfs r = std_dir c r.
Proof. unfold dir_of, std_dir. by rewrite std_NL_eq. Qed.
Lemma bands_std c r : 0 ≤ r → bands_of (coc_at h c) dfs r = std_nb c r.
Proof.
  intros Hr. unfold bands_of, std_nb. rewrite dir_std.
  destruct (Z.eqb_spec r 0), (Z.ltb_spec 0 r); try lia; by destruct (_ =? BOTH).
Qed.

(** One sub-band, direction and band number known. *)
Local Ltac std_axes :=
  cbn; try change (0 + 1) with 1; try change (1 + 1) with 2; try change (2 + 1) with 3; unfold xob, yob; cbn; by rewrite !cdu_std by lia.

Lemma band_part_std c r np b :
  0 ≤ c < 3 → 0 ≤ r ≤ std_NL c → 0 ≤ np < std_npw c r * std_nph c r → 0 ≤ b < std_nb c r →
  pband_extent (std_prec c r np) (std_dir c r) (if std_nb c r =? 1 then 0 else b + 1) = std_band c r np b.
Proof.
  intros Hc Hr Hnp Hb. destruct (std_prec_bounds c r np Hc Hr Hnp) as (? & ? & ? & ?).
  unfold pband_extent, std_band, std_origin, std_ratio, std_nb, sub_ratio_x, sub_ratio_y in *.
  generalize dependent (std_prec c r np). intros g ? ? ? ?.
  destruct (Z.eqb_spec (std_dir c r) BOTH) as [->|], (Z.ltb_spec 0 r); cbn [andb orb Z.eqb Pos.eqb] in *.
  - assert (b = 0 ∨ b = 1 ∨ b = 2) as [-> | [-> | ->]] by lia; std_axes.
  - std_axes.
  - destruct (Z.eqb_spec (std_dir c r) HORZ) as [->|]; [|destruct (Z.eqb_spec (std_dir c r) VERT) as [E|]]; std_axes.
  - destruct (Z.eqb_spec (std_dir c r) HORZ) as [->|]; [|destruct (Z.eqb_spec (std_dir c r) VERT) as [E|]]; std_axes.
Qed.

Lemma ceil_half_bounds v o r : 0 ≤ v < 1073741824 → (o = 0 ∧ (r = 1 ∨ r = 2)) ∨ (o = 1 ∧ r = 2) → 0 ≤ ceil (v - o) r < 1073741824.
Proof.
  intros Hv Hor. rewrite <- ceil_eq by lia. pose proof (ceildiv_bounds (v - o) r ltac:(lia)).
  destruct Hor as [[-> [-> | ->]]|[-> ->]]; lia.
Qed.
Lemma std_band_bounds c r np b :
  0 ≤ c < 3 → 0 ≤ r ≤ std_NL c → 0 ≤ np < std_npw c r * std_nph c r →
  let g := std_band c r np b in
  0 ≤ x0 g < 1073741824 ∧ 0 ≤ x1 g < 1073741824 ∧ 0 ≤ y0 g < 1073741824 ∧ 0 ≤ y1 g < 1073741824.
Proof.
  intros Hc Hr Hnp. destruct (std_prec_bounds c r np Hc Hr Hnp) as (? & ? & ? & ?).
  cbn [std_band x0 x1 y0 y1]. unfold std_origin, std_ratio, std_nb.
  destruct (Z.eqb_spec (std_dir c r) BOTH), (0 <? r), (Z.eqb_spec b 0), (Z.eqb_spec b 1), (std_dir c r =? HORZ), (std_dir c r =? VERT);
    cbn [andb fst snd Z.eqb Pos.eqb]; split_and!; apply ceil_half_bounds; lia.
Qed.

Lemma blocks_std v0 v1 k :
  0 ≤ v0 < 1073741824 → 0 ≤ v1 < 1073741824 → 0 ≤ k < 32 → 1 ≤ blocks_along v0 v1 (2 ^ k) →
  v0 < v1 ∧ blocks_along v0 v1 (2 ^ k) = std_cells v0 v1 (2 ^ k).
Proof.
  intros H0 H1 Hk. pose proof (pow2_small k 31 ltac:(lia)) as Hp. change (2 ^ 31) with 2147483648 in Hp.
  unfold blocks_along, std_cells. destruct (Z.ltb_spec v0 v1); [|lia]. intros _. split; [done|].
  unfold cdu. rewrite (u32_small v1), (u32_small (v1 + _)) by lia. fold (ceildiv_int v1 (2 ^ k)). rewrite ceil_eq by lia.
  rewrite <- ceil_eq by lia. pose proof (ceildiv_small v1 (2 ^ k) ltac:(lia) ltac:(lia)).
  pose proof (ceildiv_le v0 v1 (2 ^ k) ltac:(lia) ltac:(lia)). pose proof (ceildiv_mod v0 (2 ^ k) ltac:(lia)) as Hm.
  assert (0 ≤ v0 / 2 ^ k) by (apply Z.div_pos; lia). apply u32_small. destruct (_ =? 0); lia.
Qed.

(** The first code-block starts where its band part does. *)
Lemma first_block pb cbw cbh w : 1 ≤ cbw → 1 ≤ cbh → 1 ≤ w →
  0 ≤ x0 pb < 1073741824 → 0 ≤ y0 pb < 1073741824 →
  x0 (blk_extent pb cbw cbh w 0) = x0 pb ∧ y0 (blk_extent pb cbw cbh w 0) = y0 pb.
Proof.
  intros Hw Hh Hn Hx Hy. cbn [blk_extent x0 y0]. rewrite Z.land_0_l, Z.div_0_l by lia. rewrite !Z.add_0_l.
  pose proof (Z.mul_div_le (x0 pb) cbw ltac:(lia)). pose proof (Z.mul_div_le (y0 pb) cbh ltac:(lia)).
  assert (0 ≤ x0 pb / cbw ≤ x0 pb) by (split; [apply Z.div_pos; lia|apply Z.div_le_upper_bound; nia]).
  assert (0 ≤ y0 pb / cbh ≤ y0 pb) by (split; [apply Z.div_pos; lia|apply Z.div_le_upper_bound; nia]).
  rewrite (u32_small (_ / cbw)), (u32_small (_ / cbh)), !u32_small by nia. rewrite !i32_small by nia. lia.
Qed.

(** *** The built structure has the standard's layout *)

(** A sub-band whose blocks are the builder's cells of its part. *)
Lemma band_laid c r np b pb :
  0 ≤ c < 3 → 0 ≤ r ≤ std_NL c → 0 ≤ np < std_npw c r * std_nph c r →
  x0 (std_band c r np b) < x1 (std_band c r np b) → y0 (std_band c r np b) < y1 (std_band c r np b) →
  1 ≤ (std_grid c r np b).1 → 1 ≤ (std_grid c r np b).2 → 0 ≤ coc_cbw (coc c) → 0 ≤ coc_cbh (coc c) →
  has_cells (blk_extent (std_band c r np b) (2 ^ coc_cbw (coc c)) (2 ^ coc_cbh (coc c)) (std_grid c r np b).1
               <$> seqZ 0 ((std_grid c r np b).1 * (std_grid c r np b).2)) pb →
  band_layout c r np b pb.
Proof.
  intros Hc Hr Hnp Nx Ny G1 G2 Bw Bh HC. destruct (std_band_bounds c r np b Hc Hr Hnp) as (? & ? & ? & ?).
  unfold has_cells in HC. split; [done| |].
  - apply (f_equal length) in HC. rewrite !length_fmap, length_seqZ in HC. unfold zlength. nia.
  - rewrite seqZ_cons in HC by nia. destruct (pb_blk pb) as [|bk l]; [done|]. exists bk. split; [done|].
    apply (f_equal head) in HC. cbn [head fmap list_fmap] in HC. apply (inj Some) in HC. rewrite HC.
    pose proof (pow2_small (coc_cbw (coc c)) _ (conj Bw (Z.le_refl _))).
    pose proof (pow2_small (coc_cbh (coc c)) _ (conj Bh (Z.le_refl _))). apply first_block; lia.
Qed.

Lemma prec_laid c r np p :
  0 ≤ c < 3 → 0 ≤ r ≤ std_NL c → 0 ≤ np < std_npw c r * std_nph c r →
  prec_built (coc_at h c) r (rc_of (comp_geo h c) (coc_at h c) dfs r) (npw_of (comp_geo h c) (coc_at h c) dfs r)
    (2 ^ pw_of (coc_at h c) r) (2 ^ ph_of (coc_at h c) r) (2 ^ coc_cbw (coc_at h c)) (2 ^ coc_cbh (coc_at h c))
    (dir_of (coc_at h c) dfs r) (bands_of (coc_at h c) dfs r) np p →
  prec_layout c r np p.
Proof.
  intros Hc Hr Hnp HB. pose proof Hr as Hr'. rewrite <- std_NL_eq in Hr'.
  destruct (res_geo_std c r Hc Hr) as (_ & Ew & Eh). destruct (coc_at_rest c) as (_ & _ & Ecw & Ech & Es & Ee).
  destruct (bo_cb _ _ (so_build _ Hok c Hc)) as [Bw Bh]. rewrite Ecw in Bw. rewrite Ech in Bh.
  assert (0 ≤ np < precincts_of h c r) as Hp by (unfold precincts_of; rewrite Ew, Eh; lia).
  destruct (so_bands _ Hok c r np Hc Hr' Hp) as (G1 & G2 & Gb).
  pose proof (prec_fresh _ _ _ _ _ _ _ _ _ _ _ _ (grid_at h c r np 0) HB) as Hfresh.
  destruct HB as [P1 P2 P3 P4 P5 P6 P7 P8]. fold (prec_geo h c r np) in P1. rewrite P1 in Hfresh.
  destruct Hfresh as (Eg & El & HF); [destruct (bands_range (coc_at h c) dfs r); lia|done|done|exact Gb|].
  rewrite P1, prec_geo_std in P5 by done. rewrite prec_geo_std in P1 by done.
  rewrite bands_std in * by lia. split; [done|done|by rewrite P7, P8|done|].
  intros b pb Hb Epb. assert (b < std_nb c r) as Hb' by (apply lookup_lt_Some in Epb; unfold zlength in El; lia).
  specialize (Gb b ltac:(lia)). rewrite <- Gb in *. rewrite dir_std, Ecw, Ech in P5.
  assert (grid_at h c r np b = grid_of (std_prec c r np) (std_dir c r) (std_nb c r) (2 ^ coc_cbw (coc c)) (2 ^ coc_cbh (coc c)) b) as Eat
    by (unfold grid_at; by rewrite prec_geo_std, dir_std, bands_std, Ecw, Ech by (done || lia)).
  destruct (std_band_bounds c r np b Hc Hr Hnp) as (H & H0 & H1 & H2).
  assert (seqZ 0 (std_nb c r) !! Z.to_nat b = Some b) as Es' by (apply lookup_seqZ; lia).
  rewrite Forall2_fmap_l in P5. pose proof (Forall2_lookup_lr _ _ _ _ _ _ P5 Es' Epb) as HC. unfold compose in HC.
  unfold cells_of in HC. rewrite <- Eat, band_part_std in HC by lia.
  rewrite (proj2 (Z.eqb_neq _ 0)), (proj2 (Z.eqb_neq _ 0)) in HC by lia. cbn [negb andb] in HC.
  unfold grid_of in Eat. rewrite band_part_std in Eat by lia. rewrite Eat in G1, G2. cbn [fst snd] in G1, G2.
  pose proof (blocks_std _ _ _ H H0 Bw G1) as [Nx Gx].
  pose proof (blocks_std _ _ _ H1 H2 Bh G2) as [Ny Gy].
  assert (grid_at h c r np b = std_grid c r np b) as Estd by (rewrite Eat, Gx, Gy; done).
  split; [|by rewrite <- Estd]. rewrite Estd in HC. rewrite Gx in G1. rewrite Gy in G2. by apply band_laid; try lia.
Qed.

Lemma res_laid c r rp :
  0 ≤ c < 3 → 0 ≤ r ≤ std_NL c → res_built (comp_geo h c) (coc_at h c) dfs r rp → res_layout c r rp.
Proof.
  intros Hc Hr [_ R2 R3 R4 R5 R6 _ R8]. destruct (res_geo_std c r Hc Hr) as (Er & Ew & Eh).
  destruct (npw_range (comp_geo h c) (coc_at h c) dfs r) as [? ?].
  pose proof (Forall2_length _ _ _ R8) as Hl. rewrite length_seqZ in Hl.
  split; [by rewrite R2|by rewrite R3, R4|by rewrite R5, R6, dir_std, bands_std by lia| |].
  - unfold zlength. rewrite <- Hl, <- Ew, <- Eh. nia.
  - intros np p Hnp Ep. pose proof (lookup_lt_Some _ _ _ Ep) as Hlt. rewrite <- Hl in Hlt.
    apply prec_laid; [done|done|rewrite <- Ew, <- Eh; lia|].
    eapply (Forall2_lookup_lr _ _ _ (Z.to_nat np)); [exact R8|apply lookup_seqZ; lia|exact Ep].
Qed.

Lemma built_layout uninit tcs : comps_built uninit h tcs → std_layout tcs.
Proof.
  intros [Hl HB]. split; [done|]. intros c Hc. destruct (HB c Hc) as (tc & tc' & _ & E & [B1 _ _ (B4 & B5 & B6 & B7)]).
  exists tc'. split; [done|]. split; [done|by rewrite B5, <- comp_geo_std by done|done|].
  intros r Hr. destruct (B1 r) as (rp & Er & HR); [by rewrite std_NL_eq|]. exists rp. split; [done|]. by apply res_laid.
Qed.

(** A precinct of a laid out tile, found through the walk. *)
Lemma laid_precinct tcs walk b e p :
  std_layout tcs → 0 ≤ crp_c e < 3 → 0 ≤ crp_r e ≤ std_NL (crp_c e) → 0 ≤ crp_p e →
  get_prec (set_crp walk b (new_tile h tcs)) e = Some p → prec_layout (crp_c e) (crp_r e) (crp_p e) p.
Proof.
  intros [_ HL] Hc Hr Hp. destruct (HL _ Hc) as (tc & Etc & [_ _ _ HR]). destruct (HR _ Hr) as (rp & Er & [_ _ _ _ HP]).
  unfold get_prec. cbn [tcomp set_crp new_tile]. rewrite Etc. cbn [mbind option_bind]. rewrite Er. cbn [mbind option_bind].
  intros Ep. by apply HP.
Qed.

Lemma std_walk_elem walk e :
  walk_of_stream h walk →
  e ∈ walk ↔ 0 ≤ crp_c e < 3 ∧ 0 ≤ crp_r e ≤ std_NL (crp_c e)
             ∧ 0 ≤ crp_p e < std_npw (crp_c e) (crp_r e) * std_nph (crp_c e) (crp_r e).
Proof.
  intros HW. rewrite (walk_elem h walk e HW), std_NL_eq. split; intros (Hc & Hr & Hp).
  - destruct (res_geo_std _ _ Hc Hr) as (_ & Ew & Eh). unfold precincts_of in Hp. rewrite Ew, Eh in Hp. by rewrite Z.mul_comm.
  - destruct (res_geo_std _ _ Hc Hr) as (_ & Ew & Eh). unfold precincts_of. rewrite Ew, Eh, Z.mul_comm. done.
Qed.
End Layout.

(** ** Properties *)


(** ** Witness: a 32 x 16 stream of ten precincts a component *)
Definition small_tables (po : Z) : tables :=
  mkHdr () (mkSiz 0x4000 32 16 0 0 32 16 0 0 3 [9; 9; 9] [1; 1; 1] [1; 1; 1]) cod0 (small_cocs po) qcd0 small_dfs 0 0.

