(* ===== verification/FrameHandler.v ===== *)
(** * FrameHandler: frame_handler.hpp

    [pull_data] turns the in-order RTP payloads into frames: it chains the J2K
    bytes, tracks the frame state machine (main header seen, parse failure, EOC),
    drives the tile handler, delivers chunks, aborts and completed frames to the
    consumer's callbacks and gives every slab back to the receiver.

    The tile handler is used through the interface [TileHandler]; the theorems of
    this file hold for every implementation that satisfies [TileLaws].  Calls of
    consumer callbacks are events appended to a trace; the answers of the two
    callbacks that return a value are part of the input ([packet]). *)
From S2P Require Import Prelude Codestream Markers Structs MainHeader HeaderSpec Signature.

(** ** What the frame handler needs of the tile handler

    [parse] and [flush] read and move the shared codestream; [th_header] is
    [parse_main_header] storing into the tile handler's tables. *)
Class TileHandler (T : Type) := {
  is_ready : T → bool;
  invalidate : T → T;
  th_restart : T → outcome T;
  th_append_signal : Z → Z → T → T;
  th_header : memory → T → codestream → outcome (Z * T * codestream);
  th_create : T → outcome (bool * T);
  th_parse : memory → T → codestream → outcome (Z * T * codestream * list crp_status);
  th_flush : memory → T → codestream → outcome (Z * T * codestream * list crp_status)
}.

(** ** Events: the calls of the consumer's callbacks *)
Inductive event :=
  | EvChunk (offset base len : Z)
  | EvAbort (reason : Z)
  | EvReady (chunks : list Chunk) (intact : bool)
  | EvRelatch (reason : Z)
  | EvRelease (slab : Z)
  | EvPrecinct (c : crp_status)
  | EvGap (seam : Z) (accepted : bool)
  | EvPoint (resync_byte pid : Z) (accepted : bool).

Definition kAbortGap : Z := 1.
Definition kAbortParse : Z := 2.
Definition kAbortMissedEOC : Z := 3.
Definition kAbortSlabCap : Z := 4.
Definition kAbortDamagedEOC : Z := 5.
Definition kRelatchGeometry : Z := 1.
Definition kRelatchParseFail : Z := 2.

(** Which callbacks are registered (non-null). *)
Record callbacks := mkCb {
  release_slab_cb_ : bool; frame_ready_cb_ : bool; chunk_cb_ : bool; frame_abort_cb_ : bool;
  resync_gap_cb_ : bool; resync_point_cb_ : bool; relatch_cb_ : bool; prec_cb_ : bool
}.

(** The default (all null), and the registration functions; [b] is whether the given
    pointer is non-null. *)
Definition no_callbacks : callbacks := mkCb false false false false false false false false.
Definition set_precinct_callback (b : bool) (k : callbacks) : callbacks :=
  mkCb (release_slab_cb_ k) (frame_ready_cb_ k) (chunk_cb_ k) (frame_abort_cb_ k)
    (resync_gap_cb_ k) (resync_point_cb_ k) (relatch_cb_ k) b.
Definition set_release_slab_callback (b : bool) (k : callbacks) : callbacks :=
  mkCb b (frame_ready_cb_ k) (chunk_cb_ k) (frame_abort_cb_ k)
    (resync_gap_cb_ k) (resync_point_cb_ k) (relatch_cb_ k) (prec_cb_ k).
Definition set_frame_ready_callback (b : bool) (k : callbacks) : callbacks :=
  mkCb (release_slab_cb_ k) b (chunk_cb_ k) (frame_abort_cb_ k)
    (resync_gap_cb_ k) (resync_point_cb_ k) (relatch_cb_ k) (prec_cb_ k).
Definition set_chunk_callback (b : bool) (k : callbacks) : callbacks :=
  mkCb (release_slab_cb_ k) (frame_ready_cb_ k) b (frame_abort_cb_ k)
    (resync_gap_cb_ k) (resync_point_cb_ k) (relatch_cb_ k) (prec_cb_ k).
Definition set_frame_abort_callback (b : bool) (k : callbacks) : callbacks :=
  mkCb (release_slab_cb_ k) (frame_ready_cb_ k) (chunk_cb_ k) b
    (resync_gap_cb_ k) (resync_point_cb_ k) (relatch_cb_ k) (prec_cb_ k).
Definition set_resync_callbacks (gap point : bool) (k : callbacks) : callbacks :=
  mkCb (release_slab_cb_ k) (frame_ready_cb_ k) (chunk_cb_ k) (frame_abort_cb_ k)
    gap point (relatch_cb_ k) (prec_cb_ k).
Definition set_stream_relatch_callback (b : bool) (k : callbacks) : callbacks :=
  mkCb (release_slab_cb_ k) (frame_ready_cb_ k) (chunk_cb_ k) (frame_abort_cb_ k)
    (resync_gap_cb_ k) (resync_point_cb_ k) b (prec_cb_ k).

(** One call of [pull_data]; the answers the resync consumer would give. *)
Record packet := mkPacket {
  p_payload : Z; p_size : Z; p_marker : bool; p_slab : Z; p_gap : bool;
  p_gap_answer : bool; p_point_answer : bool
}.

(** ** State *)
Record frame_handler (T : Type) := mkFh {
  held_slabs_ : list Z;
  chain_total_bytes_ : Z;
  total_frames : Z;
  trunc_frames : Z;
  start_SOD : Z;
  is_parsing_failure : bool;
  is_passed_header : bool;
  tile_hndr : T;
  cs : codestream;
  geom_sig_ : Z;
  relatch_k_ : Z;
  parse_fail_streak_ : Z;
  frame_parse_failed_ : bool;
  relatches_ : Z;
  resync_armed_ : bool;
  resync_soft_ : bool;
  abort_armed_ : bool;
  trace : list event
}.
Arguments mkFh {T} _ _ _ _ _ _ _ _ _ _ _ _ _ _ _ _ _ _.
Arguments held_slabs_ {T} _. Arguments chain_total_bytes_ {T} _. Arguments total_frames {T} _.
Arguments trunc_frames {T} _. Arguments start_SOD {T} _. Arguments is_parsing_failure {T} _.
Arguments is_passed_header {T} _. Arguments tile_hndr {T} _. Arguments cs {T} _.
Arguments geom_sig_ {T} _. Arguments relatch_k_ {T} _. Arguments parse_fail_streak_ {T} _.
Arguments frame_parse_failed_ {T} _. Arguments relatches_ {T} _. Arguments resync_armed_ {T} _.
Arguments resync_soft_ {T} _. Arguments abort_armed_ {T} _. Arguments trace {T} _.

(** The constructor: everything empty, hatch threshold 4. *)
Definition new_frame_handler {T} (t : T) : frame_handler T :=
  mkFh [] 0 0 0 0 false false t empty_codestream 0 4 0 false 0 false false false [].

Section Setters.
Context {T : Type}.
Implicit Types s : frame_handler T.

Definition set_chain (h : list Z) (n : Z) (c : codestream) s : frame_handler T :=
  mkFh h n (total_frames s) (trunc_frames s) (start_SOD s) (is_parsing_failure s)
    (is_passed_header s) (tile_hndr s) c (geom_sig_ s) (relatch_k_ s) (parse_fail_streak_ s)
    (frame_parse_failed_ s) (relatches_ s) (resync_armed_ s) (resync_soft_ s) (abort_armed_ s)
    (trace s).
Definition set_counts (total trunc : Z) s : frame_handler T :=
  mkFh (held_slabs_ s) (chain_total_bytes_ s) total trunc (start_SOD s) (is_parsing_failure s)
    (is_passed_header s) (tile_hndr s) (cs s) (geom_sig_ s) (relatch_k_ s) (parse_fail_streak_ s)
    (frame_parse_failed_ s) (relatches_ s) (resync_armed_ s) (resync_soft_ s) (abort_armed_ s)
    (trace s).
Definition set_sod (n : Z) s : frame_handler T :=
  mkFh (held_slabs_ s) (chain_total_bytes_ s) (total_frames s) (trunc_frames s) n
    (is_parsing_failure s) (is_passed_header s) (tile_hndr s) (cs s) (geom_sig_ s) (relatch_k_ s)
    (parse_fail_streak_ s) (frame_parse_failed_ s) (relatches_ s) (resync_armed_ s)
    (resync_soft_ s) (abort_armed_ s) (trace s).
Definition set_flags (failure passed : bool) s : frame_handler T :=
  mkFh (held_slabs_ s) (chain_total_bytes_ s) (total_frames s) (trunc_frames s) (start_SOD s)
    failure passed (tile_hndr s) (cs s) (geom_sig_ s) (relatch_k_ s) (parse_fail_streak_ s)
    (frame_parse_failed_ s) (relatches_ s) (resync_armed_ s) (resync_soft_ s) (abort_armed_ s)
    (trace s).
Definition set_tile (t : T) (c : codestream) s : frame_handler T :=
  mkFh (held_slabs_ s) (chain_total_bytes_ s) (total_frames s) (trunc_frames s) (start_SOD s)
    (is_parsing_failure s) (is_passed_header s) t c (geom_sig_ s) (relatch_k_ s)
    (parse_fail_streak_ s) (frame_parse_failed_ s) (relatches_ s) (resync_armed_ s)
    (resync_soft_ s) (abort_armed_ s) (trace s).
Definition set_latch (sig streak relatches : Z) s : frame_handler T :=
  mkFh (held_slabs_ s) (chain_total_bytes_ s) (total_frames s) (trunc_frames s) (start_SOD s)
    (is_parsing_failure s) (is_passed_header s) (tile_hndr s) (cs s) sig (relatch_k_ s) streak
    (frame_parse_failed_ s) relatches (resync_armed_ s) (resync_soft_ s) (abort_armed_ s) (trace s).
Definition set_parse_failed (b : bool) s : frame_handler T :=
  mkFh (held_slabs_ s) (chain_total_bytes_ s) (total_frames s) (trunc_frames s) (start_SOD s)
    (is_parsing_failure s) (is_passed_header s) (tile_hndr s) (cs s) (geom_sig_ s) (relatch_k_ s)
    (parse_fail_streak_ s) b (relatches_ s) (resync_armed_ s) (resync_soft_ s) (abort_armed_ s)
    (trace s).
Definition set_resync (armed soft : bool) s : frame_handler T :=
  mkFh (held_slabs_ s) (chain_total_bytes_ s) (total_frames s) (trunc_frames s) (start_SOD s)
    (is_parsing_failure s) (is_passed_header s) (tile_hndr s) (cs s) (geom_sig_ s) (relatch_k_ s)
    (parse_fail_streak_ s) (frame_parse_failed_ s) (relatches_ s) armed soft (abort_armed_ s)
    (trace s).
Definition set_armed (b : bool) s : frame_handler T :=
  mkFh (held_slabs_ s) (chain_total_bytes_ s) (total_frames s) (trunc_frames s) (start_SOD s)
    (is_parsing_failure s) (is_passed_header s) (tile_hndr s) (cs s) (geom_sig_ s) (relatch_k_ s)
    (parse_fail_streak_ s) (frame_parse_failed_ s) (relatches_ s) (resync_armed_ s)
    (resync_soft_ s) b (trace s).
Definition add_events (l : list event) s : frame_handler T :=
  mkFh (held_slabs_ s) (chain_total_bytes_ s) (total_frames s) (trunc_frames s) (start_SOD s)
    (is_parsing_failure s) (is_passed_header s) (tile_hndr s) (cs s) (geom_sig_ s) (relatch_k_ s)
    (parse_fail_streak_ s) (frame_parse_failed_ s) (relatches_ s) (resync_armed_ s)
    (resync_soft_ s) (abort_armed_ s) (trace s ++ l).
Definition set_relatch_parse_fail_k (k : Z) s : frame_handler T :=
  mkFh (held_slabs_ s) (chain_total_bytes_ s) (total_frames s) (trunc_frames s) (start_SOD s)
    (is_parsing_failure s) (is_passed_header s) (tile_hndr s) (cs s) (geom_sig_ s) k
    (parse_fail_streak_ s) (frame_parse_failed_ s) (relatches_ s) (resync_armed_ s)
    (resync_soft_ s) (abort_armed_ s) (trace s).

End Setters.

(** ** Operations *)
Section Code.
Context `{TileHandler T} (cb : callbacks) (mem : memory).
Notation St := (frame_handler T).

Definition emit (on : bool) (e : event) : M St () :=
  if on then modify (add_events [e]) else mret ().

Definition deliver_chunk (offset bytes len : Z) : M St () :=
  modify (set_armed true) ;;
  emit (chunk_cb_ cb) (EvChunk offset bytes len).

Definition fire_abort (reason : Z) : M St () :=
  (if reason =? kAbortParse then modify (set_parse_failed true) else mret ()) ;;
  modify (set_resync false false) ;;
  s ← get_st;
  if abort_armed_ s then
    modify (set_armed false) ;;
    emit (frame_abort_cb_ cb) (EvAbort reason)
  else mret ().

Definition end_frame_streak (clean : bool) : M St () :=
  modify (λ s,
    let n := if clean then 0
             else if frame_parse_failed_ s then u32 (parse_fail_streak_ s + 1)
             else parse_fail_streak_ s in
    set_parse_failed false (set_latch (geom_sig_ s) n (relatches_ s) s)).

Definition release_held_slabs : M St () :=
  s ← get_st;
  modify (add_events (if release_slab_cb_ cb then EvRelease <$> held_slabs_ s else [])) ;;
  modify (set_chain [] 0 (clear (cs s))).

Definition restart : M St () := λ s,
  match th_restart (tile_hndr s) with
  | Ret t => Ret ((), set_tile t (cs s) s)
  | UB => UB
  | NoFuel => NoFuel
  end.

(** [ACTION(func, ...)]: a non-zero result marks the frame failed. *)
Definition action
    (op : memory → T → codestream → outcome (Z * T * codestream * list crp_status)) : M St () := λ s,
  match op mem (tile_hndr s) (cs s) with
  | Ret (ret, t, c, evs) =>
      let s := add_events (if prec_cb_ cb then EvPrecinct <$> evs else []) (set_tile t c s) in
      Ret ((), if ret =? 0 then s else set_flags true false s)
  | UB => UB
  | NoFuel => NoFuel
  end.

(** A gap with a frame in flight: offered to a resync consumer, else the frame dies. *)
Definition on_gap (p : packet) : M St () :=
  s ← get_st;
  if p_gap p && (is_passed_header s || negb (bool_decide (held_slabs_ s = [])))
     && negb (is_parsing_failure s)
  then
    if resync_gap_cb_ cb && is_passed_header s then
      modify (add_events [EvGap (chain_total_bytes_ s) (p_gap_answer p)]) ;;
      if p_gap_answer p then modify (set_resync true true)
      else
        fire_abort kAbortGap ;;
        modify (λ s, set_flags true (is_passed_header s) s)
    else
      fire_abort kAbortGap ;;
      modify (λ s, set_flags true (is_passed_header s) s)
  else mret ().

Definition kSlabCap : Z := 3072.

Definition slab_cap : M St () :=
  s ← get_st;
  if kSlabCap <=? Z.of_nat (length (held_slabs_ s)) then
    fire_abort kAbortSlabCap ;;
    release_held_slabs ;;
    restart ;;
    modify (λ s, set_counts (total_frames s) (trunc_frames s + 1) s) ;;
    end_frame_streak false ;;
    modify (set_flags false false)
  else mret ().

(** A body packet while no frame is tracked: its slab goes straight back. *)
Definition skip_body (p : packet) : M St () :=
  emit (release_slab_cb_ cb) (EvRelease (p_slab p)) ;;
  if p_marker p then
    s ← get_st;
    (if is_parsing_failure s || is_passed_header s then
       fire_abort kAbortDamagedEOC ;;
       modify (λ s, set_counts (total_frames s + 1) (trunc_frames s + 1) s) ;;
       end_frame_streak false
     else mret ()) ;;
    modify (set_flags false false) ;;
    release_held_slabs ;;
    restart
  else mret ().

(** A main packet arrives with the previous frame's chain still held. *)
Definition missed_eoc : M St () :=
  s ← get_st;
  if bool_decide (held_slabs_ s = []) then mret () else
  fire_abort kAbortMissedEOC ;;
  release_held_slabs ;;
  restart ;;
  s ← get_st;
  (if is_passed_header s || is_parsing_failure s then
     modify (λ s, set_counts (total_frames s + 1) (trunc_frames s + 1) s) ;;
     end_frame_streak false
   else mret ()) ;;
  modify (λ s, set_flags (is_parsing_failure s) false s).

(** deliver_chunk, cs.append_chunk, held_slabs_.push_back, chain_total_bytes_ += *)
Definition append_payload (p : packet) : M St () :=
  s ← get_st;
  deliver_chunk (chain_total_bytes_ s) (p_payload p + 8) (p_size p) ;;
  modify (λ s, set_chain (held_slabs_ s ++ [p_slab p]) (u64 (chain_total_bytes_ s + p_size p))
                 (append_chunk (p_payload p + 8) (p_size p) (cs s)) s).

(** A malformed or unsupported main header. *)
Definition fail_header : M St () :=
  fire_abort kAbortParse ;;
  modify (λ s, set_flags true (is_passed_header s) s).

(** The signature check of a complete main header on a latched stream; the
    result is the re-latch reason (0: keep the latched structure). *)
Definition check_latch (sig : Z) : M St Z :=
  s ← get_st;
  if is_ready (tile_hndr s) then
    modify (λ s, set_latch (if geom_sig_ s =? 0 then sig else geom_sig_ s)
                   (parse_fail_streak_ s) (relatches_ s) s) ;;
    s ← get_st;
    let relatch :=
      if negb (relatch_k_ s =? 0) && (relatch_k_ s <=? parse_fail_streak_ s) then kRelatchParseFail
      else if negb (sig =? geom_sig_ s) then kRelatchGeometry
      else 0 in
    (if relatch =? 0 then mret () else modify (λ s, set_tile (invalidate (tile_hndr s)) (cs s) s)) ;;
    mret relatch
  else mret 0.

Definition lift_header : M St Z := λ s,
  match th_header mem (tile_hndr s) (cs s) with
  | Ret (n, t, c) => Ret (n, set_tile t c s)
  | UB => UB
  | NoFuel => NoFuel
  end.

Definition lift_create : M St bool := λ s,
  match th_create (tile_hndr s) with
  | Ret (b, t) => Ret (b, set_tile t (cs s) s)
  | UB => UB
  | NoFuel => NoFuel
  end.

(** [!is_ready()]: parse the header and build the precinct structure; [false]
    is the early return. *)
Definition latch_stream (sig relatch : Z) : M St bool :=
  modify (λ s, set_tile (tile_hndr s) (reset 0 (cs s)) s) ;;
  n ← lift_header;
  modify (set_sod n) ;;
  ok ← (if n =? 0 then mret false else lift_create);
  if negb ok then fail_header ;; mret false else
  modify (λ s, set_flags (is_parsing_failure s) true s) ;;
  modify (λ s, set_latch sig 0 (relatches_ s) s) ;;
  (if relatch =? 0 then mret () else
     modify (λ s, set_latch (geom_sig_ s) (parse_fail_streak_ s) (relatches_ s + 1) s) ;;
     emit (relatch_cb_ cb) (EvRelatch relatch)) ;;
  mret true.

(** The main-packet branch; [false] is an early return of [pull_data]. *)
Definition main_packet (p : packet) (MH : Z) : M St bool :=
  missed_eoc ;;
  modify (λ s, set_parse_failed false (set_flags false (is_passed_header s) s)) ;;
  append_payload p ;;
  s ← get_st;
  let signature :=
    if 2 <=? MH then geometry_signature mem (p_payload p + 8) (p_size p) else Ret (0, None) in
  match signature with
  | UB => undefined
  | NoFuel => out_of_fuel
  | Ret (sig, sod) =>
      if (2 <=? MH) && (sig =? 0) && is_ready (tile_hndr s) then fail_header ;; mret false else
      relatch ← (if 2 <=? MH then check_latch sig else mret 0);
      s ← get_st;
      if negb (is_ready (tile_hndr s)) then
        if 2 <=? MH then latch_stream sig relatch
        else
          modify (λ s, set_sod (u32 (start_SOD s + p_size p)) s) ;;
          s ← get_st;
          mret (negb (start_SOD s =? 0))
      else
        modify (λ s, match sod with Some n => if n =? 0 then s else set_sod n s | None => s end) ;;
        modify (λ s, set_tile (tile_hndr s) (reset (start_SOD s) (cs s)) s) ;;
        modify (λ s, set_flags (is_parsing_failure s) true s) ;;
        mret true
  end.

(** [__builtin_bswap32] of a little-endian load: a big-endian 32-bit field. *)
Definition load_be32 (a : Z) : Z :=
  Z.lor (Z.shiftl (mem a) 24) (Z.lor (Z.shiftl (mem (a + 1)) 16)
    (Z.lor (Z.shiftl (mem (a + 2)) 8) (mem (a + 3)))).

Definition body_packet (p : packet) : M St () :=
  let ORDB := Z.land (Z.shiftr (mem (p_payload p + 1)) 7) 1 in
  let POS_PID := load_be32 (p_payload p + 4) in
  let PID := Z.land POS_PID 0x000FFFFF in
  let POS := Z.shiftr POS_PID 20 in
  s ← get_st;
  let resync_byte := u32 (u32 (chain_total_bytes_ s) + POS) in
  append_payload p ;;
  s ← get_st;
  if negb (ORDB =? 0) && is_passed_header s then
    modify (λ s, set_tile (th_append_signal resync_byte PID (tile_hndr s)) (cs s) s) ;;
    s ← get_st;
    (if resync_armed_ s && resync_point_cb_ cb then
       modify (add_events [EvPoint resync_byte PID (p_point_answer p)]) ;;
       if p_point_answer p then modify (λ s, set_resync false (resync_soft_ s) s) else mret ()
     else mret ()) ;;
    s ← get_st;
    if negb (is_parsing_failure s) && negb (resync_soft_ s) then
      action th_parse ;;
      s ← get_st;
      if is_parsing_failure s then fire_abort kAbortParse else mret ()
    else mret ()
  else mret ().

(** [if (marker)]: the frame is complete. *)
Definition end_of_frame : M St () :=
  modify (set_armed false) ;;
  s ← get_st;
  let frame_intact := negb (is_parsing_failure s) && is_passed_header s && negb (resync_soft_ s) in
  modify (set_resync false false) ;;
  (if frame_intact then
     action th_flush ;;
     s ← get_st;
     if is_parsing_failure s then modify (set_parse_failed true) else mret ()
   else mret ()) ;;
  s ← get_st;
  end_frame_streak (frame_intact && negb (is_parsing_failure s)) ;;
  emit (frame_ready_cb_ cb) (EvReady (chunks_ (cs s)) frame_intact) ;;
  modify (λ s, set_counts (total_frames s + 1) (trunc_frames s + Z.b2z (is_parsing_failure s)) s) ;;
  modify (set_flags false false) ;;
  release_held_slabs ;;
  restart.

Definition pull_data (p : packet) : M St () :=
  on_gap p ;;
  slab_cap ;;
  s ← get_st;
  let MH := Z.shiftr (mem (p_payload p)) 6 in
  if (MH =? 0) && (negb (is_passed_header s) || is_parsing_failure s) then skip_body p else
  go_on ← (if 1 <=? MH then main_packet p MH else body_packet p ;; mret true);
  if (go_on : bool) && p_marker p then end_of_frame else mret ().

End Code.

(** A sequence of packets.  The slab memory changes between calls (the receiver
    reuses released slots), so each packet comes with the memory it is read in. *)
Fixpoint pull_all `{TileHandler T} (cb : callbacks) (l : list (memory * packet))
    : M (frame_handler T) () :=
  match l with
  | [] => mret ()
  | (mem, p) :: l => pull_data cb mem p ;; pull_all cb l
  end.

(** ** Interface laws: what a tile handler promises to the frame handler *)
Class TileLaws (T : Type) `{TileHandler T} : Prop := {
  invalidate_ready t : is_ready (invalidate t) = false;
  restart_ready t t' : th_restart t = Ret t' → is_ready t' = is_ready t;
  signal_ready b p t : is_ready (th_append_signal b p t) = is_ready t;
  header_keeps mem t c n t' c' :
    th_header mem t c = Ret (n, t', c') → chunks_ c' = chunks_ c ∧ is_ready t' = is_ready t;
  create_ready t b t' : th_create t = Ret (b, t') → is_ready t' = b;
  parse_keeps mem t c r t' c' evs :
    th_parse mem t c = Ret (r, t', c', evs) → chunks_ c' = chunks_ c ∧ is_ready t' = is_ready t;
  flush_keeps mem t c r t' c' evs :
    th_flush mem t c = Ret (r, t', c', evs) → chunks_ c' = chunks_ c ∧ is_ready t' = is_ready t
}.

(** ** What the consumer can rely on, as a monitor of the event trace

    [Open l]: a frame is in flight and exactly the ranges [l] were delivered.
    Offsets are contiguous; an abort ends a frame that is in flight, at most
    once; an intact completion is reported only for a frame in flight and hands
    over exactly the delivered ranges.  A completion that is reported as not intact
    may come with no frame in flight, so also behind an abort: this is what the code
    does ([abort_and_ready_same_frame]), and weaker than the comment on the callbacks,
    by which a frame is either completed or aborted.  With [strict = false] a frame may also be
    dropped silently, the next one starting at offset 0. *)
Inductive mon := Closed | Open (l : list Chunk).

Definition mon_step (strict : bool) (m : mon) (e : event) : option mon :=
  match e with
  | EvChunk off b n =>
      match m with
      | Closed => if off =? 0 then Some (Open [mkChunk b n]) else None
      | Open l =>
          if off =? total_len l then Some (Open (l ++ [mkChunk b n]))
          else if negb strict && (off =? 0) then Some (Open [mkChunk b n])
          else None
      end
  | EvAbort _ => match m with Closed => None | Open _ => Some Closed end
  | EvReady chunks intact =>
      match m with
      | Closed => if intact then None else Some Closed
      | Open l => if bool_decide (chunks = l) then Some Closed else None
      end
  | _ => Some m
  end.

Fixpoint mon_run (strict : bool) (m : mon) (l : list event) : option mon :=
  match l with
  | [] => Some m
  | e :: l => match mon_step strict m e with Some m' => mon_run strict m' l | None => None end
  end.

(** The slabs given back. *)
Definition released (l : list event) : list Z :=
  omap (λ e, match e with EvRelease i => Some i | _ => None end) l.

(** ** The invariant *)
Lemma mon_run_app strict m l k :
  mon_run strict m (l ++ k) = mon_run strict m l ≫= λ m', mon_run strict m' k.
Proof.
  revert m. induction l as [|e l IH]; intros m; [done|]. cbn [app mon_run].
  destruct (mon_step strict m e); [apply IH|done].
Qed.

Lemma released_app l k : released (l ++ k) = released l ++ released k.
Proof. unfold released. by rewrite omap_app. Qed.

Lemma released_all l : released (EvRelease <$> l) = l.
Proof. induction l as [|x l IH]; [done|]. cbn. by f_equal. Qed.

Lemma mon_run_neutral strict m l :
  Forall (λ e, match e with EvChunk _ _ _ | EvAbort _ | EvReady _ _ => False | _ => True end) l →
  mon_run strict m l = Some m.
Proof. induction 1 as [|e l He _ IH]; [done|]. cbn. by destruct e. Qed.

Section Invariant.
Context `{TileLaws T} (cb : callbacks) (strict : bool).
Context (Hrel : release_slab_cb_ cb = true) (Hchunk : chunk_cb_ cb = true)
        (Habort : frame_abort_cb_ cb = true) (Hready : frame_ready_cb_ cb = true).
Implicit Types s : frame_handler T.

(** The chain, the held slabs and the trace; [rcv] are the slabs received. *)
Record chain_ok (rcv : list Z) (m : mon) (s : frame_handler T) : Prop := {
  co_len : length (held_slabs_ s) = length (chunks_ (cs s));
  co_total : chain_total_bytes_ s = total_len (chunks_ (cs s));
  co_sizes : Forall (λ c, 0 < len c < 65536) (chunks_ (cs s));
  co_cap : Z.of_nat (length (held_slabs_ s)) ≤ kSlabCap;
  co_slabs : released (trace s) ++ held_slabs_ s ≡ₚ rcv;
  co_mon : mon_run strict Closed (trace s) = Some m
}.

(** How the abort flag and the monitor go together. *)
Definition armed_ok (m : mon) (s : frame_handler T) : Prop :=
  match m with
  | Closed => abort_armed_ s = false
  | Open l => abort_armed_ s = true
              ∧ (held_slabs_ s ≠ [] → l = chunks_ (cs s))
              ∧ (held_slabs_ s = [] → strict = false ∧ 0 < total_len l)
  end.

Definition core (rcv : list Z) (s : frame_handler T) : Prop :=
  ∃ m, chain_ok rcv m s ∧ armed_ok m s.

(** Between two calls of [pull_data]. *)
Record boundary (rcv : list Z) (s : frame_handler T) : Prop := {
  b_core : core rcv s;
  b_live : is_passed_header s = true → is_parsing_failure s = false →
           abort_armed_ s = true ∧ held_slabs_ s ≠ [];
  b_quiet : strict = true → abort_armed_ s = true →
            is_passed_header s = true ∧ is_parsing_failure s = false
}.

(** Updates that leave the chain, the trace and the abort flag alone. *)
Lemma core_same rcv s s' :
  held_slabs_ s' = held_slabs_ s → chain_total_bytes_ s' = chain_total_bytes_ s →
  chunks_ (cs s') = chunks_ (cs s) → trace s' = trace s → abort_armed_ s' = abort_armed_ s →
  core rcv s → core rcv s'.
Proof.
  intros E1 E2 E3 E4 E5 (m & [] & Ha). exists m. split.
  - split; rewrite ?E1, ?E2, ?E3, ?E4; done.
  - unfold armed_ok in *. by rewrite E1, E3, E5.
Qed.

(** Neutral events. *)
Lemma core_events rcv s l :
  Forall (λ e, match e with EvChunk _ _ _ | EvAbort _ | EvReady _ _ => False | _ => True end) l →
  released l = [] → core rcv s → core rcv (add_events l s).
Proof.
  intros Hn Hl (m & [] & Ha). exists m. split; [|done]. split; try done; cbn [trace add_events].
  - by rewrite released_app, Hl, app_nil_r.
  - rewrite mon_run_app, co_mon0. by apply mon_run_neutral.
Qed.

(** An abort disarms and leaves the rest of the frame state alone. *)
Lemma abort_core rcv reason s :
  core rcv s →
  ∃ s', fire_abort cb reason s = Ret ((), s') ∧ core rcv s' ∧ abort_armed_ s' = false
    ∧ held_slabs_ s' = held_slabs_ s ∧ is_passed_header s' = is_passed_header s
    ∧ is_parsing_failure s' = is_parsing_failure s ∧ tile_hndr s' = tile_hndr s
    ∧ trunc_frames s' = trunc_frames s ∧ total_frames s' = total_frames s.
Proof.
  intros (m & [L Tt Sz Cp Sl Mn] & Ha). unfold fire_abort. rewrite Habort.
  destruct s as [h n tot tr sod fl ps th c sig k st pf rl ra rs ar tc]; cbn in *.
  destruct (reason =? kAbortParse); cbn; destruct ar; cbn.
  all: eexists; split; [reflexivity|]; cbn; split_and!; try done.
  all: destruct m as [|l]; cbn in Ha; try done; try (by destruct Ha).
  all: exists Closed; split; [split; cbn; try done|done].
  all: rewrite ?released_app, ?mon_run_app, ?Mn, ?app_nil_r; done.
Qed.

(** Giving all slabs back, once the frame is disarmed (or was silently dropped). *)
Lemma release_core rcv s :
  core rcv s → (strict = true → abort_armed_ s = false) →
  ∃ s', release_held_slabs cb s = Ret ((), s') ∧ core rcv s' ∧ held_slabs_ s' = []
    ∧ abort_armed_ s' = abort_armed_ s ∧ is_passed_header s' = is_passed_header s
    ∧ is_parsing_failure s' = is_parsing_failure s ∧ tile_hndr s' = tile_hndr s.
Proof.
  intros (m & [L Tt Sz Cp Sl Mn] & Ha) Hs. unfold release_held_slabs. rewrite Hrel.
  eexists. split; [reflexivity|]. cbn. split_and!; try done. exists m. split; [split; cbn|].
  - done.
  - done.
  - constructor.
  - unfold kSlabCap. lia.
  - by rewrite released_app, released_all, app_nil_r.
  - rewrite mon_run_app, Mn. apply mon_run_neutral. apply Forall_fmap, Forall_true. done.
  - destruct m as [|l]; [done|]. destruct Ha as (Ea & Eh & En). cbn. split_and!; [done|done|].
    intros _. split; [destruct strict; [by rewrite Hs in Ea|done]|].
    destruct (held_slabs_ s) as [|x h] eqn:Ehs; [by apply En|].
    rewrite (Eh ltac:(done)). destruct (chunks_ (cs s)) as [|c l']; [done|].
    inversion Sz as [|?? Hc Hl]; subst. change (total_len (c :: l')) with (len c + total_len l').
    enough (0 ≤ total_len l') by (cbn in Hc; lia).
    apply total_len_nonneg. eapply Forall_impl; [exact Hl|]. cbn. lia.
Qed.

Lemma restart_core rcv s :
  core rcv s →
  match restart (T := T) s with
  | Ret (_, s') => core rcv s' ∧ held_slabs_ s' = held_slabs_ s ∧ abort_armed_ s' = abort_armed_ s
      ∧ is_passed_header s' = is_passed_header s ∧ is_parsing_failure s' = is_parsing_failure s
  | _ => True
  end.
Proof.
  intros Hc. unfold restart. destruct (th_restart (tile_hndr s)) as [t| |]; [|done|done].
  split_and!; try done. by apply (core_same _ s).
Qed.

(** The stages, from boundary to boundary. *)
Lemma on_gap_boundary rcv p s :
  boundary rcv s → ∃ s', on_gap cb p s = Ret ((), s') ∧ boundary rcv s'.
Proof.
  intros HB. pose proof HB as [Hc Hl Hq]. unfold on_gap. rewrite bind_get.
  assert (∀ s, core rcv s → ∃ s', (fire_abort cb kAbortGap ;;
    modify (λ s, set_flags true (is_passed_header s) s)) s = Ret ((), s') ∧ boundary rcv s') as Hkill.
  { intros s0 Hc0. destruct (abort_core rcv kAbortGap s0 Hc0) as (s1 & E & Hc1 & Ha & _).
    rewrite (bind_run _ _ _ _ _ E). eexists. split; [reflexivity|]. split; cbn; [|done|by rewrite Ha].
    by apply (core_same _ s1). }
  destruct (_ && _ && _); [|by exists s].
  destruct (resync_gap_cb_ cb && is_passed_header s); [|by apply Hkill].
  rewrite bind_modify. destruct (p_gap_answer p).
  - eexists. split; [reflexivity|]. split; cbn; [|done|done].
    apply (core_same _ (add_events [EvGap (chain_total_bytes_ s) true] s)); try done.
    apply core_events; [by repeat constructor|done|done].
  - apply Hkill. apply core_events; [by repeat constructor|done|done].
Qed.

Lemma slab_cap_boundary rcv s :
  boundary rcv s →
  match slab_cap cb s with
  | Ret (_, s') => boundary rcv s' ∧ Z.of_nat (length (held_slabs_ s')) < kSlabCap
  | _ => True
  end.
Proof.
  intros HB. pose proof HB as [Hc Hl Hq]. unfold slab_cap. rewrite bind_get.
  destruct (Z.leb_spec kSlabCap (Z.of_nat (length (held_slabs_ s)))); [|by split].
  destruct (abort_core rcv kAbortSlabCap s Hc) as (s1 & E1 & Hc1 & Ha1 & _).
  rewrite (bind_run _ _ _ _ _ E1).
  destruct (release_core rcv s1 Hc1 ltac:(done)) as (s2 & E2 & Hc2 & Hh2 & Ha2 & _).
  rewrite (bind_run _ _ _ _ _ E2). pose proof (restart_core rcv s2 Hc2) as Hr.
  unfold mbind at 1, M_bind at 1. destruct (restart s2) as [[[] s3]| |]; [|done|done].
  destruct Hr as (Hc3 & Hh3 & Ha3 & _). rewrite bind_modify. unfold end_frame_streak.
  rewrite bind_modify. cbn. rewrite Hh3, Hh2. split; [|unfold kSlabCap; cbn; lia].
  split; cbn; [by apply (core_same _ s3)|done|]. by rewrite Ha3, Ha2, Ha1.
Qed.

(** One more slab received and given straight back. *)
Lemma core_release_one rcv i s :
  core rcv s → core (rcv ++ [i]) (add_events [EvRelease i] s).
Proof.
  intros (m & [L Tt Sz Cp Sl Mn] & Ha). exists m. split; [|done]. split; try done; cbn [trace add_events held_slabs_].
  - rewrite released_app, <- Sl. cbn. rewrite <- !app_assoc. apply Permutation_app_head.
    by rewrite Permutation_app_comm.
  - by rewrite mon_run_app, Mn.
Qed.

Lemma skip_body_boundary rcv p s :
  boundary rcv s → is_passed_header s = false ∨ is_parsing_failure s = true →
  match skip_body cb p s with
  | Ret (_, s') => boundary (rcv ++ [p_slab p]) s'
  | _ => True
  end.
Proof.
  intros [Hc Hl Hq] Hf. unfold skip_body, emit. rewrite Hrel, bind_modify.
  set (s1 := add_events [EvRelease (p_slab p)] s).
  pose proof (core_release_one _ (p_slab p) _ Hc) as Hc1. fold s1 in Hc1.
  assert (strict = true → abort_armed_ s = false) as Hqa.
  { intros Hs. destruct (abort_armed_ s) eqn:Ea; [|done]. destruct (Hq Hs eq_refl). destruct Hf; congruence. }
  destruct (p_marker p); [|split; [done|done|done]].
  rewrite bind_get.
  assert (∃ s2, (if is_parsing_failure s1 || is_passed_header s1 then
       fire_abort cb kAbortDamagedEOC ;;
       modify (λ s, set_counts (total_frames s + 1) (trunc_frames s + 1) s) ;;
       end_frame_streak false else mret ()) s1 = Ret ((), s2)
     ∧ core (rcv ++ [p_slab p]) s2 ∧ (strict = true → abort_armed_ s2 = false)) as (s2 & E2 & Hc2 & Ha2).
  { destruct (_ || _); [|by exists s1].
    destruct (abort_core _ kAbortDamagedEOC s1 Hc1) as (s2 & E & Hc2 & Ha & _).
    rewrite (bind_run _ _ _ _ _ E). eexists. split; [reflexivity|]. cbn. split; [|done].
    by apply (core_same _ s2). }
  rewrite (bind_run _ _ _ _ _ E2), bind_modify.
  destruct (release_core (rcv ++ [p_slab p]) (set_flags false false s2)) as (s3 & E3 & Hc3 & Hh3 & Ha3 & Hp3 & Hf3 & _);
    [by apply (core_same _ s2)|done|].
  rewrite (bind_run _ _ _ _ _ E3). pose proof (restart_core _ s3 Hc3) as Hr.
  destruct (restart s3) as [[[] s4]| |]; [|done|done]. destruct Hr as (Hc4 & Hh4 & Ha4 & Hp4 & Hf4).
  split; [done|rewrite Hp4, Hp3; done|]. rewrite Ha4, Ha3. cbn. intros Hs. by rewrite Ha2.
Qed.

Lemma missed_eoc_core rcv s :
  boundary rcv s →
  match missed_eoc cb s with
  | Ret (_, s') => core rcv s' ∧ held_slabs_ s' = []
  | _ => True
  end.
Proof.
  intros [Hc Hl Hq]. unfold missed_eoc. rewrite bind_get. case_bool_decide as Hh; [done|].
  destruct (abort_core rcv kAbortMissedEOC s Hc) as (s1 & E1 & Hc1 & Ha1 & _).
  rewrite (bind_run _ _ _ _ _ E1).
  destruct (release_core rcv s1 Hc1 ltac:(done)) as (s2 & E2 & Hc2 & Hh2 & Ha2 & _).
  rewrite (bind_run _ _ _ _ _ E2). pose proof (restart_core rcv s2 Hc2) as Hr.
  unfold mbind at 1, M_bind at 1. destruct (restart s2) as [[[] s3]| |]; [|done|done].
  destruct Hr as (Hc3 & Hh3 & Ha3 & _). rewrite bind_get.
  destruct (_ || _); cbn; (split; [by apply (core_same _ s3)|transitivity (held_slabs_ s3); [reflexivity|congruence]]).
Qed.

(** A payload appended to an empty chain, or to the chain of the frame in flight. *)
Lemma append_core rcv p s :
  core rcv s → 0 < p_size p < 65536 → Z.of_nat (length (held_slabs_ s)) < kSlabCap →
  held_slabs_ s = [] ∨ abort_armed_ s = true →
  ∃ s', append_payload cb p s = Ret ((), s') ∧ core (rcv ++ [p_slab p]) s'
    ∧ abort_armed_ s' = true ∧ held_slabs_ s' ≠ []
    ∧ is_passed_header s' = is_passed_header s ∧ is_parsing_failure s' = is_parsing_failure s.
Proof.
  intros (m & [L Tt Sz Cp Sl Mn] & Ha) Hp Hcap Hopen. unfold append_payload. rewrite bind_get.
  unfold deliver_chunk, emit. rewrite Hchunk. eexists. split; [reflexivity|].
  cbn [set_chain add_events set_armed is_passed_header is_parsing_failure abort_armed_ held_slabs_].
  split_and!; try done; [|by destruct (held_slabs_ s)].
  set (c := mkChunk (p_payload p + 8) (p_size p)).
  assert (0 ≤ total_len (chunks_ (cs s)) < 3072 * 65536) as Hb.
  { split; [apply total_len_nonneg; eapply Forall_impl; [exact Sz|]; cbn; lia|].
    enough (total_len (chunks_ (cs s)) ≤ Z.of_nat (length (chunks_ (cs s))) * 65536)
      by (unfold kSlabCap in *; lia).
    clear -Sz. induction Sz as [|c l Hc _ IH]; [done|]. cbn [length]. cbn in Hc.
    change (total_len (c :: l)) with (len c + total_len l). lia. }
  exists (Open (chunks_ (cs s) ++ [c])). split; [split|]; cbn.
  - rewrite !length_app. cbn. lia.
  - rewrite total_len_app, Tt. cbn. rewrite u64_small; lia.
  - apply Forall_app. split; [done|]. constructor; [done|constructor].
  - rewrite length_app. cbn. unfold kSlabCap in *. lia.
  - rewrite released_app. cbn. rewrite app_nil_r, app_assoc. by rewrite Sl.
  - rewrite mon_run_app, Mn. cbn [mbind option_bind mon_run mon_step]. rewrite Tt. fold c.
    destruct m as [|l]; cbn in Ha.
    + destruct Hopen as [Hh|]; [|congruence]. rewrite Hh in L. cbn in L.
      destruct (chunks_ (cs s)); [|done]. done.
    + destruct Ha as (_ & E1 & E2). destruct (decide (held_slabs_ s = [])) as [Hh|Hh].
      * destruct (E2 Hh) as [-> Hl]. rewrite Hh in L. destruct (chunks_ (cs s)); [|done].
        change (total_len []) with 0. by rewrite (proj2 (Z.eqb_neq 0 (total_len l))) by lia.
      * rewrite (E1 Hh), Z.eqb_refl. done.
  - split_and!; [done|done|]. intros E. by destruct (held_slabs_ s).
Qed.

(** A frame just opened by its main packet. *)
Definition opened (rcv : list Z) (s : frame_handler T) : Prop :=
  core rcv s ∧ abort_armed_ s = true ∧ held_slabs_ s ≠ [] ∧ is_parsing_failure s = false.

Lemma opened_same rcv s s' :
  held_slabs_ s' = held_slabs_ s → chain_total_bytes_ s' = chain_total_bytes_ s →
  chunks_ (cs s') = chunks_ (cs s) → trace s' = trace s → abort_armed_ s' = abort_armed_ s →
  is_parsing_failure s' = is_parsing_failure s → opened rcv s → opened rcv s'.
Proof.
  intros E1 E2 E3 E4 E5 E6 (Hc & Ha & Hh & Hf). split; [by apply (core_same _ s)|].
  by rewrite E1, E5, E6.
Qed.

(** Between two stages of one call: the packet's slab is held. *)
Definition holding (rcv : list Z) (s : frame_handler T) : Prop :=
  boundary rcv s ∧ held_slabs_ s ≠ [].

Lemma opened_holding rcv s : opened rcv s → is_passed_header s = true → holding rcv s.
Proof. intros (Hc & Ha & Hh & Hf) Hp. split; [|done]. by split. Qed.

Lemma fail_header_holding rcv s :
  core rcv s → held_slabs_ s ≠ [] → ∃ s', fail_header cb s = Ret ((), s') ∧ holding rcv s'.
Proof.
  intros Hc Hh. unfold fail_header.
  destruct (abort_core rcv kAbortParse s Hc) as (s1 & E & Hc1 & Ha & Eh & _).
  rewrite (bind_run _ _ _ _ _ E). eexists. split; [reflexivity|].
  split; [split|]; cbn; [by apply (core_same _ s1)|done|by rewrite Ha|by rewrite Eh].
Qed.

Lemma check_latch_opened rcv sig s :
  opened rcv s → ∃ r s', check_latch sig s = Ret (r, s') ∧ opened rcv s'.
Proof.
  intros Ho. unfold check_latch. rewrite bind_get. destruct (is_ready (tile_hndr s)); [|by exists 0, s].
  rewrite bind_modify, bind_get. cbn zeta.
  set (r := if negb _ && _ then kRelatchParseFail else _).
  destruct (r =? 0); do 2 eexists; (split; [reflexivity|]); by apply (opened_same _ s).
Qed.

Lemma reset_chunks p c : chunks_ (reset p c) = chunks_ c.
Proof.
  unfold reset. cbn zeta. set (c' := set_cursor _ _ _ _). change (chunks_ c) with (chunks_ c').
  generalize (chunks_left c'). intros n. generalize c'. induction n as [|n IH]; intros d; [done|].
  cbn [advance_loop]. destruct (chunks_ d !! cur_chunk_ d); [|done]. case_match; [|done]. by rewrite IH.
Qed.

Lemma latch_stream_holding mem rcv sig relatch s :
  opened rcv s →
  match latch_stream cb mem sig relatch s with
  | Ret (_, s') => holding rcv s'
  | _ => True
  end.
Proof.
  intros Ho. unfold latch_stream. rewrite bind_modify. set (s0 := set_tile _ _ s).
  assert (opened rcv s0) as Ho0 by (apply (opened_same _ s); try done; apply reset_chunks).
  unfold mbind at 1, M_bind at 1, lift_header.
  destruct (th_header mem (tile_hndr s0) (cs s0)) as [[[n t] c]| |] eqn:Eh; [|done|done].
  apply header_keeps in Eh as [Ec _]. rewrite bind_modify. set (s1 := set_sod n (set_tile t c s0)).
  assert (opened rcv s1) as Ho1 by (by apply (opened_same _ s0)).
  assert (∀ s, opened rcv s → match (fail_header cb ;; mret false) s with
    | Ret (_, s') => holding rcv s' | _ => True end) as Hfail.
  { intros s2 (Hc2 & _ & Hh2 & _). destruct (fail_header_holding rcv s2 Hc2 Hh2) as (s3 & E & HB).
    by rewrite (bind_run _ _ _ _ _ E). }
  destruct (n =? 0); [rewrite bind_ret; by apply Hfail|].
  unfold mbind at 1, M_bind at 1, lift_create.
  destruct (th_create (tile_hndr s1)) as [[[] t2]| |]; [| |done|done].
  2:{ cbn [negb]. apply Hfail. by apply (opened_same _ s1). }
  cbn [negb]. rewrite !bind_modify.
  destruct (relatch =? 0); cbn.
  - apply opened_holding; [|done]. by apply (opened_same _ s1).
  - unfold emit. destruct (relatch_cb_ cb); cbn.
    + apply opened_holding; [|done]. destruct Ho1 as (Hc & ? & ? & ?). split; [|done].
      apply (core_events _ _ [EvRelatch relatch]); [by repeat constructor|done|]. by apply (core_same _ s1).
    + apply opened_holding; [|done]. by apply (opened_same _ s1).
Qed.

Lemma main_packet_holding mem rcv p MH s :
  boundary rcv s → 0 < p_size p < 65536 → (strict = true → 2 ≤ MH) →
  match main_packet cb mem p MH s with
  | Ret (_, s') => holding (rcv ++ [p_slab p]) s'
  | _ => True
  end.
Proof.
  intros HB Hp HMH. unfold main_packet. pose proof (missed_eoc_core rcv s HB) as Hm.
  unfold mbind at 1, M_bind at 1. destruct (missed_eoc cb s) as [[[] s1]| |]; [|done|done].
  destruct Hm as [Hc1 Hh1]. rewrite bind_modify. set (s2 := set_parse_failed _ _).
  destruct (append_core rcv p s2) as (s3 & E3 & Hc3 & Ha3 & Hh3 & Hp3 & Hf3);
    [by apply (core_same _ s1)|done|unfold kSlabCap; cbn; rewrite Hh1; cbn; lia|by left|].
  rewrite (bind_run _ _ _ _ _ E3), bind_get. set (rcv' := rcv ++ [p_slab p]) in *.
  assert (opened rcv' s3) as Ho by (by split_and!).
  destruct (if 2 <=? MH then _ else _) as [[sig sod]| |]; [|done|done].
  destruct (_ && _ && _).
  { destruct (fail_header_holding rcv' s3 Hc3 Hh3) as (s4 & E & HB4). by rewrite (bind_run _ _ _ _ _ E). }
  assert (∃ r s4, (if 2 <=? MH then check_latch sig else mret 0) s3 = Ret (r, s4) ∧ opened rcv' s4)
    as (r & s4 & E4 & Ho4).
  { destruct (2 <=? MH); [by apply check_latch_opened|by exists 0, s3]. }
  rewrite (bind_run _ _ _ _ _ E4), bind_get. destruct (negb (is_ready (tile_hndr s4))).
  - destruct (Z.leb_spec 2 MH); [by apply latch_stream_holding|].
    rewrite bind_modify, bind_get. cbn. destruct Ho4 as (Hc4 & Ha4 & Hh4 & Hf4).
    split; [split|]; cbn; [by apply (core_same _ s4)|done| |done]. intros Hs. specialize (HMH Hs). lia.
  - rewrite !bind_modify. apply opened_holding; [|done].
    destruct sod as [n|]; [destruct (n =? 0)|]; apply (opened_same _ s4); try done; apply reset_chunks.
Qed.

(** The precinct callbacks are neutral; a failure clears the header flag. *)
Lemma action_core mem rcv op s :
  (∀ t c r t' c' evs, op mem t c = Ret (r, t', c', evs) → chunks_ c' = chunks_ c) →
  core rcv s →
  match action cb mem op s with
  | Ret (_, s') => core rcv s' ∧ held_slabs_ s' = held_slabs_ s ∧ abort_armed_ s' = abort_armed_ s
      ∧ chunks_ (cs s') = chunks_ (cs s)
      ∧ ((is_passed_header s' = is_passed_header s ∧ is_parsing_failure s' = is_parsing_failure s)
         ∨ (is_passed_header s' = false ∧ is_parsing_failure s' = true))
  | _ => True
  end.
Proof.
  intros Hop Hc. unfold action.
  destruct (op mem (tile_hndr s) (cs s)) as [[[[r t] c] evs]| |] eqn:E; [|done|done].
  apply Hop in E. set (evs' := if prec_cb_ cb then _ else _).
  assert (core rcv (add_events evs' (set_tile t c s))) as Hc'.
  { apply core_events; [| |by apply (core_same _ s)]; unfold evs'; destruct (prec_cb_ cb); try done.
    - apply Forall_fmap, Forall_true. done.
    - by induction evs. }
  destruct (r =? 0).
  - split_and!; try done. by left.
  - split_and!; try done; [|by right]. by apply (core_same _ (add_events evs' (set_tile t c s))).
Qed.

Lemma body_packet_holding mem rcv p s :
  boundary rcv s → 0 < p_size p < 65536 → Z.of_nat (length (held_slabs_ s)) < kSlabCap →
  is_passed_header s = true → is_parsing_failure s = false →
  match body_packet cb mem p s with
  | Ret (_, s') => holding (rcv ++ [p_slab p]) s'
  | _ => True
  end.
Proof.
  intros HB Hp Hcap Hps Hpf. destruct (b_live _ _ HB Hps Hpf) as [Har Hhs].
  unfold body_packet. cbn zeta. rewrite bind_get. set (rb := u32 _).
  destruct (append_core rcv p s (b_core _ _ HB) Hp Hcap (or_intror Har))
    as (s1 & E1 & Hc1 & Ha1 & Hh1 & Hp1 & Hf1).
  rewrite (bind_run _ _ _ _ _ E1), bind_get. set (rcv' := rcv ++ [p_slab p]) in *.
  rewrite Hps in Hp1. rewrite Hpf in Hf1. assert (opened rcv' s1) as Ho1 by (by split_and!).
  destruct (_ && _); [|by apply opened_holding]. rewrite bind_modify, bind_get.
  set (s2 := set_tile _ _ s1). assert (opened rcv' s2 ∧ is_passed_header s2 = true) as [Ho2 Hp2].
  { split; [by apply (opened_same _ s1)|done]. }
  match goal with |- context [mbind _ ?m s2] => assert (∃ s3, m s2 = Ret ((), s3) ∧ opened rcv' s3
    ∧ is_passed_header s3 = true) as (s3 & E3 & Ho3 & Hp3) end.
  { destruct (_ && _); [|by exists s2]. rewrite bind_modify. destruct Ho2 as (Hc2 & ? & ? & ?).
    set (ev := EvPoint _ _ _). assert (core rcv' (add_events [ev] s2)) as Hc2'
      by (apply core_events; [by repeat constructor|done|done]).
    destruct (p_point_answer p); eexists; (split; [reflexivity|]); split; try done.
    split; [|done]. by apply (core_same _ (add_events [ev] s2)). }
  rewrite (bind_run _ _ _ _ _ E3), bind_get.
  destruct (negb (is_parsing_failure s3) && _); [|by apply opened_holding].
  destruct Ho3 as (Hc3 & Ha3 & Hh3 & Hf3).
  pose proof (action_core mem rcv' th_parse s3 (λ _ _ _ _ _ _ E, proj1 (parse_keeps _ _ _ _ _ _ _ E)) Hc3) as Hact.
  unfold mbind at 1, M_bind at 1. destruct (action cb mem th_parse s3) as [[[] s4]| |]; [|done|done].
  destruct Hact as (Hc4 & Hh4 & Ha4 & _ & Hfl). rewrite bind_get.
  destruct (is_parsing_failure s4) eqn:Hf4.
  - destruct (abort_core rcv' kAbortParse s4 Hc4) as (s5 & E5 & Hc5 & Ha5 & Hh5 & Hp5 & Hf5 & _).
    rewrite E5. split; [split|]; [done|congruence|by rewrite Ha5|congruence].
  - destruct Hfl as [[Hp4 _]|[_ ?]]; [|done]. apply opened_holding; [|congruence].
    split_and!; [done|congruence|congruence|done].
Qed.

(** Completion: the frame in flight, or a frame already aborted, is closed. *)
Lemma ready_core rcv s intact :
  core rcv s → held_slabs_ s ≠ [] → (intact = true → abort_armed_ s = true) →
  core rcv (add_events [EvReady (chunks_ (cs s)) intact] (set_armed false s)).
Proof.
  intros (m & [L Tt Sz Cp Sl Mn] & Ha) Hh Hi. exists Closed. split; [|done]. split; cbn; try done.
  - by rewrite released_app, app_nil_r.
  - rewrite mon_run_app, Mn. cbn. destruct m as [|l]; cbn in Ha.
    + destruct intact; [|done]. by rewrite Hi in Ha.
    + destruct Ha as (_ & -> & _); [|done]. by rewrite bool_decide_true.
Qed.

Lemma action_armed mem op b s :
  action cb mem op (set_armed b s)
  = outcome_map (λ '(u, s'), (u, set_armed b s')) (action cb mem op s).
Proof.
  unfold action. cbn. destruct (op mem _ _) as [[[[r t] c] evs]| |]; [|done|done].
  cbn. by destruct (r =? 0).
Qed.

Lemma end_of_frame_boundary mem rcv s :
  holding rcv s →
  match end_of_frame cb mem s with
  | Ret (_, s') => boundary rcv s'
  | _ => True
  end.
Proof.
  intros [HB Hh]. pose proof HB as [Hc Hl Hq]. unfold end_of_frame.
  rewrite bind_modify, bind_get, bind_modify. cbn zeta. set (fi := _ && _ && negb _).
  set (s1 := set_resync false false s). change (set_resync false false (set_armed false s)) with (set_armed false s1).
  assert (core rcv s1) as Hc1 by (by apply (core_same _ s)).
  match goal with |- context [mbind _ ?m (set_armed false s1)] => assert (match m (set_armed false s1) with
    | Ret (_, s') => ∃ s2, s' = set_armed false s2 ∧ core rcv s2 ∧ held_slabs_ s2 ≠ []
        ∧ abort_armed_ s2 = abort_armed_ s | _ => True end) as Hflush end.
  { destruct fi; [|by exists s1]. unfold mbind at 1, M_bind at 1. rewrite action_armed.
    pose proof (action_core mem rcv th_flush s1 (λ _ _ _ _ _ _ E, proj1 (flush_keeps _ _ _ _ _ _ _ E)) Hc1) as Hact.
    destruct (action cb mem th_flush s1) as [[[] s2]| |]; [|done|done]. cbn [outcome_map].
    destruct Hact as (Hc2 & Hh2 & Ha2 & _). change (held_slabs_ s1) with (held_slabs_ s) in Hh2.
    change (abort_armed_ s1) with (abort_armed_ s) in Ha2. rewrite bind_get.
    destruct (is_parsing_failure (set_armed false s2)); [exists (set_parse_failed true s2)|exists s2]; split; try done;
      (split; [by apply (core_same _ s2)|split; [cbn; congruence|cbn; congruence]]). }
  unfold mbind at 1, M_bind at 1. match goal with |- context [match ?m (set_armed false s1) with _ => _ end] =>
    destruct (m (set_armed false s1)) as [[[] s2']| |]; [|done|done] end.
  destruct Hflush as (s2 & -> & Hc2 & Hh2 & Ha2). rewrite bind_get.
  unfold end_frame_streak, emit. rewrite Hready, !bind_modify. set (s3 := set_flags _ _ _).
  assert (core rcv s3 ∧ abort_armed_ s3 = false) as [Hc3 Ha3].
  { split; [|done]. eapply core_same; [..|eapply (ready_core rcv s2 fi Hc2 Hh2)]; try done.
    intros Hfi. rewrite Ha2. unfold fi in Hfi. apply andb_true_iff in Hfi as [Hfi _].
    apply andb_true_iff in Hfi as [Hf Hp]. apply Hl; [done|]. by apply negb_true_iff in Hf. }
  destruct (release_core rcv s3 Hc3 ltac:(done)) as (s4 & E4 & Hc4 & Hh4 & Ha4 & Hp4 & Hf4 & _).
  rewrite (bind_run _ _ _ _ _ E4). pose proof (restart_core rcv s4 Hc4) as Hr.
  destruct (restart s4) as [[[] s5]| |]; [|done|done]. destruct Hr as (Hc5 & Hh5 & Ha5 & Hp5 & Hf5).
  split; [done|rewrite Hp5, Hp4; done|]. by rewrite Ha5, Ha4, Ha3.
Qed.

Lemma pull_data_boundary mem rcv p s :
  boundary rcv s → 0 < p_size p < 65536 → byte_memory mem →
  (strict = true → Z.shiftr (mem (p_payload p)) 6 ≠ 1) →
  match pull_data cb mem p s with
  | Ret (_, s') => boundary (rcv ++ [p_slab p]) s'
  | _ => True
  end.
Proof.
  intros HB Hp Hmem Hs. unfold pull_data.
  destruct (on_gap_boundary rcv p s HB) as (s1 & E1 & HB1). rewrite (bind_run _ _ _ _ _ E1).
  pose proof (slab_cap_boundary rcv s1 HB1) as H2. unfold mbind at 1, M_bind at 1.
  destruct (slab_cap cb s1) as [[[] s2]| |]; [|done|done]. destruct H2 as [HB2 Hcap].
  rewrite bind_get. cbn zeta. set (MH := Z.shiftr (mem (p_payload p)) 6) in *.
  assert (0 ≤ MH) as HMH by (apply Z.shiftr_nonneg, Hmem).
  destruct ((MH =? 0) && _) eqn:Hskip.
  { apply andb_true_iff in Hskip as [_ Hskip]. apply skip_body_boundary; [done|].
    apply orb_true_iff in Hskip as [Hk|Hk]; [left; by apply negb_true_iff in Hk|by right]. }
  match goal with |- context [mbind _ ?m s2] => assert (match m s2 with
    | Ret (_, s') => holding (rcv ++ [p_slab p]) s' | _ => True end) as Hmid end.
  { destruct (Z.leb_spec 1 MH).
    - apply main_packet_holding; [done|done|]. intros E. specialize (Hs E). lia.
    - replace (MH =? 0) with true in Hskip by (symmetry; apply Z.eqb_eq; lia). cbn in Hskip.
      apply orb_false_iff in Hskip as [Hk1 Hk2]. apply negb_false_iff in Hk1.
      pose proof (body_packet_holding mem rcv p s2 HB2 Hp Hcap Hk1 Hk2) as Hb.
      unfold mbind, M_bind. by destruct (body_packet cb mem p s2) as [[]| |]. }
  unfold mbind at 1, M_bind at 1. match goal with |- context [match ?m s2 with _ => _ end] =>
    destruct (m s2) as [[go s3]| |]; [|done|done] end.
  destruct (go && p_marker p); [by apply end_of_frame_boundary|]. apply Hmid.
Qed.

End Invariant.

(** ** Runs *)

(** Every consumer callback the contract talks about is registered. *)
Definition registered (cb : callbacks) : Prop :=
  release_slab_cb_ cb = true ∧ chunk_cb_ cb = true ∧ frame_abort_cb_ cb = true
  ∧ frame_ready_cb_ cb = true.

Definition MH_of (mp : memory * packet) : Z := Z.shiftr (mp.1 (p_payload mp.2)) 6.

(** A packet with J2K bytes, as the receiver's hook passes it. *)
Definition packet_ok (mp : memory * packet) : Prop :=
  byte_memory mp.1 ∧ 0 < p_size mp.2 < 65536.

Definition started {T} (t : T) (k : Z) : frame_handler T :=
  set_relatch_parse_fail_k k (new_frame_handler t).

Lemma pull_all_boundary `{TileLaws T} cb strict l rcv s s' :
  registered cb → Forall packet_ok l → (strict = true → Forall (λ mp, MH_of mp ≠ 1) l) →
  boundary strict rcv s → pull_all cb l s = Ret ((), s') →
  boundary (T := T) strict (rcv ++ (p_slab ∘ snd <$> l)) s'.
Proof.
  intros (R1 & R2 & R3 & R4). revert rcv s. induction l as [|[mem p] l IH]; intros rcv s Hok HMH HB Hrun.
  { cbn in Hrun. injection Hrun as <-. cbn. by rewrite app_nil_r. }
  inversion Hok as [|?? [Hm Hsz] Hok']; subst. cbn [pull_all] in Hrun.
  assert (strict = true → Z.shiftr (mem (p_payload p)) 6 ≠ 1) as HM1.
  { intros E. specialize (HMH E). by inversion HMH. }
  pose proof (pull_data_boundary cb strict R1 R2 R3 R4 mem rcv p s HB Hsz Hm HM1) as Hstep.
  unfold mbind, M_bind in Hrun. destruct (pull_data cb mem p s) as [[[] s1]| |]; [|done|done].
  replace (rcv ++ (p_slab ∘ snd <$> (mem, p) :: l)) with ((rcv ++ [p_slab p]) ++ (p_slab ∘ snd <$> l))
    by (by rewrite <- app_assoc).
  apply (IH _ s1); try done. intros E. specialize (HMH E). by inversion HMH.
Qed.

Lemma started_boundary `{TileLaws T} strict (t : T) k : boundary strict [] (started t k).
Proof.
  split; [|done|done]. exists Closed. split; [|done]. split; cbn; try done.
Qed.

(** C5: what the consumer can rely on.  Feed any sequence of packets (lost packets marked
    by [gap], frames cut at any place, parse failures at any precinct, any answers
    of the resync consumer) to a frame handler over any lawful tile handler, main
    headers complete in one packet.  Then offsets of a frame start at 0 and are
    contiguous, no byte range and no second abort of a frame follows its abort, a
    frame is aborted only while in flight, and a completion of a frame in flight hands
    over exactly the ranges delivered for it.  A completion that follows an abort is
    possible and is reported as not intact: an intact one is reported only for an
    unaborted frame. *)
Theorem frame_delivery_contract `{TileLaws T} cb (t : T) k l s :
  registered cb → Forall packet_ok l → Forall (λ mp, MH_of mp ≠ 1) l →
  pull_all cb l (started t k) = Ret ((), s) →
  ∃ m, mon_run true Closed (trace s) = Some m
    ∧ match m with
      | Closed => abort_armed_ s = false
      | Open ranges => abort_armed_ s = true ∧ ranges = chunks_ (cs s) ∧ held_slabs_ s ≠ []
      end.
Proof.
  intros Hcb Hok HMH Hrun.
  pose proof (pull_all_boundary cb true l [] _ s Hcb Hok (λ _, HMH) (started_boundary true t k) Hrun) as HB.
  destruct (b_core _ _ _ HB) as (m & Hco & Ha). exists m. split; [apply Hco|].
  destruct m as [|r]; [done|]. destruct Ha as (Ha & He & Hn).
  destruct (decide (held_slabs_ s = [])) as [E|E]; [by destruct (Hn E)|]. auto.
Qed.

(** C8: slab conservation.  Whatever happens (aborts, missed ends of frame, the slab
    cap, skipped bodies, incomplete main headers), every slab handed in is either
    still held or was given back exactly once, at most 3072 are held, and the
    held slabs are exactly the chain: one chunk each, the byte counter being their
    total. *)
Theorem slabs_conserved `{TileLaws T} cb (t : T) k l s :
  registered cb → Forall packet_ok l → pull_all cb l (started t k) = Ret ((), s) →
  released (trace s) ++ held_slabs_ s ≡ₚ (p_slab ∘ snd <$> l)
  ∧ Z.of_nat (length (held_slabs_ s)) ≤ kSlabCap
  ∧ length (held_slabs_ s) = length (chunks_ (cs s))
  ∧ chain_total_bytes_ s = total_len (chunks_ (cs s)).
Proof.
  intros Hcb Hok Hrun.
  pose proof (pull_all_boundary cb false l [] _ s Hcb Hok ltac:(done) (started_boundary false t k) Hrun) as HB.
  destruct (b_core _ _ _ HB) as (m & [] & _). by split_and!.
Qed.

(** Main headers split over several packets.  Without the restriction to complete
    main headers the contract holds with one exception: a frame may be dropped
    silently, the next one starting again at offset 0. *)
Theorem frame_delivery_split_headers `{TileLaws T} cb (t : T) k l s :
  registered cb → Forall packet_ok l → pull_all cb l (started t k) = Ret ((), s) →
  ∃ m, mon_run false Closed (trace s) = Some m.
Proof.
  intros Hcb Hok Hrun.
  pose proof (pull_all_boundary cb false l [] _ s Hcb Hok ltac:(done) (started_boundary false t k) Hrun) as HB.
  destruct (b_core _ _ _ HB) as (m & [] & _). by exists m.
Qed.

(** No gap and room for the slab: the first two stages do nothing. *)
Lemma pull_data_quiet `{TileHandler T} cb mem p (s : frame_handler T) :
  p_gap p = false → Z.of_nat (length (held_slabs_ s)) < kSlabCap →
  pull_data cb mem p s
  = (let MH := Z.shiftr (mem (p_payload p)) 6 in
     if (MH =? 0) && (negb (is_passed_header s) || is_parsing_failure s) then skip_body cb p s else
     (go_on ← (if 1 <=? MH then main_packet cb mem p MH else body_packet cb mem p ;; mret true);
      if (go_on : bool) && p_marker p then end_of_frame cb mem else mret ()) s).
Proof.
  intros Hg Hc. unfold pull_data. rewrite (bind_run _ _ s () s).
  2:{ unfold on_gap. by rewrite bind_get, Hg. }
  rewrite (bind_run _ _ s () s).
  2:{ unfold slab_cap. by rewrite bind_get, (proj2 (Z.leb_gt _ _)). }
  rewrite bind_get. cbn zeta. by destruct (_ && _).
Qed.

(** ** The stream latch *)
Section Latch.
Context `{TileLaws T} (cb : callbacks) (mem : memory).
Implicit Types s : frame_handler T.

(** A main packet between frames, not the last packet of its frame. *)
Record fresh_main (p : packet) (s : frame_handler T) : Prop := {
  fm_held : held_slabs_ s = [];
  fm_gap : p_gap p = false;
  fm_MH : 2 ≤ Z.shiftr (mem (p_payload p)) 6;
  fm_marker : p_marker p = false
}.

Definition chunk_event (p : packet) s : list event :=
  if chunk_cb_ cb then [EvChunk (chain_total_bytes_ s) (p_payload p + 8) (p_size p)] else [].

(** The state after the packet's bytes were appended. *)
Definition appended (p : packet) s : frame_handler T :=
  set_chain [p_slab p] (u64 (chain_total_bytes_ s + p_size p))
    (append_chunk (p_payload p + 8) (p_size p) (cs s))
    (add_events (chunk_event p s)
       (set_armed true (set_parse_failed false (set_flags false (is_passed_header s) s)))).

(** What follows the append in the main-packet branch. *)
Definition main_rest (p : packet) (sig : Z) (sod : option Z) : M (frame_handler T) bool :=
  s ← get_st;
  if (sig =? 0) && is_ready (tile_hndr s) then fail_header cb ;; mret false else
  relatch ← check_latch sig;
  s ← get_st;
  if negb (is_ready (tile_hndr s)) then latch_stream cb mem sig relatch
  else
    modify (λ s, match sod with Some n => if n =? 0 then s else set_sod n s | None => s end) ;;
    modify (λ s, set_tile (tile_hndr s) (reset (start_SOD s) (cs s)) s) ;;
    modify (λ s, set_flags (is_parsing_failure s) true s) ;;
    mret true.

Lemma add_no_events s : add_events [] s = s.
Proof. destruct s. cbn. unfold add_events. cbn. by rewrite app_nil_r. Qed.

Lemma pull_fresh_main p s sig sod :
  fresh_main p s → geometry_signature mem (p_payload p + 8) (p_size p) = Ret (sig, sod) →
  pull_data cb mem p s = outcome_map (λ r, ((), r.2)) (main_rest p sig sod (appended p s)).
Proof.
  intros [Hh Hg HM Hk] Hsig. rewrite pull_data_quiet by (done || (rewrite Hh; done)). cbn zeta.
  set (MH := Z.shiftr (mem (p_payload p)) 6) in *.
  rewrite (proj2 (Z.eqb_neq MH 0)), (proj2 (Z.leb_le 1 MH)) by lia. cbn [andb].
  assert (main_packet cb mem p MH s = main_rest p sig sod (appended p s)) as E.
  { unfold main_packet. rewrite (bind_run (missed_eoc cb) _ s () s)
      by (unfold missed_eoc; rewrite bind_get, Hh; done).
    rewrite bind_modify. erewrite bind_run.
    2:{ instantiate (1 := appended p s). unfold append_payload, deliver_chunk, emit, appended, chunk_event.
        rewrite bind_get. destruct (chunk_cb_ cb); [|rewrite add_no_events];
          unfold mbind, M_bind, modify, set_chain; cbn; by rewrite Hh. }
    rewrite (proj2 (Z.leb_le 2 MH)), Hsig by lia. done. }
  unfold mbind at 1, M_bind at 1. rewrite E, Hk.
  destruct (main_rest p sig sod (appended p s)) as [[g s']| |]; [|done|done].
  by rewrite andb_false_r.
Qed.

(** The escape hatch is open: enough consecutive frames died in parse failures. *)
Definition hatch_open s : bool :=
  negb (relatch_k_ s =? 0) && (relatch_k_ s <=? parse_fail_streak_ s).

Definition relatch_reason (sig : Z) s : Z :=
  if hatch_open s then kRelatchParseFail
  else if negb (geom_sig_ s =? 0) && negb (sig =? geom_sig_ s) then kRelatchGeometry else 0.

Definition adopted (sig : Z) s : frame_handler T :=
  set_latch (if geom_sig_ s =? 0 then sig else geom_sig_ s) (parse_fail_streak_ s) (relatches_ s) s.

Lemma check_latch_ready sig s :
  is_ready (tile_hndr s) = true →
  check_latch sig s
  = Ret (relatch_reason sig s,
         if relatch_reason sig s =? 0 then adopted sig s
         else set_tile (invalidate (tile_hndr s)) (cs s) (adopted sig s)).
Proof.
  intros Hr. unfold check_latch. rewrite bind_get, Hr, bind_modify, bind_get. cbn zeta.
  fold (adopted sig s). change (negb (relatch_k_ (adopted sig s) =? 0) && _) with (hatch_open s).
  replace (if hatch_open s then kRelatchParseFail
    else if negb (sig =? geom_sig_ (adopted sig s)) then kRelatchGeometry else 0)
    with (relatch_reason sig s); [by destruct (relatch_reason sig s =? 0)|].
  unfold relatch_reason, adopted. cbn. destruct (hatch_open s); [done|].
  destruct (Z.eqb_spec (geom_sig_ s) 0); [by rewrite Z.eqb_refl|done].
Qed.

End Latch.

(** The state after a main packet whose signature matches. *)
Definition latched {T} (cb : callbacks) (sig sod : Z) (p : packet) (s : frame_handler T) : frame_handler T :=
  let s1 := set_sod sod (adopted sig (appended cb p s)) in
  set_flags false true (set_tile (tile_hndr s1) (reset sod (cs s1)) s1).

Lemma latched_run `{TileLaws T} cb mem p (s : frame_handler T) sig sod :
  fresh_main mem p s → is_ready (tile_hndr s) = true →
  geometry_signature mem (p_payload p + 8) (p_size p) = Ret (sig, Some sod) →
  sig ≠ 0 → sod ≠ 0 → geom_sig_ s = 0 ∨ geom_sig_ s = sig → hatch_open s = false →
  pull_data cb mem p s = Ret ((), latched cb sig sod p s).
Proof.
  intros Hf Hr Hsig Hs Hsod Hg Hh. rewrite (pull_fresh_main cb mem p s _ _ Hf Hsig).
  unfold main_rest. rewrite bind_get. change (tile_hndr (appended cb p s)) with (tile_hndr s).
  rewrite (proj2 (Z.eqb_neq sig 0)) by done. cbn [andb].
  rewrite (bind_run _ _ _ _ _ (check_latch_ready sig (appended cb p s) Hr)).
  assert (relatch_reason sig (appended cb p s) = 0) as ->.
  { unfold relatch_reason. change (hatch_open (appended cb p s)) with (hatch_open s). rewrite Hh.
    cbn. destruct Hg as [-> | ->]; [done|]. by rewrite Z.eqb_refl, andb_false_r. }
  cbn [Z.eqb]. rewrite bind_get. change (tile_hndr (adopted sig (appended cb p s))) with (tile_hndr s).
  rewrite Hr. cbn [negb]. rewrite !bind_modify, (proj2 (Z.eqb_neq sod 0)) by done. done.
Qed.

(** A latched stream is reused.  A complete, well-framed main header whose geometry
    signature is the latched one (or the first seen) arrives between frames and the
    escape hatch is shut: the tile structure is not touched, no header is parsed,
    the reader stands just after this header's own SOD (a changed comment segment
    does not desynchronise it), and the frame is open and clean. *)
Theorem latched_stream_reused `{TileLaws T} cb mem p (s : frame_handler T) sig sod :
  fresh_main mem p s → is_ready (tile_hndr s) = true →
  geometry_signature mem (p_payload p + 8) (p_size p) = Ret (sig, Some sod) →
  sig ≠ 0 → sod ≠ 0 → geom_sig_ s = 0 ∨ geom_sig_ s = sig → hatch_open s = false →
  ∃ s', pull_data cb mem p s = Ret ((), s')
    ∧ tile_hndr s' = tile_hndr s ∧ relatches_ s' = relatches_ s ∧ geom_sig_ s' = sig
    ∧ start_SOD s' = sod
    ∧ cs s' = reset sod (append_chunk (p_payload p + 8) (p_size p) (cs s))
    ∧ is_passed_header s' = true ∧ is_parsing_failure s' = false
    ∧ trace s' = trace s ++ chunk_event cb p s.
Proof.
  intros Hf Hr Hsig Hs Hsod Hg Hh. exists (latched cb sig sod p s). split; [by apply latched_run|].
  cbn. split_and!; try done. destruct Hg as [-> | ->]; [done|]. by destruct (Z.eqb_spec sig 0).
Qed.

(** A header that is to be parsed: nothing is latched, or the latch does not hold. *)
Definition latches_anew `{TileHandler T} (sig : Z) (s : frame_handler T) : Prop :=
  is_ready (tile_hndr s) = false ∨ relatch_reason sig s ≠ 0.
Definition latch_base `{TileHandler T} (s : frame_handler T) : T :=
  if is_ready (tile_hndr s) then invalidate (tile_hndr s) else tile_hndr s.
Definition anew_reason `{TileHandler T} (sig : Z) (s : frame_handler T) : Z :=
  if is_ready (tile_hndr s) then relatch_reason sig s else 0.

Lemma latch_anew_run `{TileLaws T} cb mem p (s : frame_handler T) sig sod n t1 c1 t2 :
  fresh_main mem p s → latches_anew sig s →
  geometry_signature mem (p_payload p + 8) (p_size p) = Ret (sig, sod) → sig ≠ 0 →
  th_header mem (latch_base s) (reset 0 (append_chunk (p_payload p + 8) (p_size p) (cs s))) = Ret (n, t1, c1) →
  n ≠ 0 → th_create t1 = Ret (true, t2) →
  ∃ s', pull_data cb mem p s = Ret ((), s')
    ∧ tile_hndr s' = t2 ∧ geom_sig_ s' = sig ∧ start_SOD s' = n ∧ cs s' = c1
    ∧ (relatches_ s' = relatches_ s + (if anew_reason sig s =? 0 then 0 else 1) ∧ relatch_k_ s' = relatch_k_ s)
    ∧ parse_fail_streak_ s' = 0 ∧ is_passed_header s' = true ∧ is_parsing_failure s' = false
    ∧ (resync_armed_ s' = resync_armed_ s ∧ resync_soft_ s' = resync_soft_ s)
    ∧ held_slabs_ s' = [p_slab p] ∧ chain_total_bytes_ s' = u64 (chain_total_bytes_ s + p_size p)
    ∧ total_frames s' = total_frames s ∧ trunc_frames s' = trunc_frames s
    ∧ trace s' = (trace s ++ chunk_event cb p s) ++
        (if negb (anew_reason sig s =? 0) && relatch_cb_ cb then [EvRelatch (anew_reason sig s)] else []).
Proof.
  intros Hf Ha Hsig Hs Hhd Hn Hcr. rewrite (pull_fresh_main cb mem p s _ _ Hf Hsig).
  unfold main_rest. rewrite bind_get. change (tile_hndr (appended cb p s)) with (tile_hndr s).
  rewrite (proj2 (Z.eqb_neq sig 0)) by done. cbn [andb].
  set (r := anew_reason sig s). set (s1 := if is_ready (tile_hndr s) then
    set_tile (invalidate (tile_hndr s)) (cs (appended cb p s)) (adopted sig (appended cb p s)) else appended cb p s).
  assert (check_latch sig (appended cb p s) = Ret (r, s1)) as Ec.
  { unfold r, s1, anew_reason, latches_anew in *. destruct (is_ready (tile_hndr s)) eqn:Er.
    - rewrite (check_latch_ready sig (appended cb p s) Er). change (relatch_reason sig (appended cb p s)) with (relatch_reason sig s).
      destruct Ha as [?|Ha]; [done|]. by rewrite (proj2 (Z.eqb_neq _ _) Ha).
    - unfold check_latch. rewrite bind_get. change (tile_hndr (appended cb p s)) with (tile_hndr s). by rewrite Er. }
  rewrite (bind_run _ _ _ _ _ Ec), bind_get.
  assert (is_ready (tile_hndr s1) = false ∧ tile_hndr s1 = latch_base s) as [-> Et].
  { unfold s1, latch_base. destruct (is_ready (tile_hndr s)) eqn:Er; cbn; [by rewrite invalidate_ready|done]. }
  cbn [negb]. unfold latch_stream. rewrite bind_modify. erewrite bind_run.
  2:{ unfold lift_header. cbn [set_tile tile_hndr cs]. rewrite Et.
      replace (cs s1) with (append_chunk (p_payload p + 8) (p_size p) (cs s)) by (unfold s1; by destruct (is_ready _)).
      rewrite Hhd. reflexivity. }
  rewrite bind_modify, (proj2 (Z.eqb_neq n 0)) by done. erewrite bind_run.
  2:{ unfold lift_create. cbn [set_tile tile_hndr set_sod]. rewrite Hcr. reflexivity. }
  cbn [negb]. rewrite !bind_modify. clear Ec Et. unfold emit.
  destruct (r =? 0), (relatch_cb_ cb); eexists; (split; [reflexivity|]); unfold s1;
    destruct (is_ready (tile_hndr s)); cbn; rewrite ?app_nil_r, ?Z.add_0_r; by split_and!.
Qed.

(** C32: a changed stream is latched anew.  If instead the signature differs from the
    latched one, or the last K frames all died in parse failures, the stale
    structure is dropped and rebuilt from this header; when the header parses and
    the structure can be built, the handler carries the new signature, counts the
    re-latch, clears the failure streak, and reports the reason (2 for the hatch,
    1 for a geometry change) after the new structure is live. *)
Theorem changed_stream_relatched `{TileLaws T} cb mem p (s : frame_handler T) sig sod n t1 c1 t2 :
  fresh_main mem p s → is_ready (tile_hndr s) = true →
  geometry_signature mem (p_payload p + 8) (p_size p) = Ret (sig, sod) → sig ≠ 0 →
  hatch_open s = true ∨ (geom_sig_ s ≠ 0 ∧ geom_sig_ s ≠ sig) →
  th_header mem (invalidate (tile_hndr s))
    (reset 0 (append_chunk (p_payload p + 8) (p_size p) (cs s))) = Ret (n, t1, c1) →
  n ≠ 0 → th_create t1 = Ret (true, t2) →
  ∃ s', pull_data cb mem p s = Ret ((), s')
    ∧ tile_hndr s' = t2 ∧ is_ready t2 = true ∧ geom_sig_ s' = sig ∧ start_SOD s' = n ∧ cs s' = c1
    ∧ relatches_ s' = relatches_ s + 1 ∧ parse_fail_streak_ s' = 0
    ∧ is_passed_header s' = true ∧ is_parsing_failure s' = false
    ∧ trace s' = (trace s ++ chunk_event cb p s) ++
        (if relatch_cb_ cb
         then [EvRelatch (if hatch_open s then kRelatchParseFail else kRelatchGeometry)] else []).
Proof.
  intros Hf Hr Hsig Hs Hg Hhd Hn Hcr. set (r := if hatch_open s then kRelatchParseFail else kRelatchGeometry).
  assert (relatch_reason sig s = r ∧ r ≠ 0) as [Er Er0].
  { unfold relatch_reason, r. destruct (hatch_open s); [done|]. destruct Hg as [?|[H1 H2]]; [done|].
    by rewrite (proj2 (Z.eqb_neq (geom_sig_ s) 0)), (proj2 (Z.eqb_neq sig (geom_sig_ s))) by done. }
  assert (anew_reason sig s = r) as Ea by (unfold anew_reason; by rewrite Hr).
  destruct (latch_anew_run cb mem p s sig sod n t1 c1 t2 Hf) as (s' & E & H1 & H2 & H3 & H4 & (H5 & _) & H6 & H7 & H8 & _ & _ & _ & _ & _ & H9);
    [right; by rewrite Er|done|done|unfold latch_base; by rewrite Hr|done|done|].
  rewrite Ea, (proj2 (Z.eqb_neq r 0)) in H5, H9 by done. exists s'. pose proof (create_ready _ _ _ Hcr). by split_and!.
Qed.

(** C33: a bad main header fails the frame and nothing else.  On a latched stream a
    header that is not well framed aborts the frame just opened (if the consumer
    is told about aborts) and marks it failed, without touching the latched tile
    structure, the signature or the re-latch counters: the stream survives a
    corrupted header. *)
Theorem malformed_header_fails_frame `{TileLaws T} cb mem p (s : frame_handler T) sod :
  fresh_main mem p s → is_ready (tile_hndr s) = true →
  geometry_signature mem (p_payload p + 8) (p_size p) = Ret (0, sod) →
  ∃ s', pull_data cb mem p s = Ret ((), s')
    ∧ tile_hndr s' = tile_hndr s ∧ geom_sig_ s' = geom_sig_ s ∧ relatches_ s' = relatches_ s
    ∧ parse_fail_streak_ s' = parse_fail_streak_ s ∧ frame_parse_failed_ s' = true
    ∧ is_parsing_failure s' = true ∧ abort_armed_ s' = false
    ∧ trace s' = (trace s ++ chunk_event cb p s)
                 ++ (if frame_abort_cb_ cb then [EvAbort kAbortParse] else []).
Proof.
  intros Hf Hr Hsig. rewrite (pull_fresh_main cb mem p s _ _ Hf Hsig).
  unfold main_rest. rewrite bind_get. change (tile_hndr (appended cb p s)) with (tile_hndr s).
  rewrite Hr. cbn [Z.eqb andb]. unfold fail_header, fire_abort, emit. cbn [Z.eqb Pos.eqb kAbortParse].
  destruct (frame_abort_cb_ cb); eexists; (split; [reflexivity|]); cbn; rewrite ?app_nil_r; by split_and!.
Qed.

Lemma append_run `{TileHandler T} cb p (s : frame_handler T) :
  chunk_cb_ cb = true →
  append_payload cb p s
  = Ret ((), set_chain (held_slabs_ s ++ [p_slab p]) (u64 (chain_total_bytes_ s + p_size p))
      (append_chunk (p_payload p + 8) (p_size p) (cs s))
      (add_events [EvChunk (chain_total_bytes_ s) (p_payload p + 8) (p_size p)] (set_armed true s))).
Proof. intros Hc. unfold append_payload, deliver_chunk, emit. by rewrite Hc. Qed.

(** The last stage on a failed frame. *)
Lemma end_of_failed_frame `{TileHandler T} cb mem (s : frame_handler T) t'' :
  registered cb → is_parsing_failure s = true → th_restart (tile_hndr s) = Ret t'' →
  ∃ s', end_of_frame cb mem s = Ret ((), s')
    ∧ trace s' = (trace s ++ [EvReady (chunks_ (cs s)) false]) ++ (EvRelease <$> held_slabs_ s).
Proof.
  intros (R1 & R2 & R3 & R4) Hf Hres. unfold end_of_frame.
  rewrite bind_modify, bind_get, bind_modify. cbn [set_armed is_parsing_failure]. rewrite Hf.
  cbn [negb andb]. rewrite bind_ret, bind_get. unfold end_frame_streak, emit, release_held_slabs.
  rewrite R1, R4, !bind_modify. rewrite (bind_run _ _ _ () _ eq_refl).
  unfold restart. cbn [tile_hndr set_chain add_events set_flags set_counts set_parse_failed set_latch set_resync set_armed].
  rewrite Hres. eexists. split; [reflexivity|]. reflexivity.
Qed.

(** The precinct walk fails on a body packet. *)
Lemma body_packet_fails `{TileHandler T} cb mem p (s : frame_handler T) r t' c' evs :
  registered cb → prec_cb_ cb = true → Z.land (Z.shiftr (mem (p_payload p + 1)) 7) 1 = 1 →
  is_passed_header s = true → is_parsing_failure s = false →
  resync_armed_ s = false → resync_soft_ s = false →
  let pp := load_be32 mem (p_payload p + 4) in
  th_parse mem
    (th_append_signal (u32 (u32 (chain_total_bytes_ s) + Z.shiftr pp 20)) (Z.land pp 0xFFFFF) (tile_hndr s))
    (append_chunk (p_payload p + 8) (p_size p) (cs s)) = Ret (r, t', c', evs) → r ≠ 0 →
  ∃ s', body_packet cb mem p s = Ret ((), s')
    ∧ trace s' = trace s ++ [EvChunk (chain_total_bytes_ s) (p_payload p + 8) (p_size p)]
        ++ (EvPrecinct <$> evs) ++ [EvAbort kAbortParse]
    ∧ held_slabs_ s' = held_slabs_ s ++ [p_slab p] ∧ tile_hndr s' = t' ∧ cs s' = c'
    ∧ is_parsing_failure s' = true.
Proof.
  intros (R1 & R2 & R3 & R4) R5 HO Hp Hf Hra Hrs pp Hparse Hr. unfold body_packet. rewrite HO.
  fold pp. cbn zeta. rewrite bind_get, (bind_run _ _ _ _ _ (append_run cb p s R2)), bind_get.
  set (s1 := set_chain _ _ _ _). change (is_passed_header s1) with (is_passed_header s). rewrite Hp.
  change (negb (1 =? 0) && true) with true. cbv beta iota. rewrite bind_modify, bind_get.
  set (s2 := set_tile _ _ s1). change (resync_armed_ s2) with (resync_armed_ s). rewrite Hra.
  cbn [andb]. rewrite bind_ret, bind_get.
  change (is_parsing_failure s2) with (is_parsing_failure s).
  change (resync_soft_ s2) with (resync_soft_ s). rewrite Hf, Hrs. cbn [negb andb].
  assert (action cb mem th_parse s2
    = Ret ((), set_flags true false (add_events (EvPrecinct <$> evs) (set_tile t' c' s2)))) as Ea.
  { unfold action. change (th_parse mem (tile_hndr s2) (cs s2)) with
      (th_parse mem (th_append_signal (u32 (u32 (chain_total_bytes_ s) + Z.shiftr pp 20))
         (Z.land pp 0xFFFFF) (tile_hndr s)) (append_chunk (p_payload p + 8) (p_size p) (cs s))).
    by rewrite Hparse, R5, (proj2 (Z.eqb_neq r 0)) by done. }
  rewrite (bind_run _ _ _ _ _ Ea), bind_get. unfold fire_abort, emit. rewrite R3.
  eexists. split; [reflexivity|]. unfold s2, s1. cbn. rewrite <- !app_assoc. by split_and!.
Qed.

(** One frame, two endings (finding).  The documented contract says a frame ends in
    either frame_ready or frame_abort.  When the precinct walk fails on the very
    packet that ends the frame, the consumer gets the abort and then a (damaged)
    completion of the same frame. *)
Theorem abort_and_ready_same_frame `{TileLaws T} cb mem p (s : frame_handler T) r t' c' evs t'' :
  registered cb → prec_cb_ cb = true →
  Z.shiftr (mem (p_payload p)) 6 = 0 → Z.land (Z.shiftr (mem (p_payload p + 1)) 7) 1 = 1 →
  p_gap p = false → p_marker p = true → Z.of_nat (length (held_slabs_ s)) < kSlabCap →
  is_passed_header s = true → is_parsing_failure s = false →
  resync_armed_ s = false → resync_soft_ s = false →
  let pp := load_be32 mem (p_payload p + 4) in
  th_parse mem
    (th_append_signal (u32 (u32 (chain_total_bytes_ s) + Z.shiftr pp 20)) (Z.land pp 0xFFFFF) (tile_hndr s))
    (append_chunk (p_payload p + 8) (p_size p) (cs s)) = Ret (r, t', c', evs) → r ≠ 0 →
  th_restart t' = Ret t'' →
  ∃ s', pull_data cb mem p s = Ret ((), s')
    ∧ trace s' = trace s ++ [EvChunk (chain_total_bytes_ s) (p_payload p + 8) (p_size p)]
        ++ (EvPrecinct <$> evs) ++ [EvAbort kAbortParse; EvReady (chunks_ c') false]
        ++ (EvRelease <$> held_slabs_ s ++ [p_slab p]).
Proof.
  intros Hcb R5 HM HO Hg Hk Hcap Hp Hf Hra Hrs pp Hparse Hr Hres.
  destruct (body_packet_fails cb mem p s r t' c' evs) as (s1 & E1 & Ht1 & Hh1 & Hth & Hc1 & Hf1); try done.
  destruct (end_of_failed_frame cb mem s1 t'') as (s2 & E2 & Ht2); [done|done|by rewrite Hth|].
  exists s2. split.
  - rewrite pull_data_quiet by done. cbn zeta. rewrite HM, Hp, Hf. cbn [Z.eqb negb orb andb Z.leb Z.compare].
    rewrite (bind_run _ _ s true s1) by (by rewrite (bind_run _ _ _ _ _ E1)). by rewrite Hk.
  - rewrite Ht2, Ht1, Hh1, Hc1. by rewrite <- !app_assoc.
Qed.

(** A frame with no ending (finding).  Until the stream is latched, a frame whose main
    header is split (MH = 1) delivers its first range and is then dropped: at its
    last packet there is neither a completion nor an abort, it is not counted, and
    the abort flag stays set. *)
Theorem split_header_frame_vanishes `{TileLaws T} cb mem1 mem2 p1 p2 (t t' : T) k :
  registered cb → is_ready t = false → th_restart t = Ret t' →
  Z.shiftr (mem1 (p_payload p1)) 6 = 1 → p_gap p1 = false → p_marker p1 = false →
  0 < p_size p1 < 65536 →
  Z.shiftr (mem2 (p_payload p2)) 6 = 0 → p_gap p2 = false → p_marker p2 = true →
  ∃ s, pull_all cb [(mem1, p1); (mem2, p2)] (started t k) = Ret ((), s)
    ∧ trace s = [EvChunk 0 (p_payload p1 + 8) (p_size p1); EvRelease (p_slab p2); EvRelease (p_slab p1)]
    ∧ total_frames s = 0 ∧ trunc_frames s = 0 ∧ abort_armed_ s = true.
Proof.
  intros (R1 & R2 & R3 & R4) Hr Hres M1 G1 K1 Hsz M2 G2 K2.
  set (s0 := set_parse_failed false (set_flags false false (started t k))).
  set (s1 := set_sod (u32 (0 + p_size p1)) (set_chain [p_slab p1] (u64 (0 + p_size p1))
    (append_chunk (p_payload p1 + 8) (p_size p1) empty_codestream)
    (add_events [EvChunk 0 (p_payload p1 + 8) (p_size p1)] (set_armed true s0)))).
  assert (pull_data cb mem1 p1 (started t k) = Ret ((), s1)) as E1.
  { rewrite pull_data_quiet by done. cbn zeta. rewrite M1. cbn [Z.eqb andb Z.leb Z.compare].
    rewrite (bind_run _ _ _ true s1); [by rewrite K1|]. unfold main_packet.
    change (1 <=? 1) with true. change (2 <=? 1) with false. cbv beta iota.
    rewrite (bind_run _ _ (started t k) () (started t k)) by done. rewrite bind_modify.
    rewrite (bind_run _ _ _ _ _ (append_run cb p1 _ R2)), bind_get. cbn [andb].
    rewrite bind_ret, bind_get. match goal with |- context [is_ready ?x] => change x with t end.
    rewrite Hr. cbn [negb]. rewrite bind_modify, bind_get. unfold mret, M_ret. do 2 f_equal.
    change (negb (u32 (0 + p_size p1) =? 0) = true). rewrite u32_small by lia.
    by rewrite (proj2 (Z.eqb_neq _ 0)) by lia. }
  assert (∃ s2, pull_data cb mem2 p2 s1 = Ret ((), s2)
    ∧ trace s2 = [EvChunk 0 (p_payload p1 + 8) (p_size p1); EvRelease (p_slab p2); EvRelease (p_slab p1)]
    ∧ total_frames s2 = 0 ∧ trunc_frames s2 = 0 ∧ abort_armed_ s2 = true) as (s2 & E2 & Hs2).
  { rewrite pull_data_quiet by done. cbn zeta. rewrite M2. cbn [Z.eqb andb].
    change (negb (is_passed_header s1) || is_parsing_failure s1) with true. cbv beta iota.
    unfold skip_body, emit. rewrite R1, K2, bind_modify, bind_get.
    change (is_parsing_failure _ || is_passed_header _) with false. cbv beta iota.
    rewrite bind_ret, bind_modify. unfold release_held_slabs. rewrite R1.
    erewrite bind_run by reflexivity. unfold restart.
    match goal with |- context [th_restart ?x] => change x with t end. rewrite Hres.
    eexists. split; [reflexivity|]. done. }
  exists s2. split; [|done]. cbn [pull_all].
  rewrite (bind_run _ _ _ _ _ E1), (bind_run _ _ _ _ _ E2). done.
Qed.
