(* ===== verification/Ownership.v ===== *)
(** * Ownership: which slabs and chunks the frame handler holds

    [FrameHandler] counts slabs over a whole run.  Here one call of [pull_data] is
    followed exactly, whatever callbacks are registered and whatever the payload sizes:
    the handler's chain is, chunk by chunk, a list of packets it was given, and a call
    keeps some of them (in order) and gives the slabs of all the others back. *)
From S2P Require Import Prelude Codestream Markers Structs MainHeader HeaderSpec Signature FrameHandler.

(** The codestream bytes of a packet, behind its 8-byte payload header. *)
Definition chunk_of (p : packet) : Chunk := mkChunk (p_payload p + 8) (p_size p).

Section Own.
Context `{TileLaws T} (cb : callbacks).
Hypothesis Hrel : release_slab_cb_ cb = true.
Implicit Types s : frame_handler T.

(** The handler holds the packets [l]: one slab and one chunk each, in order. *)
Definition holds_packets (l : list packet) s : Prop :=
  held_slabs_ s = p_slab <$> l ∧ chunks_ (cs s) = chunk_of <$> l.

(** Since [s0], of the packets [given] some are held and all others' slabs released. *)
Definition tracks s0 (given : list packet) s : Prop :=
  ∃ l evs, trace s = trace s0 ++ evs ∧ holds_packets l s ∧ l `sublist_of` given
    ∧ released evs ++ (p_slab <$> l) ≡ₚ (p_slab <$> given).

(** [m] runs from [given] packets to [given'], if it returns. *)
Definition trk {A} (m : M (frame_handler T) A) (given given' : list packet) : Prop :=
  ∀ s0 s, tracks s0 given s → match m s with Ret (_, s') => tracks s0 given' s' | _ => True end.

Definition no_release (l : list event) : Prop := released l = [].

Lemma tracks_start l s : holds_packets l s → tracks s l s.
Proof. intros Hl. exists l, []. rewrite app_nil_r. by split_and!. Qed.

(** Rules of the composition. *)
Lemma trk_ret {A} (a : A) g : trk (mret a) g g.
Proof. by intros s0 s Hs. Qed.
Lemma trk_bind {A B} (m : M _ A) (k : A → M _ B) g1 g2 g3 :
  trk m g1 g2 → (∀ a, trk (k a) g2 g3) → trk (m ≫= k) g1 g3.
Proof.
  intros Hm Hk s0 s Hs. specialize (Hm s0 s Hs). unfold mbind, M_bind.
  destruct (m s) as [[a s']| |]; [|done|done]. by apply Hk.
Qed.
Lemma trk_get {B} (k : frame_handler T → M _ B) g g' : (∀ s, trk (k s) g g') → trk (get_st ≫= k) g g'.
Proof. intros Hk s0 s Hs. by apply Hk. Qed.
Lemma trk_ub {A} g g' : trk (A := A) undefined g g'.
Proof. done. Qed.
Lemma trk_fuel {A} g g' : trk (A := A) out_of_fuel g g'.
Proof. done. Qed.

(** Updates of anything but the slabs, the chunks and the trace. *)
Lemma trk_modify f g :
  (∀ s, held_slabs_ (f s) = held_slabs_ s ∧ chunks_ (cs (f s)) = chunks_ (cs s) ∧ trace (f s) = trace s) →
  trk (modify f) g g.
Proof.
  intros Hf s0 s (l & evs & E & [H1 H2] & Hl & Hp). exists l, evs. destruct (Hf s) as (F1 & F2 & F3). cbn.
  rewrite F3. split_and!; try done. split; congruence.
Qed.

Lemma trk_events f g :
  (∀ s, ∃ l, no_release l ∧ f s = add_events l s) → trk (modify f) g g.
Proof.
  intros Hf s0 s (l & evs & E & Hh & Hl & Hp). destruct (Hf s) as (es & Hes & Ef). unfold modify. rewrite Ef.
  exists l, (evs ++ es). cbn. by rewrite E, released_app, Hes, app_nil_r, <- app_assoc.
Qed.

Lemma trk_emit on e g : no_release [e] → trk (emit on e) g g.
Proof. intros He. destruct on; [|apply trk_ret]. apply trk_events. intros s. by exists [e]. Qed.

Lemma trk_release_held g : trk (release_held_slabs cb) g g.
Proof.
  intros s0 s (l & evs & E & [H1 H2] & Hl & Hp). unfold release_held_slabs. rewrite Hrel.
  rewrite bind_get, bind_modify. unfold modify.
  exists [], (evs ++ (EvRelease <$> held_slabs_ s)). cbn [trace set_chain add_events fmap list_fmap].
  rewrite E, released_app, released_all, H1, app_nil_r, app_assoc.
  split_and!; [done|by split|by apply sublist_nil_l|done].
Qed.

Lemma trk_append p g : trk (append_payload cb p) g (g ++ [p]).
Proof.
  unfold append_payload. apply trk_get. intros s1. apply (trk_bind _ _ _ g).
  { unfold deliver_chunk. eapply trk_bind; [by apply trk_modify|]. intros _. by apply trk_emit. }
  intros _ s0 s (l & evs & E & [H1 H2] & Hl & Hp). exists (l ++ [p]), evs. cbn. split_and!; [done| | |].
  - split; cbn; by rewrite ?H1, ?H2, fmap_app.
  - by apply sublist_app.
  - by rewrite !fmap_app, app_assoc, Hp.
Qed.

(** A packet whose slab is released at once. *)
Lemma trk_skip_one p g : trk (emit (release_slab_cb_ cb) (EvRelease (p_slab p))) g (g ++ [p]).
Proof.
  rewrite Hrel. intros s0 s (l & evs & E & Hh & Hl & Hp). cbn. exists l, (evs ++ [EvRelease (p_slab p)]). cbn.
  rewrite E, <- app_assoc, released_app. split_and!; [done|done| |].
  - by apply sublist_inserts_r.
  - rewrite fmap_app, <- Hp, <- !app_assoc. f_equiv. apply Permutation_app_comm.
Qed.

Lemma trk_restart g : trk restart g g.
Proof.
  intros s0 s Hs. unfold restart. by destruct (th_restart (tile_hndr s)).
Qed.

Lemma released_precincts evs : no_release (if prec_cb_ cb then EvPrecinct <$> evs else []).
Proof. destruct (prec_cb_ cb); [|done]. induction evs; done. Qed.

Lemma trk_action mem op g :
  (∀ t c r t' c' evs, op mem t c = Ret (r, t', c', evs) → chunks_ c' = chunks_ c) →
  trk (action cb mem op) g g.
Proof.
  intros Hop s0 s Hs. unfold action. destruct (op mem (tile_hndr s) (cs s)) as [[[[r t] c] evs]| |] eqn:E; try done.
  apply Hop in E. destruct Hs as (l & es & Et & [H1 H2] & Hl & Hp).
  exists l, (es ++ (if prec_cb_ cb then EvPrecinct <$> evs else [])).
  destruct (r =? 0); cbn; rewrite Et, released_app, released_precincts, app_nil_r, <- app_assoc;
    (split_and!; try done; split; cbn; congruence).
Qed.

Lemma trk_header mem g : trk (lift_header mem) g g.
Proof.
  intros s0 s (l & es & Et & [H1 H2] & Hl & Hp). unfold lift_header.
  destruct (th_header mem (tile_hndr s) (cs s)) as [[[n t] c]| |] eqn:E; try done.
  apply header_keeps in E as [E _]. exists l, es. split_and!; try done. split; cbn; congruence.
Qed.

Lemma trk_create g : trk lift_create g g.
Proof.
  intros s0 s Hs. unfold lift_create. by destruct (th_create (tile_hndr s)) as [[b t]| |].
Qed.

(** Whole stages: one rule per construct. *)
Lemma trk_seq {A B} (m : M _ A) (k : A → M _ B) g g' :
  trk m g g → (∀ a, trk (k a) g g') → trk (m ≫= k) g g'.
Proof. apply trk_bind. Qed.

Ltac trk_step :=
  lazymatch goal with
  | |- trk (mret _) _ _ => apply trk_ret
  | |- trk undefined _ _ => apply trk_ub
  | |- trk out_of_fuel _ _ => apply trk_fuel
  | |- trk (mbind _ get_st) _ _ => apply trk_get; intros ?
  | |- trk (mbind _ _) _ _ => apply trk_seq; [|intros ?]
  | |- trk (if ?b then _ else _) _ _ => destruct b
  | |- trk (emit _ _) _ _ => by apply trk_emit
  | |- trk (release_held_slabs _) _ _ => apply trk_release_held
  | |- trk restart _ _ => apply trk_restart
  | |- trk (lift_header _) _ _ => apply trk_header
  | |- trk lift_create _ _ => apply trk_create
  | |- trk (modify (add_events _)) _ _ => apply trk_events; intros ?; eexists; split; [|reflexivity]; done
  | |- trk (modify _) _ _ => by apply trk_modify
  end.
Ltac trk_stage := repeat trk_step.

Lemma trk_abort reason g : trk (fire_abort cb reason) g g.
Proof. unfold fire_abort. trk_stage. Qed.
Lemma trk_streak clean g : trk (end_frame_streak clean) g g.
Proof. unfold end_frame_streak. trk_stage. Qed.

Ltac trk_stage' := repeat first [apply trk_abort | apply trk_streak | trk_step].

Lemma trk_on_gap p g : trk (on_gap cb p) g g.
Proof. unfold on_gap. trk_stage'. Qed.
Lemma trk_slab_cap g : trk (slab_cap cb) g g.
Proof. unfold slab_cap. trk_stage'. Qed.
Lemma trk_missed_eoc g : trk (missed_eoc cb) g g.
Proof. unfold missed_eoc. trk_stage'. Qed.
Lemma trk_fail_header g : trk (fail_header cb) g g.
Proof. unfold fail_header. trk_stage'. Qed.
Lemma trk_check_latch sig g : trk (check_latch sig) g g.
Proof. unfold check_latch. trk_stage'. Qed.
Lemma trk_latch_stream mem sig relatch g : trk (latch_stream cb mem sig relatch) g g.
Proof.
  unfold latch_stream. eapply trk_bind; [|intros ?].
  { apply trk_modify. intros s. split_and!; try done. apply reset_chunks. }
  repeat first [apply trk_fail_header | trk_stage'].
Qed.

Lemma trk_main_packet mem p MH g : trk (main_packet cb mem p MH) g (g ++ [p]).
Proof.
  unfold main_packet. apply trk_seq; [apply trk_missed_eoc|intros _]. apply trk_seq; [trk_stage|intros _].
  eapply trk_bind; [apply trk_append|intros _]. apply trk_get. intros s1. cbn zeta.
  match goal with |- context [match ?x with Ret _ => _ | UB => _ | NoFuel => _ end] =>
    destruct x as [[sig sod]| |]; [|trk_stage|trk_stage] end.
  destruct (_ && _ && _); [apply trk_seq; [apply trk_fail_header|intros _; trk_stage]|].
  apply trk_seq; [destruct (2 <=? MH); [apply trk_check_latch|trk_stage]|]. intros relatch.
  apply trk_get. intros s2. destruct (negb _).
  { destruct (2 <=? MH); [apply trk_latch_stream|trk_stage]. }
  apply trk_seq; [|intros _].
  { apply trk_modify. intros s. destruct sod as [n|]; [destruct (n =? 0)|]; done. }
  apply trk_seq; [|intros _; trk_stage].
  apply trk_modify. intros s. split_and!; try done. apply reset_chunks.
Qed.

Lemma trk_body_packet mem p g : trk (body_packet cb mem p) g (g ++ [p]).
Proof.
  unfold body_packet. cbn zeta. apply trk_get. intros s1. eapply trk_bind; [apply trk_append|intros _].
  repeat first
    [ apply trk_action; intros ?????? E; by apply parse_keeps in E as [E _]
    | apply trk_abort | trk_step ].
Qed.

Lemma trk_end_of_frame mem g : trk (end_of_frame cb mem) g g.
Proof.
  unfold end_of_frame.
  repeat first
    [ apply trk_action; intros ?????? E; by apply flush_keeps in E as [E _]
    | apply trk_streak | progress cbn zeta | trk_step ].
Qed.

Lemma trk_skip_body p g : trk (skip_body cb p) g (g ++ [p]).
Proof. unfold skip_body. eapply trk_bind; [apply trk_skip_one|intros _]. trk_stage'. Qed.

Lemma trk_pull_data mem p g : trk (pull_data cb mem p) g (g ++ [p]).
Proof.
  unfold pull_data. apply trk_seq; [apply trk_on_gap|intros _]. apply trk_seq; [apply trk_slab_cap|intros _].
  apply trk_get. intros s1. cbn zeta. destruct (_ && _); [apply trk_skip_body|].
  eapply trk_bind; [|intros go; destruct (go && _); [apply trk_end_of_frame|apply trk_ret]].
  destruct (1 <=? _); [apply trk_main_packet|].
  eapply trk_bind; [apply trk_body_packet|intros _; apply trk_ret].
Qed.

(** One call: the packets held after it, those given back, and nothing else. *)
Lemma pull_data_owns mem p l s s' :
  holds_packets l s → pull_data cb mem p s = Ret ((), s') →
  ∃ l' evs, trace s' = trace s ++ evs ∧ holds_packets l' s' ∧ l' `sublist_of` l ++ [p]
    ∧ released evs ++ (p_slab <$> l') ≡ₚ (p_slab <$> l ++ [p]).
Proof.
  intros Hl E. pose proof (trk_pull_data mem p l s s (tracks_start l s Hl)) as Ht. by rewrite E in Ht.
Qed.
End Own.
