(* ===== verification/System.v ===== *)
(** * System: the tile handler behind the frame handler's interface

    [TileHandler] is implemented by [tile_handler] and its laws are proved, so
    every theorem of FrameHandler holds for the program as it is assembled. *)
From S2P Require Import Prelude Codestream BitReader Markers Structs MainHeader HeaderSpec Signature.
From S2P Require Import PacketHeader PacketSpec Progression Geometry GeometrySpec TileHandler TileSpec FrameHandler.

Section Instance.
Context (uninit : list tcomp_) (stale : Z → blk_).

Definition run_walk (m : M pst Z) (t : tile_handler) (c : codestream)
    : outcome (Z * tile_handler * codestream * list crp_status) :=
  match m (mkPst t c []) with
  | Ret (r, s) => Ret (r, ps_th s, ps_cs s, fst <$> ps_ev s)
  | UB => UB
  | NoFuel => NoFuel
  end.

#[global] Instance tile_ops : TileHandler tile_handler := {|
  is_ready := ready;
  invalidate := invalidate_tiles;
  th_restart := restart_tiles;
  th_append_signal := append_signal;
  th_header := header_into;
  th_create := create uninit stale;
  th_parse := λ mem, run_walk (parse mem);
  th_flush := λ mem, run_walk (flush mem)
|}.

Lemma run_walk_keeps m t c r t' c' evs :
  psteps m → run_walk m t c = Ret (r, t', c', evs) → chunks_ c' = chunks_ c ∧ ready t' = ready t.
Proof.
  intros Hm. unfold run_walk. specialize (Hm (mkPst t c [])). destruct (m _) as [[a s]| |]; [|done|done].
  intros [= <- <- <- <-]. split; [apply (ps_grown _ _ Hm)|apply (ps_ready _ _ Hm)].
Qed.

(** A tile loop that stops early has cleared [ready]. *)
Lemma build_tile_not_ready t s s' :
  build_tile uninit stale t s = Ret (false, s') → ready s' = false.
Proof.
  unfold build_tile. rewrite bind_get, bind_at. destruct (0 <=? 0); [|done]. destruct (_ !! _); [|done].
  cbn zeta. destruct (_ || _); [done|]. unfold mbind at 1, M_bind at 1.
  destruct (build_components _ _ _ _ _) as [[tile s1]| |]; [|done|done]. rewrite bind_get.
  destruct (prepare_precinct_structure _ _ _) as [[ret tile']| |]; [|done|done].
  rewrite bind_modify. destruct (ret =? _); [done|]. by intros [= <-].
Qed.

Lemma build_tiles_not_ready n t s s' :
  build_tiles uninit stale n t s = Ret (false, s') → ready s' = false.
Proof.
  revert t s. induction n as [|n IH]; intros t s; [done|]. cbn [build_tiles]. unfold mbind, M_bind.
  destruct (build_tile uninit stale t s) as [[[] s1]| |] eqn:E; [apply IH| |done..].
  intros [= <-]. by eapply build_tile_not_ready.
Qed.

Lemma create_sets_ready t b t' : create uninit stale t = Ret (b, t') → ready t' = b.
Proof.
  unfold create. unfold mbind at 1, M_bind at 1. destruct (lift_arena _ t) as [[[] s1]| |]; [|done|done].
  rewrite bind_get. cbn zeta. unfold mbind at 1, M_bind at 1.
  destruct (cdu_checked _ _ s1) as [[nx s2]| |]; [|done|done]. unfold mbind at 1, M_bind at 1.
  destruct (cdu_checked _ _ s2) as [[ny s3]| |]; [|done|done]. rewrite !bind_modify.
  unfold mbind at 1, M_bind at 1. destruct (build_tiles _ _ _ _ _) as [[ok s4]| |] eqn:E; [|done|done].
  destruct ok; cbn [negb].
  - rewrite bind_get. destruct (tiles s4); intros [= <- <-]; done.
  - intros [= <- <-]. by eapply build_tiles_not_ready.
Qed.

#[global] Instance tile_laws : TileLaws tile_handler.
Proof.
  split; cbn [is_ready invalidate th_restart th_append_signal th_header th_create th_parse th_flush tile_ops].
  - done.
  - intros t t'. unfold restart_tiles, outcome_map. destruct (reset_first _ _ _); [|done|done].
    by intros [= <-].
  - done.
  - intros mem t c n t' c' E. apply header_into_core in E as [[= E _ _ _ _] ?]. done.
  - apply create_sets_ready.
  - intros mem t c r t' c' evs. apply run_walk_keeps, psteps_parse.
  - intros mem t c r t' c' evs. apply run_walk_keeps, psteps_flush.
Qed.

End Instance.

(** ** A concrete stream: 32 x 16, three components, one level, six precincts *)
Definition sys_siz (w h : Z) : siz_marker := mkSiz 0x4000 w h 0 0 w h 0 0 3 [9; 9; 9] [1; 1; 1] [1; 1; 1].
Definition sys_cod : cod_marker := mkCod 0 0 0 0 0 0 PCRL 1 0 1 4 4 64 1 0 [15; 15] [15; 15].
Definition sys_segs (w h : Z) : list segment :=
  [SegSIZ (sys_siz w h); SegDFS 0 [1]; SegCOD sys_cod 0; SegQCD 0 1 [8; 8; 8; 8]].
Definition sys_header (w h : Z) : list Z := main_header (reset_caps demo_tables) (sys_segs w h).

Definition blank : tcomp_ := blank_tcomp (mkGeo 0 0 0 0).
#[local] Instance sys_ops : TileHandler tile_handler := tile_ops [blank; blank; blank] (λ _, demo_blk).
#[local] Instance sys_laws : TileLaws tile_handler := tile_laws [blank; blank; blank] (λ _, demo_blk).

(** An RTP payload: eight header bytes, then codestream bytes. *)
Definition payload (MH ordb POS : Z) (l : list Z) : list Z :=
  [64 * MH; 128 * ordb; 0; 0] ++ be32 (POS * 1048576) ++ l.
Definition all_cb : callbacks := mkCb true true true true true true true true.
Definition at_addr (a n : Z) (marker : bool) (slab : Z) : packet := mkPacket a n marker slab false false false.

(** A frame of two packets: the main header, and six empty precincts. *)
Definition sys_mem : memory := list_mem (payload 3 0 0 (sys_header 32 16) ++ payload 0 1 0 (replicate 6 0)).
Definition main_pkt : packet := at_addr 0 86 false 5.
Definition body_pkt : packet := at_addr 94 6 true 6.
Definition sys_frame : list (memory * packet) := [(sys_mem, main_pkt); (sys_mem, body_pkt)].

Definition state_after (l : list (memory * packet)) : frame_handler tile_handler :=
  match pull_all all_cb l (started new_tile_handler 4) with
  | Ret (_, s) => s
  | _ => started new_tile_handler 4
  end.

Lemma all_registered : registered all_cb.
Proof. by split_and!. Qed.

Lemma sys_frame_ok : Forall packet_ok sys_frame.
Proof.
  assert (byte_memory sys_mem) by (by apply list_mem_bytes).
  apply Forall_cons; split; [|apply Forall_singleton]; (split; [done|cbn; lia]).
Qed.

Lemma sys_run : pull_all all_cb sys_frame (started new_tile_handler 4) = Ret ((), state_after sys_frame).
Proof. vm_compute. reflexivity. Qed.

Lemma frame_delivery_contract_witness :
  ∃ m, mon_run true Closed (trace (state_after sys_frame)) = Some m.
Proof.
  destruct (frame_delivery_contract all_cb new_tile_handler 4 sys_frame (state_after sys_frame))
    as (m & H & _).
  - exact all_registered.
  - exact sys_frame_ok.
  - repeat constructor; vm_compute; congruence.
  - exact sys_run.
  - exists m. exact H.
Defined.

Lemma slabs_conserved_witness :
  released (trace (state_after sys_frame)) ++ held_slabs_ (state_after sys_frame) ≡ₚ [5; 6].
Proof.
  apply (slabs_conserved all_cb new_tile_handler 4 sys_frame (state_after sys_frame) all_registered
    sys_frame_ok sys_run).
Defined.

Lemma frame_delivery_split_headers_witness :
  ∃ m, mon_run false Closed (trace (state_after sys_frame)) = Some m.
Proof.
  exact (frame_delivery_split_headers all_cb new_tile_handler 4 sys_frame (state_after sys_frame)
    all_registered sys_frame_ok sys_run).
Defined.

(** The same header opens the next frame. *)
Lemma latched_stream_reused_witness :
  ∃ s', pull_data all_cb sys_mem main_pkt (state_after sys_frame) = Ret ((), s')
    ∧ tile_hndr s' = tile_hndr (state_after sys_frame) ∧ start_SOD s' = 86.
Proof.
  destruct (latched_stream_reused all_cb sys_mem main_pkt (state_after sys_frame)
    (geom_sig_ (state_after sys_frame)) 86) as (s' & E & H1 & _ & _ & H2 & _).
  - split; vm_compute; congruence.
  - vm_compute. reflexivity.
  - vm_compute. reflexivity.
  - vm_compute. congruence.
  - congruence.
  - right. reflexivity.
  - vm_compute. reflexivity.
  - exists s'. split; [exact E|]. split; [exact H1|exact H2].
Defined.

(** A header for a 16 x 16 image re-latches. *)
Definition small_mem : memory := list_mem (payload 3 0 0 (sys_header 16 16)).
Definition redial_sig : Z :=
  match geometry_signature small_mem 8 86 with Ret (g, _) => g | _ => 0 end.
Abbreviation redial := (
  th_header small_mem (invalidate (tile_hndr (state_after sys_frame)))
    (reset 0 (append_chunk (p_payload main_pkt + 8) (p_size main_pkt) (cs (state_after sys_frame))))).
Lemma changed_stream_relatched_witness :
  ∃ s', pull_data all_cb small_mem main_pkt (state_after sys_frame) = Ret ((), s')
    ∧ geom_sig_ s' = redial_sig ∧ relatches_ s' = 1.
Proof.
  assert (match redial with
    | Ret (n, t1, _) => n ≠ 0 ∧ match th_create t1 with Ret (true, _) => True | _ => False end
    | _ => False end) as Hr by (vm_compute; split; [congruence|exact I]).
  destruct redial as [[[n t1] c1]| |] eqn:E1; [|destruct Hr|destruct Hr]. destruct Hr as [Hn Hc].
  destruct (th_create t1) as [[[] t2]| |] eqn:E2; [|destruct Hc|destruct Hc|destruct Hc].
  destruct (changed_stream_relatched all_cb small_mem main_pkt (state_after sys_frame) redial_sig
    (Some 86) n t1 c1 t2) as (s' & E & _ & _ & H1 & _ & _ & H2 & _).
  - split; vm_compute; congruence.
  - vm_compute. reflexivity.
  - vm_compute. reflexivity.
  - vm_compute. congruence.
  - right. vm_compute. split; congruence.
  - exact E1.
  - exact Hn.
  - exact E2.
  - exists s'. split; [exact E|]. split; [exact H1|]. rewrite H2. vm_compute. reflexivity.
Defined.

(** A main packet that does not hold a header. *)
Lemma malformed_header_fails_frame_witness :
  ∃ s', pull_data all_cb (list_mem (payload 3 0 0 [1; 2; 3])) (at_addr 0 3 false 7) (state_after sys_frame)
        = Ret ((), s') ∧ tile_hndr s' = tile_hndr (state_after sys_frame) ∧ is_parsing_failure s' = true.
Proof.
  destruct (malformed_header_fails_frame all_cb (list_mem (payload 3 0 0 [1; 2; 3])) (at_addr 0 3 false 7)
    (state_after sys_frame) None) as (s' & E & H1 & _ & _ & _ & _ & H2 & _).
  - split; vm_compute; congruence.
  - vm_compute. reflexivity.
  - vm_compute. reflexivity.
  - exists s'. split; [exact E|]. split; [exact H1|exact H2].
Defined.

(** The only body packet of a frame is the last one and its precinct is corrupt. *)
Definition bad_mem : memory := list_mem (payload 3 0 0 (sys_header 32 16) ++ payload 0 1 6 [255; 127; 255; 127; 255; 127]).
Definition bad_state : frame_handler tile_handler := state_after [(bad_mem, main_pkt)].
Abbreviation bad_pp := (load_be32 bad_mem (p_payload body_pkt + 4)).
Abbreviation bad_parse :=
  (th_parse bad_mem
    (th_append_signal (u32 (u32 (chain_total_bytes_ bad_state) + Z.shiftr bad_pp 20))
       (Z.land bad_pp 0xFFFFF) (tile_hndr bad_state))
    (append_chunk (p_payload body_pkt + 8) (p_size body_pkt) (cs bad_state))).
Lemma abort_and_ready_same_frame_witness :
  ∃ s', pull_data all_cb bad_mem body_pkt bad_state = Ret ((), s')
    ∧ EvAbort kAbortParse ∈ trace s' ∧ EvReady [mkChunk 8 86; mkChunk 102 6] false ∈ trace s'.
Proof.
  assert (match bad_parse with
    | Ret (r, t, c, _) => r ≠ 0 ∧ chunks_ c = [mkChunk 8 86; mkChunk 102 6]
        ∧ match th_restart t with Ret _ => True | _ => False end
    | _ => False end) as Hr by (vm_compute; split; [congruence|split; [reflexivity|exact I]]).
  destruct bad_parse as [[[[r t] c] evs]| |] eqn:E1; [|destruct Hr|destruct Hr].
  destruct Hr as (Hn & Hc & Ht). destruct (th_restart t) as [t''| |] eqn:E2; [|destruct Ht|destruct Ht].
  destruct (abort_and_ready_same_frame all_cb bad_mem body_pkt bad_state
    r t c evs t'' all_registered eq_refl) as (s' & E & H).
  1-9: vm_compute; reflexivity.
  - exact E1.
  - exact Hn.
  - exact E2.
  - exists s'. split; [exact E|]. rewrite H, Hc. generalize (trace bad_state), (chain_total_bytes_ bad_state),
      (held_slabs_ bad_state). intros l0 n0 l1. rewrite !elem_of_app, !elem_of_cons. tauto.
Defined.

(** The intact flag is taken before [flush] (finding): here [flush] fails on the frame's
    corrupt precincts, the frame is counted as truncated, and its completion is reported as
    intact all the same. *)
Definition torn_mem : memory := list_mem (payload 3 0 0 (sys_header 32 16) ++ payload 0 0 0 [255; 127; 255; 127; 255; 127]).
Theorem flush_failure_reported_intact :
  ∃ s', pull_all all_cb [(torn_mem, main_pkt); (torn_mem, body_pkt)] (started new_tile_handler 4) = Ret ((), s')
    ∧ EvReady [mkChunk 8 86; mkChunk 102 6] true ∈ trace s' ∧ total_frames s' = 1 ∧ trunc_frames s' = 1.
Proof.
  assert (match pull_all all_cb [(torn_mem, main_pkt); (torn_mem, body_pkt)] (started new_tile_handler 4) with
    | Ret (_, s') => trunc_frames s' = 1 ∧ total_frames s' = 1
        ∧ omap (λ e, match e with EvReady c b => Some (c, b) | _ => None end) (trace s') = [([mkChunk 8 86; mkChunk 102 6], true)]
    | _ => False end) as H by (vm_compute; split_and!; reflexivity).
  destruct (pull_all _ _ _) as [[[] s']| |]; [|done|done]. destruct H as (H1 & H2 & H3). exists s'. split_and!; try done.
  assert (([mkChunk 8 86; mkChunk 102 6], true) ∈ omap (λ e, match e with EvReady c b => Some (c, b) | _ => None end) (trace s'))
    as (e & He & E)%list_elem_of_omap by (rewrite H3; set_solver).
  destruct e; try done. by injection E as -> ->.
Qed.

(** A header split over two packets, the second of which is the frame's last. *)
Lemma split_header_frame_vanishes_witness :
  ∃ s, pull_all all_cb [(list_mem (payload 1 0 0 [255; 79]), at_addr 0 2 false 3);
                        (list_mem (payload 0 0 0 [0]), at_addr 0 1 true 4)] (started new_tile_handler 4)
       = Ret ((), s) ∧ total_frames s = 0 ∧ abort_armed_ s = true.
Proof.
  destruct (split_header_frame_vanishes all_cb (list_mem (payload 1 0 0 [255; 79]))
    (list_mem (payload 0 0 0 [0])) (at_addr 0 2 false 3) (at_addr 0 1 true 4) new_tile_handler
    new_tile_handler 4 all_registered) as (s & E & _ & H1 & _ & H2); try reflexivity.
  - cbn. lia.
  - exists s. split; [exact E|]. split; [exact H1|exact H2].
Defined.

(** ** Findings of [restart] *)

(** [restart] visits six resolutions of every component whatever the number of levels;
    the ones above [NL] were never built.  The same one-level stream and the same frame
    end well or in undefined behaviour depending on what the tile's memory held before
    (here: resolutions that announce a precinct they do not have). *)
Definition junk : tcomp_ :=
  mkTcomp (replicate 6 (mkRes (replicate 3 demo_geo) [] 0 demo_geo 1 1 0 1)) 0 demo_geo 1 1.

Theorem restart_visits_unbuilt_resolutions :
  pull_all (H := tile_ops [junk; junk; junk] (λ _, demo_blk)) all_cb sys_frame (started new_tile_handler 4) = UB.
Proof. vm_compute. reflexivity. Qed.

(** An image one sample wide has empty bands; no tag tree is allocated for them, and
    [restart] clears one node of it all the same. *)
Definition thin_mem : memory := list_mem (payload 3 0 0 (sys_header 1 16) ++ payload 0 1 0 (replicate 6 0)).

Theorem restart_clears_missing_tree :
  match pull_all all_cb [(thin_mem, main_pkt)] (started new_tile_handler 4) with
  | Ret (_, s) => ready (tile_hndr s) = true ∧ restart_tiles (tile_hndr s) = UB
  | _ => False
  end.
Proof. vm_compute. done. Qed.
