(* ===== verification/EndToEnd.v ===== *)
(** * EndToEnd: one frame through the assembled program

    The frame handler over the real tile handler, on the packets of an intact
    frame: the theorems on the chunk chain, the packet headers, the walk, the latch
    and [restart] compose to what the consumer sees. *)
From S2P Require Import Prelude Codestream BitReader Markers Structs MainHeader HeaderSpec Signature.
From S2P Require Import PacketHeader PacketSpec PacketSafety Progression Geometry GeometrySpec TileHandler TileSpec.
From S2P Require Import TileSafety TileRestart FrameHandler Ownership System.

Section Frame.
Context (uninit : list tcomp_) (stale : Z → blk_) (cb : callbacks) (mem : memory).
#[local] Instance fr_ops : TileHandler tile_handler := tile_ops uninit stale.
#[local] Instance fr_laws : TileLaws tile_handler := tile_laws uninit stale.
Hypothesis Hcb : registered cb.
Hypothesis Hprec : prec_cb_ cb = true.
Implicit Types s : frame_handler tile_handler.

(** A body packet without a resync point. *)
Record quiet_body (p : packet) : Prop := {
  qb_MH : Z.shiftr (mem (p_payload p)) 6 = 0;
  qb_ORDB : Z.land (Z.shiftr (mem (p_payload p + 1)) 7) 1 = 0;
  qb_gap : p_gap p = false;
  qb_size : 0 < p_size p < 65536
}.

(** A frame is in flight and clean. *)
Record in_flight s : Prop := {
  if_passed : is_passed_header s = true;
  if_ok : is_parsing_failure s = false;
  if_soft : resync_soft_ s = false
}.

(** The state after a body packet's bytes were appended. *)
Definition with_body (p : packet) s : frame_handler tile_handler :=
  set_chain (held_slabs_ s ++ [p_slab p]) (u64 (chain_total_bytes_ s + p_size p))
    (append_chunk (p_payload p + 8) (p_size p) (cs s))
    (add_events [EvChunk (chain_total_bytes_ s) (p_payload p + 8) (p_size p)] (set_armed true s)).

Lemma body_run p s :
  quiet_body p → in_flight s → Z.of_nat (length (held_slabs_ s)) < kSlabCap →
  pull_data cb mem p s = (if p_marker p then end_of_frame cb mem else mret ()) (with_body p s).
Proof.
  intros [HM HO Hg _] [Hp Hf _] Hc. destruct Hcb as (_ & R2 & _ & _). rewrite pull_data_quiet by done. cbn zeta.
  rewrite HM, Hp, Hf. cbn [Z.eqb negb orb andb Z.leb Z.compare].
  rewrite (bind_run _ _ s true (with_body p s)); [done|]. unfold body_packet. rewrite HO. cbn zeta.
  rewrite (bind_run _ _ s () (with_body p s)); [done|].
  rewrite bind_get, (bind_run _ _ _ _ _ (append_run cb p s R2)), bind_get. done.
Qed.

(** ** The packets of a frame *)
Fixpoint chunk_events (off : Z) (ps : list packet) : list event :=
  match ps with
  | [] => []
  | p :: ps => EvChunk off (p_payload p + 8) (p_size p) :: chunk_events (u64 (off + p_size p)) ps
  end.
Definition frame_bytes (ps : list packet) : list Z :=
  ps ≫= λ p, mem_bytes mem (p_payload p + 8) (p_size p).

(** What appending bodies leaves: only the chain and the trace move. *)
Record bodies_in (ps : list packet) s s' : Prop := {
  bi_flight : in_flight s';
  bi_tile : tile_hndr s' = tile_hndr s;
  bi_held : held_slabs_ s' = held_slabs_ s ++ (p_slab <$> ps);
  bi_chain : cs s' = foldl (λ c p, append_chunk (p_payload p + 8) (p_size p) c) (cs s) ps;
  bi_trace : trace s' = trace s ++ chunk_events (chain_total_bytes_ s) ps;
  bi_counts : total_frames s' = total_frames s ∧ trunc_frames s' = trunc_frames s
}.

Lemma bodies_snoc ps last s :
  Forall quiet_body (ps ++ [last]) → Forall (λ p, p_marker p = false) ps → p_marker last = true →
  in_flight s → Z.of_nat (length (held_slabs_ s) + length ps) < kSlabCap →
  ∃ s', pull_all cb ((mem,.) <$> ps ++ [last]) s = end_of_frame cb mem s' ∧ bodies_in (ps ++ [last]) s s'.
Proof.
  revert s. induction ps as [|p ps IH]; intros s Hq Hm Hl Hf Hc.
  all: assert (Z.of_nat (length (held_slabs_ s)) < kSlabCap) as Hc' by lia.
  - apply Forall_cons in Hq as [Hq _]. exists (with_body last s). split.
    + cbn [fmap list_fmap app pull_all]. unfold mbind at 1, M_bind at 1. rewrite (body_run last s Hq Hf Hc'), Hl.
      by destruct (end_of_frame cb mem _) as [[[] ?]| |].
    + destruct Hf. by split.
  - apply Forall_cons in Hq as [Hq Hqs]. apply Forall_cons in Hm as [Hm Hms].
    destruct (IH (with_body p s) Hqs Hms Hl) as (s' & E & HB).
    { destruct Hf. by split. }
    { cbn [with_body held_slabs_ set_chain length] in *. rewrite length_app. cbn [length]. lia. }
    exists s'. split.
    + cbn [fmap list_fmap app pull_all]. rewrite (bind_run _ _ s () (with_body p s)); [exact E|].
      by rewrite (body_run p s Hq Hf Hc'), Hm.
    + destruct HB as [B1 B2 B3 B4 B5 B6]. split; [done|done| |done| |done].
      * rewrite B3. cbn. by rewrite <- app_assoc.
      * rewrite B5. cbn. by rewrite <- app_assoc.
Qed.

(** The last stage of an intact frame. *)
Definition ended (evs : list crp_status) (t'' : tile_handler) s : frame_handler tile_handler :=
  mkFh [] 0 (total_frames s + 1) (trunc_frames s) (start_SOD s) false false t'' empty_codestream (geom_sig_ s)
    (relatch_k_ s) 0 false (relatches_ s) false false false
    (((trace s ++ (EvPrecinct <$> evs)) ++ [EvReady (chunks_ (cs s)) true]) ++ (EvRelease <$> held_slabs_ s)).

Lemma intact_end_run s t' c' evs t'' :
  in_flight s → th_flush mem (tile_hndr s) (cs s) = Ret (EXIT_SUCCESS, t', c', evs) → chunks_ c' = chunks_ (cs s) →
  th_restart t' = Ret t'' → end_of_frame cb mem s = Ret ((), ended evs t'' s).
Proof.
  intros [Hp Hf Hs] Hfl Hch Hres. destruct Hcb as (R1 & R2 & R3 & R4). unfold end_of_frame.
  rewrite bind_modify, bind_get, bind_modify. cbn [set_armed is_parsing_failure is_passed_header resync_soft_].
  rewrite Hp, Hf, Hs. cbn [negb andb].
  set (s1 := set_resync false false (set_armed false s)).
  assert (action cb mem th_flush s1 = Ret ((), add_events (EvPrecinct <$> evs) (set_tile t' c' s1))) as Ea.
  { unfold action. change (tile_hndr s1) with (tile_hndr s). change (cs s1) with (cs s).
    rewrite Hfl, Hprec. by change (EXIT_SUCCESS =? 0) with true. }
  set (s2 := add_events _ _) in Ea. assert (is_parsing_failure s2 = false) as Hf2 by done.
  erewrite bind_run. 2:{ erewrite bind_run by exact Ea. rewrite bind_get, Hf2. reflexivity. }
  rewrite bind_get, Hf2. unfold end_frame_streak, emit, release_held_slabs. rewrite R1, R4, !bind_modify.
  rewrite (bind_run _ _ _ () _ eq_refl). unfold restart.
  match goal with |- context [th_restart ?x] => change x with t' end. rewrite Hres.
  cbn -[ended]. rewrite Hf, Hch, Z.add_0_r. reflexivity.
Qed.

(** ** The chain of an intact frame *)
Definition frame_chain (sod : Z) (p : packet) (ps : list packet) : codestream :=
  foldl (λ c p, append_chunk (p_payload p + 8) (p_size p) c)
    (reset sod (append_chunk (p_payload p + 8) (p_size p) empty_codestream)) ps.

(** The reader's state while bodies arrive. *)
Definition waits (c : codestream) (sod : Z) (l : list Chunk) : Prop :=
  wf c ∧ cs_tmp c = 0 ∧ cs_bits c = 0 ∧ pos c = sod ∧ sod ≤ total_len l ∧ chunks_ c = l.

Lemma waits_append c sod l b n :
  waits c sod l → 0 < n → total_len l + n < 18446744073709551616 →
  waits (append_chunk b n c) sod (l ++ [mkChunk b n]).
Proof.
  intros (Hw & Ht & Hb & Hp & Hs & Hc) Hn Hl. destruct (append_chunk_spec mem b n c Hw Hn) as [H1 H2]; rewrite ?Hc, ?Hp; try lia.
  split_and!; [done|done|done|done| |cbn; by rewrite Hc]. rewrite total_len_app. cbn. lia.
Qed.

Lemma waits_bodies ps c sod l :
  Forall (λ p, 0 < p_size p < 65536) ps → total_len l + 65536 * zlength ps < 18446744073709551616 →
  waits c sod l →
  waits (foldl (λ c p, append_chunk (p_payload p + 8) (p_size p) c) c ps) sod (l ++ (chunk_of <$> ps)).
Proof.
  intros Hps. revert c l. induction Hps as [|q ps Hq _ IH]; intros c l Hb Hw; cbn [foldl fmap list_fmap].
  { by rewrite app_nil_r. }
  rewrite cons_middle, app_assoc. unfold zlength in *. cbn [length] in Hb. apply IH.
  - rewrite total_len_app. cbn. lia.
  - apply waits_append; [done|lia|lia].
Qed.

Lemma frame_chain_waits sod p ps :
  0 ≤ sod ≤ p_size p → Forall (λ p, 0 < p_size p < 65536) (p :: ps) → zlength ps < kSlabCap →
  waits (frame_chain sod p ps) sod (chunk_of <$> p :: ps).
Proof.
  intros Hs Hsz Hlen. apply Forall_cons in Hsz as [Hp Hps]. unfold frame_chain.
  destruct (reset_spec mem sod (append_chunk (p_payload p + 8) (p_size p) empty_codestream)) as (H1 & H2 & H3 & H4);
    [constructor; [cbn; lia|constructor]|cbn; lia|lia|].
  assert (waits (reset sod (append_chunk (p_payload p + 8) (p_size p) empty_codestream)) sod [chunk_of p]) as Hw.
  { set (c := reset _ _) in *. split_and!; [done|change (cs_tmp c) with (f_tmp (abs mem c)); by rewrite H4
      |change (cs_bits c) with (f_bits (abs mem c)); by rewrite H4
      |change (pos c) with (f_pos (abs mem c)); by rewrite H4|cbn; lia|done]. }
  apply (waits_bodies ps _ sod [chunk_of p]); [done| |done].
  change (total_len [chunk_of p]) with (p_size p + 0). unfold kSlabCap in *. lia.
Qed.

Lemma frame_chain_stands sod p ps l post :
  0 ≤ sod ≤ p_size p → Forall (λ p, 0 < p_size p < 65536) (p :: ps) → zlength ps < kSlabCap →
  drop (Z.to_nat sod) (frame_bytes (p :: ps)) = l ++ post →
  stands mem (frame_chain sod p ps) (l ++ post) ∧ chunks_ (frame_chain sod p ps) = chunk_of <$> p :: ps.
Proof.
  intros Hs Hsz Hlen Hd. destruct (frame_chain_waits sod p ps Hs Hsz Hlen) as (H1 & H2 & H3 & H4 & H5 & H6).
  split; [|done]. split_and!; [done..|by rewrite H4, H6|]. rewrite H4, H6, <- Hd. f_equal.
  generalize (p :: ps). intros qs. induction qs as [|q qs IH]; [done|].
  cbn [fmap list_fmap]. rewrite flat_bytes_cons, IH. done.
Qed.

(** The tile handler at the start of a frame, and the frame's packets for it. *)
Record frame_for (t : tile_handler) (l : list (crp_status * packet_desc)) : Prop := {
  ff_sized : th_sized t;
  ff_tile : ∃ tile, head (tiles t) = Some tile ∧ crp_idx tile = 0 ∧ crp tile = fst <$> l ∧ Forall (fits t tile) l;
  ff_nodup : NoDup (key_of ∘ fst <$> l)
}.

Lemma frame_flush t c l post :
  frame_for t l → stands mem c ((l ≫= packet_bytes ∘ snd) ++ post) →
  ∃ t' c' t'', th_flush mem t c = Ret (EXIT_SUCCESS, t', c', fst <$> l) ∧ chunks_ c' = chunks_ c
    ∧ th_restart t' = Ret t'' ∧ is_ready t'' = is_ready t ∧ th_sized t'' ∧ walk_of t'' = walk_of t.
Proof.
  intros [Hs (tile & Hh & Hi & Hw & Hf) Hn] Hst.
  assert (poised mem (mkPst t c []) tile l post) as Hp.
  { split; [done|lia| |done|done|done]. rewrite Hi, Hw. by exists []; rewrite app_nil_r. }
  destruct (flush_rounds mem l (mkPst t c []) tile post (flush_fuel (mkPst t c [])) Hp) as (evs & s' & E & D).
  { rewrite Hi, Hw, length_fmap. done. }
  { unfold flush_fuel. cbn [ps_th]. destruct (tiles t) as [|x ?]; [done|]. injection Hh as ->.
    rewrite Hw, length_fmap, Hi. cbn. lia. }
  change (rounds _ _ _) with (flush mem (mkPst t c [])) in E.
  destruct (restart_run mem (mkPst t c []) s' Hs) as (t'' & Er & Hs'' & _ & _ & Hwk & _ & Hr & _).
  { eapply (run_step _ _ EXIT_SUCCESS s' (ps_cs s') (signal_queue_ (ps_th s'))); [by right|].
    destruct s' as [[] ? ?]. apply run_nil. }
  exists (ps_th s'), (ps_cs s'), t''. split_and!; try done; [|apply (dw_grown _ _ _ _ _ _ _ D)].
  cbn [th_flush fr_ops tile_ops]. unfold run_walk. rewrite E, (dw_events _ _ _ _ _ _ _ D). cbn [ps_ev app].
  do 2 f_equal. pose proof (dw_read _ _ _ _ _ _ _ D) as Hd. clear -Hd.
  induction Hd as [|lk e l evs [E _] _ IH]; [done|]. cbn. by rewrite E, IH.
Qed.

End Frame.

(** An intact frame is decoded and delivered.  A latched stream is between frames,
    its structure clean.  A frame arrives without loss: a main packet whose header has
    the latched signature, then any number of body packets (without resync points), the
    last one carrying the marker, and the bytes behind the header's SOD are the encoded
    packets of the stream's walk, cut into RTP payloads anywhere.  Then the consumer
    sees, in this order: every byte range of the frame with contiguous offsets; every
    precinct of the walk, once and in the walk's order; one intact completion holding
    exactly the received ranges; and every slab given back.  One frame is counted, none
    as truncated, and the handler is again between frames on the same latched stream. *)
Theorem intact_frame_delivered uninit stale cb mem p bodies last (s : frame_handler tile_handler) sig sod l post :
  let _ := tile_ops uninit stale in
  registered cb → prec_cb_ cb = true →
  fresh_main mem p s → ready (tile_hndr s) = true → cs s = empty_codestream → chain_total_bytes_ s = 0 →
  resync_soft_ s = false → frame_for (tile_hndr s) l →
  geometry_signature mem (p_payload p + 8) (p_size p) = Ret (sig, Some sod) →
  sig ≠ 0 → 0 < sod ≤ p_size p → p_size p < 65536 → geom_sig_ s = 0 ∨ geom_sig_ s = sig → hatch_open s = false →
  Forall (quiet_body mem) (bodies ++ [last]) → Forall (λ q, p_marker q = false) bodies → p_marker last = true →
  zlength bodies + 1 < kSlabCap →
  drop (Z.to_nat sod) (frame_bytes mem (p :: bodies ++ [last])) = (l ≫= packet_bytes ∘ snd) ++ post →
  ∃ s', pull_all cb ((mem,.) <$> p :: bodies ++ [last]) s = Ret ((), s')
    ∧ trace s' = trace s ++ chunk_events 0 (p :: bodies ++ [last]) ++ (EvPrecinct ∘ fst <$> l)
        ++ [EvReady (chunk_of <$> p :: bodies ++ [last]) true] ++ (EvRelease ∘ p_slab <$> p :: bodies ++ [last])
    ∧ total_frames s' = total_frames s + 1 ∧ trunc_frames s' = trunc_frames s
    ∧ held_slabs_ s' = [] ∧ ready (tile_hndr s') = true ∧ walk_of (tile_hndr s') = walk_of (tile_hndr s).
Proof.
  intros ops Hcb Hprec Hfm Hr Hcs Hct Hsoft Hfor Hsig Hs0 Hsod Hps Hg Hh Hq Hm Hl Hlen Hd.
  pose proof (latched_run (H0 := tile_laws uninit stale) cb mem p s sig sod Hfm Hr Hsig Hs0 ltac:(lia) Hg Hh) as E1.
  set (s1 := latched cb sig sod p s) in *.
  assert (in_flight s1) as Hf1 by (by split).
  destruct (bodies_snoc uninit stale cb mem Hcb bodies last s1 Hq Hm Hl Hf1) as (s2 & E2 & [B1 B2 B3 B4 B5 B6]).
  { cbn. unfold zlength in *. lia. }
  assert (cs s2 = frame_chain sod p (bodies ++ [last])) as Hch.
  { rewrite B4. cbn. by rewrite Hcs. }
  destruct (frame_chain_stands mem sod p (bodies ++ [last]) (l ≫= packet_bytes ∘ snd) post) as [Hst Hchk].
  { lia. }
  { constructor; [lia|]. eapply Forall_impl; [exact Hq|]. by intros ? []. }
  { unfold zlength in *. rewrite length_app. cbn. lia. }
  { done. }
  rewrite <- Hch in Hst, Hchk.
  assert (frame_for (tile_hndr s2) l) as Hfor2 by (by rewrite B2).
  destruct (frame_flush uninit stale mem (tile_hndr s2) (cs s2) l post Hfor2 Hst) as (t' & c' & t'' & F1 & F2 & F3 & F4 & F5 & F6).
  pose proof (intact_end_run uninit stale cb mem Hcb Hprec s2 t' c' _ t'' B1 F1 F2 F3) as E3.
  exists (ended (fst <$> l) t'' s2). split.
  { cbn [fmap list_fmap pull_all]. rewrite (bind_run _ _ _ _ _ E1). etrans; [exact E2|exact E3]. }
  destruct B6 as [C1 C2]. cbn [trace total_frames trunc_frames tile_hndr ended]. rewrite B5, B3, Hchk, C1, C2, F6, B2, <- !app_assoc. split_and!; try done.
  - destruct Hcb as (_ & R2 & _ & _). cbn. unfold chunk_event.
    by rewrite R2, Hct, !list_fmap_compose, <- !app_assoc.
  - cbn in F4. rewrite F4, B2. exact Hr.
Qed.

(** ** Witness: a second frame of the stream of [System] *)
Definition second_mem : memory :=
  list_mem (payload 3 0 0 (sys_header 32 16) ++ payload 0 0 0 (replicate 3 0) ++ payload 0 0 0 (replicate 3 0)).
Definition second_walk : list (crp_status * packet_desc) :=
  (., EmptyPacket) <$> [mkCrp 0 0 0; mkCrp 0 1 0; mkCrp 1 0 0; mkCrp 1 1 0; mkCrp 2 0 0; mkCrp 2 1 0].
Definition latched_state : frame_handler tile_handler := state_after sys_frame.

(** [frame_for] for a frame of empty packets, decided by evaluation. *)
Definition empty_frame_forb (t : tile_handler) (walk : list crp_status) : bool :=
  match head (tiles t) with
  | None => false
  | Some tile =>
      bool_decide (crp_idx tile = 0) && bool_decide (crp tile = walk)
      && forallb (λ ct, match get_prec tile ct, h_cocs (tabs t) !! Z.to_nat (crp_c ct) with
                        | Some _, Some coc => (64 <=? coc_cbs coc) && (coc_cbs coc <? 128)
                        | _, _ => false
                        end) walk
  end && bool_decide (th_sized t) && bool_decide (NoDup (key_of <$> walk)).

Lemma empty_frame_forb_ok t walk :
  empty_frame_forb t walk = true → frame_for t ((., EmptyPacket) <$> walk).
Proof.
  unfold empty_frame_forb. destruct (head (tiles t)) as [tile|] eqn:Ht; [|done].
  rewrite !andb_true_iff, !bool_decide_eq_true. intros [[[[H1 H2] H3] H4] H5].
  split; [done| |by rewrite <- list_fmap_compose].
  exists tile. split_and!; [done|done|by rewrite <- list_fmap_compose, H2; symmetry; apply list_fmap_id|].
  rewrite forallb_forall in H3. apply Forall_forall. intros lk (ct & -> & Hct)%list_elem_of_fmap.
  specialize (H3 ct (proj1 (list_elem_of_In _ _) Hct)). destruct (get_prec tile ct) as [pr|] eqn:Hp; [|done].
  destruct (h_cocs _ !! _) as [coc|] eqn:Hc; [|done]. apply andb_true_iff in H3 as [G1%Z.leb_le G2%Z.ltb_lt].
  exists pr, coc. split_and!; [done|done|left; lia|done].
Qed.

Lemma second_frame_for : frame_for (tile_hndr latched_state) second_walk.
Proof. apply empty_frame_forb_ok. vm_compute. reflexivity. Qed.

Lemma intact_frame_delivered_witness :
  ∃ s', pull_all (H := sys_ops) all_cb ((second_mem,.) <$> [main_pkt; at_addr 94 3 false 7; at_addr 105 3 true 8]) latched_state
        = Ret ((), s')
    ∧ trace s' = trace latched_state
        ++ [EvChunk 0 8 86; EvChunk 86 102 3; EvChunk 89 113 3]
        ++ (EvPrecinct ∘ fst <$> second_walk)
        ++ [EvReady [mkChunk 8 86; mkChunk 102 3; mkChunk 113 3] true; EvRelease 5; EvRelease 7; EvRelease 8].
Proof.
  destruct (intact_frame_delivered [blank; blank; blank] (λ _, demo_blk) all_cb second_mem main_pkt
    [at_addr 94 3 false 7] (at_addr 105 3 true 8) latched_state (geom_sig_ latched_state) 86 second_walk [])
    as (s' & E & T & _).
  - exact all_registered.
  - reflexivity.
  - split; vm_compute; congruence.
  - vm_compute. reflexivity.
  - vm_compute. reflexivity.
  - vm_compute. reflexivity.
  - vm_compute. reflexivity.
  - exact second_frame_for.
  - vm_compute. reflexivity.
  - vm_compute. congruence.
  - cbn. lia.
  - cbn. lia.
  - right. reflexivity.
  - vm_compute. reflexivity.
  - apply Forall_cons. split; [split; try reflexivity; cbn; lia|].
    apply Forall_singleton. split; try reflexivity; cbn; lia.
  - apply Forall_singleton. reflexivity.
  - reflexivity.
  - vm_compute. reflexivity.
  - vm_compute. reflexivity.
  - exists s'. split; [exact E|]. rewrite T. reflexivity.
Defined.
