(* ===== verification/Stream.v ===== *)
(** * Stream: a whole stream through the assembled program

    From the first main header on: the frames of a supported stream arrive without loss,
    cut into RTP payloads anywhere, with resync points on packet boundaries; each packet is
    handled with the slab memory of its time, which agrees with the complete frame on the
    bytes that have arrived.  The theorems
    on the header parser, the structure builder, the chunk chain, the precinct walks and
    [restart] compose to what the consumer sees of every frame. *)
From S2P Require Import Prelude Codestream BitReader Markers Structs MainHeader HeaderSpec Signature.
From S2P Require Import PacketHeader PacketSpec PacketSafety Progression Geometry GeometrySpec TileHandler TileSpec.
From S2P Require Import TileSafety TileRestart Create FrameHandler Ownership System EndToEnd.

Notation entry_of_walk := (crp_status * packet_desc)%type (only parsing).
Definition bytes_of (l : list entry_of_walk) : list Z := l ≫= packet_bytes ∘ snd.

(** ** Packets with resync points *)

(** A body packet, and the entries of the walk its resync point completes: with the reader
    at [pos] and [off] bytes received before it, the point marks the boundary behind
    their packets, inside the bytes received by then. *)
Record sound_body (mem : memory) (off pos : Z) (p : packet) (d : list entry_of_walk) : Prop := {
  sb_MH : Z.shiftr (mem (p_payload p)) 6 = 0;
  sb_gap : p_gap p = false;
  sb_size : 0 < p_size p < 65536;
  sb_point :
    if Z.land (Z.shiftr (mem (p_payload p + 1)) 7) 1 =? 0 then d = []
    else let POS := Z.shiftr (load_be32 mem (p_payload p + 4)) 20 in
         0 ≤ POS ≤ p_size p ∧ off + POS = pos + zlength (bytes_of d)
}.
Fixpoint sound_bodies (mem : memory) (off pos : Z) (bs : list (packet * list entry_of_walk)) : Prop :=
  match bs with
  | [] => True
  | (p, d) :: bs =>
      sound_body mem off pos p d ∧ sound_bodies mem (off + p_size p) (pos + zlength (bytes_of d)) bs
  end.

(** Only the last body packet carries the marker. *)
Fixpoint last_marked (bs : list (packet * list entry_of_walk)) : Prop :=
  match bs with
  | [] => False
  | [(p, _)] => p_marker p = true
  | (p, _) :: bs => p_marker p = false ∧ last_marked bs
  end.

(** What the consumer sees of them. *)
Fixpoint body_events (off : Z) (bs : list (packet * list entry_of_walk)) : list event :=
  match bs with
  | [] => []
  | (p, d) :: bs =>
      EvChunk off (p_payload p + 8) (p_size p) :: (EvPrecinct ∘ fst <$> d) ++ body_events (off + p_size p) bs
  end.

Lemma bytes_of_app l l' : bytes_of (l ++ l') = bytes_of l ++ bytes_of l'.
Proof. unfold bytes_of. by rewrite bind_app. Qed.

Lemma stands_append mem c l b n :
  stands mem c l → 0 < n → total_len (chunks_ c) + n < 18446744073709551616 →
  stands mem (append_chunk b n c) (l ++ mem_bytes mem b n).
Proof.
  intros (Hw & Ht & Hb & Hp & <-) Hn Hl. destruct (append_chunk_spec mem b n c Hw Hn Hl ltac:(lia)) as [H1 H2].
  pose proof (f_equal f_bytes H2) as Hf. pose proof (f_equal f_pos H2) as Hpos. cbn [f_bytes f_pos abs] in Hf, Hpos.
  split_and!; [done|done|done| |].
  - rewrite Hpos. cbn. rewrite total_len_app. cbn. lia.
  - rewrite Hf, Hpos, drop_app_le; [done|]. pose proof (length_flat_bytes mem (chunks_ c) (wf_nonempty _ (wf_cur _ Hw))). lia.
Qed.

(** Two prefixes of the same list. *)
Lemma prefix_split {A} (a b x y : list A) : a ++ x = b ++ y → (length a ≤ length b)%nat → ∃ z, b = a ++ z ∧ x = z ++ y.
Proof.
  intros E Hl. exists (drop (length a) b). assert (a = take (length a) b) as Ea.
  { pose proof (f_equal (take (length a)) E) as H. rewrite take_app_length, take_app_le in H by done. done. }
  split; [rewrite Ea at 1; by rewrite take_drop|].
  pose proof (f_equal (drop (length a)) E) as H. rewrite drop_app_length, drop_app_le in H by done. done.
Qed.

(** ** The slab memory while a frame arrives

    Every packet is handled with the memory as it is then.  [m'] holds the packet [p] as
    [m] does: its eight header bytes and its codestream bytes. *)
Definition same_packet (m m' : memory) (p : packet) : Prop :=
  ∀ o, 0 ≤ o < 8 + p_size p → m' (p_payload p + o) = m (p_payload p + o).

(** The memories [ms] at the packets [ps], behind [prev]: each holds what has arrived. *)
Fixpoint seen (m : memory) (prev : list packet) (ms : list memory) (ps : list packet) : Prop :=
  match ms, ps with
  | [], [] => True
  | mi :: ms, p :: ps => byte_memory mi ∧ Forall (same_packet m mi) (prev ++ [p]) ∧ seen m (prev ++ [p]) ms ps
  | _, _ => False
  end.

Lemma mem_bytes_ext m m' a n : (∀ o, 0 ≤ o < n → m' (a + o) = m (a + o)) → mem_bytes m' a n = mem_bytes m a n.
Proof. intros H. apply list_fmap_ext. intros i x Hx. apply H. apply lookup_seqZ in Hx as [-> Hx]. lia. Qed.
Lemma same_bytes m m' p : same_packet m m' p → chunk_bytes m' (chunk_of p) = chunk_bytes m (chunk_of p).
Proof.
  intros H. unfold chunk_bytes, chunk_of. cbn [base len]. apply mem_bytes_ext. intros o Ho.
  rewrite <- !Z.add_assoc. apply H. lia.
Qed.
Lemma same_chain m m' ps :
  Forall (same_packet m m') ps → flat_bytes m' (chunk_of <$> ps) = flat_bytes m (chunk_of <$> ps).
Proof.
  induction 1 as [|p ps Hp _ IH]; [done|]. cbn [fmap list_fmap]. rewrite !flat_bytes_cons, IH. by rewrite (same_bytes m m' p Hp).
Qed.
Lemma stands_same m m' c l : flat_bytes m' (chunks_ c) = flat_bytes m (chunks_ c) → stands m c l → stands m' c l.
Proof. intros E (H1 & H2 & H3 & H4 & H5). split_and!; try done. by rewrite E. Qed.
Lemma same_body m m' off q p d : same_packet m m' p → sound_body m off q p d → sound_body m' off q p d.
Proof.
  intros H [B1 B2 B3 B4]. assert (∀ o, 0 ≤ o < 8 → m' (p_payload p + o) = m (p_payload p + o)) as Hm by (intros o Ho; apply H; lia).
  assert (m' (p_payload p) = m (p_payload p)) as H0 by (pose proof (Hm 0 ltac:(lia)) as E; by rewrite Z.add_0_r in E).
  assert (load_be32 m' (p_payload p + 4) = load_be32 m (p_payload p + 4)) as H4.
  { unfold load_be32. rewrite <- !Z.add_assoc. rewrite !Hm by lia. done. }
  split; [by rewrite H0|done|done|]. rewrite Hm by lia. by rewrite H4.
Qed.

(** ** The tile handler in the middle of a frame *)
Section Reading.
Context (uninit : list tcomp_) (stale : Z → blk_) (mem : memory).
#[local] Instance rd_ops : TileHandler tile_handler := tile_ops uninit stale.

(** [todo] is left of the walk, [rest] of the received bytes. *)
Record reading (t : tile_handler) (c : codestream) (todo : list entry_of_walk) (rest : list Z) : Prop := {
  rd_tile : ∃ tile past, head (tiles t) = Some tile ∧ crp tile = past ++ (fst <$> todo) ∧ crp_idx tile = zlength past
    ∧ Forall (fits t tile) todo;
  rd_nodup : NoDup (key_of ∘ fst <$> todo);
  rd_stands : stands mem c rest;
  rd_sized : th_sized t
}.

(** What the precinct walks leave alone. *)
Record kept (t t' : tile_handler) : Prop := {
  kp_tabs : tabs t' = tabs t;
  kp_walk : walk_of t' = walk_of t;
  kp_ready : ready t' = ready t;
  kp_layout ct : layout t' ct = layout t ct
}.
#[global] Instance kept_preorder : PreOrder kept.
Proof. split; [by intros t|]. intros t1 t2 t3 [] []. split; intros; congruence. Qed.

Lemma append_signal_kept off p t : kept t (append_signal off p t).
Proof. done. Qed.

Lemma append_signal_last off p t : last (signal_queue_ (append_signal off p t)) = Some (mkSignal off p).
Proof. unfold append_signal. cbn. by rewrite last_snoc. Qed.

Lemma reading_poised t c d todo rest :
  reading t c (d ++ todo) (bytes_of d ++ rest) → ∃ tile past, poised mem (mkPst t c []) tile d rest
    ∧ head (tiles t) = Some tile ∧ crp tile = past ++ (fst <$> d ++ todo) ∧ crp_idx tile = zlength past
    ∧ Forall (fits t tile) todo.
Proof.
  intros [(tile & past & Hh & Hw & Hi & Hf) Hn Hs _]. exists tile, past. rewrite fmap_app in Hn. apply NoDup_app in Hn as (Hn & _ & _).
  apply Forall_app in Hf as [Hf Hf']. split_and!; [|done..]. split; [done|unfold zlength in Hi; lia| |done|done|exact Hs].
  rewrite Hw, Hi. unfold zlength. rewrite Nat2Z.id, drop_app_length, fmap_app. by apply prefix_app_r.
Qed.

(** The handler after entries [d] were read. *)
Lemma done_reading t c tile past d todo rest evs s' :
  crp tile = past ++ (fst <$> d ++ todo) → crp_idx tile = zlength past →
  Forall (fits t tile) todo → NoDup (key_of ∘ fst <$> d ++ todo) →
  done_with mem (mkPst t c []) tile d rest evs s' → th_sized (ps_th s') →
  reading (ps_th s') (ps_cs s') todo rest ∧ fst <$> ps_ev s' = fst <$> d.
Proof.
  intros Hw Hi Hf Hn [D1 D2 D3 D4 D5 D6 (tile' & T1 & T2 & T3 & T4)] Hs. split.
  - split; [|rewrite fmap_app in Hn; by apply NoDup_app in Hn as (_ & _ & ?)|done|done].
    exists tile', (past ++ (fst <$> d)). split; [done|]. split; [by rewrite T3, Hw, fmap_app, app_assoc|]. split.
    + rewrite T2, Hi. unfold zlength. rewrite length_app, length_fmap. lia.
    + rewrite fmap_app in Hn. apply NoDup_app in Hn as (_ & Hdis & _). rewrite Forall_forall in Hf |- *. intros lk Hlk.
      destruct (Hf lk Hlk) as (pr & coc & F1 & F2 & F3 & F4). exists pr, coc. rewrite T4, (ps_tabs _ _ D5); [done|].
      intros He. apply (Hdis _ He). apply list_elem_of_fmap. by exists lk.
  - rewrite D1. cbn [ps_ev app]. clear -D2. induction D2 as [|lk e l evs [E _] _ IH]; [done|]. cbn. by rewrite E, IH.
Qed.

Lemma walk_kept (m : M pst Z) t c r s' :
  m = parse mem ∨ m = flush mem → m (mkPst t c []) = Ret (r, s') → th_sized t → kept t (ps_th s') ∧ th_sized (ps_th s').
Proof.
  intros Hm E Hs.
  destruct (frame_run_keeps mem (mkPst t c []) (set_pcs (ps_cs s') (set_pth (set_signals (signal_queue_ (ps_th s'))) s'))) as (H1 & H2 & H3 & H4 & H5);
    [|done|by split].
  eapply run_step; [|apply run_nil]. destruct Hm as [-> | ->]; eauto.
Qed.

Lemma parse_step t c d todo rest off p :
  reading t c (d ++ todo) (bytes_of d ++ rest) → off = pos c + zlength (bytes_of d) →
  total_len (chunks_ c) < 4294967296 →
  ∃ t' c', th_parse mem (append_signal off p t) c = Ret (EXIT_SUCCESS, t', c', fst <$> d)
    ∧ reading t' c' todo rest ∧ kept t t' ∧ chunks_ c' = chunks_ c ∧ pos c' = off.
Proof.
  intros Hr Hoff Hlen. pose proof (rd_nodup _ _ _ _ Hr) as Hn. pose proof (rd_sized _ _ _ _ Hr) as Hs.
  destruct (reading_poised t c d todo rest Hr) as (tile & past & Hp & Hh & Hw & Hi & Hf).
  set (t1 := append_signal off p t).
  assert (poised mem (mkPst t1 c []) tile d rest) as Hp1 by (by destruct Hp; split).
  destruct (parse_rounds mem d (mkPst t1 c []) tile rest (parse_fuel (mkPst t1 c [])) (mkSignal off p) Hp1
    (append_signal_last off p t) Hoff Hlen) as (evs & s' & E & D).
  { unfold parse_fuel. cbn [ps_th t1]. change (tiles t1) with (tiles t). destruct (tiles t) as [|tl ?]; [done|]. injection Hh as ->.
    rewrite Hw, Hi, !length_app, length_fmap, length_app. unfold zlength. lia. }
  change (rounds _ _ _) with (parse mem (mkPst t1 c [])) in E.
  destruct (walk_kept (parse mem) t1 c _ s' (or_introl eq_refl) E Hs) as [Hk Hs'].
  destruct (done_reading t1 c tile past d todo rest evs s' Hw Hi Hf Hn D Hs') as [Hr' Hev].
  exists (ps_th s'), (ps_cs s'). split_and!; [|done|by transitivity t1|apply (dw_grown _ _ _ _ _ _ _ D)|].
  - cbn [th_parse rd_ops tile_ops]. unfold run_walk. fold t1. by rewrite E, Hev.
  - destruct (stands_pos mem _ _ (po_stands _ _ _ _ _ Hp)) as [H1 _], (stands_pos mem _ _ (rd_stands _ _ _ _ Hr')) as [H2 _].
    rewrite (proj1 (dw_grown _ _ _ _ _ _ _ D)) in H2. cbn [ps_cs] in *. rewrite zlength_app in H1. unfold bytes_of in *. lia.
Qed.

(** The end of the frame: [flush], then [restart]. *)
Lemma flush_step t c todo post :
  reading t c todo (bytes_of todo ++ post) →
  ∃ t' c' t'', th_flush mem t c = Ret (EXIT_SUCCESS, t', c', fst <$> todo) ∧ chunks_ c' = chunks_ c
    ∧ th_restart t' = Ret t'' ∧ th_sized t'' ∧ signal_queue_ t'' = []
    ∧ tabs t'' = tabs t ∧ walk_of t'' = walk_of t ∧ ready t'' = ready t
    ∧ (∀ ct g, layout t ct = Some g → layout t'' ct = Some g)
    ∧ Forall (λ tile, crp_idx tile = 0 ∧ ∀ ct p, get_prec tile ct = Some p →
        prec_shape p ∧ prec_clear p ∧ Forall (fresh_band (nb_code_blocks p)) (pr_pband p)) (tiles t'').
Proof.
  intros Hr. pose proof (rd_sized _ _ _ _ Hr) as Hs. pose proof (rd_nodup _ _ _ _ Hr) as Hn.
  rewrite <- (app_nil_r todo) in Hr at 1. destruct (reading_poised t c todo [] post Hr) as (tile & past & Hp & Hh & Hw & Hi & _).
  rewrite app_nil_r in Hw.
  destruct (flush_rounds mem todo (mkPst t c []) tile post (flush_fuel (mkPst t c [])) Hp) as (evs & s' & E & D).
  { rewrite Hw, Hi, length_app, length_fmap. unfold zlength. lia. }
  { unfold flush_fuel. cbn [ps_th]. destruct (tiles t) as [|x ?]; [done|]. injection Hh as ->.
    rewrite Hw, Hi, length_app, length_fmap. unfold zlength. lia. }
  change (rounds _ _ _) with (flush mem (mkPst t c [])) in E.
  destruct (walk_kept (flush mem) t c _ s' (or_intror eq_refl) E Hs) as [_ Hs'].
  destruct (done_reading t c tile past todo [] post evs s') as [_ Hev]; rewrite ?app_nil_r; try done.
  destruct (restart_run mem (mkPst t c []) s' Hs) as (t'' & R1 & R2 & R3 & R4 & R5 & R6 & R7 & R8).
  { eapply (run_step _ _ EXIT_SUCCESS s' (ps_cs s') (signal_queue_ (ps_th s'))); [by right|].
    destruct s' as [[] ? ?]. apply run_nil. }
  exists (ps_th s'), (ps_cs s'), t''. split_and!; try done; [|apply (dw_grown _ _ _ _ _ _ _ D)].
  cbn [th_flush rd_ops tile_ops]. unfold run_walk. by rewrite E, Hev.
Qed.
End Reading.

(** ** The frame handler in the middle of a frame *)
Section Bodies.
Context (uninit : list tcomp_) (stale : Z → blk_) (cb : callbacks) (mem : memory).
#[local] Instance bd_ops : TileHandler tile_handler := tile_ops uninit stale.
#[local] Instance bd_laws : TileLaws tile_handler := tile_laws uninit stale.
Hypothesis Hcb : registered cb.
Hypothesis Hprec : prec_cb_ cb = true.
Implicit Types s : frame_handler tile_handler.

Record mid s (todo : list entry_of_walk) (rest : list Z) : Prop := {
  md_flight : in_flight s;
  md_armed : resync_armed_ s = false;
  md_reading : reading mem (tile_hndr s) (cs s) todo rest;
  md_total : chain_total_bytes_ s = total_len (chunks_ (cs s));
  md_room : 0 ≤ total_len (chunks_ (cs s)) ≤ 65536 * zlength (held_slabs_ s)
}.

(** Between [s] and [s'] bodies arrived: what else stays. *)
Record during (ps : list packet) s s' : Prop := {
  du_kept : kept (tile_hndr s) (tile_hndr s');
  du_held : held_slabs_ s' = held_slabs_ s ++ (p_slab <$> ps);
  du_chunks : chunks_ (cs s') = chunks_ (cs s) ++ (chunk_of <$> ps);
  du_counts : total_frames s' = total_frames s ∧ trunc_frames s' = trunc_frames s;
  du_latch : geom_sig_ s' = geom_sig_ s ∧ relatch_k_ s' = relatch_k_ s ∧ relatches_ s' = relatches_ s
}.

Lemma during_nil s : during [] s s.
Proof. split; try done; by rewrite app_nil_r. Qed.
Lemma during_trans ps ps' s s' s'' : during ps s s' → during ps' s' s'' → during (ps ++ ps') s s''.
Proof.
  intros [K1 H1 C1 [N1 N1'] (L1 & L1' & L1'')] [K2 H2 C2 [N2 N2'] (L2 & L2' & L2'')]. split.
  - by etrans.
  - by rewrite H2, H1, fmap_app, app_assoc.
  - by rewrite C2, C1, fmap_app, app_assoc.
  - split; congruence.
  - split_and!; congruence.
Qed.

(** The bytes of one more packet. *)
Lemma mid_append p s todo rest :
  mid s todo rest → 0 < p_size p < 65536 → zlength (held_slabs_ s) < kSlabCap →
  mid (with_body p s) todo (rest ++ mem_bytes mem (p_payload p + 8) (p_size p)) ∧ during [p] s (with_body p s)
  ∧ total_len (chunks_ (cs (with_body p s))) = chain_total_bytes_ s + p_size p
  ∧ total_len (chunks_ (cs (with_body p s))) < 4294967296.
Proof.
  intros [Hf Ha [R1 R2 R3 R4] Ht Hr] Hs Hc. unfold kSlabCap in *.
  assert (total_len (chunks_ (cs (with_body p s))) = chain_total_bytes_ s + p_size p) as El
    by (cbn; rewrite total_len_app, Ht; cbn; lia).
  assert (total_len (chunks_ (cs (with_body p s))) < 4294967296) as El' by lia.
  split_and!; [|by split|done|done]. split.
  - by destruct Hf.
  - done.
  - split; [done|done| |done]. apply stands_append; [done|lia|lia].
  - rewrite El. cbn. apply u64_small. lia.
  - rewrite El. cbn [with_body held_slabs_ set_chain]. unfold zlength in *. rewrite length_app. cbn [length]. lia.
Qed.

(** The resync point of a packet whose bytes are in. *)
Lemma point_run p d s todo rest' :
  mid s (d ++ todo) (bytes_of d ++ rest') → total_len (chunks_ (cs s)) < 4294967296 →
  let off := pos (cs s) + zlength (bytes_of d) in
  let s0 := set_tile (append_signal off p (tile_hndr s)) (cs s) s in
  ∃ s', action cb mem th_parse s0 = Ret ((), s') ∧ mid s' todo rest' ∧ during [] s s'
    ∧ chain_total_bytes_ s' = chain_total_bytes_ s ∧ pos (cs s') = off
    ∧ trace s' = trace s ++ (EvPrecinct ∘ fst <$> d).
Proof.
  intros [Hf Ha Hr Ht Hroom] Hlen off s0.
  destruct (parse_step uninit stale mem (tile_hndr s) (cs s) d todo rest' off p Hr eq_refl Hlen)
    as (t' & c' & E & Hr' & Hk & Hch & Hpos).
  exists (add_events (EvPrecinct <$> (fst <$> d)) (set_tile t' c' s)). split_and!; try done.
  - unfold action. rewrite (E : @th_parse _ bd_ops mem (tile_hndr s0) (cs s0) = _), Hprec.
    by change (EXIT_SUCCESS =? 0) with true.
  - split; [by destruct Hf|done|done|cbn; by rewrite Hch|cbn; by rewrite Hch].
  - split; try done; cbn; by rewrite app_nil_r.
  - cbn. by rewrite <- list_fmap_compose.
Qed.

Lemma body_step p d s todo rest rest' :
  mid s (d ++ todo) rest → sound_body mem (chain_total_bytes_ s) (pos (cs s)) p d →
  zlength (held_slabs_ s) < kSlabCap → rest ++ mem_bytes mem (p_payload p + 8) (p_size p) = bytes_of d ++ rest' →
  ∃ s', pull_data cb mem p s = (if p_marker p then end_of_frame cb mem else mret ()) s'
    ∧ mid s' todo rest' ∧ during [p] s s'
    ∧ chain_total_bytes_ s' = chain_total_bytes_ s + p_size p ∧ pos (cs s') = pos (cs s) + zlength (bytes_of d)
    ∧ trace s' = trace s ++ EvChunk (chain_total_bytes_ s) (p_payload p + 8) (p_size p) :: (EvPrecinct ∘ fst <$> d).
Proof.
  intros Hm [HM Hg Hsz Hpt] Hc Hb. destruct (mid_append p s _ _ Hm Hsz Hc) as (Hm1 & Hd1 & El & El').
  rewrite Hb in Hm1. pose proof (md_flight _ _ _ Hm) as [Hp Hf Hsoft]. destruct Hcb as (_ & R2 & _ & _).
  assert (chain_total_bytes_ (with_body p s) = chain_total_bytes_ s + p_size p) as Et
    by (rewrite (md_total _ _ _ Hm1); done).
  assert (∀ s', body_packet cb mem p s = Ret ((), s') →
    pull_data cb mem p s = (if p_marker p then end_of_frame cb mem else mret ()) s') as Hpull.
  { intros s' E. rewrite pull_data_quiet by (done || unfold zlength in Hc; done). cbn zeta. rewrite HM, Hp, Hf.
    cbn [Z.eqb negb orb andb Z.leb Z.compare]. by rewrite (bind_run _ _ s true s') by (by rewrite (bind_run _ _ _ _ _ E)). }
  unfold body_packet in Hpull. cbn zeta in Hpull. rewrite bind_get in Hpull.
  rewrite (bind_run _ _ _ _ _ (append_run cb p s R2)), bind_get in Hpull. fold (with_body p s) in Hpull.
  change (is_passed_header (with_body p s)) with (is_passed_header s) in Hpull. rewrite Hp in Hpull.
  destruct (Z.land (Z.shiftr (mem (p_payload p + 1)) 7) 1 =? 0); cbn [negb andb] in Hpull.
  { subst d. exists (with_body p s). split_and!; try done; [by apply Hpull|]. change (zlength (bytes_of [])) with 0.
    change (pos (cs (with_body p s))) with (pos (cs s)). lia. }
  destruct Hpt as [Hpos0 Hpos]. pose proof (md_room _ _ _ Hm) as Hroom. pose proof (md_total _ _ _ Hm) as Ht.
  unfold kSlabCap in *. rewrite (u32_small (chain_total_bytes_ s)) in Hpull by lia.
  rewrite u32_small in Hpull by lia. rewrite Hpos in Hpull.
  destruct (point_run (Z.land (load_be32 mem (p_payload p + 4)) 1048575) d (with_body p s) todo rest' Hm1 El')
    as (s' & E & Hm' & Hd' & Et' & Ep' & Etr).
  exists s'. split; [|split_and!; [done|by apply (during_trans [p] [] s (with_body p s))|congruence|done|]].
  - apply Hpull. rewrite bind_modify, bind_get. cbn [resync_armed_ set_tile with_body set_chain].
    change (resync_armed_ (add_events _ _)) with (resync_armed_ s). rewrite (md_armed _ _ _ Hm). cbn [andb].
    rewrite bind_ret, bind_get. cbn [is_parsing_failure resync_soft_ set_tile with_body set_chain add_events set_armed].
    rewrite Hf, Hsoft. cbn [negb andb]. erewrite bind_run; [|exact E]. rewrite bind_get.
    by rewrite (if_ok _ (md_flight _ _ _ Hm')).
  - rewrite Etr. cbn. by rewrite <- app_assoc.
Qed.
End Bodies.

Lemma mid_same m m' s todo rest :
  flat_bytes m' (chunks_ (cs s)) = flat_bytes m (chunks_ (cs s)) → mid m s todo rest → mid m' s todo rest.
Proof. intros E [H1 H2 [R1 R2 R3 R4] H4 H5]. split; [done|done| |done|done]. split; [done|done|by eapply stands_same|done]. Qed.

Section Stream.
Context (uninit : list tcomp_) (stale : Z → blk_) (cb : callbacks) (mem : memory).
#[local] Instance bs_ops : TileHandler tile_handler := tile_ops uninit stale.
#[local] Instance bs_laws : TileLaws tile_handler := tile_laws uninit stale.
Hypothesis Hcb : registered cb.
Hypothesis Hprec : prec_cb_ cb = true.
Implicit Types s : frame_handler tile_handler.

(** A packet handled with the memory [mi] of its time. *)
Lemma body_seen mi prev p d s todo rest rest' :
  mid mem s (d ++ todo) rest → sound_body mem (chain_total_bytes_ s) (pos (cs s)) p d →
  zlength (held_slabs_ s) < kSlabCap → rest ++ mem_bytes mem (p_payload p + 8) (p_size p) = bytes_of d ++ rest' →
  chunks_ (cs s) = chunk_of <$> prev → Forall (same_packet mem mi) (prev ++ [p]) →
  ∃ s', pull_data cb mi p s = (if p_marker p then end_of_frame cb mi else mret ()) s'
    ∧ mid mem s' todo rest' ∧ during [p] s s' ∧ chunks_ (cs s') = chunk_of <$> prev ++ [p]
    ∧ chain_total_bytes_ s' = chain_total_bytes_ s + p_size p ∧ pos (cs s') = pos (cs s) + zlength (bytes_of d)
    ∧ trace s' = trace s ++ EvChunk (chain_total_bytes_ s) (p_payload p + 8) (p_size p) :: (EvPrecinct ∘ fst <$> d).
Proof.
  intros Hm Hb Hc Hbytes Hch Hsame. pose proof Hsame as [Hs1 Hs2]%Forall_app. rewrite Forall_singleton in Hs2.
  pose proof (same_bytes _ _ _ Hs2) as Ep. unfold chunk_bytes in Ep. cbn [chunk_of base len] in Ep.
  destruct (body_step uninit stale cb mi Hcb Hprec p d s todo rest rest') as (s' & P & M & D & T & Q & R); try done.
  - eapply mid_same; [|exact Hm]. rewrite Hch. by apply same_chain.
  - by eapply same_body.
  - by rewrite Ep.
  - assert (chunks_ (cs s') = chunk_of <$> prev ++ [p]) as Hch' by (by rewrite (du_chunks _ _ _ D), Hch, fmap_app).
    exists s'. split_and!; try done. eapply mid_same; [|exact M]. rewrite Hch'. symmetry. by apply same_chain.
Qed.

(** ** All bodies of a frame *)
Lemma bytes_split rest new more d l post :
  rest ++ new ++ more = bytes_of (d ++ l) ++ post → zlength (bytes_of d) ≤ zlength (rest ++ new) →
  ∃ rest', rest ++ new = bytes_of d ++ rest' ∧ rest' ++ more = bytes_of l ++ post.
Proof.
  intros E Hl. rewrite bytes_of_app, <- app_assoc, app_assoc in E. symmetry in E. unfold zlength in Hl.
  destruct (prefix_split _ _ _ _ E) as (z & E1 & E2); [lia|]. by exists z.
Qed.

(** The packets [prev] are in the chain and the bodies [bs] to come. *)
Record ahead (bs : list (packet * list entry_of_walk)) (tail : list entry_of_walk) (post : list Z) (prev : list packet) s : Prop := {
  ah_mid : ∃ rest, mid mem s ((bs ≫= snd) ++ tail) rest
    ∧ rest ++ frame_bytes mem bs.*1 = bytes_of ((bs ≫= snd) ++ tail) ++ post;
  ah_sound : sound_bodies mem (chain_total_bytes_ s) (pos (cs s)) bs;
  ah_room : zlength (held_slabs_ s) + zlength bs ≤ kSlabCap;
  ah_chunks : chunks_ (cs s) = chunk_of <$> prev;
  ah_held : held_slabs_ s = p_slab <$> prev
}.

Lemma ahead_step mi p d bs tail post prev s :
  ahead ((p, d) :: bs) tail post prev s → Forall (same_packet mem mi) (prev ++ [p]) →
  ∃ s', pull_data cb mi p s = (if p_marker p then end_of_frame cb mi else mret ()) s'
    ∧ ahead bs tail post (prev ++ [p]) s' ∧ during [p] s s'
    ∧ chain_total_bytes_ s' = chain_total_bytes_ s + p_size p
    ∧ trace s' = trace s ++ EvChunk (chain_total_bytes_ s) (p_payload p + 8) (p_size p) :: (EvPrecinct ∘ fst <$> d).
Proof.
  intros [(rest & Hm & Hb) [Hs1 Hs2] Hc Hch Hh] Hsame.
  cbn [mbind list_bind snd] in Hm, Hb. change (list_bind _ _ snd bs) with (bs ≫= snd) in *.
  rewrite <- app_assoc in Hm, Hb. cbn [fmap list_fmap fst] in Hb. unfold frame_bytes in Hb. cbn [mbind list_bind] in Hb.
  change (list_bind _ _ _ (list_fmap _ _ fst bs)) with (frame_bytes mem bs.*1) in Hb.
  destruct (bytes_split _ _ _ _ _ _ Hb) as (rest' & E1 & E2).
  { destruct Hs1 as [_ _ Hsz Hpt]. pose proof (stands_pos mem _ _ (rd_stands _ _ _ _ _ (md_reading _ _ _ _ Hm))) as [Hp _].
    assert (zlength (mem_bytes mem (p_payload p + 8) (p_size p)) = p_size p) as En
      by (unfold zlength; rewrite length_mem_bytes; lia).
    rewrite zlength_app, En. rewrite <- (md_total _ _ _ _ Hm) in Hp. assert (0 ≤ zlength rest) by (unfold zlength; lia).
    destruct (_ =? 0); [subst d; change (zlength (bytes_of [])) with 0; lia|]. cbn zeta in Hpt. lia. }
  unfold zlength in Hc. cbn [length] in Hc.
  destruct (body_seen mi prev p d s _ _ rest' Hm Hs1 ltac:(unfold zlength; lia) E1 Hch Hsame)
    as (s1 & P1 & M1 & D1 & C1 & T1 & Q1 & R1).
  exists s1. split_and!; try done. split; [by exists rest'|by rewrite T1, Q1| |done|by rewrite (du_held _ _ _ D1), Hh, fmap_app].
  unfold zlength. rewrite (du_held _ _ _ D1), length_app, length_fmap. cbn [length]. lia.
Qed.

Lemma bodies_run bs ms prev s tail post :
  ahead bs tail post prev s → last_marked bs → seen mem prev ms bs.*1 →
  ∃ s' ml, pull_all cb (zip ms bs.*1) s = end_of_frame cb ml s'
    ∧ mid ml s' tail (bytes_of tail ++ post) ∧ during bs.*1 s s'
    ∧ trace s' = trace s ++ body_events (chain_total_bytes_ s) bs.
Proof.
  revert ms prev s. induction bs as [|[p d] bs IH]; intros ms prev s Ha Hl Hseen; [done|].
  destruct ms as [|mi ms]; [done|]. cbn [fmap list_fmap fst] in Hseen. destruct Hseen as (Hmi & Hsame & Hseen).
  destruct (ahead_step mi p d bs tail post prev s Ha Hsame) as (s1 & P1 & A1 & D1 & T1 & R1).
  cbn [fmap list_fmap zip zip_with pull_all fst]. destruct bs as [|b bs].
  - cbn in Hl. destruct ms as [|? ?]; [|done]. exists s1, mi. rewrite Hl in P1. destruct (ah_mid _ _ _ _ _ A1) as (rest & M1 & E).
    cbn in E. rewrite app_nil_r in E. subst rest.
    split_and!; [|eapply mid_same; [|exact M1]; rewrite (ah_chunks _ _ _ _ _ A1); by apply same_chain|done|].
    + unfold mbind, M_bind. rewrite P1. by destruct (end_of_frame cb mi s1) as [[[] ?]| |].
    + rewrite R1. cbn. by rewrite app_nil_r.
  - destruct Hl as [Hl1 Hl]. rewrite Hl1 in P1. destruct (IH ms (prev ++ [p]) s1 A1 Hl Hseen) as (s2 & ml & P2 & M2 & D2 & R2).
    exists s2, ml. split_and!; [|done|by apply (during_trans [p] _ s s1)|].
    + rewrite (bind_run _ _ _ _ _ P1). exact P2.
    + rewrite R2, R1, T1. cbn [body_events]. rewrite <- app_assoc. done.
Qed.
(** ** The stream *)

(** The tables of a stream with HT code-blocks that the decoder supports. *)
Record supported (h : tables) : Prop := {
  su_stream : stream_ok h;
  su_style c : 0 ≤ c < 3 → ht_style (coc_cbs (coc_at h c))
}.

(** The packet suits the entry of the walk: as many bands and code-blocks. *)
Definition suits (h : tables) (lk : entry_of_walk) : Prop :=
  let '(mkCrp c r np) := lk.1 in
  match lk.2 with
  | EmptyPacket => True
  | Coded dss =>
      zlength dss = bands_of (coc_at h c) (h_dfs h) r ∧ Forall (Forall (desc_valid (coc_cbs (coc_at h c)))) dss
      ∧ Forall (λ ds, zlength ds = (grid_at h c r np 0).1 * (grid_at h c r np 0).2) dss
  end.

(** The tile handler of the stream, between frames. *)
Record stream_at (h : tables) (walk : list crp_status) (t : tile_handler) : Prop := {
  st_tabs : tabs t = set_cocs (cocs_of h) h;
  st_ready : ready t = true;
  st_sized : th_sized t;
  st_walk : walk_of_stream h walk;
  st_tile : ∃ tile, head (tiles t) = Some tile ∧ crp tile = walk ∧ crp_idx tile = 0
    ∧ ∀ ct p, ct ∈ walk → get_prec tile ct = Some p →
        Z.to_nat (pr_num_bands p) = length (pr_pband p) ∧ Forall (fresh_band (nb_code_blocks p)) (pr_pband p);
  st_layout e : e ∈ walk →
    let g := grid_at h (crp_c e) (crp_r e) (crp_p e) 0 in
    grid_ok g.1 g.2 ∧ layout t e = Some (bands_of (coc_at h (crp_c e)) (h_dfs h) (crp_r e), g.1, g.2)
}.

Lemma stream_fits h walk t l :
  supported h → stream_at h walk t → fst <$> l = walk → Forall (suits h) l →
  ∃ tile, head (tiles t) = Some tile ∧ crp tile = walk ∧ crp_idx tile = 0 ∧ Forall (fits t tile) l
    ∧ NoDup (key_of ∘ fst <$> l).
Proof.
  intros Hsu [Ht _ _ HW (tile & Hh & Hc & Hi & Hp) Hlay] El Hl. exists tile. split_and!; [done..| |].
  2:{ rewrite list_fmap_compose, El. by eapply walk_keys_nodup. }
  apply Forall_forall. intros [e k] Hlk. rewrite Forall_forall in Hl. specialize (Hl _ Hlk).
  assert (e ∈ walk) as He by (rewrite <- El; apply list_elem_of_fmap; by exists (e, k)).
  destruct (Hlay e He) as [(G1 & G2 & G3) Hle]. pose proof He as (Hc' & _ & _)%(walk_elem h); [|done].
  unfold layout in Hle. rewrite Hh in Hle. cbn [mbind option_bind] in Hle. apply fmap_Some in Hle as (pr & Hpr & Hs).
  pose proof (f_equal (fst ∘ fst) Hs) as S1. pose proof (f_equal (snd ∘ fst) Hs) as S2. pose proof (f_equal snd Hs) as S3.
  cbn [compose fst snd shape_of] in S1, S2, S3. destruct (Hp _ _ He Hpr) as [Hn Hf].
  exists pr, (coc_at h (crp_c e)). cbn [fst snd]. split; [done|]. split.
  { rewrite Ht. cbn [h_cocs set_cocs]. clear -Hc'. revert Hc'. generalize (crp_c e). by apply three. }
  split; [by apply su_style|]. destruct e as [c r np]. destruct k as [|dss]; [done|]. destruct Hl as (H1 & H2 & H3).
  cbn [fst snd crp_c crp_r crp_p] in *.
  assert (nb_code_blocks pr = Z.to_nat ((grid_at h c r np 0).1 * (grid_at h c r np 0).2)) as En
    by (unfold nb_code_blocks; rewrite <- S2, <- S3, u32_small by nia; done).
  split; [congruence|]. split; [done|]. unfold zlength in *. assert (length dss = length (pr_pband pr)) as El2 by lia.
  apply Forall2_same_length_lookup. split; [done|]. intros i ds pb Hds Hpb. split.
  - rewrite En. pose proof (Forall_lookup_1 _ _ _ _ H3 Hds) as E. cbn beta in E. lia.
  - by eapply Forall_lookup_1.
Qed.

(** A frame on the wire. *)
Record frame := mkFrame {
  fr_mem : memory;                               (* the slabs when it is complete *)
  fr_mems : list memory;                         (* the slabs at each of its packets *)
  fr_header : list raw;                          (* its main header's marker segments *)
  fr_main : packet;
  fr_bodies : list (packet * list entry_of_walk);
  fr_tail : list entry_of_walk;                  (* behind the last resync point *)
  fr_post : list Z                               (* behind the last packet: EOC *)
}.
Definition fr_packets (f : frame) : list packet := fr_main f :: (fst <$> fr_bodies f).
Definition fr_entries (f : frame) : list entry_of_walk := (fr_bodies f ≫= snd) ++ fr_tail f.
Definition fr_sod (f : frame) : Z := zlength (raw_header (fr_header f)).
Definition fr_input (f : frame) : list (memory * packet) := zip (fr_mems f) (fr_packets f).

(** An intact frame: the main packet holds a framed header, the bytes behind it are the
    packets of the walk, and the resync points are on packet boundaries. *)
Record frame_sound (h : tables) (walk : list crp_status) (f : frame) : Prop := {
  fo_mem : byte_memory (fr_mem f);
  fo_MH : 2 ≤ Z.shiftr (fr_mem f (p_payload (fr_main f))) 6;
  fo_main : p_gap (fr_main f) = false ∧ p_marker (fr_main f) = false ∧ 0 < p_size (fr_main f) < 65536;
  fo_header : framed (fr_mem f) (p_payload (fr_main f) + 8) (p_size (fr_main f)) (fr_header f);
  fo_bodies : sound_bodies (fr_mem f) (p_size (fr_main f)) (fr_sod f) (fr_bodies f);
  fo_last : last_marked (fr_bodies f);
  fo_count : 1 + zlength (fr_bodies f) ≤ kSlabCap;
  fo_walk : fst <$> fr_entries f = walk;
  fo_suits : Forall (suits h) (fr_entries f);
  fo_bytes : drop (Z.to_nat (fr_sod f)) (frame_bytes (fr_mem f) (fr_packets f)) = bytes_of (fr_entries f) ++ fr_post f
}.

(** An intact frame whose packets are handled in memories that hold what has arrived. *)
Record frame_ok (h : tables) (walk : list crp_status) (f : frame) : Prop := {
  fo_sound :> frame_sound h walk f;
  fo_seen : seen (fr_mem f) [] (fr_mems f) (fr_packets f)
}.

(** What the main packet needs, in the memory of its time. *)
Record main_ok (m : memory) (f : frame) : Prop := {
  mo_mem : byte_memory m;
  mo_MH : 2 ≤ Z.shiftr (m (p_payload (fr_main f))) 6;
  mo_main : p_gap (fr_main f) = false ∧ p_marker (fr_main f) = false ∧ 0 < p_size (fr_main f) < 65536;
  mo_header : framed m (p_payload (fr_main f) + 8) (p_size (fr_main f)) (fr_header f)
}.

Lemma frame_main h walk f m :
  frame_sound h walk f → byte_memory m → same_packet (fr_mem f) m (fr_main f) → main_ok m f.
Proof.
  intros [_ HM Hp (F1 & F2 & F3) _ _ _ _ _ _] Hm Hs. split; [done| |done|].
  - pose proof (Hs 0 ltac:(lia)) as E. rewrite Z.add_0_r in E. by rewrite E.
  - split_and!; [done|done|]. unfold holds in *. rewrite <- F3 at 2. apply mem_bytes_ext. intros o Ho.
    rewrite <- !Z.add_assoc. apply Hs. lia.
Qed.
(** The memories of the first packet and of the others. *)
Lemma frame_mems h walk f :
  frame_ok h walk f → ∃ m0 ms, fr_mems f = m0 :: ms ∧ main_ok m0 f ∧ same_packet (fr_mem f) m0 (fr_main f)
    ∧ seen (fr_mem f) [fr_main f] ms (fst <$> fr_bodies f).
Proof.
  intros Hf. pose proof (fo_seen _ _ _ Hf) as Hs. unfold fr_packets in Hs. destruct (fr_mems f) as [|m0 ms]; [done|].
  destruct Hs as (H1 & H2 & H3). cbn [app] in H2. rewrite Forall_singleton in H2. exists m0, ms. split_and!; try done. exact (frame_main h walk f m0 Hf H1 H2).
Qed.

(** What the consumer sees of it; [relatch] is the report of a re-latch. *)
Definition frame_events (relatch : list event) (f : frame) : list event :=
  EvChunk 0 (p_payload (fr_main f) + 8) (p_size (fr_main f)) :: relatch
  ++ body_events (p_size (fr_main f)) (fr_bodies f) ++ (EvPrecinct ∘ fst <$> fr_tail f)
  ++ [EvReady (chunk_of <$> fr_packets f) true] ++ (EvRelease ∘ p_slab <$> fr_packets f).

(** The handler between frames. *)
Record idle s : Prop := {
  id_held : held_slabs_ s = [];
  id_total : chain_total_bytes_ s = 0;
  id_cs : cs s = empty_codestream;
  id_armed : resync_armed_ s = false;
  id_soft : resync_soft_ s = false;
  id_k : 0 ≤ relatch_k_ s
}.

(** On the stream [h] with signature [sig]. *)
Record on_stream (h : tables) (walk : list crp_status) (sig : Z) s : Prop := {
  os_idle : idle s;
  os_sig : geom_sig_ s = sig;
  os_hatch : hatch_open s = false;
  os_tile : stream_at h walk (tile_hndr s);
  os_passed : is_passed_header s = false
}.

(** The stream handler survives [flush] and [restart]. *)
Lemma restarted_stream h walk t t'' :
  stream_at h walk t → th_sized t'' → tabs t'' = tabs t → walk_of t'' = walk_of t → ready t'' = ready t →
  (∀ ct g, layout t ct = Some g → layout t'' ct = Some g) →
  Forall (λ tile, crp_idx tile = 0 ∧ ∀ ct p, get_prec tile ct = Some p →
    prec_shape p ∧ prec_clear p ∧ Forall (fresh_band (nb_code_blocks p)) (pr_pband p)) (tiles t'') →
  stream_at h walk t''.
Proof.
  intros [S1 S2 S3 S4 (tile & Hh & Hc & _ & _) S6] Hs Et Ew Er El Hf. split; [congruence|congruence|done|done| |].
  - unfold walk_of in Ew. rewrite Hh in Ew. cbn in Ew. destruct (tiles t'') as [|tile' l]; [done|]. injection Ew as Ew.
    apply Forall_cons in Hf as [[Hi Hp] _]. exists tile'. split_and!; [done|congruence|done|].
    intros ct p _ Hg. destruct (Hp ct p Hg) as ([Hn _] & _ & Hfr). done.
  - intros e He. destruct (S6 e He) as [G L]. split; [done|]. by apply El.
Qed.

Lemma kept_stream h walk t t' : kept t t' → stream_at h walk t →
  ∀ ct g, layout t ct = Some g → layout t' ct = Some g.
Proof. intros [_ _ _ K] _ ct g. by rewrite K. Qed.

(** The chain after the main packet. *)
Lemma main_stands m f :
  main_ok m f →
  let c := reset (fr_sod f) (append_chunk (p_payload (fr_main f) + 8) (p_size (fr_main f)) empty_codestream) in
  stands m c (drop (Z.to_nat (fr_sod f)) (frame_bytes m [fr_main f]))
  ∧ chunks_ c = [chunk_of (fr_main f)] ∧ pos c = fr_sod f.
Proof.
  intros Hf c. destruct (mo_header _ _ Hf) as (_ & Hlen & _). destruct (mo_main _ _ Hf) as (_ & _ & Hsz).
  assert (0 ≤ fr_sod f ≤ p_size (fr_main f)) as Hsod by (unfold fr_sod, zlength in *; lia).
  destruct (frame_chain_stands m (fr_sod f) (fr_main f) []
    (drop (Z.to_nat (fr_sod f)) (frame_bytes m [fr_main f])) []) as [Hst Hch].
  { lia. }
  { by apply Forall_singleton. }
  { done. }
  { by rewrite app_nil_r. }
  rewrite app_nil_r in Hst. split_and!; [done|done|].
  destruct (frame_chain_waits m (fr_sod f) (fr_main f) [] Hsod) as (_ & _ & _ & Hp & _); [by apply Forall_singleton|done|done].
Qed.
(** After the main packet of a frame. *)
Record opened (m : memory) (h : tables) (walk : list crp_status) (f : frame) s : Prop := {
  op_flight : in_flight s;
  op_armed : resync_armed_ s = false;
  op_tile : stream_at h walk (tile_hndr s);
  op_cs : stands m (cs s) (drop (Z.to_nat (fr_sod f)) (frame_bytes m [fr_main f]));
  op_chunks : chunks_ (cs s) = [chunk_of (fr_main f)] ∧ pos (cs s) = fr_sod f;
  op_held : held_slabs_ s = [p_slab (fr_main f)];
  op_total : chain_total_bytes_ s = p_size (fr_main f);
  op_k : 0 ≤ relatch_k_ s
}.

Lemma opened_mid h walk f s :
  supported h → frame_sound h walk f → opened mem h walk f s →
  mid mem s (fr_entries f) (drop (Z.to_nat (fr_sod f)) (frame_bytes mem [fr_main f])).
Proof.
  intros Hsu Hf [O1 O2 O3 O4 [O5 O5'] O6 O7 O8]. destruct (fo_main _ _ _ Hf) as (_ & _ & Hsz).
  destruct (stream_fits h walk _ (fr_entries f) Hsu O3 (fo_walk _ _ _ Hf) (fo_suits _ _ _ Hf)) as (tile & Hh & Hc & Hi & Hfit & Hn).
  assert (total_len (chunks_ (cs s)) = p_size (fr_main f)) as Et by (rewrite O5; cbn; lia).
  split; [done|done| |congruence|].
  - split; [|done|done|apply (st_sized _ _ _ O3)]. exists tile, []. split_and!; [done| |done|done].
    rewrite Hc. symmetry. apply (fo_walk _ _ _ Hf).
  - rewrite Et, O6. unfold zlength. cbn [length]. lia.
Qed.

Lemma opened_ahead h walk f s :
  supported h → frame_sound h walk f → fr_mem f = mem → opened mem h walk f s →
  ahead (fr_bodies f) (fr_tail f) (fr_post f) [fr_main f] s.
Proof.
  intros Hsu Hf Hmem Ho. pose proof (opened_mid h walk f s Hsu Hf Ho) as Hm.
  destruct Ho as [_ _ O3 _ [O5 O5'] O6 O7 O8]. pose proof (fo_bytes _ _ _ Hf) as Hb. rewrite Hmem in Hb.
  assert (fr_sod f ≤ p_size (fr_main f)) as Hsod by (destruct (fo_header _ _ _ Hf) as (_ & ? & _); unfold fr_sod, zlength; lia).
  split; [| |rewrite O6; apply (fo_count _ _ _ Hf)|done|done].
  - eexists. split; [exact Hm|]. unfold fr_entries in Hb. rewrite <- Hb. unfold fr_packets, frame_bytes. cbn [mbind list_bind].
    rewrite app_nil_r, drop_app_le; [done|]. rewrite length_mem_bytes. lia.
  - rewrite O7, O5', <- Hmem. apply (fo_bodies _ _ _ Hf).
Qed.

Lemma frame_rest h walk f ms s :
  supported h → frame_sound h walk f → fr_mem f = mem → opened mem h walk f s → seen mem [fr_main f] ms (fst <$> fr_bodies f) →
  ∃ s', pull_all cb (zip ms (fst <$> fr_bodies f)) s = Ret ((), s')
    ∧ on_stream h walk (geom_sig_ s) s'
    ∧ trace s' = trace s ++ body_events (p_size (fr_main f)) (fr_bodies f) ++ (EvPrecinct ∘ fst <$> fr_tail f)
        ++ [EvReady (chunk_of <$> fr_packets f) true] ++ (EvRelease ∘ p_slab <$> fr_packets f)
    ∧ total_frames s' = total_frames s + 1 ∧ trunc_frames s' = trunc_frames s ∧ relatches_ s' = relatches_ s.
Proof.
  intros Hsu Hf Hmem Ho Hseen. pose proof (opened_ahead h walk f s Hsu Hf Hmem Ho) as Ha.
  destruct Ho as [_ _ O3 _ [O5 O5'] O6 O7 O8].
  destruct (bodies_run (fr_bodies f) ms [fr_main f] s (fr_tail f) (fr_post f) Ha (fo_last _ _ _ Hf) Hseen)
    as (s1 & ml & P1 & M1 & D1 & T1).
  destruct (flush_step uninit stale ml (tile_hndr s1) (cs s1) (fr_tail f) (fr_post f) (md_reading _ _ _ _ M1))
    as (t' & c' & t'' & F1 & F2 & F3 & F4 & F5 & F6 & F7 & F8 & F9 & F10).
  destruct D1 as [K1 H1 C1 [N1 N1'] (L1 & L1' & L1'')].
  exists (ended (fst <$> fr_tail f) t'' s1). split; [|split; [|split; [|by split_and!; cbn; congruence]]].
  - rewrite P1. exact (intact_end_run uninit stale cb ml Hcb Hprec s1 t' c' _ t'' (md_flight _ _ _ _ M1) F1 F2 F3).
  - split; [split; try done; cbn; congruence|cbn; congruence| | |done].
    { unfold hatch_open. cbn [relatch_k_ parse_fail_streak_ ended]. rewrite L1'. destruct (Z.eqb_spec (relatch_k_ s) 0); [done|].
      apply Z.leb_gt. lia. }
    cbn [tile_hndr ended]. destruct K1 as [K1 K2 K3 K4].
    eapply (restarted_stream h walk (tile_hndr s)); try done; try congruence. intros ct g. rewrite <- K4. apply F9.
  - cbn [trace ended]. rewrite T1, O7, C1, H1, O5, O6. cbn [fr_packets fmap list_fmap app].
    rewrite <- !app_assoc, !list_fmap_compose. done.
Qed.
(** ** The main packet *)
Lemma frame_signature m f :
  main_ok m f →
  geometry_signature m (p_payload (fr_main f) + 8) (p_size (fr_main f))
  = Ret (signature_of (fr_header f), Some (fr_sod f)) ∧ 0 < fr_sod f ≤ p_size (fr_main f).
Proof.
  intros Hf. pose proof (mo_header _ _ Hf) as Hfr. destruct (mo_main _ _ Hf) as (_ & _ & Hsz).
  assert (0 < fr_sod f ≤ p_size (fr_main f)) as Hs.
  { destruct Hfr as (_ & Hl & _). unfold fr_sod, zlength. split; [|done]. unfold raw_header. rewrite !length_app. cbn. lia. }
  split; [|done]. rewrite (signature_framed m _ _ (fr_header f)) by (done || lia). do 3 f_equal.
  unfold fr_sod, zlength in *. apply u32_small. lia.
Qed.

Lemma fresh_idle m f s : idle s → main_ok m f → fresh_main m (fr_main f) s.
Proof. intros Hi Hf. destruct (mo_main _ _ Hf) as (? & ? & _). split; [apply Hi|done|apply (mo_MH _ _ Hf)|done]. Qed.

(** On a latched stream. *)
Lemma open_latched h walk f s :
  on_stream h walk (signature_of (fr_header f)) s → main_ok mem f →
  ∃ s', pull_data cb mem (fr_main f) s = Ret ((), s') ∧ opened mem h walk f s'
    ∧ geom_sig_ s' = signature_of (fr_header f) ∧ relatches_ s' = relatches_ s
    ∧ total_frames s' = total_frames s ∧ trunc_frames s' = trunc_frames s
    ∧ trace s' = trace s ++ [EvChunk 0 (p_payload (fr_main f) + 8) (p_size (fr_main f))].
Proof.
  intros [Hi Hsig Hh Ht _] Hf. destruct (frame_signature mem f Hf) as [Eg Hsod].
  destruct (mo_main _ _ Hf) as (_ & _ & Hsz). destruct Hcb as (_ & R2 & _ & _).
  destruct Hi as [I1 I2 I3 I4 I5 I6] eqn:Ei. destruct (main_stands mem f Hf) as (M1 & M2 & M3).
  exists (latched cb (signature_of (fr_header f)) (fr_sod f) (fr_main f) s). split.
  { apply latched_run; [by eapply fresh_idle|apply (st_ready _ _ _ Ht)|done|apply signature_nonzero|lia|by right|done]. }
  split.
  - split; [by split|done|done|cbn; by rewrite I3|cbn; by rewrite I3|done|cbn; rewrite I2; apply u64_small; lia|done].
  - cbn. unfold chunk_event. rewrite R2, I2, Hsig.
    rewrite (proj2 (Z.eqb_neq _ _) (signature_nonzero (fr_header f))). done.
Qed.
(** ** A stream that is not latched *)
Lemma swap_unit {R} (c : R) (h : tables) : swap_cs () (swap_cs c h) = h.
Proof. by destruct h as [[] ? ? ? ? ? ? ?]. Qed.

(** The header of the frame, read from its main packet. *)
Lemma header_into_run t f segs :
  let t0 := reset_caps (tabs t) in
  main_ok mem f → tables_wf (tabs t) → header_valid t0 segs → fr_header f = raws t0 segs →
  ∃ c', header_into mem t (reset 0 (append_chunk (p_payload (fr_main f) + 8) (p_size (fr_main f)) empty_codestream))
        = Ret (fr_sod f, set_tabs (foldl seg_apply t0 segs) t, c')
    ∧ stands mem c' (drop (Z.to_nat (fr_sod f)) (frame_bytes mem [fr_main f]))
    ∧ chunks_ c' = [chunk_of (fr_main f)] ∧ pos c' = fr_sod f.
Proof.
  intros t0 Hf Hwf Hv Eh. destruct (mo_main _ _ Hf) as (_ & _ & Hsz). destruct (frame_signature mem f Hf) as [_ Hsod].
  destruct (mo_header _ _ Hf) as (_ & Hlen & Hho). pose proof (mo_mem _ _ Hf) as Hbm.
  set (c0 := reset 0 _). set (l := raw_header (fr_header f)) in *.
  assert (l = main_header t0 segs) as El by (unfold l, raw_header, main_header; by rewrite Eh, raws_bytes).
  destruct (frame_chain_waits mem 0 (fr_main f) []) as (W1 & W2 & W3 & W4 & _ & W6); [lia|by apply Forall_singleton|done|].
  change (frame_chain 0 (fr_main f) []) with c0 in *.
  set (a := p_payload (fr_main f) + 8) in *. set (rest := mem_bytes mem (a + zlength l) (p_size (fr_main f) - zlength l)).
  assert (mem_bytes mem a (p_size (fr_main f)) = l ++ rest) as Em.
  { replace (p_size (fr_main f)) with (zlength l + (p_size (fr_main f) - zlength l)) at 1 by lia.
    unfold zlength in *. rewrite mem_bytes_split by lia. f_equal. exact Hho. }
  assert (flat_bytes mem (chunks_ c0) = l ++ rest) as Eb
    by (rewrite W6; cbn; rewrite app_nil_r; exact Em).
  destruct (header_chain_run mem (swap_cs c0 (tabs t)) segs rest Hbm W1 (tables_wf_swap _ _ Hwf)) as (c' & E & H1 & H2 & H3).
  { by rewrite swap_unit. }
  { cbn [h_cs swap_cs]. by rewrite W4, swap_unit, Eb, El. }
  cbn [h_cs swap_cs] in *. rewrite swap_unit, W4 in *. fold t0 in E, H2. rewrite <- El in E, H2.
  change (0 + Z.of_nat (length l)) with (fr_sod f) in *. rewrite u32_small in E by lia. exists c'.
  assert (header_into mem t c0 = Ret (fr_sod f, set_tabs (foldl seg_apply t0 segs) t, c')) as Eh2
    by (unfold header_into; rewrite E, swap_unit; done).
  destruct (header_into_core _ _ _ _ _ _ Eh2) as [[= C1 _ C3 _ C5] _].
  split_and!; [done| |by rewrite C1, W6|done].
  split_and!; [done|by rewrite C3|by rewrite C5|rewrite H2, C1, W6; cbn; lia|]. rewrite H3. unfold frame_bytes.
  cbn [mbind list_bind]. rewrite app_nil_r. fold a. rewrite Em. unfold fr_sod, zlength. rewrite Nat2Z.id. fold l.
  by rewrite drop_app_length.
Qed.
(** [create] leaves the stream's handler. *)
Lemma created_stream h tcs walk t :
  stream_ok h → uninit_ok uninit h → comps_built uninit h tcs → walk_of_stream h walk →
  stream_at h walk (created_handler h tcs walk t).
Proof.
  intros Hok Hu HB HW.
  assert (∀ e, e ∈ walk → ∃ p, get_prec (set_crp walk true (new_tile h tcs)) e = Some p
    ∧ prec_ready h (crp_c e) (crp_r e) (crp_p e) p) as Hp by (intros e; by apply (walk_precinct uninit h Hok)).
  split; [done|done|apply Forall_singleton; by apply (built_sized uninit)|done| |].
  - exists (set_crp walk true (new_tile h tcs)). split_and!; [done|done|done|]. intros ct p Hct Hg.
    destruct (Hp ct Hct) as (p' & Hg' & HP). rewrite Hg in Hg'. injection Hg' as <-.
    destruct (ready_blocks h _ _ _ _ HP (bands_some h _ _ _ _ HP)) as [En _]. destruct HP as [[Hn Hl] _ HF]. split.
    + unfold zlength in Hl. lia.
    + rewrite En. eapply Forall_impl; [exact HF|]. by intros pb [_ _ _ ?].
  - intros e He g. destruct (Hp e He) as (p & Hg & HP). pose proof (bands_some h _ _ _ _ HP) as Hne.
    destruct HP as [[Hn _] Eg HF]. destruct (pr_pband p) as [|pb l]; [done|]. apply Forall_cons in HF as [[Hgo _ _ _] _].
    split; [done|]. unfold layout, tile_layout. cbn [tiles created_handler head mbind option_bind]. rewrite Hg.
    cbn [fmap option_fmap option_map]. unfold shape_of. rewrite Hn. unfold g. by rewrite <- Eg.
Qed.

(** The structure [create] builds for the tables [h], and its walk. *)
Definition creates (h : tables) (t : tile_handler) (walk : list crp_status) : Prop :=
  ∃ tcs, create uninit stale (set_tabs h t) = Ret (true, created_handler h tcs walk (set_tabs h t))
    ∧ comps_built uninit h tcs ∧ walk_of_stream h walk.

Lemma open_anew s segs walk f :
  let t0 := reset_caps (tabs (tile_hndr s)) in
  let h := foldl seg_apply t0 segs in
  let sig := signature_of (raws t0 segs) in
  idle s → tables_wf (tabs (tile_hndr s)) → header_valid t0 segs → stream_ok h → uninit_ok uninit h → latches_anew sig s →
  creates h (latch_base s) walk → main_ok mem f → fr_header f = raws t0 segs →
  ∃ s', pull_data cb mem (fr_main f) s = Ret ((), s') ∧ opened mem h walk f s'
    ∧ geom_sig_ s' = sig ∧ relatches_ s' = relatches_ s + (if anew_reason sig s =? 0 then 0 else 1)
    ∧ total_frames s' = total_frames s ∧ trunc_frames s' = trunc_frames s
    ∧ trace s' = trace s ++ EvChunk 0 (p_payload (fr_main f) + 8) (p_size (fr_main f)) ::
        (if negb (anew_reason sig s =? 0) && relatch_cb_ cb then [EvRelatch (anew_reason sig s)] else []).
Proof.
  intros t0 h sig Hi Hwf Hv Hok Hu Ha (tcs & Ec & HB & HW) Hf Eh.
  assert (tabs (latch_base s) = tabs (tile_hndr s)) as Etb by (unfold latch_base; by destruct (is_ready _)).
  destruct (frame_signature mem f Hf) as [Eg Hsod].
  rewrite Eh in Eg. fold sig in Eg. destruct (mo_main _ _ Hf) as (_ & _ & Hsz).
  destruct (header_into_run (latch_base s) f segs) as (c' & E & S1 & S2 & S3); rewrite ?Etb; try done.
  rewrite Etb in E. fold t0 in E. fold h in E. pose proof (fresh_idle mem f s Hi Hf) as Hfm.
  destruct Hi as [I1 I2 I3 I4 I5 I6].
  destruct (latch_anew_run cb mem (fr_main f) s sig _ _ _ c' _ Hfm Ha Eg (signature_nonzero _)
    ltac:(rewrite I3; exact E) ltac:(lia) Ec)
    as (s' & P & H1 & H2 & H3 & H4 & (H5 & H5') & H6 & H7 & H8 & (H9 & H9') & H10 & H11 & H12 & H13 & H14).
  exists s'. split_and!; try done.
  - split; [split; congruence|congruence|rewrite H1; by apply created_stream|by rewrite H4|by rewrite H4|done| |congruence].
    rewrite H11, I2. apply u64_small. lia.
  - destruct Hcb as (_ & R2 & _ & _). rewrite H14. unfold chunk_event. rewrite R2, I2, <- app_assoc. done.
Qed.
End Stream.

(** The main packet was handled with another memory. *)
Lemma opened_agrees m m' h walk f s : same_packet m m' (fr_main f) → opened m h walk f s → opened m' h walk f s.
Proof.
  intros Hs [O1 O2 O3 O4 [O5 O5'] O6 O7 O8]. split; try done. pose proof (same_bytes _ _ _ Hs) as E.
  replace (frame_bytes m' [fr_main f]) with (frame_bytes m [fr_main f])
    by (unfold frame_bytes; cbn [mbind list_bind]; unfold chunk_bytes in E; cbn [chunk_of base len] in E; by rewrite E).
  eapply stands_same; [|exact O4]. rewrite O5. apply (same_chain m m' [fr_main f]). by apply Forall_singleton.
Qed.
Lemma same_sym m m' p : same_packet m m' p → same_packet m' m p.
Proof. intros H o Ho. symmetry. by apply H. Qed.

Section Frames.
Context (uninit : list tcomp_) (stale : Z → blk_) (cb : callbacks).
#[local] Instance fr_ops' : TileHandler tile_handler := tile_ops uninit stale.
#[local] Instance fr_laws' : TileLaws tile_handler := tile_laws uninit stale.
Hypothesis Hcb : registered cb.
Hypothesis Hprec : prec_cb_ cb = true.
Implicit Types s : frame_handler tile_handler.

(** A frame whose main packet has opened it. *)
Lemma frame_opened h walk f s m0 ms s1 :
  supported h → frame_ok h walk f → fr_mems f = m0 :: ms → same_packet (fr_mem f) m0 (fr_main f) →
  seen (fr_mem f) [fr_main f] ms (fst <$> fr_bodies f) →
  pull_data cb m0 (fr_main f) s = Ret ((), s1) → opened m0 h walk f s1 →
  ∃ s', pull_all cb (fr_input f) s = Ret ((), s')
    ∧ on_stream h walk (geom_sig_ s1) s'
    ∧ trace s' = trace s1 ++ body_events (p_size (fr_main f)) (fr_bodies f) ++ (EvPrecinct ∘ fst <$> fr_tail f)
        ++ [EvReady (chunk_of <$> fr_packets f) true] ++ (EvRelease ∘ p_slab <$> fr_packets f)
    ∧ total_frames s' = total_frames s1 + 1 ∧ trunc_frames s' = trunc_frames s1 ∧ relatches_ s' = relatches_ s1.
Proof.
  intros Hsu Hf Em Hsame Hseen P1 O1. apply (opened_agrees _ _ _ _ _ _ (same_sym _ _ _ Hsame)) in O1.
  destruct (frame_rest uninit stale cb (fr_mem f) Hcb Hprec h walk f ms s1 Hsu Hf eq_refl O1 Hseen) as (s2 & P2 & H2).
  exists s2. split; [|exact H2]. unfold fr_input, fr_packets. rewrite Em. cbn [zip zip_with pull_all]. by rewrite (bind_run _ _ _ _ _ P1).
Qed.

(** A whole frame of the latched stream. *)
Lemma latched_frame h walk f s :
  supported h → on_stream h walk (signature_of (fr_header f)) s → frame_ok h walk f →
  ∃ s', pull_all cb (fr_input f) s = Ret ((), s') ∧ on_stream h walk (signature_of (fr_header f)) s'
    ∧ trace s' = trace s ++ frame_events [] f
    ∧ total_frames s' = total_frames s + 1 ∧ trunc_frames s' = trunc_frames s ∧ relatches_ s' = relatches_ s.
Proof.
  intros Hsu Hos Hf. destruct (frame_mems h walk f Hf) as (m0 & ms & Em & Hmo & Hsame & Hseen).
  destruct (open_latched uninit stale cb m0 Hcb h walk f s Hos Hmo) as (s1 & P1 & O1 & G1 & L1 & N1 & N1' & T1).
  destruct (frame_opened h walk f s m0 ms s1 Hsu Hf Em Hsame Hseen P1 O1) as (s2 & P2 & O2 & T2 & N2 & N2' & L2). rewrite G1 in O2.
  exists s2. split_and!; [done|done| |congruence..]. rewrite T2, T1, <- app_assoc. done.
Qed.

(** The first frame of a stream. *)
Lemma first_frame s segs walk f :
  let t0 := reset_caps (tabs (tile_hndr s)) in
  let h := foldl seg_apply t0 segs in
  let sig := signature_of (raws t0 segs) in
  let r := anew_reason sig s in
  idle s → tables_wf (tabs (tile_hndr s)) → header_valid t0 segs → supported h → uninit_ok uninit h → latches_anew sig s →
  creates uninit stale h (latch_base s) walk → frame_ok h walk f → fr_header f = raws t0 segs →
  ∃ s', pull_all cb (fr_input f) s = Ret ((), s') ∧ on_stream h walk sig s'
    ∧ trace s' = trace s ++ frame_events (if negb (r =? 0) && relatch_cb_ cb then [EvRelatch r] else []) f
    ∧ total_frames s' = total_frames s + 1 ∧ trunc_frames s' = trunc_frames s
    ∧ relatches_ s' = relatches_ s + (if r =? 0 then 0 else 1).
Proof.
  intros t0 h sig r Hi Hwf Hv Hsu Hu Ha Hc Hf Eh. destruct (frame_mems h walk f Hf) as (m0 & ms & Em & Hmo & Hsame & Hseen).
  destruct (open_anew uninit stale cb m0 Hcb s segs walk f Hi Hwf Hv (su_stream _ Hsu) Hu Ha Hc Hmo Eh)
    as (s1 & P1 & O1 & G1 & L1 & N1 & N1' & T1).
  destruct (frame_opened h walk f s m0 ms s1 Hsu Hf Em Hsame Hseen P1 O1) as (s2 & P2 & O2 & T2 & N2 & N2' & L2). rewrite G1 in O2.
  exists s2. split_and!; [done|done| |congruence..|by rewrite L2, L1]. rewrite T2, T1, <- app_assoc. done.
Qed.
End Frames.

Lemma pull_all_app `{TileHandler T} cb l l' (s s1 : frame_handler T) :
  pull_all cb l s = Ret ((), s1) → pull_all cb (l ++ l') s = pull_all cb l' s1.
Proof.
  revert s. induction l as [|[m p] l IH]; intros s; cbn [pull_all app]; [by intros [= ->]|].
  unfold mbind, M_bind. destruct (pull_data cb m p s) as [[[] s']| |]; [apply IH|done|done].
Qed.

Lemma later_frames uninit stale cb h walk sig fs (s : frame_handler tile_handler) :
  let _ := tile_ops uninit stale in
  registered cb → prec_cb_ cb = true → supported h → on_stream h walk sig s →
  Forall (frame_ok h walk) fs → Forall (λ g, signature_of (fr_header g) = sig) fs →
  ∃ s', pull_all cb (fs ≫= fr_input) s = Ret ((), s') ∧ on_stream h walk sig s'
    ∧ trace s' = trace s ++ (fs ≫= frame_events [])
    ∧ total_frames s' = total_frames s + zlength fs ∧ trunc_frames s' = trunc_frames s ∧ relatches_ s' = relatches_ s.
Proof.
  intros ops Hcb Hprec Hsu Hos Hf. revert s Hos. induction Hf as [|f fs Hf _ IH]; intros s Hos Hsig.
  { exists s. split_and!; [done|done|by rewrite app_nil_r|unfold zlength; cbn; lia|done|done]. }
  apply Forall_cons in Hsig as [Es Hsig]. rewrite <- Es in Hos.
  destruct (latched_frame uninit stale cb Hcb Hprec h walk f s Hsu Hos Hf) as (s1 & P1 & O1 & T1 & N1 & N1' & L1).
  rewrite Es in O1. destruct (IH s1 O1 Hsig) as (s2 & P2 & O2 & T2 & N2 & N2' & L2). exists s2. rewrite bind_cons.
  split_and!; [|done| | |congruence..].
  - rewrite (pull_all_app cb (fr_input f) _ s s1); [done|exact P1].
  - rewrite T2, T1, bind_cons, app_assoc. done.
  - rewrite N2, N1. unfold zlength. cbn [length]. lia.
Qed.

(** The whole stream, and the handler on it at the end. *)
Lemma stream_run uninit stale cb segs (s : frame_handler tile_handler) :
  let _ := tile_ops uninit stale in
  let t0 := reset_caps (tabs (tile_hndr s)) in
  let h := foldl seg_apply t0 segs in
  let sig := signature_of (raws t0 segs) in
  let r := anew_reason sig s in
  registered cb → prec_cb_ cb = true → idle s → tables_wf (tabs (tile_hndr s)) → header_valid t0 segs →
  supported h → uninit_ok uninit h → latches_anew sig s →
  ∃ walk, creates uninit stale h (latch_base s) walk ∧ NoDup walk
    ∧ (∀ e, e ∈ walk ↔ 0 ≤ crp_c e < 3 ∧ 0 ≤ crp_r e ≤ coc_NL (coc_at h (crp_c e))
                        ∧ 0 ≤ crp_p e < precincts_of h (crp_c e) (crp_r e))
    ∧ ∀ f fs, Forall (frame_ok h walk) (f :: fs) → fr_header f = raws t0 segs →
        Forall (λ g, signature_of (fr_header g) = sig) fs →
        ∃ s', pull_all cb ((f :: fs) ≫= fr_input) s = Ret ((), s')
          ∧ trace s' = trace s ++ frame_events (if negb (r =? 0) && relatch_cb_ cb then [EvRelatch r] else []) f
                       ++ (fs ≫= frame_events [])
          ∧ total_frames s' = total_frames s + zlength (f :: fs) ∧ trunc_frames s' = trunc_frames s
          ∧ relatches_ s' = relatches_ s + (if r =? 0 then 0 else 1)
          ∧ on_stream h walk sig s'.
Proof.
  intros ops t0 h sig r Hcb Hprec Hi Hwf Hv Hsu Hu Ha.
  destruct (create_run uninit stale h (su_stream _ Hsu) (set_tabs h (latch_base s)) Hu eq_refl) as (tcs & walk & Ec & HB & HW).
  exists walk. split; [by exists tcs|]. split; [by eapply walk_nodup|]. split; [intros e; by apply walk_elem|].
  intros f fs Hf Eh Hsig. apply Forall_cons in Hf as [Hf Hfs].
  destruct (first_frame uninit stale cb Hcb Hprec s segs walk f Hi Hwf Hv Hsu Hu Ha) as (s1 & P1 & O1 & T1 & N1 & N1' & L1);
    [by exists tcs|done|done|].
  destruct (later_frames uninit stale cb h walk sig fs s1 Hcb Hprec Hsu O1 Hfs Hsig) as (s2 & P2 & O2 & T2 & N2 & N2' & L2).
  exists s2. rewrite bind_cons. split_and!; [| | |congruence|rewrite L2; exact L1|exact O2].
  - rewrite (pull_all_app cb (fr_input f) _ s s1); [done|exact P1].
  - rewrite T2, T1, <- app_assoc. done.
  - rewrite N2, N1. unfold zlength. cbn [length]. lia.
Qed.

(** ** Properties *)

(** C2: a stream is decoded and delivered, from its first header on.  The handler is
    between frames with nothing latched (or latched on another geometry, or with the
    escape hatch open), its tables of the declared dimensions.  A main header of any supported
    marker segments arrives, describing a stream in the supported scope ([supported]; the
    memory the components are built in is benign above the level count, [uninit_ok]), and then frames of that stream, each intact: the main packet
    (whose header may differ in what is not geometry), then body packets cut anywhere,
    the last one marked, any of them carrying a resync point on a packet boundary, and
    the bytes behind the header being the encoded packets of the stream's walk.  Then
    there is one walk, listing exactly the precincts of the stream, each once, such that
    for every such sequence of frames the consumer sees frame after frame: every byte
    range with contiguous offsets, every precinct of the walk once and in its order, as
    soon as a resync point completes it or at the end of the frame, one intact completion
    holding exactly the received ranges, and every slab given back; a re-latch is reported
    once, behind the first range.  All frames are counted, none as truncated. *)
Theorem stream_delivered uninit stale cb segs (s : frame_handler tile_handler) :
  let _ := tile_ops uninit stale in
  let t0 := reset_caps (tabs (tile_hndr s)) in
  let h := foldl seg_apply t0 segs in
  let sig := signature_of (raws t0 segs) in
  let r := anew_reason sig s in
  registered cb → prec_cb_ cb = true → idle s → tables_wf (tabs (tile_hndr s)) → header_valid t0 segs →
  supported h → uninit_ok uninit h → latches_anew sig s →
  ∃ walk, NoDup walk
    ∧ (∀ e, e ∈ walk ↔ 0 ≤ crp_c e < 3 ∧ 0 ≤ crp_r e ≤ coc_NL (coc_at h (crp_c e))
                        ∧ 0 ≤ crp_p e < precincts_of h (crp_c e) (crp_r e))
    ∧ ∀ f fs, Forall (frame_ok h walk) (f :: fs) → fr_header f = raws t0 segs →
        Forall (λ g, signature_of (fr_header g) = sig) fs →
        ∃ s', pull_all cb ((f :: fs) ≫= fr_input) s = Ret ((), s')
          ∧ trace s' = trace s ++ frame_events (if negb (r =? 0) && relatch_cb_ cb then [EvRelatch r] else []) f
                       ++ (fs ≫= frame_events [])
          ∧ total_frames s' = total_frames s + zlength (f :: fs) ∧ trunc_frames s' = trunc_frames s
          ∧ relatches_ s' = relatches_ s + (if r =? 0 then 0 else 1)
          ∧ held_slabs_ s' = [] ∧ ready (tile_hndr s') = true ∧ geom_sig_ s' = sig.
Proof.
  intros ops t0 h sig r Hcb Hprec Hi Hwf Hv Hsu Hu Ha.
  destruct (stream_run uninit stale cb segs s Hcb Hprec Hi Hwf Hv Hsu Hu Ha) as (walk & _ & N & W & H).
  exists walk. split; [done|]. split; [done|]. intros f fs Hf Eh Hsig.
  destruct (H f fs Hf Eh Hsig) as (s' & E & T & C1 & C2 & L & O). exists s'. split_and!; try done; apply O.
Qed.

(** ** Witness: two frames of the stream of [System], from the first header on *)
Definition wit_tables : tables := reset_caps (tabs new_tile_handler).
Definition wit_h : tables := foldl seg_apply wit_tables (sys_segs 32 16).
Definition wit_mem : memory :=
  list_mem (payload 3 0 0 (sys_header 32 16) ++ payload 0 0 0 (replicate 3 0) ++ payload 0 1 0 (replicate 3 0)).

(** Six empty packets: three in a quiet body, a resync point behind them. *)
Definition wit_frame (walk : list crp_status) : frame :=
  mkFrame wit_mem (replicate 3 wit_mem) (raws wit_tables (sys_segs 32 16)) main_pkt
    [(at_addr 94 3 false 7, []); (at_addr 105 3 true 8, (., EmptyPacket) <$> take 3 walk)]
    ((., EmptyPacket) <$> drop 3 walk) [].

Lemma wit_supported : supported wit_h.
Proof.
  split; [apply stream_okb_ok; vm_compute; reflexivity|].
  apply three; left; vm_compute; split; congruence.
Qed.

Lemma wit_segs_valid : header_valid wit_tables (sys_segs 32 16).
Proof.
  unfold sys_segs. repeat (apply conj || exact I || constructor); try (vm_compute; congruence).
Qed.

Lemma bytes_of_empty (w : list crp_status) : bytes_of ((., EmptyPacket) <$> w) = replicate (length w) 0.
Proof. induction w as [|e w IH]; [done|]. cbn [fmap list_fmap]. unfold bytes_of in *. rewrite bind_cons, IH. done. Qed.

Lemma wit_walk_length walk :
  NoDup walk →
  (∀ e, e ∈ walk ↔ 0 ≤ crp_c e < 3 ∧ 0 ≤ crp_r e ≤ coc_NL (coc_at wit_h (crp_c e))
                   ∧ 0 ≤ crp_p e < precincts_of wit_h (crp_c e) (crp_r e)) → length walk = 6%nat.
Proof.
  intros Hn He. set (l := (λ k : Z * Z, mkCrp k.1 k.2 0) <$> [(0, 0); (0, 1); (1, 0); (1, 1); (2, 0); (2, 1)]).
  rewrite (Permutation_length (l' := l)); [done|]. apply NoDup_Permutation; [done|by apply (bool_decide_eq_true_1 (NoDup l)); vm_compute|].
  assert (∀ c, 0 ≤ c < 3 → coc_NL (coc_at wit_h c) = 1 ∧ precincts_of wit_h c 0 = 1 ∧ precincts_of wit_h c 1 = 1) as HK
    by (apply three; vm_compute; done).
  intros e. rewrite He. destruct e as [c r p]. cbn [crp_c crp_r crp_p]. split.
  - intros (Hc & Hr & Hp). destruct (HK c Hc) as (E1 & E2 & E3). rewrite E1 in Hr.
    assert (r = 0 ∨ r = 1) as [-> | ->] by lia; rewrite ?E2, ?E3 in Hp; assert (p = 0) as -> by lia;
      (assert (c = 0 ∨ c = 1 ∨ c = 2) as [-> | [-> | ->]] by lia); unfold l; cbn; rewrite !elem_of_cons; tauto.
  - unfold l. intros ([c' r'] & [= -> -> ->] & Hk)%list_elem_of_fmap. cbn [fst snd] in *. rewrite !elem_of_cons in Hk.
    assert (0 ≤ c' < 3 ∧ (r' = 0 ∨ r' = 1)) as [Hc Hr].
    { destruct_or? Hk; try (injection Hk as -> ->; lia). by apply not_elem_of_nil in Hk. }
    destruct (HK c' Hc) as (E1 & E2 & E3). rewrite E1. split; [done|]. destruct Hr as [-> | ->]; rewrite ?E2, ?E3; lia.
Qed.

Lemma wit_frame_ok walk : length walk = 6%nat → frame_ok wit_h walk (wit_frame walk).
Proof.
  intros Hl. assert (fr_entries (wit_frame walk) = (., EmptyPacket) <$> walk) as Ee.
  { unfold fr_entries. cbn [wit_frame fr_bodies fr_tail]. rewrite !bind_cons. cbn [snd mbind list_bind app].
    rewrite app_nil_r, <- fmap_app, take_drop. done. }
  assert (fr_sod (wit_frame walk) = 86) as Es by (vm_compute; reflexivity).
  split; [split; rewrite ?Ee, ?Es|].
  - apply list_mem_bytes. vm_compute. reflexivity.
  - vm_compute. congruence.
  - cbn. split_and!; done.
  - split; [|split; [vm_compute; congruence|vm_compute; reflexivity]].
    apply (bool_decide_eq_true_1 (Forall raw_ok _)). vm_compute. reflexivity.
  - cbn [sound_bodies wit_frame fr_bodies fr_main fr_mem]. split_and!; [| |done].
    + split; [done|done|cbn; lia|done].
    + split; [done|done|cbn; lia|]. rewrite bytes_of_empty, length_take, Hl. vm_compute. split_and!; congruence.
  - done.
  - vm_compute. congruence.
  - rewrite <- list_fmap_compose. apply list_fmap_id.
  - apply Forall_forall. intros lk (e & -> & _)%list_elem_of_fmap. by destruct e.
  - cbn [fr_post wit_frame]. rewrite bytes_of_empty, Hl, app_nil_r. vm_compute. reflexivity.
  - assert (byte_memory wit_mem) by (apply list_mem_bytes; vm_compute; reflexivity).
    cbn. split_and!; [done|by repeat constructor|done|by repeat constructor|done|by repeat constructor|done].
Qed.

Lemma stream_delivered_witness :
  ∃ walk s', length walk = 6%nat
    ∧ pull_all (H := sys_ops) all_cb ([wit_frame walk; wit_frame walk] ≫= fr_input) (started new_tile_handler 4) = Ret ((), s')
    ∧ total_frames s' = 2
    ∧ trace s' = frame_events [] (wit_frame walk) ++ frame_events [] (wit_frame walk).
Proof.
  destruct (stream_delivered [blank; blank; blank] (λ _, demo_blk) all_cb (sys_segs 32 16) (started new_tile_handler 4))
    as (walk & N & W & H).
  - exact all_registered.
  - reflexivity.
  - split; first [reflexivity|cbn; lia].
  - split; cbn; repeat constructor.
  - exact wit_segs_valid.
  - exact wit_supported.
  - apply (blank_uninit_ok wit_h (mkGeo 0 0 0 0)).
  - left. reflexivity.
  - pose proof (wit_walk_length walk N W) as Hl. pose proof (wit_frame_ok walk Hl) as Hf.
    destruct (H (wit_frame walk) [wit_frame walk]) as (s' & E & T & C & _).
    + apply Forall_cons. split; [exact Hf|]. apply Forall_singleton. exact Hf.
    + reflexivity.
    + apply Forall_singleton. reflexivity.
    + exists walk, s'. split; [exact Hl|]. split; [exact E|]. split; [exact C|]. rewrite T. cbn [mbind list_bind]. by rewrite app_nil_r.
Defined.
