(* ===== verification/Resilience.v ===== *)
(** * Resilience: damage is confined to the frames it hits

    A latched stream is disturbed by any packets: lost or damaged ones, gaps accepted or
    not, missing ends of frames, malformed main headers, resync points anywhere.  Whatever
    they do to the walk and the reader, the structure keeps its shape, and the next intact
    frame finds the handler as it was between frames. *)
From S2P Require Import Prelude Codestream BitReader Markers Structs MainHeader HeaderSpec Signature.
From S2P Require Import PacketHeader PacketSpec PacketSafety Progression Geometry GeometrySpec TileHandler TileSpec.
From S2P Require Import TileSafety TileRestart Create FrameHandler Ownership System EndToEnd Stream.

(** ** The tile handler of a stream, in whatever state a frame left its precincts *)
Record structured (h : tables) (walk : list crp_status) (t : tile_handler) : Prop := {
  sr_tabs : tabs t = set_cocs (cocs_of h) h;
  sr_ready : ready t = true;
  sr_sized : th_sized t;
  sr_stream : walk_of_stream h walk;
  sr_walk : walk_of t = Some walk;
  sr_layout e : e ∈ walk →
    let g := grid_at h (crp_c e) (crp_r e) (crp_p e) 0 in
    grid_ok g.1 g.2 ∧ layout t e = Some (bands_of (coc_at h (crp_c e)) (h_dfs h) (crp_r e), g.1, g.2)
}.

Lemma stream_structured h walk t : stream_at h walk t → structured h walk t.
Proof.
  intros [S1 S2 S3 S4 (tile & Hh & Hc & _ & _) S6]. split; try done. unfold walk_of. rewrite Hh. cbn. by rewrite Hc.
Qed.

Lemma structured_kept h walk t t' : kept t t' → th_sized t' → structured h walk t → structured h walk t'.
Proof.
  intros [K1 K2 K3 K4] Hs [S1 S2 S3 S4 S5 S6]. split; try congruence; try done. intros e He g. rewrite K4. by apply S6.
Qed.

(** [restart] always finds its way back. *)
Lemma structured_restart h walk t : structured h walk t → ∃ t', restart_tiles t = Ret t' ∧ stream_at h walk t'.
Proof.
  intros [S1 S2 S3 S4 S5 S6]. destruct (restart_run (λ _, 0) (mkPst t empty_codestream []) (mkPst t empty_codestream []) S3 (run_nil _ _))
    as (t' & E & Hz & Hf & _ & Hw & Ht & Hr & Hl). exists t'. split; [exact E|]. cbn [ps_th] in *.
  split; [congruence|congruence|done|done| |].
  - unfold walk_of in Hw, S5. rewrite S5 in Hw. destruct (tiles t') as [|tile l]; [done|]. injection Hw as Hw.
    apply Forall_cons in Hf as [[Hi Hp] _]. exists tile. split_and!; [done|done|done|].
    intros ct p _ Hg. destruct (Hp ct p Hg) as ([Hn _] & _ & Hfr). done.
  - intros e He. destruct (S6 e He) as [G L]. split; [done|]. by apply Hl.
Qed.

(** The precinct walks leave it structured, on any bytes. *)
Lemma walk_structured h walk mem t c (m : M pst Z) r s' :
  m = parse mem ∨ m = flush mem → m (mkPst t c []) = Ret (r, s') → structured h walk t → structured h walk (ps_th s').
Proof.
  intros Hm E Hs. assert (frame_run mem (mkPst t c []) (set_pcs (ps_cs s') (set_pth (set_signals (signal_queue_ (ps_th s'))) s'))) as Hr.
  { eapply run_step; [|apply run_nil]. destruct Hm as [-> | ->]; eauto. }
  destruct (frame_run_keeps mem _ _ Hr (sr_sized _ _ _ Hs)) as (H1 & H2 & H3 & H4 & H5).
  eapply structured_kept; [|exact H1|exact Hs]. by split.
Qed.

Lemma bind_same {S A B} (m : M S A) (k : A → M S B) s s' : m s = m s' → (m ≫= k) s = (m ≫= k) s'.
Proof. intros E. unfold mbind, M_bind. by rewrite E. Qed.

Section Resilience.
Context (uninit : list tcomp_) (stale : Z → blk_) (cb : callbacks).
#[local] Instance rz_ops : TileHandler tile_handler := tile_ops uninit stale.
Context (h : tables) (walk : list crp_status) (sig : Z).
Implicit Types s : frame_handler tile_handler.

(** Tuned to the stream. *)
Record tuned s : Prop := {
  tn_tile : structured h walk (tile_hndr s);
  tn_sig : geom_sig_ s = sig;
  tn_k : 0 ≤ relatch_k_ s
}.
(** A frame in flight, intact or not; between frames. *)
Record busy s : Prop := {
  by_tuned : tuned s;
  by_held : held_slabs_ s ≠ [];
  by_armed : resync_armed_ s = true → resync_soft_ s = true;
  by_soft : resync_soft_ s = true → is_passed_header s = true
}.
Record resting s : Prop := {
  rt_idle : idle s;
  rt_sig : geom_sig_ s = sig;
  rt_tile : stream_at h walk (tile_hndr s);
  rt_passed : is_passed_header s = false
}.
Definition steady s : Prop := busy s ∨ resting s.

Lemma resting_tuned s : resting s → tuned s.
Proof. intros [[] ? Ht _]. split; [by apply stream_structured|done|done]. Qed.
Lemma steady_tuned s : steady s → tuned s.
Proof. intros [[? _ _ _]|?%resting_tuned]; done. Qed.

(** ** Rules: from [P] to [Q], if it returns *)
Definition goes {A} (P : frame_handler tile_handler → Prop) (m : M (frame_handler tile_handler) A)
    (Q : A → frame_handler tile_handler → Prop) : Prop :=
  ∀ s, P s → match m s with Ret (a, s') => Q a s' | _ => True end.

Lemma goes_ret {A} (a : A) (P : frame_handler tile_handler → Prop) (Q : A → _ → Prop) : (∀ s, P s → Q a s) → goes P (mret a) Q.
Proof. intros H s. apply H. Qed.
Lemma goes_bind {A B} P (m : M _ A) (k : A → M _ B) Q R : goes P m Q → (∀ a, goes (Q a) (k a) R) → goes P (m ≫= k) R.
Proof.
  intros Hm Hk s Hs. specialize (Hm s Hs). unfold mbind, M_bind. destruct (m s) as [[a s']| |]; [|done|done]. by apply Hk.
Qed.
Lemma goes_get {B} P (k : _ → M _ B) R : (∀ s, P s → goes (λ s', s' = s) (k s) R) → goes P (get_st ≫= k) R.
Proof. intros Hk s Hs. rewrite bind_get. by apply (Hk s Hs s). Qed.
Lemma goes_modify {B} (P : _ → Prop) f (k : () → M _ B) Q R :
  (∀ s, P s → Q (f s)) → goes Q (k ()) R → goes P (modify f ≫= k) R.
Proof. intros Hf Hk s Hs. rewrite bind_modify. by apply Hk, Hf. Qed.
Lemma goes_last (P : _ → Prop) f (Q : () → _ → Prop) : (∀ s, P s → Q () (f s)) → goes P (modify f) Q.
Proof. intros Hf s Hs. by apply Hf. Qed.
Lemma goes_pre {A} (P P' : frame_handler tile_handler → Prop) (m : M _ A) Q : (∀ s, P s → P' s) → goes P' m Q → goes P m Q.
Proof. intros HP Hm s Hs. by apply Hm, HP. Qed.
Lemma goes_post {A} P (m : M _ A) (Q Q' : A → _ → Prop) : goes P m Q → (∀ a s, Q a s → Q' a s) → goes P m Q'.
Proof. intros Hm HQ s Hs. specialize (Hm s Hs). destruct (m s) as [[a s']| |]; [|done|done]. by apply HQ. Qed.

(** ** Giving a frame up *)

(** The same but for the resync state, the trace and the bookkeeping of aborts. *)
Record calm s s' : Prop := {
  ca_tile : tile_hndr s' = tile_hndr s;
  ca_latch : geom_sig_ s' = geom_sig_ s ∧ relatch_k_ s' = relatch_k_ s ∧ relatches_ s' = relatches_ s;
  ca_streak : parse_fail_streak_ s' = parse_fail_streak_ s;
  ca_counts : total_frames s' = total_frames s ∧ trunc_frames s' = trunc_frames s;
  ca_flags : is_parsing_failure s' = is_parsing_failure s ∧ is_passed_header s' = is_passed_header s
}.
#[local] Instance calm_preorder : PreOrder calm.
Proof.
  split; [by intros s|]. intros s1 s2 s3 [A1 (A2 & A3 & A4) A5 [A6 A7] [A8 A9]] [B1 (B2 & B3 & B4) B5 [B6 B7] [B8 B9]].
  split; [congruence|split_and!; congruence|congruence|split; congruence|split; congruence].
Qed.

Definition closing_event (e : event) : Prop := match e with EvAbort _ | EvRelease _ => True | _ => False end.

Lemma abort_run reason s :
  ∃ s' evs, fire_abort cb reason s = Ret ((), s') ∧ calm s s' ∧ resync_armed_ s' = false ∧ resync_soft_ s' = false
    ∧ held_slabs_ s' = held_slabs_ s ∧ cs s' = cs s ∧ chain_total_bytes_ s' = chain_total_bytes_ s
    ∧ trace s' = trace s ++ evs ∧ Forall closing_event evs ∧ released evs = [].
Proof.
  unfold fire_abort. assert (∃ s1, (if reason =? kAbortParse then modify (set_parse_failed true) else mret ()) s = Ret ((), s1)
    ∧ calm s s1 ∧ abort_armed_ s1 = abort_armed_ s ∧ held_slabs_ s1 = held_slabs_ s ∧ cs s1 = cs s
    ∧ chain_total_bytes_ s1 = chain_total_bytes_ s ∧ trace s1 = trace s) as (s1 & E & C1 & Ha & H1 & H2 & H3 & H4).
  { destruct (reason =? kAbortParse); by eexists. }
  rewrite (bind_run _ _ _ _ _ E), bind_modify, bind_get. cbn [abort_armed_ set_resync]. rewrite Ha. destruct (abort_armed_ s).
  - rewrite bind_modify. unfold emit. destruct (frame_abort_cb_ cb); cbn [modify mret M_ret].
    + eexists _, [EvAbort reason]. split; [done|]. cbn. rewrite H1, H2, H3, H4. split_and!; try done; [|by constructor].
      etrans; [exact C1|by split].
    + eexists _, []. split; [done|]. cbn. rewrite H1, H2, H3, H4, app_nil_r. split_and!; try done. etrans; [exact C1|by split].
  - eexists _, []. split; [done|]. cbn. rewrite H1, H2, H3, H4, app_nil_r. split_and!; try done. etrans; [exact C1|by split].
Qed.

(** The slabs go back and the tile handler is renewed. *)
Record renewed s s' : Prop := {
  rw_held : held_slabs_ s' = [] ∧ chain_total_bytes_ s' = 0 ∧ cs s' = empty_codestream;
  rw_tile : stream_at h walk (tile_hndr s');
  rw_latch : geom_sig_ s' = geom_sig_ s ∧ relatch_k_ s' = relatch_k_ s ∧ relatches_ s' = relatches_ s;
  rw_streak : parse_fail_streak_ s' = parse_fail_streak_ s;
  rw_counts : total_frames s' = total_frames s ∧ trunc_frames s' = trunc_frames s;
  rw_flags : is_parsing_failure s' = is_parsing_failure s ∧ is_passed_header s' = is_passed_header s;
  rw_resync : resync_armed_ s' = resync_armed_ s ∧ resync_soft_ s' = resync_soft_ s
}.

Lemma renew_run s {B} (k : M (frame_handler tile_handler) B) :
  structured h walk (tile_hndr s) →
  ∃ s', (release_held_slabs cb ;; restart ;; k) s = k s' ∧ renewed s s'
    ∧ trace s' = trace s ++ (if release_slab_cb_ cb then EvRelease <$> held_slabs_ s else []).
Proof.
  intros (t' & Er & Ht)%structured_restart. unfold release_held_slabs.
  set (s1 := set_chain [] 0 (clear (cs s)) (add_events (if release_slab_cb_ cb then EvRelease <$> held_slabs_ s else []) s)).
  exists (set_tile t' (cs s1) s1). split; [|by split].
  assert ((s0 ← get_st; modify (add_events (if release_slab_cb_ cb then EvRelease <$> held_slabs_ s0 else [])) ;;
    modify (set_chain [] 0 (clear (cs s0)))) s = Ret ((), s1)) as -> % (bind_run _ (λ _, restart ;; k)) by done.
  assert (restart s1 = Ret ((), set_tile t' (cs s1) s1)) as -> % (bind_run _ (λ _, k)); [|done].
  unfold restart. cbn [th_restart rz_ops tile_ops tile_hndr s1 set_chain add_events]. by rewrite Er.
Qed.

Lemma renew_end s : structured h walk (tile_hndr s) → ∃ s', (release_held_slabs cb ;; restart) s = Ret ((), s') ∧ renewed s s'.
Proof.
  intros Ht. destruct (renew_run s (mret ()) Ht) as (s' & E & R & _). exists s'. split; [|done].
  revert E. unfold mbind, M_bind. destruct (release_held_slabs cb s) as [[? s5]| |]; [|done|done].
  by destruct (restart s5) as [[[] s6]| |].
Qed.

Lemma renewed_resting s s' :
  renewed s s' → geom_sig_ s = sig → 0 ≤ relatch_k_ s → resync_armed_ s = false → resync_soft_ s = false →
  is_passed_header s = false → resting s'.
Proof. intros [(H1 & H2 & H3) Ht (L1 & L2 & _) _ _ [_ F] [R1 R2]] Hs Hk Ha Hf Hp. split; [split; congruence|congruence|done|congruence]. Qed.

Lemma give_up_run reason s {B} (k : M (frame_handler tile_handler) B) :
  structured h walk (tile_hndr s) →
  ∃ s' evs, (fire_abort cb reason ;; release_held_slabs cb ;; restart ;; k) s = k s'
    ∧ renewed (set_resync false false s) s' ∧ trace s' = trace s ++ evs ∧ Forall closing_event evs
    ∧ (release_slab_cb_ cb = true → released evs = held_slabs_ s).
Proof.
  intros Ht. destruct (abort_run reason s) as (s1 & evs & E & [C1 C2 C3 C4 C5] & A1 & A2 & A3 & A4 & A5 & A6 & A7 & A8).
  rewrite (bind_run _ _ _ _ _ E). destruct (renew_run s1 k) as (s2 & E2 & [R1 R2 R3 R4 R5 R6 R7] & T2); [by rewrite C1|].
  exists s2, (evs ++ (if release_slab_cb_ cb then EvRelease <$> held_slabs_ s1 else [])). split; [exact E2|]. split.
  { split; [done|done|destruct C2 as (? & ? & ?), R3 as (? & ? & ?); cbn; split_and!; congruence
      |cbn; congruence|destruct C4, R5; cbn; split; congruence|destruct C5, R6; cbn; split; congruence
      |destruct R7; cbn; split; congruence]. }
  split; [by rewrite T2, A6, app_assoc|]. split.
  - apply Forall_app. split; [done|]. destruct (release_slab_cb_ cb); [|constructor]. apply Forall_forall.
    intros e (i & -> & _)%list_elem_of_fmap. done.
  - intros ->. rewrite released_app, released_all, A8. done.
Qed.

(** From [s] to [s'] at most [n] frames were given up, and nothing else happened. *)
Record closes (n : Z) s s' : Prop := {
  cl_latch : geom_sig_ s' = geom_sig_ s ∧ relatch_k_ s' = relatch_k_ s ∧ relatches_ s' = relatches_ s;
  cl_streak : 0 ≤ parse_fail_streak_ s → 0 ≤ parse_fail_streak_ s' ≤ parse_fail_streak_ s + n;
  cl_counts : total_frames s ≤ total_frames s' ≤ total_frames s + n ∧ trunc_frames s ≤ trunc_frames s' ≤ trunc_frames s + n;
  cl_trace : ∃ evs, trace s' = trace s ++ evs ∧ Forall closing_event evs
    ∧ (release_slab_cb_ cb = true → released evs ++ held_slabs_ s' = held_slabs_ s)
}.
Lemma closes_refl n s : 0 ≤ n → closes n s s.
Proof. intros Hn. split; [done|lia|lia|]. exists []. rewrite app_nil_r. by split_and!. Qed.

Lemma streak_step b s : ∃ s', end_frame_streak b s = Ret ((), s') ∧ tile_hndr s' = tile_hndr s ∧ held_slabs_ s' = held_slabs_ s
  ∧ (0 ≤ parse_fail_streak_ s → 0 ≤ parse_fail_streak_ s' ≤ parse_fail_streak_ s + 1)
  ∧ s' = set_parse_failed false (set_latch (geom_sig_ s) (parse_fail_streak_ s') (relatches_ s) s).
Proof.
  eexists. split; [done|]. split_and!; [done|done| |done]. cbn. intros Hn. destruct b; [lia|]. destruct (frame_parse_failed_ s); [|lia].
  unfold u32. pose proof (Z.mod_pos_bound (parse_fail_streak_ s + 1) 4294967296 ltac:(lia)).
  pose proof (Z.mod_le (parse_fail_streak_ s + 1) 4294967296 ltac:(lia) ltac:(lia)). lia.
Qed.

Lemma slab_cap_run s :
  steady s → ∃ s', slab_cap cb s = Ret ((), s') ∧ closes 1 s s' ∧ (s' = s ∨ resting s').
Proof.
  intros Hs. unfold slab_cap. rewrite bind_get. destruct (Z.leb_spec kSlabCap (Z.of_nat (length (held_slabs_ s)))).
  2:{ exists s. split_and!; [done|by apply closes_refl|by left]. }
  destruct (steady_tuned s Hs) as [Ht Hg Hk].
  match goal with |- context [(fire_abort cb kAbortSlabCap ;; release_held_slabs cb ;; restart ;; ?k) s] =>
    destruct (give_up_run kAbortSlabCap s k Ht) as (s1 & evs & -> & R & T & Ec & Er) end.
  rewrite bind_modify. set (s2 := set_counts _ _ s1). destruct (streak_step false s2) as (s3 & E3 & P1 & P2 & P3 & P4).
  rewrite (bind_run _ _ _ _ _ E3). cbn [modify]. eexists. split; [done|]. rewrite P4. clear E3 P4.
  pose proof R as [(R1 & R1' & R1'') R2 (R3 & R3' & R3'') R4 [R5 R5'] [R6 R6'] [R7 R7']]. cbn in *. rewrite R4 in P3. split.
  - split; cbn; [by split_and!|done|lia|]. exists evs. rewrite T, R1, app_nil_r. by split_and!.
  - right. split; [split; cbn; congruence|cbn; congruence|done|done].
Qed.

Lemma missed_eoc_run s :
  steady s → ∃ s', missed_eoc cb s = Ret ((), s') ∧ closes 1 s s' ∧ resting s'.
Proof.
  intros Hs. unfold missed_eoc. rewrite bind_get. case_bool_decide as Hh.
  { exists s. split_and!; [done|by apply closes_refl|]. destruct Hs as [[_ Hb _ _]|]; done. }
  destruct (steady_tuned s Hs) as [Ht Hg Hk].
  match goal with |- context [(fire_abort cb kAbortMissedEOC ;; release_held_slabs cb ;; restart ;; ?k) s] =>
    destruct (give_up_run kAbortMissedEOC s k Ht) as (s1 & evs & -> & R & T & Ec & Er) end.
  pose proof R as [(R1 & R1' & R1'') R2 (R3 & R3' & R3'') R4 [R5 R5'] [R6 R6'] [R7 R7']]. cbn in R3, R3', R3'', R4, R5, R5', R7, R7'.
  rewrite bind_get. destruct (is_passed_header s1 || is_parsing_failure s1).
  - set (s2 := set_counts (total_frames s1 + 1) (trunc_frames s1 + 1) s1).
    destruct (streak_step false s2) as (s3 & E3 & P1 & P2 & P3 & P4).
    rewrite (bind_run _ _ s1 () s3) by (rewrite bind_modify; exact E3). cbn [modify]. eexists. split; [done|]. rewrite P4. clear E3 P4.
    cbn in P3. rewrite R4 in P3. split.
    + split; cbn; [by split_and!|done|lia|]. exists evs. rewrite T, R1, app_nil_r. by split_and!.
    + split; [split; cbn; congruence|cbn; congruence|done|done].
  - rewrite (bind_run _ _ s1 () s1) by done. cbn [modify]. eexists. split; [done|]. split.
    + split; cbn; [by split_and!|lia|lia|]. exists evs. rewrite T, R1, app_nil_r. by split_and!.
    + split; [split; cbn; congruence|cbn; congruence|done|done].
Qed.

(** ** Any packet *)
Lemma on_gap_keeps p s :
  steady s → match on_gap cb p s with
             | Ret (_, s') => steady s' ∧ relatch_k_ s' = relatch_k_ s ∧ parse_fail_streak_ s' = parse_fail_streak_ s
             | _ => True end.
Proof.
  intros Hs. unfold on_gap. rewrite bind_get.
  destruct (p_gap p && _ && _) eqn:E; [|done]. apply andb_true_iff in E as [E Ef]. apply andb_true_iff in E as [_ E].
  destruct Hs as [[[T1 T2 T3] B2 B3 B4]|[[I1 _ _ _ _ _] _ _ Hp]].
  2:{ rewrite Hp, I1 in E. by rewrite bool_decide_eq_true_2 in E. }
  assert (∀ s0, tile_hndr s0 = tile_hndr s → geom_sig_ s0 = geom_sig_ s → relatch_k_ s0 = relatch_k_ s → held_slabs_ s0 = held_slabs_ s →
    parse_fail_streak_ s0 = parse_fail_streak_ s →
    match (fire_abort cb kAbortGap ;; modify (λ s, set_flags true (is_passed_header s) s)) s0 with
    | Ret (_, s') => steady s' ∧ relatch_k_ s' = relatch_k_ s ∧ parse_fail_streak_ s' = parse_fail_streak_ s | _ => True end) as Hab.
  { intros s0 E1 E2 E3 E4 E5. destruct (abort_run kAbortGap s0) as (s1 & evs & Er & [C1 (C2 & C2' & _) C3 _ _] & A1 & A2 & A3 & _).
    rewrite (bind_run _ _ _ _ _ Er). cbn [modify]. split; [|cbn; split; congruence]. left. split; cbn; [split; cbn; congruence|congruence|by rewrite A1|by rewrite A2]. }
  destruct (resync_gap_cb_ cb && is_passed_header s) eqn:Eg; [|by apply Hab]. apply andb_true_iff in Eg as [_ Eg].
  rewrite bind_modify. destruct (p_gap_answer p); [|by apply Hab]. cbn [modify]. split; [|done]. left. by split.
Qed.

Lemma skip_body_keeps p : goes (λ s, steady s ∧ (is_passed_header s = false ∨ is_parsing_failure s = true)) (skip_body cb p) (λ _, steady).
Proof.
  intros s [Hs Hg]. unfold skip_body. assert (∃ s1, emit (release_slab_cb_ cb) (EvRelease (p_slab p)) s = Ret ((), s1)
    ∧ steady s1 ∧ is_passed_header s1 = is_passed_header s ∧ is_parsing_failure s1 = is_parsing_failure s) as (s1 & -> %(bind_run _ _) & Hs1 & F1 & F2).
  { unfold emit. destruct (release_slab_cb_ cb); [|by exists s]. eexists. split; [done|]. split; [|done].
    destruct Hs as [[[] ? ? ?]|[[] ? ? ?]]; [left|right]; (split; [by split|done..]). }
  destruct (p_marker p); [|done]. rewrite bind_get.
  assert (∃ s2, (if is_parsing_failure s1 || is_passed_header s1 then
      fire_abort cb kAbortDamagedEOC ;; modify (λ s, set_counts (total_frames s + 1) (trunc_frames s + 1) s) ;; end_frame_streak false
    else mret ()) s1 = Ret ((), s2) ∧ tile_hndr s2 = tile_hndr s1 ∧ geom_sig_ s2 = sig ∧ 0 ≤ relatch_k_ s2
    ∧ resync_armed_ s2 = false ∧ resync_soft_ s2 = false) as (s2 & -> %(bind_run _ _) & T2 & G2 & K2 & A2 & S2).
  { destruct (steady_tuned s1 Hs1) as [Ht Hgs Hk]. destruct (is_parsing_failure s1 || is_passed_header s1) eqn:Ef.
    - destruct (abort_run kAbortDamagedEOC s1) as (s2 & evs & E & [C1 (C2 & C2' & _) _ _ _] & A1 & A2 & _).
      rewrite (bind_run _ _ _ _ _ E), bind_modify. eexists. split; [done|]. cbn. split_and!; congruence.
    - exists s1. split; [done|]. apply orb_false_iff in Ef as [_ Ef]. split_and!; try done.
      + destruct Hs1 as [[_ _ Ha Hb]|[[] _ _ _]]; [|done]. destruct (resync_armed_ s1); [|done]. rewrite Hb in Ef by auto. done.
      + destruct Hs1 as [[_ _ Ha Hb]|[[] _ _ _]]; [|done]. destruct (resync_soft_ s1); [|done]. rewrite Hb in Ef by auto. done. }
  rewrite bind_modify. set (s3 := set_flags false false s2).
  destruct (renew_end s3) as (s4 & -> & R); [unfold s3; cbn; rewrite T2; by apply steady_tuned|].
  right. by eapply renewed_resting.
Qed.

Lemma append_busy p s :
  tuned s → (resync_armed_ s = true → resync_soft_ s = true) → (resync_soft_ s = true → is_passed_header s = true) →
  ∃ s', append_payload cb p s = Ret ((), s') ∧ busy s' ∧ is_passed_header s' = is_passed_header s
    ∧ relatch_k_ s' = relatch_k_ s ∧ parse_fail_streak_ s' = parse_fail_streak_ s
    ∧ resync_armed_ s' = resync_armed_ s ∧ resync_soft_ s' = resync_soft_ s.
Proof.
  intros [T1 T2 T3] Ha Hf. unfold append_payload, deliver_chunk, emit.
  assert (∀ l : list Z, l ++ [p_slab p] ≠ []) as Hne by (intros []; done).
  destruct (chunk_cb_ cb); (eexists; split; [done|]; split; [split; [by split|cbn; apply Hne|done|done]|done]).
Qed.

Lemma fail_header_busy : goes busy (fail_header cb) (λ _, busy).
Proof.
  intros s [[T1 T2 T3] B2 B3 B4]. unfold fail_header.
  destruct (abort_run kAbortParse s) as (s1 & evs & E & [C1 (C2 & C2' & _) _ _ _] & A1 & A2 & A3 & _).
  rewrite (bind_run _ _ _ _ _ E). cbn [modify]. split; cbn; [split; cbn; congruence|congruence|by rewrite A1|by rewrite A2].
Qed.

(** What a packet may say: any body, any split main header, a malformed main header, or a
    main header of the stream while the escape hatch is not about to open. *)
Definition hatch_shut s : Prop := relatch_k_ s = 0 ∨ 0 ≤ parse_fail_streak_ s ∧ parse_fail_streak_ s + 2 < relatch_k_ s.
Definition harmless (mem : memory) (p : packet) s : Prop :=
  2 ≤ Z.shiftr (mem (p_payload p)) 6 →
  ∀ sg sod, geometry_signature mem (p_payload p + 8) (p_size p) = Ret (sg, sod) → sg = 0 ∨ sg = sig ∧ hatch_shut s.

Lemma shut_not_open n s s' : closes n s s' → n ≤ 2 → hatch_shut s → hatch_open s' = false.
Proof.
  intros [(_ & L & _) C _ _] Hn Hs. unfold hatch_open. rewrite L. destruct Hs as [-> |[H1 H2]]; [done|].
  destruct (Z.eqb_spec (relatch_k_ s) 0); [done|]. apply Z.leb_gt. specialize (C H1). lia.
Qed.

Lemma closes_trans n m s1 s2 s3 : closes n s1 s2 → closes m s2 s3 → closes (n + m) s1 s3.
Proof.
  intros [(A1 & A2 & A3) A4 A5 (e1 & A6 & A7 & A8)] [(B1 & B2 & B3) B4 B5 (e2 & B6 & B7 & B8)].
  split; [split_and!; congruence|lia|lia|]. exists (e1 ++ e2). rewrite B6, A6, app_assoc. split; [done|]. split; [by apply Forall_app|].
  intros Hr. by rewrite released_app, <- app_assoc, B8, A8.
Qed.

Lemma main_packet_keeps mem p s0 :
  sig ≠ 0 → harmless mem p s0 →
  goes (λ s, steady s ∧ closes 1 s0 s) (main_packet cb mem p (Z.shiftr (mem (p_payload p)) 6)) (λ _, busy).
Proof.
  intros Hsig Hh s [Hs C0]. set (MH := Z.shiftr _ 6). unfold main_packet.
  destruct (missed_eoc_run s Hs) as (s1 & E1 & C1 & R1). rewrite (bind_run _ _ _ _ _ E1), bind_modify.
  pose proof (closes_trans _ _ _ _ _ C0 C1) as C. set (s2 := set_parse_failed false _).
  assert (resync_armed_ s2 = false ∧ resync_soft_ s2 = false) as [Ha2 Hf2] by (destruct R1 as [[] _ _ _]; done).
  assert (tuned s2) as T2 by (destruct (resting_tuned s1 R1); by split).
  destruct (append_busy p s2 T2) as (s3 & E3 & B3 & _ & K3 & P3 & A3 & F3); [by rewrite Ha2|by rewrite Hf2|].
  rewrite (bind_run _ _ _ _ _ E3), bind_get. clear E3.
  pose proof (sr_ready _ _ _ (tn_tile _ (by_tuned _ B3))) as Hr. change (ready (tile_hndr s3)) with (is_ready (tile_hndr s3)) in Hr.
  cbn zeta. destruct (if 2 <=? MH then _ else _) as [[sg sod]| |] eqn:Eg; [|done|done]. rewrite Hr, andb_true_r.
  destruct ((2 <=? MH) && (sg =? 0)) eqn:E0.
  { eapply (goes_bind busy _ _ (λ _, busy)); [apply fail_header_busy|by intros; apply goes_ret|done]. }
  assert (∃ s4, (if 2 <=? MH then check_latch sg else mret 0) s3 = Ret (0, s4) ∧ busy s4
    ∧ is_ready (tile_hndr s4) = true ∧ resync_armed_ s4 = false ∧ resync_soft_ s4 = false) as (s4 & E4 & B4 & Hr4 & A4 & F4).
  { destruct (Z.leb_spec 2 MH) as [HM|]; [|exists s3; split_and!; try done; congruence].
    destruct (Hh HM sg sod Eg) as [-> |[-> Hshut]]; [done|]. destruct B3 as [[B31 B32 B33] B34 B35 B36].
    assert (relatch_reason sig s3 = 0) as E.
    { unfold relatch_reason. replace (hatch_open s3) with (hatch_open s1) by (unfold hatch_open; by rewrite K3, P3).
      rewrite (shut_not_open _ _ _ C) by (done || lia). rewrite B32, (proj2 (Z.eqb_neq _ _)) by done. by rewrite Z.eqb_refl. }
    rewrite (check_latch_ready sig s3 Hr), E. cbn [Z.eqb]. eexists. split; [done|].
    split; [|cbn; split_and!; [done|congruence|congruence]].
    split; cbn; [split; cbn; [done| |done]|done|done|done]. rewrite B32. by rewrite (proj2 (Z.eqb_neq _ _)). }
  rewrite (bind_run _ _ _ _ _ E4), bind_get, Hr4. cbn [negb]. rewrite !bind_modify. cbn [mret M_ret].
  destruct B4 as [[B41 B42 B43] B44 B45 B46]. set (s5 := match sod with Some _ => _ | None => _ end).
  assert (tile_hndr s5 = tile_hndr s4 ∧ geom_sig_ s5 = geom_sig_ s4 ∧ relatch_k_ s5 = relatch_k_ s4 ∧ held_slabs_ s5 = held_slabs_ s4
    ∧ resync_armed_ s5 = false ∧ resync_soft_ s5 = false) as (Q1 & Q2 & Q3 & Q4 & Q5 & Q6).
  { unfold s5. destruct sod as [n|]; [|done]. by destruct (n =? 0). }
  split; cbn; [split; cbn; congruence|congruence|by rewrite Q5|by rewrite Q6].
Qed.

(** [parse] and [flush] on any bytes. *)
Lemma action_run mem op s :
  op = th_parse ∨ op = th_flush → structured h walk (tile_hndr s) →
  match action cb mem op s with
  | Ret (_, s') => structured h walk (tile_hndr s') ∧ geom_sig_ s' = geom_sig_ s ∧ relatch_k_ s' = relatch_k_ s
      ∧ held_slabs_ s' = held_slabs_ s ∧ resync_armed_ s' = resync_armed_ s ∧ resync_soft_ s' = resync_soft_ s
  | _ => True
  end.
Proof.
  intros Hop Hs. unfold action. destruct (op mem (tile_hndr s) (cs s)) as [[[[r t] c] evs]| |] eqn:E; [|done|done].
  assert (structured h walk t) as Ht.
  { destruct Hop as [-> | ->]; cbn [th_parse th_flush rz_ops tile_ops] in E; unfold run_walk in E.
    - destruct (parse mem (mkPst (tile_hndr s) (cs s) [])) as [[r' s1]| |] eqn:E1; [|done|done]. injection E as _ <- _ _.
      by eapply walk_structured; [left; reflexivity|exact E1|].
    - destruct (flush mem (mkPst (tile_hndr s) (cs s) [])) as [[r' s1]| |] eqn:E1; [|done|done]. injection E as _ <- _ _.
      by eapply walk_structured; [right; reflexivity|exact E1|]. }
  by destruct (r =? 0).
Qed.

Lemma signal_structured off i t : structured h walk t → structured h walk (append_signal off i t).
Proof. intros Hs. eapply structured_kept; [apply append_signal_kept|apply (sr_sized _ _ _ Hs)|done]. Qed.

Lemma body_packet_keeps mem p : goes busy (body_packet cb mem p) (λ _, busy).
Proof.
  intros s [B1 B2 B3 B4]. unfold body_packet. rewrite bind_get.
  destruct (append_busy p s B1 B3 B4) as (s1 & E1 & Hb & _). rewrite (bind_run _ _ _ _ _ E1), bind_get. clear E1.
  destruct (negb _ && is_passed_header s1) eqn:Eo; [|done]. apply andb_true_iff in Eo as [_ Ep]. rewrite bind_modify.
  set (s2 := set_tile _ _ s1). assert (busy s2 ∧ is_passed_header s2 = true) as [Hb2 Hp2].
  { destruct Hb as [[T1 T2 T3] H2 H3 H4]. split; [|done]. split; [split; [by apply signal_structured|done|done]|done..]. }
  rewrite bind_get. clearbody s2. clear s1 Hb Ep.
  assert (∃ s3, (if resync_armed_ s2 && resync_point_cb_ cb then
      modify (add_events [EvPoint (u32 (u32 (chain_total_bytes_ s) + Z.shiftr (load_be32 mem (p_payload p + 4)) 20))
        (Z.land (load_be32 mem (p_payload p + 4)) 0x000FFFFF) (p_point_answer p)]) ;;
      if p_point_answer p then modify (λ s, set_resync false (resync_soft_ s) s) else mret ()
    else mret ()) s2 = Ret ((), s3) ∧ busy s3) as (s3 & -> %(bind_run _ _) & Hb3).
  { destruct Hb2 as [[T1 T2 T3] H2 H3 H4]. destruct (resync_armed_ s2 && resync_point_cb_ cb); [|exists s2; split; [done|by split; [split|..]]].
    rewrite bind_modify. destruct (p_point_answer p); (eexists; split; [done|]; split; cbn; [by split|done..]). }
  rewrite bind_get. destruct (negb (is_parsing_failure s3) && negb (resync_soft_ s3)) eqn:Ef; [|done].
  apply andb_true_iff in Ef as [_ Ef%negb_true_iff]. destruct Hb3 as [[T1 T2 T3] H2 H3 H4].
  assert (resync_armed_ s3 = false) as Ha by (destruct (resync_armed_ s3); [|done]; by rewrite H3 in Ef).
  pose proof (action_run mem th_parse s3 (or_introl eq_refl) T1) as Hac. unfold mbind at 1, M_bind at 1.
  destruct (action cb mem th_parse s3) as [[u s4]| |]; [|done|done]. destruct Hac as (P1 & P2 & P3 & P4 & P5 & P6).
  rewrite bind_get. assert (tuned s4) as T4 by (split; congruence). destruct (is_parsing_failure s4).
  - destruct (abort_run kAbortParse s4) as (s5 & evs & -> & [C1 (C2 & C2' & _) _ _ _] & A1 & A2 & A3 & _).
    destruct T4. split; [split; congruence|congruence|by rewrite A1|by rewrite A2].
  - split; [done|congruence|by rewrite P5, Ha|by rewrite P6, Ef].
Qed.

Lemma end_of_frame_keeps mem : goes busy (end_of_frame cb mem) (λ _, resting).
Proof.
  intros s [[T1 T2 T3] B2 _ _]. unfold end_of_frame. rewrite bind_modify, bind_get. cbn zeta.
  set (intact := negb _ && _ && _). rewrite bind_modify. set (s1 := set_resync false false _).
  assert (goes (λ s', s' = s1) (if intact then
      action cb mem th_flush ;; s' ← get_st; if is_parsing_failure s' then modify (set_parse_failed true) else mret ()
    else mret ()) (λ _ s', structured h walk (tile_hndr s') ∧ geom_sig_ s' = sig ∧ 0 ≤ relatch_k_ s'
      ∧ resync_armed_ s' = false ∧ resync_soft_ s' = false)) as Hw.
  { intros s' ->. destruct intact; [|done].
    pose proof (action_run mem th_flush s1 (or_intror eq_refl) T1) as Hac. unfold mbind at 1, M_bind at 1.
    destruct (action cb mem th_flush s1) as [[u s2]| |]; [|done|done]. destruct Hac as (P1 & P2 & P3 & P4 & P5 & P6).
    rewrite bind_get. cbn in P2, P3, P5, P6. destruct (is_parsing_failure s2); cbn; split_and!; congruence. }
  refine (goes_bind (λ s', s' = s1) _ _ _ _ Hw _ s1 eq_refl). intros [] s2 (P1 & P2 & P3 & P4 & P5). rewrite bind_get.
  destruct (streak_step (intact && negb (is_parsing_failure s2)) s2) as (s3 & -> %(bind_run _ _) & E1 & E2 & _ & E3).
  assert (∃ s4, emit (frame_ready_cb_ cb) (EvReady (chunks_ (cs s2)) intact) s3 = Ret ((), s4) ∧ tile_hndr s4 = tile_hndr s2
    ∧ geom_sig_ s4 = sig ∧ 0 ≤ relatch_k_ s4 ∧ resync_armed_ s4 = false ∧ resync_soft_ s4 = false)
    as (s4 & -> %(bind_run _ _) & Q1 & Q2 & Q3 & Q4 & Q5).
  { rewrite E3. unfold emit. destruct (frame_ready_cb_ cb); (eexists; split; [done|]; cbn; by split_and!). }
  rewrite !bind_modify. set (s5 := set_flags false false _).
  destruct (renew_end s5) as (s6 & -> & R); [cbn; by rewrite Q1|]. by eapply renewed_resting.
Qed.

Lemma pull_data_keeps mem p s :
  sig ≠ 0 → byte_memory mem → harmless mem p s → steady s →
  match pull_data cb mem p s with Ret (_, s') => steady s' | _ => True end.
Proof.
  intros Hsig Hm Hh Hs. unfold pull_data. pose proof (on_gap_keeps p s Hs) as Hg. unfold mbind at 1, M_bind at 1.
  destruct (on_gap cb p s) as [[u s1]| |]; [|done|done]. destruct Hg as (Hs1 & K1 & P1).
  assert (harmless mem p s1) as Hh1.
  { intros HM sg sod E. destruct (Hh HM sg sod E) as [?|[-> Hsh]]; [by left|right]. split; [done|]. unfold hatch_shut. by rewrite K1, P1. }
  destruct (slab_cap_run s1 Hs1) as (s2 & -> %(bind_run _ _) & C2 & Hs2). rewrite bind_get. cbn zeta.
  assert (steady s2) as S2 by (destruct Hs2 as [-> |?]; [done|by right]). set (MH := Z.shiftr (mem (p_payload p)) 6).
  assert (0 ≤ MH) as H0 by (apply Z.shiftr_nonneg; apply (Hm (p_payload p))).
  destruct ((MH =? 0) && _) eqn:Eg.
  { apply andb_true_iff in Eg as [_ Eg]. apply skip_body_keeps. split; [done|].
    apply orb_true_iff in Eg as [?%negb_true_iff|?]; auto. }
  assert (goes (λ s', s' = s2) (if 1 <=? MH then main_packet cb mem p MH else body_packet cb mem p ;; mret true) (λ _, busy)) as Hb.
  { intros s' ->. destruct (Z.leb_spec 1 MH); [by apply (main_packet_keeps mem p s1)|].
    assert (MH = 0) as E0 by lia. rewrite E0 in Eg. cbn in Eg. apply orb_false_iff in Eg as [Eg%negb_false_iff _].
    eapply (goes_bind busy _ _ (λ _, busy)); [apply body_packet_keeps|by intros; apply goes_ret|].
    destruct S2 as [?|[_ _ _ Hp]]; [done|congruence]. }
  refine (goes_bind (λ s', s' = s2) _ _ _ _ Hb _ s2 eq_refl). intros go_on s3 B3.
  destruct (go_on && p_marker p); [|by left]. pose proof (end_of_frame_keeps mem s3 B3) as He.
  destruct (end_of_frame cb mem s3) as [[[] s4]| |]; [|done|done]. by right.
Qed.

(** ** The next frame *)

(** A main packet first gives up what is in flight. *)
Lemma main_from_steady mem p s :
  steady s → p_gap p = false → 1 ≤ Z.shiftr (mem (p_payload p)) 6 →
  ∃ s', resting s' ∧ closes 2 s s' ∧ pull_data cb mem p s = pull_data cb mem p s'.
Proof.
  intros Hs Hg HM. assert (∀ s, on_gap cb p s = Ret ((), s)) as Eg.
  { intros s0. unfold on_gap. rewrite bind_get, Hg. done. }
  destruct (slab_cap_run s Hs) as (s1 & E1 & C1 & Hs1). assert (steady s1) as S1 by (destruct Hs1 as [-> |?]; [done|by right]).
  destruct (missed_eoc_run s1 S1) as (s2 & E2 & C2 & R2). exists s2. split; [done|]. split; [by apply (closes_trans 1 1 _ s1)|].
  assert (slab_cap cb s2 = Ret ((), s2)) as E3 by (unfold slab_cap; rewrite bind_get, (id_held _ (rt_idle _ R2)); done).
  assert (missed_eoc cb s2 = Ret ((), s2)) as E4 by (unfold missed_eoc; rewrite bind_get, (id_held _ (rt_idle _ R2)); done).
  unfold pull_data. rewrite !(bind_run _ _ _ _ _ (Eg _)), (bind_run _ _ _ _ _ E1), (bind_run _ _ _ _ _ E3), !bind_get. cbn zeta.
  rewrite (proj2 (Z.eqb_neq _ 0)), (proj2 (Z.leb_le 1 _)) by lia. cbn [andb].
  apply bind_same. unfold main_packet. by rewrite (bind_run _ _ _ _ _ E2), (bind_run _ _ _ _ _ E4).
Qed.

(** The disturbance: any packets, one at a time. *)
Inductive disturbed : frame_handler tile_handler → frame_handler tile_handler → Prop :=
  | disturb mem p s s' :
      byte_memory mem → harmless mem p s → pull_data cb mem p s = Ret ((), s') → disturbed s s'.

Lemma disturbed_steady s s' : sig ≠ 0 → rtc disturbed s s' → steady s → steady s'.
Proof.
  intros Hsig. induction 1 as [s|s s1 s2 [mem p s0 s0' Hm Hh E] _ IH]; [done|]. intros Hs. apply IH.
  pose proof (pull_data_keeps mem p s0 Hsig Hm Hh Hs) as H. by rewrite E in H.
Qed.
End Resilience.

(** ** Property *)

(** C3: damage is confined to the frames it hits.  A latched stream is disturbed by any
    number of packets with any bytes: bodies lost, reordered or corrupt, gaps reported or
    not, accepted by a resync consumer or not, resync points anywhere, ends of frames
    missing, headers malformed or split; only a complete main header of another geometry,
    and a parse-failure streak that reaches the escape hatch, are left out, as they are
    meant to change the stream.  Then intact frames of the stream arrive.  Whatever the
    disturbance left behind, the first main packet gives it up (at most an abort, and every
    slab still held is given back, once), and from there on the consumer sees every frame
    exactly as if nothing had happened: all byte ranges, all precincts of the walk once and
    in order, an intact completion.  The stream is not latched anew, and at most two frames
    are counted for what was given up. *)
Theorem damage_confined uninit stale cb h walk sig (s s1 : frame_handler tile_handler) f fs :
  let _ := tile_ops uninit stale in
  registered cb → prec_cb_ cb = true → supported h → sig ≠ 0 →
  on_stream h walk sig s →
  rtc (disturbed uninit stale cb sig) s s1 → hatch_shut s1 →
  Forall (frame_ok h walk) (f :: fs) → Forall (λ g, signature_of (fr_header g) = sig) (f :: fs) →
  ∃ s' evs, pull_all cb ((f :: fs) ≫= fr_input) s1 = Ret ((), s')
    ∧ trace s' = trace s1 ++ evs ++ ((f :: fs) ≫= frame_events [])
    ∧ Forall closing_event evs ∧ released evs = held_slabs_ s1
    ∧ relatches_ s' = relatches_ s1 ∧ on_stream h walk sig s'
    ∧ total_frames s1 + zlength (f :: fs) ≤ total_frames s' ≤ total_frames s1 + zlength (f :: fs) + 2
    ∧ trunc_frames s1 ≤ trunc_frames s' ≤ trunc_frames s1 + 2.
Proof.
  intros ops Hcb Hprec Hsu Hsig [Hi Hg Hh Ht Hp] Hd Hshut Hf Hs.
  assert (steady h walk sig s1) as S1 by (eapply disturbed_steady; [done|exact Hd|]; right; by split).
  pose proof Hf as [Hf1 _]%Forall_cons. destruct (frame_mems _ _ _ Hf1) as (m0 & ms & Em & Hmo & _).
  destruct (mo_main _ _ Hmo) as (Hgap & _ & _). pose proof (mo_MH _ _ Hmo) as HM.
  destruct (main_from_steady uninit stale cb h walk sig m0 (fr_main f) s1 S1 Hgap ltac:(lia)) as (s2 & R2 & C2 & E2).
  assert (on_stream h walk sig s2) as O2 by (destruct R2; split; [done..| |done|done]; by eapply shut_not_open).
  destruct (later_frames uninit stale cb h walk sig (f :: fs) s2 Hcb Hprec Hsu O2 Hf Hs) as (s3 & P3 & O3 & T3 & N3 & N3' & L3).
  destruct C2 as [(_ & _ & L2) _ [N2 N2'] (evs & T2 & Ec & Er)]. exists s3, evs. split; [|split; [|split; [done|split; [|split; [|split; [done|]]]]]].
  - rewrite <- P3. rewrite bind_cons. unfold fr_input at 1 3, fr_packets. rewrite Em. cbn [zip zip_with app pull_all].
    apply bind_same. exact E2.
  - by rewrite T3, T2, <- app_assoc.
  - destruct Hcb as (Hrel & _). rewrite <- (Er Hrel), (id_held _ (rt_idle _ _ _ _ R2)), app_nil_r. done.
  - congruence.
  - lia.
Qed.

(** ** Witness: a main packet whose frame never ends, then an intact frame *)
Definition wit_sig : Z := signature_of (raws wit_tables (sys_segs 32 16)).
Lemma wit_latched :
  ∃ walk s1, length walk = 6%nat
    ∧ pull_all (H := sys_ops) all_cb (fr_input (wit_frame walk)) (started new_tile_handler 4) = Ret ((), s1)
    ∧ on_stream wit_h walk wit_sig s1.
Proof.
  destruct (stream_run [blank; blank; blank] (λ _, demo_blk) all_cb (sys_segs 32 16) (started new_tile_handler 4)) as (walk & _ & N & W & H).
  - exact all_registered.
  - reflexivity.
  - split; first [reflexivity|cbn; lia].
  - split; cbn; repeat constructor.
  - exact wit_segs_valid.
  - exact wit_supported.
  - apply (blank_uninit_ok wit_h (mkGeo 0 0 0 0)).
  - left. reflexivity.
  - pose proof (wit_walk_length walk N W) as Hl.
    destruct (H (wit_frame walk) []) as (s' & E & _ & _ & _ & _ & O); [apply Forall_singleton, (wit_frame_ok walk Hl)|reflexivity|constructor|].
    exists walk, s'. split; [exact Hl|]. split; [exact E|exact O].
Qed.

(** The main packet alone, from the latched state. *)
Definition shutb (s : frame_handler tile_handler) : bool :=
  (0 <=? parse_fail_streak_ s) && (parse_fail_streak_ s + 2 <? relatch_k_ s).
Definition wit_cut (s1 : frame_handler tile_handler) : bool :=
  shutb s1 && match pull_data (H := sys_ops) all_cb wit_mem main_pkt s1 with
              | Ret (_, s2) => shutb s2 && bool_decide (held_slabs_ s2 = [5])
              | _ => false
              end.
Lemma shutb_ok s : shutb s = true → hatch_shut s.
Proof. intros [H1%Z.leb_le H2%Z.ltb_lt]%andb_true_iff. by right. Qed.

Lemma ret_fst_agree {A B : Type} (m : outcome (A * B)) a b a' b' : m = Ret (a, b) → m = Ret (a', b') → a = a'.
Proof. intros -> H. by injection H. Qed.

Lemma damage_confined_witness :
  ∃ walk s1 s2 s3 evs,
    pull_all (H := sys_ops) all_cb (fr_input (wit_frame walk)) (started new_tile_handler 4) = Ret ((), s1)
    ∧ pull_data (H := sys_ops) all_cb wit_mem main_pkt s1 = Ret ((), s2)
    ∧ pull_all (H := sys_ops) all_cb ([wit_frame walk] ≫= fr_input) s2 = Ret ((), s3)
    ∧ trace s3 = trace s2 ++ evs ++ ([wit_frame walk] ≫= frame_events []) ∧ released evs = [5].
Proof.
  destruct wit_latched as (walk & s1 & Hl & P1 & O1). pose proof (wit_frame_ok walk Hl) as Hf.
  assert (main_ok wit_mem (wit_frame walk)) as Hmo by (apply (frame_main wit_h walk _ wit_mem Hf (fo_mem _ _ _ Hf)); intros o _; reflexivity).
  assert (hatch_shut s1 ∧ ∃ s2, pull_data (H := sys_ops) all_cb wit_mem main_pkt s1 = Ret ((), s2) ∧ hatch_shut s2 ∧ held_slabs_ s2 = [5])
    as (Hs1 & s2 & P2 & Hs2 & H2).
  { assert (match pull_all (H := sys_ops) all_cb (fr_input (wit_frame walk)) (started new_tile_handler 4) with
            | Ret (_, s1) => wit_cut s1 | _ => false end = true) as H by (vm_compute; reflexivity).
    rewrite P1 in H. unfold wit_cut in H. apply andb_true_iff in H as [H1 H].
    destruct (pull_data (H := sys_ops) all_cb wit_mem main_pkt s1) as [[[] s2]| |]; [|discriminate..].
    apply andb_true_iff in H as [H2 H3]. split; [exact (shutb_ok _ H1)|]. exists s2. split; [reflexivity|].
    split; [exact (shutb_ok _ H2)|exact (bool_decide_eq_true_1 _ H3)]. }
  destruct (damage_confined [blank; blank; blank] (λ _, demo_blk) all_cb wit_h walk wit_sig s1 s2 (wit_frame walk) [])
    as (s3 & evs & P3 & T3 & _ & R3 & _).
  - exact all_registered.
  - reflexivity.
  - exact wit_supported.
  - apply signature_nonzero.
  - exact O1.
  - apply rtc_once. apply (disturb _ _ _ _ wit_mem main_pkt); [exact (fo_mem _ _ _ Hf)| |exact P2].
    intros _ sg sod E. right. split; [|exact Hs1].
    exact (ret_fst_agree _ _ _ _ _ E (proj1 (frame_signature wit_mem (wit_frame walk) Hmo))).
  - exact Hs2.
  - apply Forall_singleton. exact Hf.
  - apply Forall_singleton. reflexivity.
  - exists walk, s1, s2, s3, evs. rewrite H2 in R3. split; [exact P1|]. split; [exact P2|]. split; [exact P3|]. split; [exact T3|exact R3].
Defined.
