(* ===== verification/Main.v ===== *)
(** * Main: the receive hook of main.cpp

    [rtp_receive_hook] connects the receiver to the frame handler: it passes the
    payload without its 8-byte header on and prints statistics about every half
    second of stream time.  Here the statistics are the number of frames in the window
    ([Clock] has the line itself); the release callback of [main] is the receiver's [release_slab]. *)
From S2P Require Import Prelude Receiver Codestream FrameHandler System.

(** [params_t], without the two object pointers. *)
Record params_t := mkParams { pm_total_frames : Z; last_timetamp : Z }.

(** What [main] registers, and the parameters it starts with. *)
Definition main_callbacks : callbacks := set_release_slab_callback true no_callbacks.
Definition main_params : params_t := mkParams 0 0.

(** The arguments of [pull_data] ([gap] is not passed). *)
Definition hook_packet (f : Frame) : packet :=
  mkPacket (f_payload f) (u64 (f_payload_len f - 8)) (negb (f_marker f =? 0)) (f_slab_idx f) false false false.

(** The statistics: [Some n] when a line is printed, for [n] frames. *)
Definition hook_stats (total ts : Z) (p : params_t) : option Z * params_t :=
  let last := if last_timetamp p =? 0 then ts else last_timetamp p in
  if u32 (last + 45000) <=? ts
  then (Some (u64 (total - pm_total_frames p)), mkParams total ts)
  else (None, mkParams (pm_total_frames p) last).

Definition rtp_receive_hook `{TileHandler T} (cb : callbacks) (mem : memory) (f : Frame)
    : M (params_t * frame_handler T) (option Z) := λ '(p, s),
  match pull_data cb mem (hook_packet f) s with
  | Ret (_, s') => let '(r, p') := hook_stats (total_frames s') (f_timestamp f) p in Ret (r, (p', s'))
  | UB => UB
  | NoFuel => NoFuel
  end.

(** A payload shorter than its header wraps the size around: the frame handler is told
    there are almost 2^64 codestream bytes (finding). *)
Theorem short_payload_wraps f :
  0 ≤ f_payload_len f < 8 → p_size (hook_packet f) = 18446744073709551616 - (8 - f_payload_len f).
Proof. intros H. cbn. unfold u64. rewrite <- (Z.mod_add _ 1), Z.mod_small by lia. lia. Qed.

(** The receiver does pass such payloads on: only the RTP header has to fit. *)
Theorem short_payload_delivered j r :
  j_hdr_len j ≤ j_len j < j_hdr_len j + 8 →
  ∃ f, fst (process_job true j r) = Some f
    ∧ p_size (hook_packet f) = 18446744073709551616 - (8 - (j_len j - j_hdr_len j)).
Proof.
  intros H. unfold process_job. rewrite (proj2 (Z.leb_le _ _)) by lia. cbn [andb fst]. eexists. split; [done|].
  apply (short_payload_wraps (mkFrame _ _ _ _ _ _ _ _)). cbn. lia.
Qed.

(** After the 32-bit RTP timestamp has wrapped around nothing is printed until it
    reaches its old value again, about 13 hours later at 90 kHz (finding). *)
Theorem statistics_stop_after_wrap total ts p :
  0 < last_timetamp p → last_timetamp p + 45000 < 4294967296 → 0 ≤ ts < last_timetamp p →
  hook_stats total ts p = (None, p).
Proof.
  intros H1 H2 H3. unfold hook_stats. rewrite (proj2 (Z.eqb_neq _ 0)), u32_small, (proj2 (Z.leb_gt _ _)) by lia.
  by destruct p.
Qed.

(** The windows partition the frames: the counts printed add up to the frames processed
    between the first and the last line. *)
Fixpoint run_stats (l : list (Z * Z)) (p : params_t) : list Z * params_t :=
  match l with
  | [] => ([], p)
  | (total, ts) :: l =>
      let '(r, p) := hook_stats total ts p in
      let '(rs, p) := run_stats l p in
      (match r with Some n => n :: rs | None => rs end, p)
  end.

Theorem windows_add_up l p :
  Forall (λ x, 0 ≤ x.1 < 18446744073709551616) l → 0 ≤ pm_total_frames p →
  (∀ i j x y, (i ≤ j)%nat → l !! i = Some x → l !! j = Some y → pm_total_frames p ≤ x.1 ≤ y.1) →
  foldr Z.add 0 (run_stats l p).1 = pm_total_frames (run_stats l p).2 - pm_total_frames p.
Proof.
  revert p. induction l as [|[total ts] l IH]; intros p Hl Hp Hm; cbn [run_stats]; [cbn; lia|].
  apply Forall_cons in Hl as [Ht Hl]. cbn in Ht. pose proof (Hm 0%nat 0%nat _ _ (le_n 0) eq_refl eq_refl) as Hpt. cbn in Hpt.
  assert (∀ q, pm_total_frames q = pm_total_frames p ∨ pm_total_frames q = total →
    foldr Z.add 0 (run_stats l q).1 = pm_total_frames (run_stats l q).2 - pm_total_frames q) as IHq.
  { intros q Hq. apply IH; [done|lia|]. intros i j x y Hij Hx Hy.
    pose proof (Hm (S i) (S j) x y ltac:(lia) Hx Hy). pose proof (Hm 0%nat (S i) _ x ltac:(lia) eq_refl Hx) as H0. cbn in H0. lia. }
  unfold hook_stats. destruct (_ <=? ts).
  - specialize (IHq (mkParams total ts) ltac:(by right)). destruct (run_stats l _) as [rs q]. cbn in *.
    rewrite u64_small by lia. lia.
  - set (q0 := mkParams _ _). specialize (IHq q0 ltac:(by left)). destruct (run_stats l _) as [rs q]. cbn in *. lia.
Qed.
