(* ===== verification/Pipeline.v ===== *)
(** * Pipeline: receiver, hook and frame handler together

    [Receiver] is proved correct for any owner of the frames that releases only what it
    holds; [Ownership] says what the frame handler holds.  Here the two run together as
    [main] wires them: the worker thread takes a job, calls [rtp_receive_hook] on the
    slab as it is, and every slab the frame handler releases during the call goes back
    to the receiver.  Receive steps happen between worker steps in any order; a call of
    the hook is one step (what it reads cannot change meanwhile: a receive step leaves
    every slab that is held or queued alone). *)
From S2P Require Import Prelude Receiver Slots Codestream FrameHandler Ownership TileHandler System Main.

(** ** The composed system *)
Section Pipeline.
Context `{TileLaws T} (cb : callbacks).
Hypothesis Hrel : release_slab_cb_ cb = true.

Record pstate := mkPs {
  pl_recv : receiver;
  pl_params : params_t;
  pl_fh : frame_handler T;
  pl_out : list Frame;          (* every frame the hook was called with *)
  pl_rx : list (list Z)         (* every datagram received *)
}.

Definition release_all (l : list Z) (r : receiver) : receiver := foldl (λ r i, release_slab i r) r l.

(** One round of the worker thread that finds a job, the hook included. *)
Definition work_and_hook (s : pstate) : option (outcome pstate) :=
  match work_one true (pl_recv s) with
  | None => None
  | Some (None, r) => Some (Ret (mkPs r (pl_params s) (pl_fh s) (pl_out s) (pl_rx s)))
  | Some (Some f, r) =>
      Some (match rtp_receive_hook cb (slab_ r) f (pl_params s, pl_fh s) with
            | Ret (_, (p, fh)) =>
                let given_back := released (drop (length (trace (pl_fh s))) (trace fh)) in
                Ret (mkPs (release_all given_back r) p fh (pl_out s ++ [f]) (pl_rx s))
            | UB => UB
            | NoFuel => NoFuel
            end)
  end.

Inductive pstep : pstate → pstate → Prop :=
  | pipe_recv dgram s r :
      Forall is_byte dgram → recv_one dgram (pl_recv s) = Ret r →
      pstep s (mkPs r (pl_params s) (pl_fh s) (pl_out s) (take (Z.to_nat kSlotBytes) dgram :: pl_rx s))
  | pipe_work s s' : work_and_hook s = Some (Ret s') → pstep s s'.

Definition pipeline_start (t : T) (k : Z) (ring0 : Z → Slot) (slab0 : memory) (queue0 : Z → Job) (jitter : Z)
    : pstate :=
  mkPs (start ring0 slab0 queue0 jitter) main_params (started t k) [] [].

(** ** Simulation by the receiver's own transition system *)

(** The frames [fs] the handler's chain is made of are those the receiver lends out. *)
Record lends (fs : list Frame) (s : pstate) (rs : rstate) : Prop := {
  ln_recv : rs_recv rs = pl_recv s;
  ln_out : rs_out rs = pl_out s;
  ln_rx : rs_rx rs = pl_rx s;
  ln_chain : holds_packets (hook_packet <$> fs) (pl_fh s);
  ln_held : rs_held rs ≡ₚ fs;
  ln_order : fs `sublist_of` pl_out s
}.

Lemma release_steps k fs r held out rx :
  held ≡ₚ fs ++ k →
  ∃ held', rtc rstep (mkRs r held out rx) (mkRs (release_all (f_slab_idx <$> k) r) held' out rx) ∧ held' ≡ₚ fs.
Proof.
  revert r held. induction k as [|f k IH]; intros r held Hp.
  { rewrite app_nil_r in Hp. exists held. by split. }
  destruct (list_elem_of_lookup_1 held f) as [i Hi].
  { rewrite Hp. set_solver. }
  destruct (IH (release_slab (f_slab_idx f) r) (delete i held)) as (held' & Hr & Hh).
  { rewrite (delete_Permutation _ _ _ Hi), <- Permutation_middle in Hp. by apply (inj (cons f)) in Hp. }
  exists held'. split; [|done]. eapply rtc_l; [by apply step_release|done].
Qed.

Lemma sublist_fmap_inv {A B} (f : A → B) l k :
  l `sublist_of` (f <$> k) → ∃ l', l = f <$> l' ∧ l' `sublist_of` k.
Proof.
  revert l. induction k as [|x k IH]; intros l Hl; cbn in Hl.
  { apply sublist_nil_r in Hl as ->. by exists []. }
  apply sublist_cons_r in Hl as [Hl|(l1 & -> & Hl)]; destruct (IH _ Hl) as (l' & -> & Hs).
  - exists l'. split; [done|by apply sublist_cons].
  - exists (x :: l'). split; [done|by apply sublist_skip].
Qed.

(** One hook call: which frames stay, and that exactly the others are released. *)
Lemma hook_lends mem f p fs (fh fh' : frame_handler T) o p' :
  holds_packets (hook_packet <$> fs) fh → rtp_receive_hook cb mem f (p, fh) = Ret (o, (p', fh')) →
  ∃ fs' k, holds_packets (hook_packet <$> fs') fh' ∧ fs' `sublist_of` fs ++ [f] ∧ fs ++ [f] ≡ₚ fs' ++ k
    ∧ released (drop (length (trace fh)) (trace fh')) = f_slab_idx <$> k.
Proof.
  intros Hh E. unfold rtp_receive_hook in E.
  destruct (pull_data cb mem (hook_packet f) fh) as [[[] s']| |] eqn:Ep; [|done|done].
  assert (s' = fh') as -> by (destruct (hook_stats _ _ _); congruence).
  destruct (pull_data_owns cb Hrel mem (hook_packet f) _ fh fh' Hh Ep) as (l' & evs & Et & Hl & Hs & Hp).
  assert (∀ l, p_slab <$> (hook_packet <$> l) = f_slab_idx <$> l) as Hslab by (intros l; by rewrite <- list_fmap_compose).
  change [hook_packet f] with (hook_packet <$> [f]) in Hs, Hp. rewrite <- fmap_app in Hs, Hp.
  destruct (sublist_fmap_inv _ _ _ Hs) as (fs' & -> & Hs'). rewrite !Hslab in Hp.
  destruct (submseteq_Permutation _ _ (sublist_submseteq _ _ Hs')) as [k Hk].
  rewrite Hk, fmap_app, Permutation_app_comm in Hp. apply (inj (app (f_slab_idx <$> fs'))) in Hp.
  destruct (Permutation_map_inv _ _ Hp) as (k' & Ek & Pk).
  exists fs', k'. split_and!; [done|done|by rewrite Hk, Pk|]. by rewrite Et, drop_app_length.
Qed.

Lemma pstep_lends s s' fs rs :
  lends fs s rs → pstep s s' → ∃ fs' rs', rtc rstep rs rs' ∧ lends fs' s' rs'.
Proof.
  intros [L1 L2 L3 L4 L5 L6] Hst. destruct rs as [r held out rx]; cbn in *; subst r out rx.
  destruct Hst as [dgram s r Hb E|s s' E].
  - exists fs. eexists. split; [by eapply rtc_once, step_recv|]. by split.
  - unfold work_and_hook in E. destruct (work_one true (pl_recv s)) as [[[f|] r]|] eqn:Ew; [| |done].
    + destruct (rtp_receive_hook _ _ _ _) as [[o [p fh]]| |] eqn:Eh; [|done|done]. injection E as <-.
      destruct (hook_lends _ _ _ _ _ _ _ _ L4 Eh) as (fs' & k & H1 & H2 & H3 & ->).
      destruct (release_steps k fs' r (f :: held) (pl_out s ++ [f]) (pl_rx s)) as (held' & Hr & Hh).
      { rewrite <- H3, L5. by rewrite Permutation_app_comm. }
      exists fs'. eexists. split; [eapply rtc_l; [by apply step_work|exact Hr]|]. split; try done; cbn.
      etrans; [exact H2|]. by apply sublist_app.
    + injection E as <-. exists fs. eexists. split; [by eapply rtc_once, step_drop|]. by split.
Qed.

Lemma reachable_lends t k ring0 slab0 queue0 jitter s :
  rtc pstep (pipeline_start t k ring0 slab0 queue0 jitter) s →
  ∃ fs rs, rtc rstep (start_state ring0 slab0 queue0 jitter) rs ∧ lends fs s rs.
Proof.
  apply (rtc_ind_r (λ s, ∃ fs rs, rtc rstep (start_state ring0 slab0 queue0 jitter) rs ∧ lends fs s rs)).
  - exists [], (start_state ring0 slab0 queue0 jitter). split; [done|]. by split.
  - intros s1 s2 _ Hst (fs & rs & Hr & Hl). destruct (pstep_lends _ _ _ _ Hl Hst) as (fs' & rs' & Hr' & Hl').
    exists fs', rs'. split; [by etrans|done].
Qed.
End Pipeline.

(** ** What the chain holds *)

(** The codestream bytes of a datagram: behind the RTP header and the payload header,
    without the padding. *)
Definition codestream_part (d : list Z) : list Z :=
  match parse_rtp d with
  | Some (hdr, len, _) => take (Z.to_nat (len - (hdr + 8))) (drop (Z.to_nat (hdr + 8)) d)
  | None => []
  end.

(** A datagram with a whole payload header, if it is an RTP packet at all. *)
Definition has_payload_header (d : list Z) : Prop :=
  ∀ hdr len seq, parse_rtp d = Some (hdr, len, seq) → hdr + 8 ≤ len.

Lemma mem_bytes_data m a n (d : list Z) (k : Z) :
  0 ≤ k → (∀ o, 0 ≤ o < n → m (a + o) = d !!! Z.to_nat (k + o)) → k + n ≤ Z.of_nat (length d) →
  mem_bytes m a n = take (Z.to_nat n) (drop (Z.to_nat k) d).
Proof.
  intros Hk Hm Hl. apply list_eq. intros i. rewrite lookup_take, lookup_drop.
  destruct (decide (Z.of_nat i < n)) as [Hi|Hi].
  - rewrite decide_True by lia. destruct (lookup_lt_is_Some_2 d (Z.to_nat k + i)) as [x Hx]; [lia|].
    pose proof (lookup_mem_bytes m a n (Z.of_nat i) ltac:(lia)) as Hlk. rewrite Nat2Z.id in Hlk.
    rewrite Hlk, Hm, Hx by lia. f_equal.
    replace (Z.to_nat (k + Z.of_nat i)) with (Z.to_nat k + i)%nat by lia. by apply list_lookup_total_correct.
  - rewrite decide_False by lia. apply lookup_ge_None. rewrite length_mem_bytes. lia.
Qed.

(** A lent frame's chunk holds the codestream part of its datagram. *)
Lemma lent_chunk rx r f :
  frame_ok rx r f → Forall has_payload_header rx → Forall (Forall is_byte) rx →
  ∃ d, d ∈ rx ∧ (∃ hdr len, parse_rtp d = Some (hdr, len, f_seq f))
    ∧ mem_bytes (slab_ r) (base (chunk_of (hook_packet f))) (len (chunk_of (hook_packet f))) = codestream_part d.
Proof.
  intros (Hi & _ & hdr & len & Hl & (Hk & d & Hd & Hp & Hb) & E1 & E2) Hph Hby.
  rewrite Forall_forall in Hph, Hby. pose proof (Hph d Hd _ _ _ Hp) as H8.
  destruct (parse_rtp_ok d hdr len (f_seq f) (Hby d Hd) Hp) as (_ & _ & Hle & _).
  exists d. split_and!; [done|by exists hdr, len|]. unfold codestream_part. rewrite Hp. cbn.
  rewrite E2, u64_small, E1 by (unfold kSlotBytes in *; lia).
  replace (len - hdr - 8) with (len - (hdr + 8)) by lia.
  apply mem_bytes_data; [lia| |lia]. intros o Ho.
  replace (f_slab_idx f * kSlotBytes + hdr + 8 + o) with (f_slab_idx f * kSlotBytes + (hdr + 8 + o)) by lia.
  apply Hb. lia.
Qed.

Lemma lent_chain rx r fs :
  Forall (frame_ok rx r) fs → Forall has_payload_header rx → Forall (Forall is_byte) rx →
  ∃ ds, Forall2 (λ f d, d ∈ rx ∧ ∃ hdr len, parse_rtp d = Some (hdr, len, f_seq f)) fs ds
    ∧ flat_bytes (slab_ r) (chunk_of ∘ hook_packet <$> fs) = ds ≫= codestream_part.
Proof.
  intros Hf Hph Hby. induction Hf as [|f fs Hf _ (ds & H1 & H2)]; [by exists []|].
  destruct (lent_chunk rx r f Hf Hph Hby) as (d & Hd & Hp & Hm). exists (d :: ds).
  split; [by constructor|]. cbn [fmap list_fmap]. rewrite flat_bytes_cons, H2. by rewrite bind_cons, <- Hm.
Qed.

Lemma rx_bytes `{TileLaws T} cb s0 s :
  Forall (Forall is_byte) (pl_rx s0) → rtc (pstep (T := T) cb) s0 s → Forall (Forall is_byte) (pl_rx s).
Proof.
  intros Hb0 Hr. revert Hb0. induction Hr as [|s0 s1 s Hst _ IH]; intros Hb1; [done|]. apply IH.
  destruct Hst as [dgram s0 r Hb _|s0 s1 E]; [constructor; [by apply Forall_take|done]|].
  unfold work_and_hook in E. destruct (work_one true _) as [[[f|] r]|]; [| |done].
  - destruct (rtp_receive_hook _ _ _ _) as [[? []]| |]; [|done|done]. by injection E as <-.
  - by injection E as <-.
Qed.

(** ** Properties *)

(** C4: zero-copy safety of the assembled program.  Receive steps and worker steps
    interleave in any way; the hook feeds the frame handler, which holds slabs over
    whole frames and releases them through the receiver.  In every state reached by
    datagrams whose payload has at least the eight bytes of the payload header (the hook
    subtracts eight from any length: see [short_payload_delivered] for shorter ones), the
    handler's chain consists of frames in delivery order, its chunks designate exactly
    the codestream parts of datagrams received with those sequence numbers (whatever
    was received since), and no two of its slabs, and none of a queued job, coincide. *)
Theorem pipeline_zero_copy `{TileLaws T} cb (t : T) k ring0 slab0 queue0 jitter s :
  release_slab_cb_ cb = true → 0 < jitter ≤ kRingSize →
  rtc (pstep cb) (pipeline_start t k ring0 slab0 queue0 jitter) s → Forall has_payload_header (pl_rx s) →
  ∃ fs ds, fs `sublist_of` pl_out s
    ∧ held_slabs_ (pl_fh s) = f_slab_idx <$> fs
    ∧ chunks_ (cs (pl_fh s)) = chunk_of ∘ hook_packet <$> fs
    ∧ Forall2 (λ f d, d ∈ pl_rx s ∧ ∃ hdr len, parse_rtp d = Some (hdr, len, f_seq f)) fs ds
    ∧ flat_bytes (slab_ (pl_recv s)) (chunks_ (cs (pl_fh s))) = ds ≫= codestream_part
    ∧ NoDup (held_slabs_ (pl_fh s) ++ (j_slab_idx <$> queue_list (pl_recv s))).
Proof.
  intros Hcb Hj Hr Hph. destruct (reachable_lends cb Hcb _ _ _ _ _ _ _ Hr) as (fs & rs & Hrs & [L1 L2 L3 [L4 L5] L6 L7]).
  pose proof (rs_inv_reachable _ _ _ _ _ Hj Hrs) as [_ I2 I3 _ _]. rewrite L1, L3, L6 in I2. rewrite L1, L6 in I3.
  pose proof (rx_bytes cb (pipeline_start t k ring0 slab0 queue0 jitter) s (Forall_nil_2 _) Hr) as Hby.
  destruct (lent_chain _ _ fs I2 Hph Hby) as (ds & H1 & H2).
  rewrite <- list_fmap_compose in L4, L5. exists fs, ds. rewrite L4, L5. by split_and!.
Qed.

(** C7: no slot is lost and none is reused too early.  In every reachable state of the
    assembled program a slot's [in_worker] flag is raised exactly when the frame handler
    holds it or a job for it is queued: the receive thread may reuse all other slots,
    and a slot the frame handler has given back is among them. *)
Theorem pipeline_slots_accounted `{TileLaws T} cb (t : T) k ring0 slab0 queue0 jitter s i :
  release_slab_cb_ cb = true → 0 < jitter ≤ kRingSize →
  rtc (pstep cb) (pipeline_start t k ring0 slab0 queue0 jitter) s →
  in_worker (ring_ (pl_recv s) i) ≠ 0
  ↔ i ∈ held_slabs_ (pl_fh s) ∨ i ∈ (j_slab_idx <$> queue_list (pl_recv s)).
Proof.
  intros Hcb Hj Hr. destruct (reachable_lends cb Hcb _ _ _ _ _ _ _ Hr) as (fs & rs & Hrs & [L1 _ _ [L4 _] L6 _]).
  pose proof (flags_owned_reachable _ _ _ _ _ Hj Hrs) as Ho. rewrite L1, L6 in Ho.
  pose proof (rs_inv_reachable _ _ _ _ _ Hj Hrs) as [I1 I2 _ _ _]. rewrite L1 in I1, I2. rewrite L6 in I2.
  rewrite L4, <- list_fmap_compose. change (p_slab ∘ hook_packet) with f_slab_idx. split; [apply Ho|].
  intros [Hi|Hi]; apply list_elem_of_fmap in Hi as (x & -> & Hx).
  - rewrite Forall_forall in I2. destruct (I2 x Hx) as (_ & -> & _). done.
  - pose proof (ri_jobs _ _ I1) as Hjobs. rewrite Forall_forall in Hjobs. destruct (Hjobs x Hx) as (_ & -> & _). done.
Qed.

(** C11: the program refines the receiver's contract.  Every run of the assembled program
    is a run of the receiver with an owner that only releases frames it holds, the state
    the in-order delivery and memory theorems of [Receiver] are about: the frames the
    hook has seen, in order, are the same. *)
Theorem pipeline_refines_receiver `{TileLaws T} cb (t : T) k ring0 slab0 queue0 jitter s :
  release_slab_cb_ cb = true →
  rtc (pstep cb) (pipeline_start t k ring0 slab0 queue0 jitter) s →
  ∃ rs, rtc rstep (start_state ring0 slab0 queue0 jitter) rs
    ∧ rs_recv rs = pl_recv s ∧ rs_out rs = pl_out s ∧ rs_rx rs = pl_rx s
    ∧ (f_slab_idx <$> rs_held rs) ≡ₚ held_slabs_ (pl_fh s).
Proof.
  intros Hcb Hr. destruct (reachable_lends cb Hcb _ _ _ _ _ _ _ Hr) as (fs & rs & Hrs & [L1 L2 L3 [L4 _] L6 _]).
  exists rs. split_and!; try done. rewrite L4, L6, <- list_fmap_compose. done.
Qed.

(** ** Witnesses: a main packet is received and its slab held *)
Definition pipe_dgram : list Z := [128; 96; 0; 5; 0; 0; 0; 1; 0; 0; 0; 2] ++ payload 3 0 0 (sys_header 32 16).
#[local] Instance pipe_ops : TileHandler tile_handler := sys_ops.
#[local] Instance pipe_laws : TileLaws tile_handler := sys_laws.
Definition pipe_s0 : pstate := pipeline_start new_tile_handler 4 demo_ring demo_slab demo_queue 64.
Definition pipe_s1 : pstate :=
  match recv_one pipe_dgram (pl_recv pipe_s0) with
  | Ret r => mkPs r main_params (pl_fh pipe_s0) [] [take (Z.to_nat kSlotBytes) pipe_dgram]
  | _ => pipe_s0
  end.
Definition pipe_s2 : pstate :=
  match work_and_hook main_callbacks pipe_s1 with Some (Ret s) => s | _ => pipe_s1 end.

Lemma pipe_reachable : rtc (pstep main_callbacks) pipe_s0 pipe_s2.
Proof.
  apply (rtc_l _ _ pipe_s1); [|apply (rtc_l _ _ pipe_s2); [|apply rtc_refl]].
  - assert ((match recv_one pipe_dgram (pl_recv pipe_s0) with Ret _ => true | _ => false end) = true) as H
      by (vm_compute; reflexivity).
    unfold pipe_s1. destruct (recv_one pipe_dgram (pl_recv pipe_s0)) as [r| |] eqn:E; [|done|done].
    apply (pipe_recv _ pipe_dgram pipe_s0 r); [|exact E].
    apply (bool_decide_unpack _). vm_compute. exact I.
  - apply pipe_work. assert ((match work_and_hook main_callbacks pipe_s1 with Some (Ret _) => true | _ => false end) = true)
      as H by (vm_compute; reflexivity).
    unfold pipe_s2. destruct (work_and_hook main_callbacks pipe_s1) as [[| |]|]; done.
Qed.

Lemma pipe_rx : pl_rx pipe_s2 = [pipe_dgram].
Proof. vm_compute. reflexivity. Qed.

Lemma pipeline_zero_copy_witness :
  held_slabs_ (pl_fh pipe_s2) = [5]
  ∧ flat_bytes (slab_ (pl_recv pipe_s2)) (chunks_ (cs (pl_fh pipe_s2))) = sys_header 32 16.
Proof.
  split; [vm_compute; reflexivity|].
  destruct (pipeline_zero_copy main_callbacks new_tile_handler 4 demo_ring demo_slab demo_queue 64 pipe_s2)
    as (fs & ds & _ & Hh & _ & Hd & -> & _).
  - reflexivity.
  - unfold kRingSize. lia.
  - exact pipe_reachable.
  - rewrite pipe_rx. apply Forall_singleton. intros hdr len seq E. vm_compute in E. injection E as <- <- <-. lia.
  - assert (held_slabs_ (pl_fh pipe_s2) = [5]) as E by (vm_compute; reflexivity). rewrite E in Hh.
    destruct fs as [|f [|]]; [discriminate Hh| |discriminate Hh].
    apply Forall2_cons_inv_l in Hd as (d & ds' & [Hin _] & Hn & ->). apply Forall2_nil_inv_l in Hn as ->.
    rewrite pipe_rx, list_elem_of_singleton in Hin. rewrite Hin. vm_compute. reflexivity.
Defined.

Lemma pipeline_slots_accounted_witness : in_worker (ring_ (pl_recv pipe_s2) 5) ≠ 0.
Proof.
  apply (pipeline_slots_accounted main_callbacks new_tile_handler 4 demo_ring demo_slab demo_queue 64 pipe_s2 5);
    [reflexivity|unfold kRingSize; lia|exact pipe_reachable|].
  left. assert (held_slabs_ (pl_fh pipe_s2) = [5]) as -> by (vm_compute; reflexivity). by apply list_elem_of_singleton.
Defined.

Lemma pipeline_refines_receiver_witness :
  ∃ rs, rtc rstep demo_start rs ∧ rs_recv rs = pl_recv pipe_s2 ∧ rs_out rs = pl_out pipe_s2.
Proof.
  destruct (pipeline_refines_receiver main_callbacks new_tile_handler 4 demo_ring demo_slab demo_queue 64 pipe_s2)
    as (rs & H1 & H2 & H3 & _); [reflexivity|exact pipe_reachable|].
  exists rs. split; [exact H1|]. split; [exact H2|exact H3].
Defined.
