(* ===== verification/Wire.v ===== *)
(** * Wire: from the datagrams to the consumer

    [Pipeline] runs the receiver, the hook and the frame handler together; [Stream] says
    what the consumer sees of intact frames.  Here the two meet: whatever the two threads
    interleave, when the payloads the hook was called with are the frames of a stream,
    the consumer sees these frames, although their slabs are written, held and reused
    while the stream goes on. *)
From S2P Require Import Prelude Receiver Slots Codestream BitReader Markers Structs MainHeader.
From S2P Require Import HeaderSpec Signature PacketHeader PacketSpec PacketSafety Progression Geometry GeometrySpec.
From S2P Require Import TileHandler TileSpec TileSafety TileRestart Create FrameHandler Ownership System.
From S2P Require Import EndToEnd Main Pipeline Stream.

(** ** Memory that keeps what is held *)
Definition same_slot (m m' : memory) (i : Z) : Prop :=
  ∀ o, 0 ≤ o < kSlotBytes → m' (i * kSlotBytes + o) = m (i * kSlotBytes + o).
(** The packet lies in its slab. *)
Definition in_slot (p : packet) : Prop :=
  p_slab p * kSlotBytes ≤ p_payload p ∧ p_payload p + 8 + p_size p ≤ (p_slab p + 1) * kSlotBytes.

(** Between two calls of [pull_data] the slabs the handler holds do not change; [m] is the
    memory of the call before. *)
Fixpoint persists `{TileHandler T} (cb : callbacks) (calls : list (memory * packet)) (m : memory)
    (s : frame_handler T) : Prop :=
  match calls with
  | [] => True
  | (mi, p) :: calls =>
      Forall (same_slot m mi) (held_slabs_ s) ∧ ∀ s', pull_data cb mi p s = Ret ((), s') → persists cb calls mi s'
  end.

Lemma slot_packet m m1 m2 p : in_slot p → same_packet m m1 p → same_slot m1 m2 (p_slab p) → same_packet m m2 p.
Proof.
  intros [H1 H2] Hp Hs o Ho. rewrite <- (Hp o Ho).
  replace (p_payload p + o) with (p_slab p * kSlotBytes + (p_payload p + o - p_slab p * kSlotBytes)) by lia.
  apply Hs. lia.
Qed.
Lemma slot_packets m m1 m2 ps :
  Forall in_slot ps → Forall (same_packet m m1) ps → Forall (same_slot m1 m2) (p_slab <$> ps) → Forall (same_packet m m2) ps.
Proof.
  intros Hi Hp Hs. rewrite Forall_fmap in Hs. rewrite Forall_forall in *. intros p Hin. eapply slot_packet; [by apply Hi|by apply Hp|by apply Hs].
Qed.

Lemma persists_app `{TileHandler T} cb l1 l2 m (s s1 : frame_handler T) :
  persists cb (l1 ++ l2) m s → pull_all cb l1 s = Ret ((), s1) → persists cb l2 (default m (last l1.*1)) s1.
Proof.
  revert m s. induction l1 as [|[mi p] l1 IH]; intros m s Hp E; cbn [pull_all app persists] in *; [by injection E as <-|].
  destruct Hp as [_ Hp]. unfold mbind, M_bind in E. destruct (pull_data cb mi p s) as [[[] s']| |]; [|done|done].
  specialize (IH mi s' (Hp s' eq_refl) E). cbn [fmap list_fmap fst]. rewrite last_cons. by destruct (last l1.*1).
Qed.

Lemma persists_prefix `{TileHandler T} cb l1 l2 m (s : frame_handler T) : persists cb (l1 ++ l2) m s → persists cb l1 m s.
Proof. revert m s. induction l1 as [|[mi p] l1 IH]; intros m s Hp; [done|]. destruct Hp as [H1 H2]. split; [done|]. eauto. Qed.
Lemma persists_snoc `{TileHandler T} cb l c m (s s1 : frame_handler T) :
  persists cb l m s → pull_all cb l s = Ret ((), s1) → Forall (same_slot (default m (last l.*1)) c.1) (held_slabs_ s1) →
  persists cb (l ++ [c]) m s.
Proof.
  revert m s. induction l as [|[mi p] l IH]; intros m s Hp E Hh; cbn [pull_all app persists] in *.
  { injection E as <-. by destruct c. }
  destruct Hp as [H1 H2]. split; [done|]. intros s' P. unfold mbind, M_bind in E. rewrite P in E. eapply IH; [by apply H2|done|].
  cbn [fmap list_fmap fst] in Hh. rewrite last_cons in Hh. by destruct (last l.*1).
Qed.

(** ** A frame handled in such memories *)
Section Frame.
Context (uninit : list tcomp_) (stale : Z → blk_) (cb : callbacks).
#[local] Instance wi_ops : TileHandler tile_handler := tile_ops uninit stale.
#[local] Instance wi_laws : TileLaws tile_handler := tile_laws uninit stale.
Hypothesis Hcb : registered cb.
Hypothesis Hprec : prec_cb_ cb = true.
Implicit Types s : frame_handler tile_handler.

(** Each packet is there when it is handled. *)
Definition own (mem m : memory) (p : packet) : Prop := byte_memory m ∧ same_packet mem m p.

Lemma bodies_seen mem bs ms prev s tail post m :
  ahead mem bs tail post prev s → last_marked bs → Forall in_slot (prev ++ bs.*1) → Forall (same_packet mem m) prev →
  Forall2 (own mem) ms bs.*1 → persists cb (zip ms bs.*1) m s → seen mem prev ms bs.*1.
Proof.
  revert ms prev s m. induction bs as [|[p d] bs IH]; intros ms prev s m Ha Hl Hi Hm Ho Hp; [done|].
  cbn [fmap list_fmap fst] in *. destruct ms as [|mi ms]; [by inversion Ho|]. apply Forall2_cons in Ho as [[Hb Hmi] Ho].
  cbn [zip zip_with persists] in Hp. destruct Hp as [Hh Hp]. rewrite (ah_held _ _ _ _ _ _ Ha) in Hh.
  pose proof Hi as [Hi1 Hi2]%Forall_app.
  assert (Forall (same_packet mem mi) (prev ++ [p])) as Hall
    by (apply Forall_app; split; [by eapply slot_packets|by apply Forall_singleton]).
  split; [done|]. split; [done|]. destruct (ahead_step uninit stale cb mem Hcb Hprec mi p d bs tail post prev s Ha Hall)
    as (s1 & P1 & A1 & _).
  destruct bs as [|b bs]; [by apply Forall2_nil_inv_r in Ho as ->|]. destruct Hl as [Hl1 Hl]. rewrite Hl1 in P1.
  apply (IH ms (prev ++ [p]) s1 mi A1 Hl); [by rewrite <- app_assoc|done|done|by apply Hp].
Qed.

(** Its packets lie in their slabs, and each is there when it is handled. *)
Record arrives (f : frame) : Prop := {
  ar_slots : Forall in_slot (fr_packets f);
  ar_own : Forall2 (own (fr_mem f)) (fr_mems f) (fr_packets f)
}.

Lemma arrives_main h walk f :
  frame_sound h walk f → arrives f →
  ∃ m0 ms, fr_mems f = m0 :: ms ∧ main_ok m0 f ∧ fr_input f = (m0, fr_main f) :: zip ms (fr_bodies f).*1.
Proof.
  intros Hf [_ Ho]. unfold fr_input, fr_packets in *. destruct (fr_mems f) as [|m0 ms]; [by inversion Ho|].
  apply Forall2_cons in Ho as [[Hb Hm] _]. exists m0, ms. split_and!; [done|by eapply frame_main|done].
Qed.

Lemma frame_persists h walk f m0 ms s1 :
  supported h → frame_sound h walk f → arrives f → fr_mems f = m0 :: ms →
  persists cb (zip ms (fr_bodies f).*1) m0 s1 → opened m0 h walk f s1 → Stream.frame_ok h walk f.
Proof.
  intros Hsu Hf [Hi Ho] Em Hp O1. split; [done|]. rewrite Em in *. apply Forall2_cons in Ho as [[Hb Hm] Ho].
  split; [done|]. split; [by apply Forall_singleton|].
  apply (opened_agrees _ _ _ _ _ _ (same_sym _ _ _ Hm)) in O1.
  eapply (bodies_seen (fr_mem f) (fr_bodies f) ms [fr_main f] s1); [by eapply opened_ahead|apply (fo_last _ _ _ Hf)|done| |done|done].
  by apply Forall_singleton.
Qed.

(** Frames of the latched stream. *)
Lemma later_arrive h walk sig fs s m :
  supported h → on_stream h walk sig s → Forall (frame_sound h walk) fs → Forall arrives fs →
  Forall (λ g, signature_of (fr_header g) = sig) fs → persists cb (fs ≫= fr_input) m s → Forall (Stream.frame_ok h walk) fs.
Proof.
  intros Hsu Hos Hf. revert s m Hos. induction Hf as [|f fs Hf _ IH]; intros s m Hos Ha Hsig Hp; [constructor|].
  apply Forall_cons in Ha as [Ha1 Ha]. apply Forall_cons in Hsig as [Es Hsig]. rewrite <- Es in Hos.
  destruct (arrives_main h walk f Hf Ha1) as (m0 & ms & Em & Hmo & Ei). rewrite bind_cons in Hp.
  destruct (open_latched uninit stale cb m0 Hcb h walk f s Hos Hmo) as (s1 & P1 & O1 & _).
  assert (Stream.frame_ok h walk f) as Hok.
  { apply (frame_persists h walk f m0 ms s1); try done. rewrite Ei in Hp. cbn [app persists] in Hp. destruct Hp as [_ Hp].
    specialize (Hp s1 P1). by apply persists_prefix in Hp. }
  apply Forall_cons. split; [done|].
  destruct (latched_frame uninit stale cb Hcb Hprec h walk f s Hsu Hos Hok) as (s2 & P2 & O2 & _). rewrite Es in O2.
  eapply (IH s2); [done|done|done|]. by eapply persists_app.
Qed.

(** A stream from its first header on. *)
Lemma stream_arrives segs s walk f fs m :
  let t0 := reset_caps (tabs (tile_hndr s)) in
  let h := foldl seg_apply t0 segs in
  let sig := signature_of (raws t0 segs) in
  idle s → tables_wf (tabs (tile_hndr s)) → header_valid t0 segs → supported h → uninit_ok uninit h → latches_anew sig s →
  creates uninit stale h (latch_base s) walk → Forall (frame_sound h walk) (f :: fs) → Forall arrives (f :: fs) →
  fr_header f = raws t0 segs → Forall (λ g, signature_of (fr_header g) = sig) fs →
  persists cb ((f :: fs) ≫= fr_input) m s → Forall (Stream.frame_ok h walk) (f :: fs).
Proof.
  intros t0 h sig Hi Hwf Hv Hsu Hu Hl Hc Hf Ha Eh Hsig Hp. apply Forall_cons in Hf as [Hf Hfs]. apply Forall_cons in Ha as [Ha1 Ha].
  destruct (arrives_main h walk f Hf Ha1) as (m0 & ms & Em & Hmo & Ei). rewrite bind_cons in Hp.
  destruct (open_anew uninit stale cb m0 Hcb s segs walk f Hi Hwf Hv (su_stream _ Hsu) Hu Hl Hc Hmo Eh) as (s1 & P1 & O1 & _).
  assert (Stream.frame_ok h walk f) as Hok.
  { apply (frame_persists h walk f m0 ms s1); try done. rewrite Ei in Hp. cbn [app persists] in Hp. destruct Hp as [_ Hp].
    specialize (Hp s1 P1). by apply persists_prefix in Hp. }
  apply Forall_cons. split; [done|].
  destruct (first_frame uninit stale cb Hcb Hprec s segs walk f Hi Hwf Hv Hsu Hu Hl Hc Hok Eh) as (s2 & P2 & O2 & _).
  eapply (later_arrive h walk sig fs s2); try done. by eapply persists_app.
Qed.
End Frame.

(** ** The slabs hold bytes *)
Lemma dispatch_slab i len seq hdr r : slab_ (dispatch i len seq hdr r) = slab_ r.
Proof. unfold dispatch, enqueue_job. by destruct (_ =? _). Qed.
Lemma advance_slab r : slab_ (advance_head r) = slab_ r.
Proof. unfold advance_head. destruct (head_ready r); [|done]. apply dispatch_slab. Qed.
Lemma force_slab fuel seq r r' : force_advance fuel seq r = Ret r' → slab_ r' = slab_ r.
Proof.
  revert r. induction fuel as [|n IH]; intros r; cbn [force_advance]; [done|]. destruct (_ <=? _); [|by intros [= ->]].
  intros E. by rewrite (IH _ E), advance_slab.
Qed.
Lemma release_slabs fuel r : slab_ (release_loop fuel r) = slab_ r.
Proof.
  revert r. induction fuel as [|n IH]; intros r; cbn [release_loop]; [done|]. destruct (head_ready r); [|done].
  rewrite IH. apply dispatch_slab.
Qed.
Lemma slab_write_bytes idx data n m :
  n ≤ Z.of_nat (length data) → Forall is_byte data → byte_memory m → byte_memory (slab_write idx data n m).
Proof.
  intros Hl Hd Hm a. unfold slab_write. cbv zeta. destruct (_ && _) eqn:E; [|apply Hm].
  apply andb_true_iff in E as [E1%Z.leb_le E2%Z.ltb_lt].
  destruct (lookup_lt_is_Some_2 data (Z.to_nat (a - idx * kSlotBytes)) ltac:(lia)) as [x Hx].
  rewrite (list_lookup_total_correct _ _ _ Hx). by eapply Forall_lookup_1.
Qed.
Lemma recv_bytes dgram r r' :
  Forall is_byte dgram → recv_one dgram r = Ret r' → byte_memory (slab_ r) → byte_memory (slab_ r').
Proof.
  intros Hd. unfold recv_one. set (data := take _ dgram). assert (Forall is_byte data) as Hb by (by apply Forall_take).
  destruct (_ <? 12); [by intros [= ->]|]. unfold handle_dgram. destruct (parse_rtp data) as [[[hdr eff] seq]|] eqn:Ep; [|by intros [= ->]].
  destruct (parse_rtp_ok _ _ _ _ Hb Ep) as (_ & _ & Hle & _). cbn zeta. set (r0 := if started_ r then r else _).
  assert (slab_ r0 = slab_ r) as E0 by (unfold r0; by destruct (started_ r)).
  destruct (_ <? 0); [intros [= <-]; by rewrite E0|]. destruct (force_advance _ _ _) as [r1| |] eqn:Ef; [|done|done].
  apply force_slab in Ef. rewrite E0 in Ef. destruct (filled _).
  { destruct (_ =? _); intros [= <-]; cbn; by rewrite Ef. }
  destruct (negb _); intros [= <-]; cbn; [by rewrite Ef|]. unfold release_in_order. rewrite release_slabs. cbn.
  rewrite Ef. by apply slab_write_bytes.
Qed.

(** ** The calls of the hook *)
Section Calls.
Context `{TileLaws T} (cb : callbacks).
Hypothesis Hrel : release_slab_cb_ cb = true.

Definition hook_call (c : memory * Frame) : memory * packet := (c.1, hook_packet c.2).

(** The payload of a datagram: behind the RTP header, without the padding. *)
Definition payload_of (d : list Z) : list Z :=
  match parse_rtp d with
  | Some (hdr, len, _) => take (Z.to_nat (len - hdr)) (drop (Z.to_nat hdr) d)
  | None => []
  end.
(** What the hook saw: the frame, and the bytes its payload pointer designated. *)
Definition log_entry (c : memory * Frame) : Frame * list Z := (c.2, mem_bytes c.1 (f_payload c.2) (f_payload_len c.2)).

(** A payload of a received datagram, inside its slot. *)
Definition from_wire (rx : list (list Z)) (e : Frame * list Z) : Prop :=
  ∃ d hdr len, d ∈ rx ∧ parse_rtp d = Some (hdr, len, f_seq e.1) ∧ 12 ≤ hdr ≤ len ∧ len ≤ kSlotBytes
    ∧ f_payload e.1 = f_slab_idx e.1 * kSlotBytes + hdr ∧ f_payload_len e.1 = len - hdr ∧ e.2 = payload_of d.

Record recorded (t : T) (k : Z) (calls : list (memory * Frame)) (s : pstate) : Prop := {
  rc_out : calls.*2 = pl_out s;
  rc_run : pull_all cb (hook_call <$> calls) (started t k) = Ret ((), pl_fh s);
  rc_persists : persists cb (hook_call <$> calls) (λ _, 0) (started t k);
  rc_now : Forall (same_slot (default (λ _, 0) (last calls.*1)) (slab_ (pl_recv s))) (held_slabs_ (pl_fh s));
  rc_wire : Forall (from_wire (pl_rx s)) (log_entry <$> calls);
  rc_bytes : Forall byte_memory calls.*1 ∧ byte_memory (slab_ (pl_recv s))
}.

Lemma from_wire_more rx d e : from_wire rx e → from_wire (d :: rx) e.
Proof. intros (x & hdr & len & Hx & Hr). exists x, hdr, len. split; [by apply elem_of_cons; right|done]. Qed.

Lemma frame_from_wire rx r f :
  Receiver.frame_ok rx r f → Forall (Forall is_byte) rx → from_wire rx (log_entry (slab_ r, f)).
Proof.
  intros (_ & _ & hdr & len & Hl & (Hk & d & Hd & Hp & Hb) & E1 & E2) Hby.
  rewrite Forall_forall in Hby. destruct (parse_rtp_ok d hdr len (f_seq f) (Hby d Hd) Hp) as (_ & _ & Hle & _).
  exists d, hdr, len. cbn [fst snd log_entry]. split_and!; try done; try lia. unfold payload_of. rewrite Hp, E1, E2.
  apply mem_bytes_data; [lia| |lia]. intros o Ho. replace (f_slab_idx f * kSlotBytes + hdr + o) with (f_slab_idx f * kSlotBytes + (hdr + o)) by lia.
  apply Hb. lia.
Qed.

(** A receive step: the held slabs stay. *)
Lemma recorded_recv t k calls dgram s r fs rs :
  recorded t k calls s → lends fs s rs → rs_inv rs → Forall is_byte dgram → recv_one dgram (pl_recv s) = Ret r →
  recorded t k calls (mkPs r (pl_params s) (pl_fh s) (pl_out s) (take (Z.to_nat kSlotBytes) dgram :: pl_rx s)).
Proof.
  intros [R1 R2 R3 R4 R5 [R6 R7]] [L1 _ L3 [L4 _] L6 _] [I1 I2 _ _ _] Hb E. rewrite L1, L3 in I1, I2.
  destruct (recv_one_spec _ dgram _ I1 Hb) as (r' & E' & _ & K & _). rewrite E in E'. injection E' as <-.
  split; cbn [pl_out pl_fh pl_recv pl_rx]; try done.
  - rewrite L4 in *. rewrite Forall_forall in I2. rewrite Forall_forall in R4 |- *. intros i Hi o Ho. rewrite <- (R4 i Hi o Ho).
    apply list_elem_of_fmap in Hi as (q & -> & Hq). apply list_elem_of_fmap in Hq as (f & -> & Hf).
    apply (kw_bytes _ _ K); [|done]. rewrite <- L6 in Hf. destruct (I2 f Hf) as (_ & Hw & _). exact Hw.
  - eapply Forall_impl; [exact R5|]. intros e. apply from_wire_more.
  - split; [done|]. by eapply recv_bytes.
Qed.

Lemma release_all_slab l r : slab_ (release_all l r) = slab_ r.
Proof.
  unfold release_all. revert r. induction l as [|i l IH]; intros r; cbn [foldl]; [done|]. rewrite IH.
  unfold release_slab. by destruct (_ <? _).
Qed.

(** A worker step. *)
Lemma recorded_work t k calls s s' fs rs :
  recorded t k calls s → lends fs s rs → rs_inv rs → Forall (Forall is_byte) (pl_rx s) → work_and_hook cb s = Some (Ret s') →
  ∃ calls', recorded t k calls' s'.
Proof.
  intros [R1 R2 R3 R4 R5 [R6 R7]] [L1 L2 L3 L4 L5 _] Hinv Hby E. unfold work_and_hook in E.
  destruct (work_one true (pl_recv s)) as [[[f|] r]|] eqn:Ew; [| |done].
  2:{ injection E as <-. exfalso. destruct rs as [rr held out rx]. cbn in L1. subst rr.
      destruct (work_one_spec _ _ _ _ (si_recv _ Hinv) Ew) as (j & Hj). cbn in Hj. destruct_and! Hj.
      unfold process_job in *. rewrite (proj2 (Z.leb_le _ _)) in * by done. done. }
  assert (slab_ r = slab_ (pl_recv s)) as Es.
  { pose proof (si_recv _ Hinv) as Hi. rewrite L1 in Hi. by destruct (work_one_spec _ _ _ _ Hi Ew) as (j & _ & _ & _ & _ & Es & _). }
  destruct (rtp_receive_hook cb (slab_ r) f (pl_params s, pl_fh s)) as [[o [p fh]]| |] eqn:Eh; [|done|done]. injection E as <-.
  unfold rtp_receive_hook in Eh. destruct (pull_data cb (slab_ r) (hook_packet f) (pl_fh s)) as [[[] fh']| |] eqn:Ep; [|done|done].
  assert (fh' = fh) as -> by (destruct (hook_stats _ _ _); congruence).
  assert (Receiver.frame_ok (pl_rx s) r f) as Hf.
  { destruct rs as [rr held out rx]. cbn in L1, L3. subst rr rx. pose proof (inv_step_work f _ r Hinv Ew) as [_ I2 _ _ _].
    by apply Forall_cons in I2 as [? _]. }
  exists (calls ++ [(slab_ r, f)]). split; cbn [pl_out pl_fh pl_recv pl_rx]; rewrite ?fmap_app.
  - by rewrite R1.
  - rewrite (pull_all_app cb _ _ _ _ R2). cbn [fmap list_fmap hook_call fst snd pull_all]. by rewrite (bind_run _ _ _ _ _ Ep).
  - apply (persists_snoc cb _ (hook_call (slab_ r, f)) _ _ (pl_fh s)); [done|done|]. rewrite <- list_fmap_compose.
    cbn [hook_call fst snd compose]. rewrite Es. exact R4.
  - cbn [fmap list_fmap fst]. rewrite last_snoc, release_all_slab. apply Forall_forall. by intros i _ b _.
  - apply Forall_app. split; [done|]. apply Forall_singleton. by apply frame_from_wire.
  - rewrite release_all_slab, Es. split; [|done]. apply Forall_app. split; [done|]. by apply Forall_singleton.
Qed.

Lemma reachable_recorded t k ring0 slab0 queue0 jitter s :
  0 < jitter ≤ kRingSize → byte_memory slab0 → rtc (pstep cb) (pipeline_start t k ring0 slab0 queue0 jitter) s →
  ∃ calls, recorded t k calls s.
Proof.
  intros Hj Hb Hr. revert s Hr. apply rtc_ind_r.
  - exists []. by split; [| | | | |split].
  - intros s1 s2 Hr Hst (calls & Hc). destruct (reachable_lends cb Hrel _ _ _ _ _ _ _ Hr) as (fs & rs & Hrs & Hl).
    pose proof (rs_inv_reachable _ _ _ _ _ Hj Hrs) as Hinv. destruct Hst as [dgram s r Hd E|s s' E].
    + exists calls. by eapply recorded_recv.
    + eapply recorded_work; try done. by eapply (rx_bytes cb (pipeline_start t k ring0 slab0 queue0 jitter)).
Qed.
End Calls.

(** ** The frames in what the hook saw *)

(** The payloads [L] are the packets of [f], byte for byte. *)
Definition carries (L : list (Frame * list Z)) (f : frame) : Prop :=
  hook_packet ∘ fst <$> L = fr_packets f
  ∧ Forall (λ e, mem_bytes (fr_mem f) (f_payload e.1) (f_payload_len e.1) = e.2) L.

Lemma bytes_agree m m' a n o : mem_bytes m a n = mem_bytes m' a n → 0 ≤ o < n → m (a + o) = m' (a + o).
Proof.
  intros E Ho. pose proof (lookup_mem_bytes m a n o Ho) as H1. rewrite E, lookup_mem_bytes in H1 by done. by injection H1.
Qed.

Lemma carried_packet rx m F mem :
  from_wire rx (log_entry (m, F)) → byte_memory m →
  mem_bytes mem (f_payload F) (f_payload_len F) = mem_bytes m (f_payload F) (f_payload_len F) →
  0 < p_size (hook_packet F) < 65536 → in_slot (hook_packet F) ∧ own mem m (hook_packet F).
Proof.
  intros (d & hdr & len & _ & _ & Hh & Hk & Ep & El & _) Hb E Hs. cbn [fst snd log_entry] in Ep, El. cbn [p_size hook_packet] in Hs.
  assert (u64 (f_payload_len F - 8) = f_payload_len F - 8) as Eu.
  { rewrite El in *. unfold kSlotBytes in *. destruct (decide (8 ≤ len - hdr)); [apply u64_small; lia|].
    exfalso. unfold u64 in Hs. rewrite <- (Z.mod_add _ 1), Z.mod_small in Hs by lia. lia. }
  unfold in_slot, own, same_packet. cbn [p_size p_slab p_payload hook_packet]. rewrite Eu. split; [lia|]. split; [done|].
  intros o Ho. symmetry. eapply bytes_agree; [exact E|lia].
Qed.

Lemma bodies_sized mem off q bs : sound_bodies mem off q bs → Forall (λ p, 0 < p_size p < 65536) bs.*1.
Proof.
  revert off q. induction bs as [|[p d] bs IH]; intros off q Hs; [constructor|]. destruct Hs as [[_ _ Hz _] Hs].
  apply Forall_cons. split; [done|]. by eapply IH.
Qed.
Lemma packets_sized h walk f : frame_sound h walk f → Forall (λ p, 0 < p_size p < 65536) (fr_packets f).
Proof.
  intros Hf. apply Forall_cons. split; [by destruct (fo_main _ _ _ Hf) as (_ & _ & ?)|]. eapply bodies_sized, (fo_bodies _ _ _ Hf).
Qed.

(** [f] with the memories of the calls. *)
Definition with_mems (ms : list memory) (f : frame) : frame :=
  Stream.mkFrame (fr_mem f) ms (fr_header f) (fr_main f) (fr_bodies f) (fr_tail f) (fr_post f).

Lemma carried_frame rx calls f h walk :
  carries (log_entry <$> calls) f → frame_sound h walk f → Forall (from_wire rx) (log_entry <$> calls) → Forall byte_memory calls.*1 →
  let f' := with_mems calls.*1 f in
  fr_input f' = hook_call <$> calls ∧ arrives f' ∧ frame_sound h walk f'.
Proof.
  intros [Ep Eb] Hf Hw Hm f'. pose proof (packets_sized h walk f Hf) as Hz. rewrite <- list_fmap_compose in Ep.
  change (fr_packets f) with (fr_packets f') in Ep, Hz.
  assert (fr_input f' = hook_call <$> calls) as Ei.
  { unfold fr_input. rewrite <- Ep. cbn [f' with_mems fr_mems]. clear. induction calls as [|c l IH]; [done|]. cbn. by f_equal. }
  assert (Forall (λ c, in_slot (hook_packet c.2) ∧ own (fr_mem f) c.1 (hook_packet c.2)) calls) as Hc.
  { rewrite <- Ep in Hz. rewrite Forall_fmap in Eb. rewrite Forall_fmap in Hw. rewrite Forall_fmap in Hm. rewrite Forall_fmap in Hz. apply Forall_forall. intros [m F] Hin.
    pose proof (proj1 (Forall_forall _ _) Eb _ Hin). pose proof (proj1 (Forall_forall _ _) Hw _ Hin).
    pose proof (proj1 (Forall_forall _ _) Hm _ Hin). pose proof (proj1 (Forall_forall _ _) Hz _ Hin).
    by apply (carried_packet rx m F (fr_mem f)). }
  split_and!; [done| |by destruct Hf]. split; rewrite <- Ep.
  - apply Forall_fmap. eapply Forall_impl; [exact Hc|]. by intros c [? _].
  - cbn [f' with_mems fr_mems fr_mem]. clear -Hc. induction Hc as [|c l [_ Ho] _ IH]; [constructor|]. cbn. by constructor.
Qed.

(** All of them. *)
Lemma carried_frames rx calls Ls fs h walk :
  Forall2 carries Ls fs → log_entry <$> calls = concat Ls → Forall (frame_sound h walk) fs →
  Forall (from_wire rx) (log_entry <$> calls) → Forall byte_memory calls.*1 →
  ∃ mss, length mss = length fs ∧ let fs' := zip_with with_mems mss fs in
    fs' ≫= fr_input = hook_call <$> calls ∧ Forall arrives fs' ∧ Forall (frame_sound h walk) fs'.
Proof.
  intros Hc. revert calls. induction Hc as [|L f Ls fs Hf _ IH]; intros calls Ec Hs Hw Hm.
  { exists []. split; [done|]. apply fmap_nil_inv in Ec as ->. by split_and!; [|constructor|constructor]. }
  cbn [concat] in Ec. apply fmap_app_inv in Ec as (c1 & c2 & -> & E2 & ->). apply Forall_cons in Hs as [Hs1 Hs].
  rewrite fmap_app in Hw. rewrite fmap_app in Hm. apply Forall_app in Hw as [Hw1 Hw]. apply Forall_app in Hm as [Hm1 Hm].
  destruct (IH c2 (eq_sym E2) Hs Hw Hm) as (mss & Hl & Ei & Ha & Hs').
  destruct (carried_frame rx c1 f h walk Hf Hs1 Hw1 Hm1) as (Ei1 & Ha1 & Hs1').
  exists (c1.*1 :: mss). split; [cbn; by f_equal|]. cbn [zip_with]. cbn zeta. rewrite bind_cons, Ei, Ei1, fmap_app.
  split_and!; [done|by constructor|by constructor].
Qed.

Lemma zip_with_mems {A} (g : frame → A) mss fs :
  (∀ ms f, g (with_mems ms f) = g f) → length mss = length fs → g <$> zip_with with_mems mss fs = g <$> fs.
Proof. intros Hg. revert fs. induction mss as [|ms mss IH]; intros [|f fs] Hl; [done..|]. injection Hl as Hl. cbn. by rewrite Hg, IH. Qed.

Lemma bind_concat {A B} (g : A → list B) l : l ≫= g = concat (g <$> l).
Proof. induction l as [|x l IH]; [done|]. rewrite bind_cons, IH. done. Qed.

(** ** Property *)

(** C1: what arrives on the wire is what the consumer gets.  The program starts with nothing
    latched; datagrams arrive and the two threads interleave in any way, slots being
    written, lent to the frame handler, given back and reused.  The payloads the hook was
    called with, as the bytes stood then, are payloads of received datagrams with those
    sequence numbers.  If, in their order, they are the packets of frames of one stream in
    the supported scope ([supported]: three components, at most four levels, HT code-blocks;
    the memory the components are built in is benign above the level count, [uninit_ok]),
    each intact with its header inside the main packet, then the consumer has seen exactly
    these frames, one after the other: every byte range, every precinct of the stream's walk once and in its order, an
    intact completion of each; all are counted, none as truncated, and no slab is held. *)
Theorem received_stream_delivered uninit stale cb segs (t : tile_handler) k :
  let _ := tile_ops uninit stale in
  let t0 := reset_caps (tabs t) in
  let h := foldl seg_apply t0 segs in
  registered cb → prec_cb_ cb = true → 0 ≤ k → ready t = false → tables_wf (tabs t) → header_valid t0 segs →
  supported h → uninit_ok uninit h →
  ∃ walk, NoDup walk
    ∧ (∀ e, e ∈ walk ↔ 0 ≤ crp_c e < 3 ∧ 0 ≤ crp_r e ≤ coc_NL (coc_at h (crp_c e))
                        ∧ 0 ≤ crp_p e < precincts_of h (crp_c e) (crp_r e))
    ∧ ∀ ring0 slab0 queue0 jitter s, 0 < jitter ≤ kRingSize → byte_memory slab0 →
        rtc (pstep cb) (pipeline_start t k ring0 slab0 queue0 jitter) s →
        ∃ log, log.*1 = pl_out s ∧ Forall (from_wire (pl_rx s)) log
          ∧ ∀ Ls f fs, log = concat Ls → Forall2 carries Ls (f :: fs) → Forall (frame_sound h walk) (f :: fs) →
              fr_header f = raws t0 segs → Forall (λ g, signature_of (fr_header g) = signature_of (raws t0 segs)) fs →
              trace (pl_fh s) = frame_events [] f ++ (fs ≫= frame_events [])
              ∧ total_frames (pl_fh s) = zlength (f :: fs) ∧ trunc_frames (pl_fh s) = 0 ∧ held_slabs_ (pl_fh s) = [].
Proof.
  intros ops t0 h Hcb Hprec Hk Hr Hwf Hv Hsu Hu.
  assert (idle (started t k)) as Hi by done.
  assert (latches_anew (signature_of (raws t0 segs)) (started t k)) as Ha by (left; exact Hr).
  assert (∀ g, anew_reason (H := tile_ops uninit stale) g (started t k) = 0) as Er
    by (intros g; unfold anew_reason; change (is_ready (tile_hndr (started t k))) with (ready t); by rewrite Hr).
  destruct (stream_run uninit stale cb segs (started t k) Hcb Hprec Hi Hwf Hv Hsu Hu Ha) as (walk & Hc & N & W & Hrun).
  exists walk. split; [done|]. split; [done|]. intros ring0 slab0 queue0 jitter s Hj Hb Hreach. pose proof Hcb as (Hrel & _).
  destruct (reachable_recorded (H0 := tile_laws uninit stale) cb Hrel t k ring0 slab0 queue0 jitter s Hj Hb Hreach)
    as (calls & [R1 R2 R3 _ R5 [R6 _]]).
  exists (log_entry <$> calls). split; [by rewrite <- R1, <- list_fmap_compose|]. split; [done|].
  intros Ls f fs El HL Hf Eh Hsig.
  destruct (carried_frames (pl_rx s) calls Ls (f :: fs) h walk HL El Hf R5 R6) as ([|ms mss] & Hl & Ei & Har & Hfs); [done|].
  injection Hl as Hl. cbn [zip_with] in *. set (f' := with_mems ms f) in *. set (fs' := zip_with with_mems mss fs) in *.
  assert (Forall (λ g, signature_of (fr_header g) = signature_of (raws t0 segs)) fs') as Hsig'.
  { enough (Forall (λ x, signature_of x = signature_of (raws t0 segs)) (fr_header <$> fs')) as Hg by (by rewrite Forall_fmap in Hg).
    unfold fs'. rewrite (zip_with_mems fr_header) by done. by rewrite Forall_fmap. }
  assert (Forall (Stream.frame_ok h walk) (f' :: fs')) as Hok.
  { eapply (stream_arrives uninit stale cb Hcb Hprec segs (started t k)); try done. rewrite Ei. exact R3. }
  destruct (Hrun f' fs' Hok Eh Hsig') as (s' & P & T & C1 & C2 & _ & O). rewrite Ei, R2 in P. injection P as <-.
  rewrite Er in T. cbn [Z.eqb negb andb] in T. rewrite !bind_concat in *. unfold fs' in T.
  rewrite (zip_with_mems (frame_events [])) in T by done. split; [exact T|]. split.
  - rewrite C1. change (total_frames (started t k)) with 0. unfold zlength. cbn [length]. unfold fs'. rewrite length_zip_with, Hl. lia.
  - split; [exact C2|apply O].
Qed.

(** ** Witness: three datagrams of a frame, received and handled in an interleaving *)
#[local] Instance ww_ops : TileHandler tile_handler := sys_ops.
#[local] Instance ww_laws : TileLaws tile_handler := sys_laws.

Definition wire_dgram (seq marker : Z) (l : list Z) : list Z := [128; 96 + 128 * marker; 0; seq; 0; 0; 0; 1; 0; 0; 0; 2] ++ l.
Definition wire_d1 : list Z := wire_dgram 5 0 (payload 3 0 0 (sys_header 32 16)).
Definition wire_d2 : list Z := wire_dgram 6 0 (payload 0 0 0 (replicate 3 0)).
Definition wire_d3 : list Z := wire_dgram 7 1 (payload 0 1 0 (replicate 3 0)).

Definition recv_to (d : list Z) (s : pstate (T := tile_handler)) : pstate (T := tile_handler) :=
  match recv_one d (pl_recv s) with
  | Ret r => mkPs r (pl_params s) (pl_fh s) (pl_out s) (take (Z.to_nat kSlotBytes) d :: pl_rx s)
  | _ => s
  end.
Definition work_to (s : pstate (T := tile_handler)) : pstate (T := tile_handler) := match work_and_hook all_cb s with Some (Ret s') => s' | _ => s end.
Definition can_recv (d : list Z) (s : pstate (T := tile_handler)) : bool :=
  bool_decide (Forall is_byte d) && match recv_one d (pl_recv s) with Ret _ => true | _ => false end.
Definition can_work (s : pstate (T := tile_handler)) : bool := match work_and_hook all_cb s with Some (Ret _) => true | _ => false end.

Lemma recv_to_step d (s : pstate (T := tile_handler)) : can_recv d s = true → pstep all_cb s (recv_to d s).
Proof.
  unfold can_recv, recv_to. intros [Hb%bool_decide_eq_true_1 E]%andb_true_iff. destruct (recv_one d (pl_recv s)) as [r| |] eqn:Er; [|done|done].
  by apply pipe_recv.
Qed.
Lemma work_to_step s : can_work s = true → pstep all_cb s (work_to s).
Proof.
  unfold can_work, work_to. destruct (work_and_hook all_cb s) as [[s'| |]|] eqn:E; try done. intros _. by apply pipe_work.
Qed.

Definition wire_s0 : pstate := pipeline_start new_tile_handler 4 demo_ring demo_slab demo_queue 64.
Definition wire_s1 : pstate := recv_to wire_d1 wire_s0.
Definition wire_s2 : pstate := recv_to wire_d2 wire_s1.
Definition wire_s3 : pstate := work_to wire_s2.
Definition wire_s4 : pstate := recv_to wire_d3 wire_s3.
Definition wire_s5 : pstate := work_to wire_s4.
Definition wire_s6 : pstate := work_to wire_s5.

Lemma wire_can : can_recv wire_d1 wire_s0 = true ∧ can_recv wire_d2 wire_s1 = true ∧ can_work wire_s2 = true
  ∧ can_recv wire_d3 wire_s3 = true ∧ can_work wire_s4 = true ∧ can_work wire_s5 = true.
Proof. split_and!; vm_compute; reflexivity. Qed.
Lemma wire_reachable : rtc (pstep all_cb) wire_s0 wire_s6.
Proof.
  destruct wire_can as (H1 & H2 & H3 & H4 & H5 & H6).
  apply rtc_l with wire_s1. exact (recv_to_step wire_d1 wire_s0 H1).
  apply rtc_l with wire_s2. exact (recv_to_step wire_d2 wire_s1 H2).
  apply rtc_l with wire_s3. exact (work_to_step wire_s2 H3).
  apply rtc_l with wire_s4. exact (recv_to_step wire_d3 wire_s3 H4).
  apply rtc_l with wire_s5. exact (work_to_step wire_s4 H5).
  apply rtc_l with wire_s6. exact (work_to_step wire_s5 H6). apply rtc_refl.
Qed.
Lemma wire_rx : pl_rx wire_s6 = [wire_d3; wire_d2; wire_d1].
Proof. vm_compute. reflexivity. Qed.

(** The frame, in the slabs as they are at the end. *)
Definition wire_packet (slab size : Z) (marker : bool) : packet := at_addr (slab * 9216 + 12) size marker slab.
Definition wire_frame (walk : list crp_status) : frame :=
  Stream.mkFrame (slab_ (pl_recv wire_s6)) [] (raws wit_tables (sys_segs 32 16)) (wire_packet 5 86 false)
    [(wire_packet 6 3 false, []); (wire_packet 7 3 true, (., EmptyPacket) <$> take 3 walk)]
    ((., EmptyPacket) <$> drop 3 walk) [].
Lemma wire_out : hook_packet <$> pl_out wire_s6 = fr_packets (wire_frame []).
Proof. vm_compute. reflexivity. Qed.

Lemma demo_slab_bytes : byte_memory demo_slab.
Proof. intros a. unfold is_byte, demo_slab. lia. Qed.
Lemma wire_slab_bytes : byte_memory (slab_ (pl_recv wire_s6)).
Proof.
  destruct (reachable_recorded all_cb eq_refl new_tile_handler 4 demo_ring demo_slab demo_queue 64 wire_s6)
    as (calls & [_ _ _ _ _ [_ H]]); [unfold kRingSize; lia|exact demo_slab_bytes|exact wire_reachable|exact H].
Qed.

Lemma wire_frame_sound walk : length walk = 6%nat → frame_sound wit_h walk (wire_frame walk).
Proof.
  intros Hl. assert (fr_entries (wire_frame walk) = (., EmptyPacket) <$> walk) as Ee.
  { unfold fr_entries. cbn [wire_frame fr_bodies fr_tail]. rewrite !bind_cons. cbn [snd mbind list_bind app].
    rewrite app_nil_r, <- fmap_app, take_drop. done. }
  assert (fr_sod (wire_frame walk) = 86) as Es by (vm_compute; reflexivity).
  split; rewrite ?Ee, ?Es.
  - exact wire_slab_bytes.
  - vm_compute. congruence.
  - vm_compute. split_and!; congruence.
  - split; [|split; [vm_compute; congruence|vm_compute; reflexivity]].
    apply (bool_decide_eq_true_1 (Forall raw_ok _)). vm_compute. reflexivity.
  - cbn [sound_bodies wire_frame fr_bodies fr_main fr_mem]. split_and!; [| |done].
    + split; [vm_compute; reflexivity|reflexivity|vm_compute; split; congruence|].
      match goal with |- if ?b then _ else _ => assert (b = true) as -> by (vm_compute; reflexivity) end. reflexivity.
    + split; [vm_compute; reflexivity|reflexivity|vm_compute; split; congruence|].
      match goal with |- if ?b then _ else _ => assert (b = false) as -> by (vm_compute; reflexivity) end.
      rewrite bytes_of_empty, length_take, Hl. vm_compute. split_and!; congruence.
  - vm_compute. split_and!; reflexivity.
  - vm_compute. congruence.
  - rewrite <- list_fmap_compose. apply list_fmap_id.
  - apply Forall_forall. intros lk (e & -> & _)%list_elem_of_fmap. by destruct e.
  - cbn [fr_post wire_frame]. rewrite bytes_of_empty, Hl, app_nil_r. vm_compute. reflexivity.
Qed.

(** The datagram a payload of the run came from. *)
Definition wire_payload (seq : Z) : list Z :=
  payload_of (if seq =? 5 then wire_d1 else if seq =? 6 then wire_d2 else wire_d3).
Lemma wire_entry e : from_wire (pl_rx wire_s6) e → e.2 = wire_payload (f_seq e.1).
Proof.
  intros (d & hdr & len & Hd & Hp & _ & _ & _ & _ & ->). rewrite wire_rx in Hd. unfold wire_payload.
  assert (parse_rtp wire_d1 = Some (12, 106, 5) ∧ parse_rtp wire_d2 = Some (12, 23, 6) ∧ parse_rtp wire_d3 = Some (12, 23, 7))
    as (E1 & E2 & E3) by (vm_compute; split_and!; reflexivity).
  rewrite !elem_of_cons in Hd. destruct Hd as [-> |[-> |[-> |Hd]]]; [rewrite E3 in Hp|rewrite E2 in Hp|rewrite E1 in Hp|by apply elem_of_nil in Hd];
    (injection Hp as _ _ <-; reflexivity).
Qed.
Lemma wire_bytes walk :
  Forall (λ F, mem_bytes (fr_mem (wire_frame walk)) (f_payload F) (f_payload_len F) = wire_payload (f_seq F)) (pl_out wire_s6).
Proof. apply (bool_decide_eq_true_1 (Forall _ _)). vm_compute. reflexivity. Qed.

Lemma received_stream_delivered_witness :
  ∃ walk, length walk = 6%nat ∧ trace (pl_fh wire_s6) = frame_events [] (wire_frame walk) ∧ total_frames (pl_fh wire_s6) = 1.
Proof.
  destruct (received_stream_delivered [blank; blank; blank] (λ _, demo_blk) all_cb (sys_segs 32 16) new_tile_handler 4) as (walk & N & W & H).
  - exact all_registered.
  - reflexivity.
  - lia.
  - reflexivity.
  - split; cbn; repeat constructor.
  - exact wit_segs_valid.
  - exact wit_supported.
  - apply (blank_uninit_ok wit_h (mkGeo 0 0 0 0)).
  - pose proof (wit_walk_length walk N W) as Hl.
    destruct (H demo_ring demo_slab demo_queue 64 wire_s6 ltac:(unfold kRingSize; lia) demo_slab_bytes wire_reachable) as (log & E1 & E2 & H3).
    destruct (H3 [log] (wire_frame walk) []) as (T & C & _).
    + cbn [concat]. by rewrite app_nil_r.
    + constructor; [|constructor]. split.
      * rewrite list_fmap_compose, E1. exact wire_out.
      * pose proof (wire_bytes walk) as Hb. rewrite <- E1, Forall_fmap in Hb. apply Forall_forall. intros e He.
        rewrite (wire_entry e (proj1 (Forall_forall _ _) E2 e He)). exact (proj1 (Forall_forall _ _) Hb e He).
    + apply Forall_singleton. exact (wire_frame_sound walk Hl).
    + reflexivity.
    + constructor.
    + exists walk. split; [exact Hl|]. split; [rewrite T; apply app_nil_r|exact C].
Defined.
