(* ===== verification/Text.v ===== *)
(** * Text: the C++ text functions main.cpp uses

    Character classes of the C locale, [std::string::find], the number scanner that
    [std::stoi], [std::stoul] and [operator>>(int)] share, hexadecimal digits, and
    decimal printing.
    A [std::string] is a list of characters. *)
From Stdlib Require Import Ascii String.
From stdpp Require Import strings.
From S2P Require Import Prelude.

#[local] Close Scope string_scope.

Notation text := (list ascii).
Definition txt (s : string) : text := list_ascii_of_string s.

(** ** Characters *)
Definition code (c : ascii) : Z := Z.of_nat (nat_of_ascii c).
Definition in_range (lo hi : ascii) (c : ascii) : bool := (code lo <=? code c) && (code c <=? code hi).
Definition isdigit (c : ascii) : bool := in_range "0" "9" c.
Definition isalnum (c : ascii) : bool := isdigit c || in_range "a" "z" c || in_range "A" "Z" c.
Definition isspace (c : ascii) : bool := (code c =? 32) || ((9 <=? code c) && (code c <=? 13)).

(** ** [std::string::find] *)
Fixpoint prefixb (p l : text) : bool :=
  match p, l with
  | [], _ => true
  | x :: p, y :: l => bool_decide (x = y) && prefixb p l
  | _ :: _, [] => false
  end.
Definition occurs (pat line : text) (k : nat) : bool := prefixb pat (drop k line).
Definition str_find (line pat : text) (pos : nat) : option nat :=
  List.find (occurs pat line) (seq pos (S (length line) - pos)).

Lemma prefixb_spec p l : prefixb p l = true ↔ ∃ r, l = p ++ r.
Proof.
  revert l. induction p as [|x p IH]; intros l; cbn; [split; [by exists l|done]|].
  destruct l as [|y l]; [by split; [|intros [? ?]]|]. rewrite andb_true_iff, bool_decide_eq_true, IH. split.
  - intros [-> [r ->]]. by exists r.
  - intros [r [= -> ->]]. split; [done|by exists r].
Qed.

Lemma occurs_bound pat line k : occurs pat line k = true → pat ≠ [] → (k + length pat ≤ length line)%nat.
Proof.
  intros (r & E)%prefixb_spec Hp. apply (f_equal length) in E. rewrite length_drop, length_app in E.
  destruct pat; [done|]. cbn in *. lia.
Qed.

(** A character of an occurrence is the pattern's. *)
Lemma occurs_lookup pat line k i : occurs pat line k = true → (i < length pat)%nat → line !! (k + i)%nat = pat !! i.
Proof. intros (r & E)%prefixb_spec Hi. rewrite <- lookup_drop, E. by apply lookup_app_l. Qed.

Lemma find_seq (P : nat → bool) a n :
  match List.find P (seq a n) with
  | Some k => (a ≤ k < a + n)%nat ∧ P k = true ∧ ∀ j, (a ≤ j < k)%nat → P j = false
  | None => ∀ j, (a ≤ j < a + n)%nat → P j = false
  end.
Proof.
  revert a. induction n as [|n IH]; intros a; cbn; [intros j Hj; lia|]. destruct (P a) eqn:E.
  { split; [lia|]. split; [done|]. intros j Hj. lia. }
  specialize (IH (S a)). destruct (List.find P (seq (S a) n)) as [k|].
  - destruct IH as (H1 & H2 & H3). split; [lia|]. split; [done|]. intros j Hj. destruct (decide (j = a)) as [->|]; [done|].
    apply H3. lia.
  - intros j Hj. destruct (decide (j = a)) as [->|]; [done|]. apply IH. lia.
Qed.

(** The first occurrence at or after [pos]. *)
Lemma str_find_spec line pat pos :
  pat ≠ [] →
  match str_find line pat pos with
  | Some k => (pos ≤ k)%nat ∧ occurs pat line k = true ∧ ∀ j, (pos ≤ j < k)%nat → occurs pat line j = false
  | None => ∀ j, (pos ≤ j)%nat → occurs pat line j = false
  end.
Proof.
  intros Hp. unfold str_find. pose proof (find_seq (occurs pat line) pos (S (length line) - pos)) as H.
  destruct (List.find _ _) as [k|]; [destruct H as (? & ? & ?); split; [lia|done]|].
  intros j Hj. destruct (occurs pat line j) eqn:E; [|done]. pose proof (occurs_bound pat line j E Hp).
  rewrite H in E; [done|lia].
Qed.

(** ** Scanning a decimal number: white space, a sign, digits *)
Fixpoint skip_ws (l : text) : text := match l with c :: l' => if isspace c then skip_ws l' else l | [] => [] end.
Fixpoint scan_digits (l : text) (acc : Z) : Z * text :=
  match l with
  | c :: l' => if isdigit c then scan_digits l' (10 * acc + (code c - 48)) else (acc, l)
  | [] => (acc, [])
  end.
Definition scan_sign (l : text) : bool * text :=
  match l with
  | c :: l' => if bool_decide (c = "-"%char) then (true, l') else if bool_decide (c = "+"%char) then (false, l') else (false, l)
  | [] => (false, [])
  end.
(** The sign, the magnitude and the rest; [None] without a digit. *)
Definition scan_int (l : text) : option (bool * Z * text) :=
  let '(neg, l) := scan_sign (skip_ws l) in
  match l with
  | c :: _ => if isdigit c then let '(v, r) := scan_digits l 0 in Some (neg, v, r) else None
  | [] => None
  end.
Definition signed_of (neg : bool) (v : Z) : Z := if neg then - v else v.

Definition INT_MIN : Z := -2147483648.
Definition INT_MAX : Z := 2147483647.
Definition is_int (v : Z) : bool := (INT_MIN <=? v) && (v <=? INT_MAX).

Inductive exn := invalid_argument | out_of_range.
Definition stoi (l : text) : exn + Z :=
  match scan_int l with
  | None => inl invalid_argument
  | Some (neg, v, _) => if is_int (signed_of neg v) then inr (signed_of neg v) else inl out_of_range
  end.
(** A minus sign negates modulo [2^64]. *)
Definition stoul (l : text) : exn + Z :=
  match scan_int l with
  | None => inl invalid_argument
  | Some (neg, v, _) => if v <? 18446744073709551616 then inr (u64 (signed_of neg v)) else inl out_of_range
  end.
(** [iss >> v]: [None] sets failbit. *)
Definition read_int (l : text) : option (Z * text) :=
  match scan_int l with
  | Some (neg, v, r) => if is_int (signed_of neg v) then Some (signed_of neg v, r) else None
  | None => None
  end.
Definition read_char (l : text) : option (ascii * text) :=
  match skip_ws l with c :: r => Some (c, r) | [] => None end.

(** ** Hexadecimal digits *)
Definition hexval (c : ascii) : option Z :=
  if in_range "0" "9" c then Some (code c - 48)
  else if in_range "a" "f" c then Some (code c - 97 + 10)
  else if in_range "A" "F" c then Some (code c - 65 + 10)
  else None.
Definition hexdigit (v : Z) : ascii :=
  ascii_of_nat (Z.to_nat (if v <? 10 then 48 + v else 87 + v)).

Lemma hexval_hexdigit v : 0 ≤ v < 16 → hexval (hexdigit v) = Some v ∧ hexdigit v ≠ ","%char.
Proof.
  intros Hv. assert (Forall (λ v, hexval (hexdigit v) = Some v ∧ hexdigit v ≠ ","%char) (seqZ 0 16)) as HF.
  { apply (bool_decide_eq_true_1 (Forall _ _)). vm_compute. reflexivity. }
  rewrite Forall_forall in HF. apply HF, elem_of_seqZ. lia.
Qed.

(** ** Decimal numbers, as printed *)
Definition digit (d : Z) : ascii := ascii_of_nat (Z.to_nat (48 + d)).
Fixpoint dec (fuel : nat) (v : Z) : text :=
  match fuel with
  | O => []
  | S n => (if v <? 10 then [] else dec n (v / 10)) ++ [digit (v mod 10)]
  end.

Lemma digit_spec d : 0 ≤ d < 10 →
  isdigit (digit d) = true ∧ code (digit d) - 48 = d ∧ isspace (digit d) = false
  ∧ digit d ≠ "-"%char ∧ digit d ≠ "+"%char.
Proof.
  intros Hd. assert (Forall (λ d, isdigit (digit d) = true ∧ code (digit d) - 48 = d ∧ isspace (digit d) = false
    ∧ digit d ≠ "-"%char ∧ digit d ≠ "+"%char) (seqZ 0 10)) as HF.
  { apply (bool_decide_eq_true_1 (Forall _ _)). vm_compute. reflexivity. }
  rewrite Forall_forall in HF. apply HF, elem_of_seqZ. lia.
Qed.

Lemma dec_digits n v : 0 ≤ v → Forall (λ c, ∃ d, c = digit d ∧ 0 ≤ d < 10) (dec n v).
Proof.
  revert v. induction n as [|n IH]; intros v Hv; [constructor|]. cbn [dec]. apply Forall_app. split.
  - destruct (v <? 10); [constructor|]. apply IH, Z.div_pos; lia.
  - apply Forall_singleton. exists (v mod 10). split; [done|]. apply Z.mod_pos_bound. lia.
Qed.

Lemma scan_dec n v r acc :
  (0 < n)%nat → 0 ≤ v < 10 ^ Z.of_nat n → acc = 0 → scan_digits (dec n v ++ r) acc = scan_digits r v.
Proof.
  revert v r acc. induction n as [|n IH]; intros v r acc Hn Hv ->; [lia|]. cbn [dec]. rewrite <- app_assoc. cbn [app].
  pose proof (Z.mod_pos_bound v 10 ltac:(lia)). pose proof (Z.div_mod v 10 ltac:(lia)).
  destruct (digit_spec (v mod 10)) as (D1 & D2 & _); [lia|]. rewrite Nat2Z.inj_succ, Z.pow_succ_r in Hv by lia.
  destruct (Z.ltb_spec v 10).
  - cbn [app scan_digits]. rewrite D1, D2. f_equal. rewrite Z.mod_small by lia. lia.
  - rewrite IH; [cbn [scan_digits]; rewrite D1, D2; f_equal; lia| |split; [apply Z.div_pos; lia|apply Z.div_lt_upper_bound; lia]|done].
    destruct n; [cbn in Hv; lia|lia].
Qed.

(** The rest starts with no digit. *)
Definition no_digit (r : text) : Prop := match r with c :: _ => isdigit c = false | [] => True end.

Lemma scan_digits_stop r v : no_digit r → scan_digits r v = (v, r).
Proof. destruct r as [|c r]; [done|]. cbn. by intros ->. Qed.

Lemma dec_head n v : (0 < n)%nat → 0 ≤ v → ∃ d l, dec n v = digit d :: l ∧ 0 ≤ d < 10.
Proof.
  intros Hn Hv. pose proof (dec_digits n v Hv) as H. destruct (dec n v) as [|c l] eqn:E.
  - destruct n; [lia|]. cbn in E. by apply app_eq_nil in E as [_ ?].
  - apply Forall_cons in H as [(d & -> & Hd) _]. by exists d, l.
Qed.
