(* ===== verification/Affinity.v ===== *)
(** * Affinity: the IRQ-affinity report of main.cpp

    [check_nic_irq_affinity] finds the network interface of the bind address, the
    interrupt that serves it and the CPUs that interrupt may run on, and warns when one
    of them is pinned to the receive or worker thread.  What the operating system
    answers is a parameter: the list of [getifaddrs], the lines of /proc/interrupts, the
    first line of /proc/irq/N/smp_affinity and [inet_pton]. *)
From Stdlib Require Import Ascii String.
From stdpp Require Import strings.
From S2P Require Import Prelude Text.
#[local] Close Scope string_scope.

(** ** find_iface_for_bind *)
Record ifaddr := mkIf { ifa_name : text; ifa_addr : option (Z * Z); ifa_flags : Z }.   (* family, address *)
Definition AF_INET : Z := 2.
Definition IFF_LOOPBACK : Z := 8.

(** The body of the loop: the entry is taken. *)
Definition iface_taken (target : option Z) (it : ifaddr) : bool :=
  match ifa_addr it with
  | None => false
  | Some (family, addr) =>
      (family =? AF_INET) && (Z.land (ifa_flags it) IFF_LOOPBACK =? 0)
      && match target with None => true | Some a => addr =? a end
  end.

Section Os.
Context (inet_pton : text → option Z) (getifaddrs : option (list ifaddr)).
Context (interrupts : option (list text)) (smp_affinity : Z → option text).

Definition find_iface_for_bind (bind_addr : text) : text :=
  let match_any := bool_decide (bind_addr = txt "0.0.0.0") in
  let pton := if match_any then Some None else Some <$> inet_pton bind_addr in
  match pton, getifaddrs with
  | Some target, Some ifs => match List.find (iface_taken target) ifs with Some it => ifa_name it | None => [] end
  | _, _ => []
  end.

(** ** line_mentions_iface *)
Definition start_ok (line : text) (pos : nat) : bool :=
  match pos with O => true | S q => match line !! q with Some c => negb (isalnum c) | None => true end end.
Definition end_ok (line : text) (e : nat) : bool :=
  match line !! e with None => true | Some c => bool_decide (c = ","%char) || isspace c end.
Definition whole_token (line iface : text) (pos : nat) : bool :=
  start_ok line pos && end_ok line (pos + length iface).

Fixpoint mentions_loop (fuel : nat) (line iface : text) (pos : nat) : outcome bool :=
  match fuel with
  | O => NoFuel
  | S fuel =>
      match str_find line iface pos with
      | None => Ret false
      | Some k => if whole_token line iface k then Ret true else mentions_loop fuel line iface (k + length iface)
      end
  end.
Definition line_mentions_iface (line iface : text) : outcome bool :=
  mentions_loop (S (S (length line))) line iface 0.

(** ** find_irq_for_iface *)

(** [iss >> irq >> colon]. *)
Definition irq_of_line (line : text) : option Z :=
  match read_int line with
  | Some (irq, r) => match read_char r with Some (c, _) => if bool_decide (c = ":"%char) then Some irq else None | None => None end
  | None => None
  end.
Fixpoint irq_of_lines (lines : list text) (iface : text) : outcome Z :=
  match lines with
  | [] => Ret (-1)
  | line :: lines =>
      match line_mentions_iface line iface with
      | Ret true => match irq_of_line line with Some irq => Ret irq | None => irq_of_lines lines iface end
      | Ret false => irq_of_lines lines iface
      | UB => UB
      | NoFuel => NoFuel
      end
  end.
Definition find_irq_for_iface (iface : text) : outcome Z :=
  match interrupts with None => Ret (-1) | Some lines => irq_of_lines lines iface end.

(** ** read_smp_affinity *)
Fixpoint hex_mask (l : text) (mask : Z) : Z :=
  match l with
  | [] => mask
  | c :: l => match hexval c with Some v => hex_mask l (Z.lor (u64 (Z.shiftl mask 4)) v) | None => 0 end
  end.
Definition low_digits (hex : text) : text :=
  if (16 <? length hex)%nat then drop (length hex - 16) hex else hex.
Definition affinity_of (s : text) : Z := hex_mask (low_digits (filter (λ c, c ≠ ","%char) s)) 0.
Definition read_smp_affinity (irq : Z) : Z := match smp_affinity irq with None => 0 | Some s => affinity_of s end.

(** ** check_nic_irq_affinity *)
Inductive sharing := RecvAndWorker | RecvOnly | WorkerOnly.
Record banner := mkBanner { bn_iface : text; bn_irq : Z; bn_cpus : list Z; bn_warning : option sharing }.

Definition cpus_of (mask : Z) : list Z := filter (λ c, Z.testbit mask c = true) (seqZ 0 64).

(** [cpu >= 0 && (mask & (1ULL << cpu))]; the shift is undefined from 64 on. *)
Definition conflict (mask cpu : Z) : outcome bool :=
  if cpu <? 0 then Ret false
  else if 64 <=? cpu then UB
  else Ret (negb (Z.land mask (Z.shiftl 1 cpu) =? 0)).

Definition warning (recv worker : bool) : option sharing :=
  if recv || worker then Some (if recv && worker then RecvAndWorker else if recv then RecvOnly else WorkerOnly) else None.

(** What is printed, if anything. *)
Definition check_nic_irq_affinity (bind_addr : text) (recv_cpu worker_cpu : Z) : outcome (option banner) :=
  let iface := find_iface_for_bind bind_addr in
  if bool_decide (iface = []) then Ret None else
  match find_irq_for_iface iface with
  | Ret irq =>
      if irq <? 0 then Ret None else
      let mask := read_smp_affinity irq in
      if mask =? 0 then Ret None else
      match conflict mask recv_cpu, conflict mask worker_cpu with
      | Ret r, Ret w => Ret (Some (mkBanner iface irq (cpus_of mask) (warning r w)))
      | _, _ => UB
      end
  | UB => UB
  | NoFuel => NoFuel
  end.
End Os.

(** ** Whole tokens *)
Definition token_at (line iface : text) (k : nat) : Prop :=
  occurs iface line k = true ∧ whole_token line iface k = true.

Lemma mentions_loop_spec fuel line iface pos :
  iface ≠ [] → (length line + 2 ≤ pos + fuel)%nat → (pos ≤ length line)%nat →
  ∃ b, mentions_loop fuel line iface pos = Ret b
    ∧ (b = true → ∃ k, token_at line iface k)
    ∧ (Forall (λ c, isalnum c = true) iface → ∀ k, (pos ≤ k)%nat → token_at line iface k → b = true).
Proof.
  intros Hi. revert pos. induction fuel as [|fuel IH]; intros pos Hf Hp; [lia|]. cbn [mentions_loop].
  pose proof (str_find_spec line iface pos Hi) as Hs. destruct (str_find line iface pos) as [k0|].
  2:{ exists false. split_and!; [done|done|]. intros _ k Hk [Ho _]. by rewrite Hs in Ho. }
  destruct Hs as (H1 & H2 & H3). destruct (whole_token line iface k0) eqn:Ew.
  { exists true. split_and!; [done| |done]. intros _. by exists k0. }
  pose proof (occurs_bound _ _ _ H2 Hi). assert (0 < length iface)%nat by (destruct iface; [done|cbn; lia]).
  destruct (IH (k0 + length iface)%nat) as (b & E & S & C); [lia|lia|]. exists b. split_and!; [done|done|].
  intros Ha k Hk Ht. apply (C Ha k); [|done]. destruct Ht as [Ho Hw].
  destruct (decide (k < k0)%nat); [by rewrite H3 in Ho by lia|]. destruct (decide (k = k0)) as [->|]; [congruence|].
  destruct (decide (k0 + length iface ≤ k)%nat); [done|]. exfalso.
  apply andb_true_iff in Hw as [Hw _]. destruct k as [|q]; [lia|]. cbn in Hw.
  assert (line !! q = iface !! (q - k0)%nat) as El.
  { rewrite <- (occurs_lookup _ _ _ _ H2) by lia. f_equal. lia. }
  rewrite El in Hw. destruct (lookup_lt_is_Some_2 iface (q - k0)%nat) as [c Hc]; [lia|]. rewrite Hc in Hw.
  rewrite (Forall_lookup_1 _ _ _ _ Ha Hc) in Hw. done.
Qed.

Lemma mentions_spec line iface :
  iface ≠ [] →
  ∃ b, line_mentions_iface line iface = Ret b
    ∧ (b = true → ∃ k, token_at line iface k)
    ∧ (Forall (λ c, isalnum c = true) iface → ∀ k, token_at line iface k → b = true).
Proof.
  intros Hi. destruct (mentions_loop_spec (S (S (length line))) line iface 0 Hi) as (b & E & S & C); [lia|lia|].
  exists b. split_and!; [done|done|]. intros Ha k. apply C; [done|lia].
Qed.

(** ** Affinity masks as the kernel prints them *)
Fixpoint nibbles (n : nat) (w : Z) : list Z :=
  match n with O => [] | S n => nibbles n (w / 16) ++ [w mod 16] end.
Definition hex8 (w : Z) : text := hexdigit <$> nibbles 8 w.
(** 32-bit words, the highest first, separated by commas. *)
Fixpoint mask_text (ws : list Z) : text :=
  match ws with
  | [] => []
  | [w] => hex8 w
  | w :: ws => hex8 w ++ ","%char :: mask_text ws
  end.
Definition mask_value (ws : list Z) : Z := foldl (λ a w, a * 4294967296 + w) 0 ws.

Lemma nibbles_range n w : Forall (λ v, 0 ≤ v < 16) (nibbles n w).
Proof.
  revert w. induction n as [|n IH]; intros w; cbn; [constructor|]. apply Forall_app. split; [done|].
  apply Forall_singleton, Z.mod_pos_bound. lia.
Qed.
Lemma length_nibbles n w : length (nibbles n w) = n.
Proof. revert w. induction n as [|n IH]; intros w; cbn; [done|]. rewrite length_app, IH. cbn. lia. Qed.

Lemma hex_mask_app l l' m :
  Forall (λ v, 0 ≤ v < 16) l → hex_mask ((hexdigit <$> l) ++ l') m = hex_mask l' (hex_mask (hexdigit <$> l) m).
Proof.
  intros Hl. revert m. induction Hl as [|v l Hv _ IH]; intros m; [done|]. cbn.
  rewrite (proj1 (hexval_hexdigit v Hv)). apply IH.
Qed.

Lemma hex_mask_nibbles n w m :
  0 ≤ m → 0 ≤ w < 16 ^ Z.of_nat n → (m + 1) * 16 ^ Z.of_nat n ≤ 18446744073709551616 →
  hex_mask (hexdigit <$> nibbles n w) m = m * 16 ^ Z.of_nat n + w.
Proof.
  intros Hm. revert w. induction n as [|n IH]; intros w Hw Hb; [cbn in *; lia|].
  rewrite Nat2Z.inj_succ, Z.pow_succ_r in * by lia. cbn [nibbles]. rewrite fmap_app.
  pose proof (Z.mod_pos_bound w 16 ltac:(lia)). pose proof (Z.div_mod w 16 ltac:(lia)).
  assert (0 ≤ w / 16 < 16 ^ Z.of_nat n) by (split; [apply Z.div_pos; lia|apply Z.div_lt_upper_bound; lia]).
  assert (0 < 16 ^ Z.of_nat n) by lia.
  rewrite hex_mask_app by apply nibbles_range. rewrite IH by nia. cbn [fmap list_fmap hex_mask].
  rewrite (proj1 (hexval_hexdigit (w mod 16) ltac:(lia))).
  rewrite u64_small by (rewrite Z.shiftl_mul_pow2 by lia; change (2 ^ 4) with 16; nia).
  rewrite shiftl_lor_byte by (change (2 ^ 4) with 16; lia). change (2 ^ 4) with 16. nia.
Qed.

(** Without the commas. *)
Lemma mask_digits ws : filter (λ c, c ≠ ","%char) (mask_text ws) = ws ≫= hex8.
Proof.
  assert (∀ w, filter (λ c, c ≠ ","%char) (hex8 w) = hex8 w) as Hw.
  { intros w. unfold hex8. pose proof (nibbles_range 8 w) as H. induction H as [|v l Hv _ IH]; [done|].
    cbn [fmap list_fmap]. rewrite filter_cons_True by (by apply hexval_hexdigit). f_equal. exact IH. }
  induction ws as [|w ws IH]; [done|]. rewrite bind_cons. destruct ws as [|w' ws].
  - cbn [mask_text mbind list_bind]. by rewrite Hw, app_nil_r.
  - change (mask_text (w :: w' :: ws)) with (hex8 w ++ ","%char :: mask_text (w' :: ws)).
    rewrite filter_app, Hw, filter_cons_False, IH by auto. done.
Qed.

Lemma length_hex8 w : length (hex8 w) = 8%nat.
Proof. unfold hex8. by rewrite length_fmap, length_nibbles. Qed.

Lemma low_digits_last l l' : length l' = 16%nat → low_digits (l ++ l') = l'.
Proof.
  intros Hl. unfold low_digits. rewrite length_app, Hl. destruct (Nat.ltb_spec 16 (length l + 16)).
  - rewrite drop_app_ge by lia. replace (length l + 16 - 16 - length l)%nat with 0%nat by lia. done.
  - destruct l; [done|]. cbn in *. lia.
Qed.

Lemma affinity_low64 ws :
  Forall (λ w, 0 ≤ w < 4294967296) ws → affinity_of (mask_text ws) = u64 (mask_value ws).
Proof.
  intros Hw. unfold affinity_of. rewrite mask_digits. unfold mask_value.
  destruct ws as [|b ws _] using rev_ind; [done|]. rewrite bind_app, foldl_app. apply Forall_app in Hw as [Hw Hb].
  rewrite Forall_singleton in Hb. destruct ws as [|a ws _] using rev_ind.
  { cbn [foldl mbind list_bind app]. rewrite app_nil_r. unfold low_digits. rewrite length_hex8. cbn [Nat.ltb Nat.leb].
    unfold hex8. rewrite (hex_mask_nibbles 8) by (change (16 ^ Z.of_nat 8) with 4294967296; lia).
    rewrite u64_small by lia. change (16 ^ Z.of_nat 8) with 4294967296. lia. }
  rewrite bind_app, foldl_app. apply Forall_app in Hw as [_ Ha]. rewrite Forall_singleton in Ha. cbn [foldl mbind list_bind].
  rewrite !app_nil_r, <- app_assoc, low_digits_last by (rewrite length_app, !length_hex8; done).
  unfold hex8. rewrite hex_mask_app by apply nibbles_range.
  rewrite (hex_mask_nibbles 8 a 0) by (change (16 ^ Z.of_nat 8) with 4294967296; lia).
  rewrite Z.mul_0_l, Z.add_0_l, (hex_mask_nibbles 8 b a) by (change (16 ^ Z.of_nat 8) with 4294967296; lia).
  change (16 ^ Z.of_nat 8) with 4294967296. unfold u64. set (x := foldl _ _ _).
  replace ((x * 4294967296 + a) * 4294967296 + b) with (a * 4294967296 + b + x * 18446744073709551616) by lia.
  rewrite Z.mod_add, Z.mod_small by lia. lia.
Qed.

(** ** CPUs *)
Lemma elem_cpus mask c : c ∈ cpus_of mask ↔ 0 ≤ c < 64 ∧ Z.testbit mask c = true.
Proof. unfold cpus_of. rewrite list_elem_of_filter, elem_of_seqZ. split; intros [? ?]; split; (done || lia). Qed.

Lemma conflict_spec mask cpu : cpu < 64 → conflict mask cpu = Ret (bool_decide (cpu ∈ cpus_of mask)).
Proof.
  intros Hc. unfold conflict. destruct (Z.ltb_spec cpu 0).
  { f_equal. symmetry. apply bool_decide_eq_false. rewrite elem_cpus. lia. }
  rewrite (proj2 (Z.leb_gt _ _)) by lia. f_equal.
  assert (Z.land mask (Z.shiftl 1 cpu) = if Z.testbit mask cpu then Z.shiftl 1 cpu else 0) as ->.
  { apply Z.bits_inj'. intros n Hn. rewrite Z.land_spec, Z.shiftl_spec by done.
    destruct (decide (n = cpu)) as [->|].
    - rewrite Z.sub_diag. destruct (Z.testbit mask cpu); [|by rewrite Z.bits_0]. by rewrite Z.shiftl_spec, Z.sub_diag by done.
    - assert (Z.testbit 1 (n - cpu) = false) as E1.
      { destruct (decide (n < cpu)); [apply Z.testbit_neg_r; lia|]. change 1 with (2 ^ 0). apply Z.pow2_bits_false. lia. }
      rewrite E1, andb_false_r. destruct (Z.testbit mask cpu); [|by rewrite Z.bits_0]. by rewrite Z.shiftl_spec, E1 by done. }
  destruct (Z.testbit mask cpu) eqn:E.
  - rewrite Z.shiftl_1_l, (proj2 (Z.eqb_neq _ _)) by (pose proof (Z.pow_pos_nonneg 2 cpu); lia).
    symmetry. apply bool_decide_eq_true, elem_cpus. split; [lia|done].
  - symmetry. apply bool_decide_eq_false. rewrite elem_cpus, E. by intros [_ ?].
Qed.

(** ** What the report should say, in terms of the system's files *)

(** The entry serves the bind address: IPv4 (family 2), not loopback (flag bit 3), and its
    address is the one bound to, any of them for 0.0.0.0. *)
Definition serves (inet_pton : text → option Z) (bind : text) (it : ifaddr) : Prop :=
  Z.testbit (ifa_flags it) 3 = false
  ∧ ∃ a, ifa_addr it = Some (2, a) ∧ (bind = txt "0.0.0.0" ∨ inet_pton bind = Some a).
(** The first such entry has this name. *)
Definition serving_iface (inet_pton : text → option Z) (bind : text) (ifs : list ifaddr) (name : text) : Prop :=
  (bind = txt "0.0.0.0" ∨ is_Some (inet_pton bind)) ∧
  ∃ before it after, ifs = before ++ it :: after ∧ Forall (λ i, ¬ serves inet_pton bind i) before
    ∧ serves inet_pton bind it ∧ ifa_name it = name.

(** The name stands in the line as a whole word: after the start or a character that is no
    letter or digit, before the end, a comma or white space. *)
Definition has_word (line name : text) : Prop :=
  ∃ before after, line = before ++ name ++ after
    ∧ (∀ c, last before = Some c → isalnum c = false)
    ∧ (∀ c, head after = Some c → c = ","%char ∨ isspace c = true).
(** The line starts with the number and a colon, or with something that is no number. *)
Definition numbered (irq : Z) (line : text) : Prop :=
  ∃ sp sp' rest, line = sp ++ dec 10 irq ++ sp' ++ ":"%char :: rest
    ∧ Forall (λ c, isspace c = true) sp ∧ Forall (λ c, isspace c = true) sp'.
Definition unnumbered (line : text) : Prop :=
  ∃ sp c rest, line = sp ++ c :: rest ∧ Forall (λ c, isspace c = true) sp
    ∧ isspace c = false ∧ isdigit c = false ∧ c ≠ "-"%char ∧ c ≠ "+"%char.
(** The first numbered line with the interface's name has this number. *)
Definition serving_irq (lines : list text) (name : text) (irq : Z) : Prop :=
  ∃ before line after, lines = before ++ line :: after
    ∧ Forall (λ l, ¬ has_word l name ∨ unnumbered l) before ∧ has_word line name ∧ numbered irq line.

(** *** Interfaces *)
Lemma loopback_bit f : (Z.land f IFF_LOOPBACK =? 0) = negb (Z.testbit f 3).
Proof.
  change IFF_LOOPBACK with (2 ^ 3). destruct (Z.testbit f 3) eqn:E; cbn [negb].
  - apply Z.eqb_neq. intros H. apply (f_equal (λ z, Z.testbit z 3)) in H. rewrite Z.land_spec, E in H. done.
  - apply Z.eqb_eq, Z.bits_inj'. intros n Hn. rewrite Z.land_spec, Z.bits_0. destruct (decide (n = 3)) as [->|]; [by rewrite E|].
    rewrite Z.pow2_bits_false by lia. apply andb_false_r.
Qed.

Lemma taken_serves inet_pton bind target it :
  (if bool_decide (bind = txt "0.0.0.0") then Some None else Some <$> inet_pton bind) = Some target →
  iface_taken target it = true ↔ serves inet_pton bind it.
Proof.
  intros Ht. unfold iface_taken, serves. destruct (ifa_addr it) as [[fam addr]|]; [|by split; [|intros [_ (? & ? & _)]]].
  rewrite loopback_bit, !andb_true_iff, negb_true_iff, Z.eqb_eq. unfold AF_INET. case_bool_decide as Hb.
  - injection Ht as <-. split; [intros [[-> Hl] _]; split; [done|]; exists addr; auto|].
    intros [Hl (a & [= -> ->] & _)]. done.
  - destruct (inet_pton bind) as [a|] eqn:Ep; [|done]. injection Ht as <-. rewrite Z.eqb_eq. split.
    + intros [[-> Hl] ->]. split; [done|]. exists a. auto.
    + intros [Hl (a' & [= -> ->] & [?|[= ->]])]; [done|done].
Qed.

Lemma find_first {A} (P : A → bool) before x after :
  Forall (λ y, P y = false) before → P x = true → List.find P (before ++ x :: after) = Some x.
Proof. intros Hb Hx. induction Hb as [|y l Hy _ IH]; cbn; [by rewrite Hx|by rewrite Hy]. Qed.

Lemma serving_found inet_pton bind ifs name :
  serving_iface inet_pton bind ifs name → find_iface_for_bind inet_pton (Some ifs) bind = name.
Proof.
  intros (Hp & before & it & after & -> & Hb & Hs & <-). unfold find_iface_for_bind. cbn zeta.
  destruct (if bool_decide (bind = txt "0.0.0.0") then Some None else Some <$> inet_pton bind) as [target|] eqn:Et.
  2:{ case_bool_decide; [done|]. by destruct Hp as [?|[? Ep]]; [|rewrite Ep in Et]. }
  rewrite (find_first _ before it after); [done| |by apply (taken_serves _ _ _ _ Et)].
  eapply Forall_impl; [exact Hb|]. intros i Hi. apply not_true_iff_false. by rewrite (taken_serves _ _ _ _ Et).
Qed.

(** *** Lines *)
Lemma word_token line name : name ≠ [] → has_word line name ↔ ∃ k, token_at line name k.
Proof.
  intros Hn. split.
  - intros (before & after & -> & Hb & Ha). exists (length before). split.
    { apply prefixb_spec. exists after. by rewrite drop_app_length. }
    apply andb_true_iff. split.
    + unfold start_ok. destruct before as [|c before _] using rev_ind; [done|]. rewrite length_app, Nat.add_1_r.
      rewrite <- app_assoc, lookup_app_r, Nat.sub_diag by lia. cbn. apply negb_true_iff, Hb. by rewrite last_snoc.
    + unfold end_ok. rewrite app_assoc, lookup_app_r by (rewrite length_app; lia). rewrite length_app, Nat.sub_diag.
      destruct after as [|c after]; [done|]. cbn. destruct (Ha c eq_refl) as [-> |E]; [done|by rewrite E, orb_true_r].
  - intros (k & Ho & [Hs He]%andb_true_iff). pose proof (occurs_bound _ _ _ Ho Hn) as Hk. apply prefixb_spec in Ho as [r Er].
    exists (take k line), r. rewrite <- Er, take_drop. split; [done|]. split.
    + intros c Hc. rewrite last_lookup, length_take, Nat.min_l in Hc by lia. destruct k as [|k]; [done|].
      cbn [start_ok] in Hs. rewrite lookup_take_lt in Hc by lia. cbn in Hc. rewrite Hc in Hs. by apply negb_true_iff in Hs.
    + intros c Hc. unfold end_ok in He. assert (line !! (k + length name)%nat = Some c) as El.
      { rewrite <- lookup_drop, Er, lookup_app_r, Nat.sub_diag by lia. by rewrite <- head_lookup. }
      rewrite El in He. apply orb_true_iff in He as [E%bool_decide_eq_true|E]; auto.
Qed.

Lemma mentions_word line name :
  name ≠ [] → Forall (λ c, isalnum c = true) name →
  ∃ b, line_mentions_iface line name = Ret b ∧ (b = true ↔ has_word line name).
Proof.
  intros Hn Ha. destruct (mentions_spec line name Hn) as (b & E & S & C). exists b. split; [done|].
  rewrite word_token by done. split; [done|]. intros [k Hk]. by apply (C Ha k).
Qed.

Lemma skip_spaces sp l : Forall (λ c, isspace c = true) sp → skip_ws (sp ++ l) = skip_ws l.
Proof. induction 1 as [|c sp Hc _ IH]; [done|]. cbn. by rewrite Hc. Qed.

Lemma unnumbered_none line : unnumbered line → irq_of_line line = None.
Proof.
  intros (sp & c & rest & -> & Hsp & Hs & Hd & Hm & Hp). unfold irq_of_line, read_int, scan_int.
  rewrite skip_spaces by done. cbn [skip_ws]. rewrite Hs. cbn [scan_sign]. rewrite !bool_decide_eq_false_2 by done. by rewrite Hd.
Qed.

Lemma numbered_some irq line : 0 ≤ irq ≤ INT_MAX → numbered irq line → irq_of_line line = Some irq.
Proof.
  intros Hi (sp & sp' & rest & -> & Hsp & Hsp'). unfold INT_MAX in Hi. unfold irq_of_line, read_int, scan_int.
  rewrite skip_spaces by done. set (r := sp' ++ ":"%char :: rest).
  destruct (dec_head 10 irq ltac:(lia) ltac:(lia)) as (d & l & E & Hd). destruct (digit_spec d Hd) as (D1 & _ & D3 & D4 & D5).
  assert (no_digit r) as Hr.
  { unfold r. destruct Hsp' as [|c sp' Hc _]; [done|]. cbn. unfold isspace, isdigit, in_range in *.
    change (code "0") with 48. change (code "9") with 57. lia. }
  pose proof (scan_dec 10 irq r 0 ltac:(lia) ltac:(change (10 ^ Z.of_nat 10) with 10000000000; lia) eq_refl) as Es.
  rewrite (scan_digits_stop r irq Hr) in Es. rewrite E in *. cbn [app skip_ws]. rewrite D3. cbn [scan_sign].
  rewrite !bool_decide_eq_false_2 by done. rewrite D1. cbn [app] in Es. rewrite Es. cbn [signed_of]. unfold is_int, INT_MIN, INT_MAX.
  rewrite (proj2 (Z.leb_le _ _)), (proj2 (Z.leb_le _ _)) by lia. cbn [andb]. unfold read_char, r. rewrite skip_spaces by done. done.
Qed.

Lemma serving_irq_found lines name irq :
  name ≠ [] → Forall (λ c, isalnum c = true) name → 0 ≤ irq ≤ INT_MAX → serving_irq lines name irq →
  find_irq_for_iface (Some lines) name = Ret irq.
Proof.
  intros Hn Ha Hi (before & line & after & -> & Hb & Hw & Hl). cbn [find_irq_for_iface].
  induction Hb as [|l before Hlb _ IH]; cbn [app irq_of_lines].
  - destruct (mentions_word line name Hn Ha) as (b & -> & Eb). rewrite (proj2 Eb Hw). by rewrite (numbered_some irq).
  - destruct (mentions_word l name Hn Ha) as (b & -> & Eb). destruct b; [|done].
    destruct Hlb as [Hno|Hu]; [by destruct Hno; apply Eb|]. by rewrite unnumbered_none.
Qed.

Lemma filter_agree {A} (P Q : A → Prop) `{∀ x, Decision (P x), ∀ x, Decision (Q x)} (l : list A) :
  (∀ x, x ∈ l → P x ↔ Q x) → filter P l = filter Q l.
Proof.
  induction l as [|x l IH]; intros HPQ; [done|]. rewrite !filter_cons, IH by (intros; apply HPQ; by right).
  pose proof (HPQ x ltac:(left)). destruct (decide (P x)), (decide (Q x)); tauto.
Qed.

(** ** Properties *)

(** An interface is recognised as a whole token.  For every line and every non-empty
    interface name the search ends; it says yes only if the name occurs delimited as the
    comment asks (a non-alphanumeric character or the start of the line before it, a comma,
    white space or the end of the line behind it), and for a name of letters and digits
    it says yes exactly then. *)
Theorem iface_token_found line iface :
  iface ≠ [] →
  ∃ b, line_mentions_iface line iface = Ret b
    ∧ (b = true → ∃ k, token_at line iface k)
    ∧ (Forall (λ c, isalnum c = true) iface → b = true ↔ ∃ k, token_at line iface k).
Proof.
  intros Hi. destruct (mentions_spec line iface Hi) as (b & E & S & C). exists b. split_and!; [done|done|].
  intros Ha. split; [done|]. intros [k Hk]. by apply (C Ha k).
Qed.


(** Overlapping names are missed (finding).  After a rejected match the search goes on
    behind it, not one character further: the bridge "a-a" at the end of "a-a-a" is a whole
    token, and is not found. *)
Theorem overlapping_name_missed :
  line_mentions_iface (txt "a-a-a") (txt "a-a") = Ret false ∧ token_at (txt "a-a-a") (txt "a-a") 2.
Proof. vm_compute. done. Qed.

(** CPU numbers from 64 on are undefined (finding).  [1ULL << recv_cpu] is evaluated for
    every non-negative number given on the command line. *)
Theorem cpu_64_undefined inet_pton ifs interrupts smp bind recv worker irq :
  let iface := find_iface_for_bind inet_pton ifs bind in
  iface ≠ [] → find_irq_for_iface interrupts iface = Ret irq → 0 ≤ irq → read_smp_affinity smp irq ≠ 0 → 64 ≤ recv →
  check_nic_irq_affinity inet_pton ifs interrupts smp bind recv worker = UB.
Proof.
  intros iface Hi Hirq H0 Hm Hr. unfold check_nic_irq_affinity. fold iface.
  rewrite bool_decide_eq_false_2, Hirq, (proj2 (Z.ltb_ge _ _)), (proj2 (Z.eqb_neq _ _)) by done.
  unfold conflict at 1. rewrite (proj2 (Z.ltb_ge _ _)), (proj2 (Z.leb_le _ _)) by lia. done.
Qed.

(** ** Witnesses *)
Definition demo_ifs : list ifaddr :=
  [mkIf (txt "lo") (Some (2, 0x0100007F)) 9; mkIf (txt "eth0") (Some (10, 0)) 1; mkIf (txt "eth0") (Some (2, 0x0A01A8C0)) 1].
Definition demo_interrupts : list text :=
  [txt "           CPU0       CPU1"; txt " 44:          7          0  GIC  veth0, xyz"; txt " 45:        120          3  GIC-0  eth0"].
Definition demo_smp (irq : Z) : option text := if irq =? 45 then Some (txt "00000001,00000000,0000000c") else None.

Lemma iface_token_found_witness :
  ∃ b, line_mentions_iface (txt " 45:  120  GIC-0  eth0") (txt "eth0") = Ret b
    ∧ (b = true ↔ ∃ k, token_at (txt " 45:  120  GIC-0  eth0") (txt "eth0") k).
Proof.
  destruct (iface_token_found (txt " 45:  120  GIC-0  eth0") (txt "eth0")) as (b & E & _ & C); [discriminate|].
  exists b. split; [exact E|]. apply C. repeat constructor.
Defined.

Lemma demo_serving : serving_iface (λ _, None) (txt "0.0.0.0") demo_ifs (txt "eth0").
Proof.
  split; [by left|]. exists (take 2 demo_ifs), (mkIf (txt "eth0") (Some (2, 0x0A01A8C0)) 1), []. split; [done|]. split.
  - constructor; [intros [? _]; done|]. constructor; [intros [_ (a & ? & _)]; done|constructor].
  - split; [|done]. split; [done|]. exists 0x0A01A8C0. split; [done|by left].
Qed.
Lemma no_word line name : name ≠ [] → Forall (λ c, isalnum c = true) name → line_mentions_iface line name = Ret false → ¬ has_word line name.
Proof. intros Hn Ha E Hw. destruct (mentions_word line name Hn Ha) as (b & E' & Hb). rewrite E in E'. injection E' as <-. by apply Hb in Hw. Qed.
Lemma demo_serving_irq : serving_irq demo_interrupts (txt "eth0") 45.
Proof.
  exists (take 2 demo_interrupts), (txt " 45:        120          3  GIC-0  eth0"), []. split; [done|]. split; [|split].
  - assert (∀ line, line_mentions_iface line (txt "eth0") = Ret false → ¬ has_word line (txt "eth0") ∨ unnumbered line) as H.
    { intros line E. left. apply no_word; [done| |done]. repeat constructor. }
    constructor; [by apply H|]. constructor; [by apply H|constructor].
  - exists (txt " 45:        120          3  GIC-0  "), []. split; [done|]. by split; [intros c [= <-]|].
  - exists (txt " "), [], (txt "        120          3  GIC-0  eth0"). split; [done|]. repeat constructor.
Qed.

