(* ===== verification/CommandLine.v ===== *)
(** * CommandLine: the arguments of main

    [main] reads its arguments with [std::stoi] and [std::stoul], whose exceptions it does
    not catch, configures the receiver and the frame handler with them, and starts.  The
    scanner is in [Text]; here are the arguments, their defaults and their conversions. *)
From Stdlib Require Import Ascii String.
From stdpp Require Import strings.
From S2P Require Import Prelude Text.
#[local] Close Scope string_scope.

Record config := mkConfig {
  LOCAL_ADDRESS : text;
  LOCAL_PORT : Z;
  TIME_S : Z;
  RECEIVER_WAIT_TIME_MS : Z;       (* ignored *)
  recv_cpu : Z;
  worker_cpu : Z;
  recv_buf_size : Z;               (* bytes, the argument of [set_recv_buf_size] *)
  HOLDBACK : option Z
}.

(** How the argument handling ends. *)
Inductive args_end := Usage | Uncaught (e : exn) | Configured (c : config).

Definition try_ {A} (r : exn + A) (k : A → outcome args_end) : outcome args_end :=
  match r with inl e => Ret (Uncaught e) | inr a => k a end.
Notation "x ←! r ; k" := (try_ r (λ x, k)) (at level 100, r at next level, k at level 200, right associativity) : rtp_scope.
#[local] Open Scope rtp_scope.

(** [if (argc > i) x = std::stoi(argv[i])] *)
Definition arg_int (argv : list text) (i : nat) (dflt : Z) : exn + Z :=
  match argv !! i with Some a => stoi a | None => inr dflt end.

Definition INT64_MAX : Z := 9223372036854775807.

(** [recv_buf_mb * 1024 * 1024] on [int]. *)
Definition buf_bytes (mb : Z) : outcome Z :=
  if is_int (mb * 1024) && is_int (mb * 1024 * 1024) then Ret (mb * 1024 * 1024) else UB.

Definition main_args (argv : list text) : outcome args_end :=
  match argv with
  | _ :: addr :: port :: _ =>
      p ←! stoi port;
      time ←! arg_int argv 3 INT64_MAX;
      wait ←! (match argv !! 4%nat with Some a => stoi a | None => inr 45 end);
      rc ←! arg_int argv 6 2;
      wc ←! arg_int argv 7 3;
      mb ←! arg_int argv 8 16;
      match buf_bytes mb with
      | Ret n =>
          hb ←! (match argv !! 5%nat with
                 | Some a => match stoul a with inl e => inl e | inr v => inr (Some (u32 v)) end
                 | None => inr None
                 end);
          Ret (Configured (mkConfig addr (u16 p) time (u64 wait) rc wc n hb))
      | UB => UB
      | NoFuel => NoFuel
      end
  | _ => Ret Usage
  end.

(** ** Printed numbers *)

(** Ten digits hold every [int]. *)
Definition print_int (v : Z) : text := if v <? 0 then "-"%char :: dec 10 (- v) else dec 10 v.

Lemma scan_print v r :
  INT_MIN ≤ v ≤ INT_MAX → no_digit r → scan_int (print_int v ++ r) = Some (v <? 0, Z.abs v, r).
Proof.
  unfold INT_MIN, INT_MAX, print_int, scan_int. intros Hv Hr.
  assert (∀ u, 0 ≤ u ≤ 2147483648 → skip_ws (dec 10 u ++ r) = dec 10 u ++ r ∧ scan_sign (dec 10 u ++ r) = (false, dec 10 u ++ r)
    ∧ ∃ c l, dec 10 u ++ r = c :: l ∧ isdigit c = true ∧ scan_digits (dec 10 u ++ r) 0 = (u, r)) as H.
  { intros u Hu. destruct (dec_head 10 u ltac:(lia) ltac:(lia)) as (d & l & E & Hd).
    destruct (digit_spec d Hd) as (D1 & _ & D3 & D4 & D5).
    pose proof (scan_dec 10 u r 0 ltac:(lia) ltac:(change (10 ^ Z.of_nat 10) with 10000000000; lia) eq_refl) as Es.
    rewrite (scan_digits_stop r u Hr) in Es. rewrite E in *. cbn [app skip_ws scan_sign]. rewrite D3.
    rewrite !bool_decide_eq_false_2 by done. split_and!; [done|done|]. by exists (digit d), (l ++ r). }
  destruct (Z.ltb_spec v 0).
  - destruct (H (- v)) as (_ & _ & c & l & E & Hc & Hs); [lia|]. cbn [app skip_ws scan_sign].
    change (isspace "-") with false. cbn iota.
    change (scan_sign ("-"%char :: ?l)) with (true, l). cbn iota. rewrite Hs, E, Hc. rewrite Z.abs_neq by lia. done.
  - destruct (H v) as (-> & -> & c & l & E & Hc & Hs); [lia|]. rewrite Hs, E, Hc. rewrite Z.abs_eq by lia. done.
Qed.

Lemma stoi_print v r : INT_MIN ≤ v ≤ INT_MAX → no_digit r → stoi (print_int v ++ r) = inr v.
Proof.
  intros Hv Hr. unfold stoi. rewrite scan_print by done.
  assert (signed_of (v <? 0) (Z.abs v) = v) as -> by (unfold signed_of; destruct (Z.ltb_spec v 0); lia).
  unfold is_int. by rewrite (proj2 (Z.leb_le _ _)), (proj2 (Z.leb_le _ _)) by lia.
Qed.

Lemma stoul_print v r : INT_MIN ≤ v ≤ INT_MAX → no_digit r → stoul (print_int v ++ r) = inr (u64 v).
Proof.
  intros Hv Hr. unfold stoul. rewrite scan_print by done. unfold INT_MIN, INT_MAX in *.
  assert (signed_of (v <? 0) (Z.abs v) = v) as -> by (unfold signed_of; destruct (Z.ltb_spec v 0); lia).
  by rewrite (proj2 (Z.ltb_lt _ _)) by lia.
Qed.

Lemma buf_bytes_spec mb :
  INT_MIN ≤ mb ≤ INT_MAX →
  buf_bytes mb = if (-2048 <=? mb) && (mb <=? 2047) then Ret (mb * 1048576) else UB.
Proof.
  unfold buf_bytes, is_int, INT_MIN, INT_MAX. intros Hm.
  destruct (Z.leb_spec (-2048) mb), (Z.leb_spec mb 2047), (Z.leb_spec (-2147483648) (mb * 1024)),
    (Z.leb_spec (mb * 1024) 2147483647), (Z.leb_spec (-2147483648) (mb * 1024 * 1024)),
    (Z.leb_spec (mb * 1024 * 1024) 2147483647); cbn [andb]; try lia; try done. f_equal. lia.
Qed.

(** ** Properties *)
Definition is_c_int (v : Z) : Prop := INT_MIN ≤ v ≤ INT_MAX.

(** C38: the arguments are read as written.  With all eight arguments given as decimal
    numbers of type [int] (possibly followed by other characters), the configuration holds
    the address, the port reduced to 16 bits, the duration, the two CPU numbers, the
    hold-back reduced to 32 bits and the buffer size in bytes, provided the size in
    megabytes lies between -2048 and 2047; outside that range the multiplication
    overflows [int], which is undefined. *)
Theorem arguments_read cmd addr port time wait hb rc wc mb tails :
  is_c_int port → is_c_int time → is_c_int wait → is_c_int hb → is_c_int rc → is_c_int wc → is_c_int mb →
  length tails = 7%nat → Forall no_digit tails →
  main_args (cmd :: addr :: zip_with (λ v r, print_int v ++ r) [port; time; wait; hb; rc; wc; mb] tails)
  = if (-2048 <=? mb) && (mb <=? 2047)
    then Ret (Configured (mkConfig addr (u16 port) time (u64 wait) rc wc (mb * 1048576) (Some (u32 (u64 hb)))))
    else UB.
Proof.
  intros H1 H2 H3 H4 H5 H6 H7 Hl Ht. do 7 (destruct tails as [|? tails]; [done|]). destruct tails; [|done].
  rewrite !Forall_cons in Ht. destruct Ht as (T1 & T2 & T3 & T4 & T5 & T6 & T7 & _).
  unfold main_args, arg_int. cbn [zip_with lookup list_lookup]. rewrite !stoi_print, stoul_print by done. cbn [try_].
  rewrite buf_bytes_spec by done. by destruct (_ && _).
Qed.

(** The port is truncated (finding): 70000 listens on port 4464. *)
Theorem port_truncated :
  match main_args [txt "rtp"; txt "0.0.0.0"; txt "70000"] with
  | Ret (Configured c) => LOCAL_PORT c = 4464 ∧ TIME_S c = INT64_MAX ∧ recv_buf_size c = 16777216
  | _ => False
  end.
Proof. vm_compute. done. Qed.

(** Errors in the arguments end the program (finding): the exceptions of [std::stoi] are
    not caught, where too few arguments print the usage. *)
Theorem bad_arguments_uncaught :
  main_args [txt "rtp"; txt "0.0.0.0"] = Ret Usage
  ∧ main_args [txt "rtp"; txt "0.0.0.0"; txt "port"] = Ret (Uncaught invalid_argument)
  ∧ main_args [txt "rtp"; txt "0.0.0.0"; txt "99999999999"] = Ret (Uncaught out_of_range).
Proof. vm_compute. done. Qed.

(** ** Witness *)
Lemma arguments_read_witness :
  main_args (map txt ["rtp"; "10.0.0.1"; "6000"; "30s"; "0"; "-1"; "2"; "3"; "16MB"]%string)
  = Ret (Configured (mkConfig (txt "10.0.0.1") 6000 30 0 2 3 16777216 (Some 4294967295))).
Proof.
  apply (arguments_read (txt "rtp") (txt "10.0.0.1") 6000 30 0 (-1) 2 3 16 [[]; txt "s"; []; []; []; []; txt "MB"]).
  1-7: split; unfold INT_MIN, INT_MAX; lia.
  - reflexivity.
  - repeat constructor.
Defined.
