(* ===== verification/Console.v ===== *)
(** * Console: what the program prints

    [print_SIZ] of j2k_header.cpp (the geometry of a stream, for debugging) and
    [print_help] of main.cpp, as the lines they write.  [%d] prints an [int]: an unsigned
    argument is read as one. *)
From Stdlib Require Import Ascii String.
From stdpp Require Import strings.
From S2P Require Import Prelude Codestream BitReader Markers Structs MainHeader HeaderSpec PacketHeader.
From S2P Require Import PacketSpec Progression Geometry GeometrySpec TileHandler TileSpec Create Text.

#[local] Close Scope string_scope.

(** The lines written so far. *)
Definition put_line (l : text) : M (list text) () := modify (λ o, o ++ [l]).
Definition sdec (v : Z) : text := if v <? 0 then "-"%char :: dec 10 (- v) else dec 10 v.
(** [%d] *)
Definition fmt_d (v : Z) : text := sdec (i32 v).
(** [1 << n] on [int] *)
Definition shl1 (n : Z) : M (list text) Z := if (0 <=? n) && (n <? 32) then mret (i32 (Z.shiftl 1 n)) else undefined.
Definition put_field (name : string) (v : Z) : M (list text) () := put_line (txt name ++ txt " = " ++ fmt_d v).

Definition print_level (coc : coc_marker) (r : Z) : M (list text) () :=
  w ← arr_get (coc_prw coc) r;
  h ← arr_get (coc_prh coc) r;
  w ← shl1 w;
  h ← shl1 h;
  put_line (txt "Precinct size @ LV " ++ fmt_d r ++ txt " = " ++ fmt_d w ++ txt "x" ++ fmt_d h).

Definition print_component (cocs : list coc_marker) (dfs : dfs_marker) (c : Z) : M (list text) () :=
  coc ← at_ cocs c;
  w ← shl1 (coc_cbw coc);
  put_line (txt "codeblock width  = " ++ fmt_d w) ;;
  h ← shl1 (coc_cbh coc);
  put_line (txt "codeblock height = " ++ fmt_d h) ;;
  let NL := if 32 <? coc_NL coc then Idfs dfs else coc_NL coc in
  put_field "DWT level" NL ;;
  put_field "Progression order" (coc_progression_order coc) ;;
  for_n (Z.to_nat (NL + 1)) 0 (print_level coc).

Definition print_SIZ (siz : siz_marker) (cocs : list coc_marker) (dfs : dfs_marker) : M (list text) () :=
  put_field "Xsiz" (Xsiz siz) ;;
  put_field "Ysiz" (Ysiz siz) ;;
  put_field "XOsiz" (XOsiz siz) ;;
  put_field "YOsiz" (YOsiz siz) ;;
  put_field "XTsiz" (XTsiz siz) ;;
  put_field "YTsiz" (YTsiz siz) ;;
  put_field "XTOsiz" (XTOsiz siz) ;;
  put_field "YTOsiz" (YTOsiz siz) ;;
  for_n (Z.to_nat (Csiz siz)) 0 (print_component cocs dfs).

Definition print_help (cmd : text) : list text :=
  [txt "Usage: " ++ cmd ++ txt " address port [duration(s)] [wait(ms)] [holdback] [recv_cpu] [worker_cpu] [recv_buf_mb]";
   txt "  duration:    seconds to listen (default: forever)";
   txt "  wait(ms):    deprecated, ignored (kept for arg-position compatibility)";
   txt "  holdback:    parser hold-back precincts (default 0; vestigial since byte-queue gate)";
   txt "  recv_cpu:    CPU to pin recv thread (default 2; -1 = no pinning)";
   txt "  worker_cpu:  CPU to pin worker thread (default 3; -1 = no pinning)";
   txt "  recv_buf_mb: SO_RCVBUF in megabytes (default 16)"].

(** ** It prints without undefined behaviour *)

(** [m] appends [n] lines. *)
Definition prints (n : Z) (m : M (list text) ()) : Prop := ∀ o, ∃ l, m o = Ret ((), o ++ l) ∧ zlength l = n.

Lemma prints_line l : prints 1 (put_line l).
Proof. intros o. by exists [l]. Qed.
Lemma prints_seq n k m (m' : M (list text) ()) : prints n m → prints k m' → prints (n + k) (m ;; m').
Proof.
  intros Hm Hk o. destruct (Hm o) as (l & E & L). destruct (Hk (o ++ l)) as (l' & E' & L').
  exists (l ++ l'). rewrite (bind_run _ _ _ _ _ E), E', app_assoc. split; [done|]. rewrite zlength_app. lia.
Qed.
Lemma prints_rows n lo body : (∀ i, lo ≤ i < lo + Z.of_nat n → prints 1 (body i)) → prints (Z.of_nat n) (for_n n lo body).
Proof.
  revert lo. induction n as [|n IH]; intros lo Hb; [intros o; exists []; by rewrite app_nil_r|]. cbn [for_n].
  replace (Z.of_nat (S n)) with (1 + Z.of_nat n) by lia. apply prints_seq; [apply Hb; lia|]. apply IH. intros i Hi. apply Hb. lia.
Qed.
Lemma bind_shl1 {A} n (k : Z → M (list text) A) o : 0 ≤ n < 32 → (shl1 n ≫= k) o = k (i32 (Z.shiftl 1 n)) o.
Proof. intros Hn. unfold shl1. by rewrite (proj2 (Z.leb_le 0 n)), (proj2 (Z.ltb_lt n 32)) by lia. Qed.
Lemma bind_arr {A} l i (k : Z → M (list text) A) o : 0 ≤ i < Z.of_nat (length l) → (arr_get l i ≫= k) o = k (l !!! Z.to_nat i) o.
Proof. intros Hi. unfold arr_get. by rewrite (proj2 (Z.leb_le 0 i)), (proj2 (Z.ltb_lt i _)) by lia. Qed.

Lemma below_at (l : list Z) i n : Forall (λ x, 0 ≤ x < n) l → 0 ≤ i < Z.of_nat (length l) → 0 ≤ l !!! Z.to_nat i < n.
Proof.
  intros Hl Hi. destruct (lookup_lt_is_Some_2 l (Z.to_nat i)) as [x Hx]; [lia|]. rewrite (list_lookup_total_correct _ _ _ Hx).
  apply (Forall_lookup_1 _ _ _ _ Hl Hx).
Qed.
Lemma level_prints coc dfs r : build_ok coc dfs → 0 ≤ r ≤ coc_NL coc → prints 1 (print_level coc r).
Proof.
  intros [[_ B1] [B2 B2'] [B3 B3'] _ _ _ _ _] Hr o. unfold MAX_DWT_LEVEL in *. unfold print_level.
  pose proof (below_at _ r _ B2' ltac:(lia)). pose proof (below_at _ r _ B3' ltac:(lia)).
  rewrite !bind_arr, !bind_shl1 by lia. apply prints_line.
Qed.

Lemma component_prints h c :
  stream_ok h → 0 ≤ Idfs (h_dfs h) < 256 → 0 ≤ c < 3 →
  prints (5 + coc_NL (coc_at h c)) (print_component (h_cocs h) (h_dfs h) c).
Proof.
  intros Hok Hd Hc o. pose proof (so_build _ Hok c Hc) as HB. pose proof (bo_NL _ _ HB) as HN. pose proof (bo_cb _ _ HB) as [Hw Hh].
  destruct (lookup_lt_is_Some_2 (h_cocs h) (Z.to_nat c)) as [coc Hcoc]; [rewrite (tw_cocs _ (so_wf _ Hok)); lia|].
  assert (coc_at h c = resolve_NL (h_dfs h) coc) as Ec by (unfold coc_at; by rewrite (list_lookup_total_correct _ _ _ Hcoc)).
  assert (coc_prw (coc_at h c) = coc_prw coc ∧ coc_prh (coc_at h c) = coc_prh coc ∧ coc_cbw (coc_at h c) = coc_cbw coc
    ∧ coc_cbh (coc_at h c) = coc_cbh coc) as (E1 & E2 & E3 & E4) by (rewrite Ec; unfold resolve_NL; by destruct (32 <? _)).
  assert ((if 32 <? coc_NL coc then Idfs (h_dfs h) else coc_NL coc) = coc_NL (coc_at h c)) as E5.
  { rewrite Ec. unfold resolve_NL. destruct (32 <? coc_NL coc); [|done]. cbn. symmetry. by apply u8_small. }
  unfold print_component. rewrite bind_at, (proj2 (Z.leb_le 0 c)), Hcoc by lia. rewrite bind_shl1 by lia.
  replace (5 + coc_NL (coc_at h c)) with (1 + (1 + (1 + (1 + Z.of_nat (Z.to_nat (coc_NL (coc_at h c) + 1)))))) by lia.
  cbn zeta. rewrite E5. apply prints_seq; [apply prints_line|]. intros o'. rewrite bind_shl1 by lia.
  revert o'. do 3 (apply prints_seq; [apply prints_line|]). apply prints_rows. intros r Hr o'.
  pose proof (level_prints _ _ r HB ltac:(lia) o') as H. unfold print_level in *. by rewrite E1, E2 in H.
Qed.

(** [print_SIZ] on the tables of a stream the program supports: eight lines, and for each
    component four and one for each resolution, with no array read outside its bounds and
    no shift too far. *)
Theorem print_SIZ_prints h :
  stream_ok h → 0 ≤ Idfs (h_dfs h) < 256 →
  prints (23 + coc_NL (coc_at h 0) + coc_NL (coc_at h 1) + coc_NL (coc_at h 2)) (print_SIZ (h_siz h) (h_cocs h) (h_dfs h)).
Proof.
  intros Hok Hd. unfold print_SIZ. rewrite (so_Csiz _ Hok).
  match goal with |- prints ?n _ => replace n with (1 + (1 + (1 + (1 + (1 + (1 + (1 + (1 + ((5 + coc_NL (coc_at h 0))
    + ((5 + coc_NL (coc_at h 1)) + ((5 + coc_NL (coc_at h 2)) + 0))))))))))) by lia end.
  do 8 (apply prints_seq; [apply prints_line|]). change (Z.to_nat 3) with 3%nat. cbn [for_n].
  do 3 (apply prints_seq; [by apply component_prints|]). intros o. exists []. by rewrite app_nil_r.
Qed.

(** Deeper decompositions read past the six precinct sizes: nothing checks [NL]. *)
Remark print_level_out_of_bounds coc r o : length (coc_prw coc) = 6%nat → 6 ≤ r → print_level coc r o = UB.
Proof.
  intros Hl Hr. unfold print_level, arr_get. rewrite Hl. change (Z.of_nat 6) with 6. rewrite (proj2 (Z.ltb_ge r 6)) by lia. by rewrite andb_false_r.
Qed.
