(* ===== verification/Double.v ===== *)
(** * Double: the [double] arithmetic of the statistics

    [double] is IEEE binary64, as the Standard Library specifies it ([spec_float] at
    precision 53, rounding to nearest even).  Below 2^53 integers are exact and so are
    their sums, which is what makes the accumulated parse time exact.  [fixed] prints a
    number as [std::fixed << std::setprecision(p)] does. *)
From Stdlib Require Import SpecFloat Ascii String.
From stdpp Require Import strings.
From S2P Require Import Prelude Text.

#[local] Close Scope string_scope.

Definition double : Type := spec_float.
Definition dadd : double → double → double := SFadd 53 1024.
Definition dmul : double → double → double := SFmul 53 1024.
Definition ddiv : double → double → double := SFdiv 53 1024.
(** [static_cast<double>] of an integer; also the literals [0.0] and [1000.0]. *)
Definition dint (n : Z) : double := binary_normalize 53 1024 n 0 false.

(** ** Printing *)

(** [n] divided by the power of two [2^k], to the nearest integer, ties to even. *)
Definition round_div (n k : Z) : Z :=
  let q := Z.shiftr n k in
  let r := n - Z.shiftl q k in
  if (2 * r <? 2 ^ k) || ((2 * r =? 2 ^ k) && Z.even q) then q else q + 1.

(** The digits of [v], at least [w] of them. *)
Definition zeros (w : nat) (v : Z) : text := let d := dec 400 v in replicate (w - length d) "0"%char ++ d.
Definition sign_text (s : bool) : text := if s then txt "-" else [].

(** [nan]: how the C library spells a NaN (its sign is the platform's). *)
Definition fixed (nan : text) (p : Z) (x : double) : text :=
  let digits n := dec 400 (n / 10 ^ p) ++ txt "." ++ zeros (Z.to_nat p) (n mod 10 ^ p) in
  match x with
  | S754_zero s => sign_text s ++ digits 0
  | S754_infinity s => sign_text s ++ txt "inf"
  | S754_nan => nan
  | S754_finite s m e =>
      sign_text s ++ digits (if 0 <=? e then Z.shiftl (Z.pos m * 10 ^ p) e else round_div (Z.pos m * 10 ^ p) (- e))
  end.

(** [std::setw(w)], padding on the left. *)
Definition setw (w : nat) (l : text) : text := replicate (w - length l) " "%char ++ l.

Example fixed_thousand : fixed (txt "nan") 3 (dint 1000) = txt "1000.000".
Proof. vm_compute. reflexivity. Qed.
Example fixed_third : fixed (txt "nan") 4 (ddiv (dint 1000) (dint 3)) = txt "333.3333".
Proof. vm_compute. reflexivity. Qed.
Example fixed_tie : fixed (txt "nan") 1 (ddiv (dint 1) (dint 4)) = txt "0.2".
Proof. vm_compute. reflexivity. Qed.

(** ** Integers below 2^53 *)

Lemma digits_log2 p : Z.pos (digits2_pos p) = Z.log2 (Z.pos p) + 1.
Proof.
  induction p as [p IH|p IH|]; cbn [digits2_pos]; [| |done]; rewrite Pos2Z.inj_succ, IH.
  - rewrite Pos2Z.inj_xI. rewrite Z.log2_succ_double by lia. lia.
  - rewrite Pos2Z.inj_xO. rewrite Z.log2_double by lia. lia.
Qed.

Lemma iter_xO m k : Z.pos (Pos.iter xO m k) = Z.shiftl (Z.pos m) (Z.pos k).
Proof.
  rewrite Z.shiftl_mul_pow2 by lia. induction k as [|k IH] using Pos.peano_ind; [cbn; lia|].
  rewrite Pos.iter_succ, Pos2Z.inj_xO, IH, Pos2Z.inj_succ, Z.pow_succ_r by lia. lia.
Qed.

(** The aligned mantissa. *)
Lemma shl_align_value m e e' : e' ≤ e → Z.pos (shl_align m e e').1 = Z.shiftl (Z.pos m) (e - e').
Proof.
  intros He. unfold shl_align. destruct (e' - e) as [|d|d] eqn:Ed; [| lia |]; cbn [fst].
  - replace (e - e') with 0 by lia. by rewrite Z.shiftl_0_r.
  - rewrite iter_xO. f_equal. lia.
Qed.

Lemma shr_1_even m : 0 < m → shr_1 (Build_shr_record (2 * m) false false) = Build_shr_record m false false.
Proof. destruct m; [lia|done|lia]. Qed.

Lemma iter_pos_shift {A} (f : A → A) n x : SpecFloat.iter_pos f n x = Pos.iter f x n.
Proof.
  revert x. induction n as [n IH|n IH|]; intros x; cbn [SpecFloat.iter_pos Pos.iter]; [|by rewrite !IH|done].
  rewrite !IH. by rewrite <- !Pos.iter_swap.
Qed.

(** Shifting zeros out is exact. *)
Lemma shr_exact m k : 0 < m → SpecFloat.iter_pos shr_1 k (Build_shr_record (Z.shiftl m (Z.pos k)) false false) = Build_shr_record m false false.
Proof.
  rewrite iter_pos_shift, Z.shiftl_mul_pow2 by lia. revert m. induction k as [|k IH] using Pos.peano_ind; intros m Hm.
  - cbn [Pos.iter]. rewrite <- (shr_1_even m) by done. f_equal. f_equal. rewrite Z.pow_1_r. lia.
  - rewrite Pos.iter_succ_r, Pos2Z.inj_succ, Z.pow_succ_r by lia. replace (m * (2 * 2 ^ Z.pos k)) with (2 * (m * 2 ^ Z.pos k)) by lia.
    rewrite shr_1_even by (apply Z.mul_pos_pos; [done|apply Z.pow_pos_nonneg; lia]). by apply IH.
Qed.

Definition dexp (n : Z) : Z := Z.log2 n - 52.
(** A positive integer below 2^53 as a canonical [double]. *)
Definition dpos (n : Z) : double := S754_finite false (Z.to_pos (Z.shiftl n (- dexp n))) (dexp n).

Lemma shr_fexp_canon m e : 0 < m → -1074 ≤ Z.log2 m + e - 52 → e ≤ Z.log2 m + e - 52 →
  shr_fexp 53 1024 m e loc_Exact = shr (Build_shr_record m false false) e (Z.log2 m - 52).
Proof.
  intros Hm Hlo Hhi. unfold shr_fexp. cbn [shr_record_of_loc]. f_equal. destruct m as [|m|]; [lia| |lia]. cbn [Zdigits2].
  rewrite digits_log2. unfold fexp, emin. lia.
Qed.

Lemma log2_shiftl n k : 0 < n → 0 ≤ k → Z.log2 (Z.shiftl n k) = Z.log2 n + k.
Proof. intros Hn Hk. by rewrite Z.log2_shiftl by lia. Qed.

(** Rounding a positive integer below 2^53, however it is scaled, is exact. *)
Lemma round_aux_exact n m e :
  0 < n < 2 ^ 53 → e ≤ dexp n → -1000 ≤ e → Z.pos m = Z.shiftl n (- e) → binary_round_aux 53 1024 false (Z.pos m) e loc_Exact = dpos n.
Proof.
  intros [Hn Hn'] He Hlo Hm. pose proof (Z.log2_nonneg n). pose proof (proj1 (Z.log2_lt_pow2 n 53 Hn) Hn'). unfold dexp in He.
  assert (Z.log2 (Z.pos m) = Z.log2 n - e) as Hd by (rewrite Hm, log2_shiftl; lia).
  unfold binary_round_aux. rewrite shr_fexp_canon, Hd by lia. clear Hd.
  set (k := Z.log2 n - e - 52). set (M := Z.shiftl n (52 - Z.log2 n)).
  assert (0 < M) as HM by (unfold M; rewrite Z.shiftl_mul_pow2 by lia; apply Z.mul_pos_pos; [done|apply Z.pow_pos_nonneg; lia]).
  assert (shr (Build_shr_record (Z.pos m) false false) e k = (Build_shr_record M false false, Z.log2 n - 52)) as ->.
  { assert (Z.pos m = Z.shiftl M k) as -> by (unfold M, k; rewrite Hm, Z.shiftl_shiftl by lia; f_equal; lia).
    unfold shr. destruct k as [|p|p] eqn:Ek; [| |unfold k in Ek; lia].
    - rewrite Z.shiftl_0_r. f_equal. unfold k in Ek. lia.
    - rewrite shr_exact by done. f_equal. unfold k in Ek. lia. }
  cbn [shr_m loc_of_shr_record round_nearest_even].
  assert (Z.log2 M = 52) as HM2 by (unfold M; rewrite log2_shiftl; lia).
  rewrite shr_fexp_canon, HM2 by lia. change (52 - 52) with 0. cbn [shr shr_m].
  unfold dpos, dexp. replace (- (Z.log2 n - 52)) with (52 - Z.log2 n) by lia. fold M.
  destruct M as [|p|p]; [lia| |lia]. by rewrite (proj2 (Z.leb_le _ _)) by lia.
Qed.

Lemma round_exact n m e :
  0 < n < 2 ^ 53 → -1000 ≤ e ≤ 0 → Z.pos m = Z.shiftl n (- e) → binary_round 53 1024 false m e = dpos n.
Proof.
  intros Hn He Hm. pose proof (Z.log2_nonneg n). pose proof (proj1 (Z.log2_lt_pow2 n 53 (proj1 Hn)) (proj2 Hn)).
  assert (Z.log2 (Z.pos m) = Z.log2 n - e) as Hd by (rewrite Hm, log2_shiftl; lia).
  unfold binary_round. rewrite digits_log2. replace (fexp 53 1024 _) with (dexp n) by (unfold fexp, emin, dexp; lia).
  destruct (shl_align m e (dexp n)) as [mz ez] eqn:Ea.
  destruct (Z.le_gt_cases e (dexp n)) as [Hle|Hgt].
  - unfold shl_align in Ea. destruct (dexp n - e) eqn:Ed; [| |lia]; simplify_eq; by apply round_aux_exact; [..|lia|].
  - pose proof (shl_align_value m e (dexp n) ltac:(lia)) as Hv. rewrite Ea in Hv. cbn [fst] in Hv.
    assert (ez = dexp n) as -> by (unfold shl_align in Ea; destruct (dexp n - e) eqn:Ed; simplify_eq; lia).
    apply round_aux_exact; [done|lia|unfold dexp; lia|]. rewrite Hv, Hm, Z.shiftl_shiftl by lia. f_equal. lia.
Qed.

Lemma dint_pos n : 0 < n < 2 ^ 53 → dint n = dpos n.
Proof.
  intros Hn. unfold dint. destruct n as [|n|n]; [lia| |lia]. apply round_exact; [done|lia|by rewrite Z.shiftl_0_r].
Qed.

(** Sums of integers are exact below 2^53. *)
Theorem dadd_exact a b : 0 ≤ a → 0 ≤ b → a + b < 2 ^ 53 → dadd (dint a) (dint b) = dint (a + b).
Proof.
  intros Ha Hb Hab. destruct (decide (a = 0)) as [->|Ha0].
  { destruct (decide (b = 0)) as [->|Hb0]; [done|]. rewrite Z.add_0_l, (dint_pos b) by lia. done. }
  destruct (decide (b = 0)) as [->|Hb0]; [rewrite Z.add_0_r, (dint_pos a) by lia; done|].
  rewrite !dint_pos by lia. unfold dadd, dpos at 1 2. cbn [SFadd cond_Zopp].
  set (ez := Z.min (dexp a) (dexp b)). assert (-52 ≤ ez ≤ 0) as Hez.
  { pose proof (Z.log2_nonneg a). pose proof (Z.log2_nonneg b). pose proof (proj1 (Z.log2_lt_pow2 a 53 ltac:(lia)) ltac:(lia)).
    unfold ez, dexp. lia. }
  assert (∀ n, 0 < n < 2 ^ 53 → ez ≤ dexp n →
    Z.pos (shl_align (Z.to_pos (Z.shiftl n (- dexp n))) (dexp n) ez).1 = n * 2 ^ (- ez)) as HS.
  { intros n Hn Hle. pose proof (proj1 (Z.log2_lt_pow2 n 53 ltac:(lia)) ltac:(lia)). rewrite shl_align_value by done.
    rewrite Z2Pos.id by (rewrite Z.shiftl_mul_pow2 by (unfold dexp; lia); apply Z.mul_pos_pos; [lia|apply Z.pow_pos_nonneg; unfold dexp; lia]).
    rewrite Z.shiftl_shiftl, Z.shiftl_mul_pow2 by (unfold dexp in *; lia). f_equal. f_equal. lia. }
  rewrite !HS by (unfold ez; lia). rewrite <- Z.mul_add_distr_r.
  destruct ((a + b) * 2 ^ (- ez)) as [|m|m] eqn:Em; [pose proof (Z.pow_pos_nonneg 2 (- ez)); nia| |pose proof (Z.pow_pos_nonneg 2 (- ez)); nia].
  apply round_exact; [lia|lia|]. by rewrite Z.shiftl_mul_pow2 by lia.
Qed.
