(* ===== verification/Lifecycle.v ===== *)
(** * Lifecycle: starting and stopping the receiver (rtp_receiver.cpp)

    The constructor, [start], [stop], the setters and the destructor: the socket, the two
    threads, and what they leave when a step fails.  What the operating system answers is
    an input of the calls, the construction of a thread included, which throws
    [std::system_error] when it fails; what the code asks of it is the list of system calls
    the calling thread makes.  The receive thread's own [recv] on the socket is [SysRecv].
    Assigning to a [std::thread] that is still joinable terminates the program. *)
From Stdlib Require Import Ascii String.
From stdpp Require Import strings.
From S2P Require Import Prelude Receiver Text CommandLine.
#[local] Close Scope string_scope.

Inductive syscall :=
  | SysSocket (fd : Z)                  (* the answer *)
  | SysReuse (fd : Z)
  | SysRcvbuf (fd n : Z) (force : bool)
  | SysBind (fd : Z) (addr : option Z) (port : Z)   (* [None]: INADDR_ANY *)
  | SysShutdown (fd : Z)
  | SysClose (fd : Z)
  | SysRecv (fd : Z)                    (* by the receive thread *)
  | SpawnWorker | SpawnRecv | JoinRecv | NotifyWorker | JoinWorker
  | PinRecv (cpu : Z) | PinWorker (cpu : Z).

(** The answers to one call of [start]. *)
Record answers := mkAnswers {
  an_socket : Z;                        (* a descriptor, or negative *)
  an_force : bool;                      (* SO_RCVBUFFORCE is allowed *)
  an_pton : text → option Z;            (* [inet_pton] *)
  an_bind : bool;
  an_worker : bool;                     (* the worker thread can be created *)
  an_recv : bool                        (* the receive thread can be created *)
}.
(** How [start] ends. *)
Inductive start_end := Started | Refused | Threw.

(** The members of [Receiver] outside the packet state. *)
Record service := mkService {
  sv_recv : receiver;
  sock_fd_ : Z;
  running_ : bool;
  thread_ : bool;                       (* joinable *)
  worker_ : bool;
  hook_ : bool;                         (* registered *)
  rcvbuf_size_ : Z;
  recv_cpu_ : Z;
  worker_cpu_ : Z
}.

Definition new_service (ring0 : Z → Slot) (slab0 : memory) (queue0 : Z → Job) : service :=
  mkService (mkRecv ring0 slab0 false 0 0 0 0 0 queue0 0 0 64) (-1) false false false false (16 * 1024 * 1024) (-1) (-1).

Section Setters.
Implicit Types v : service.
Definition set_jitter_depth (n : Z) v : service :=
  let r := sv_recv v in
  mkService (mkRecv (ring_ r) (slab_ r) (started_ r) (next_seq_ r) (pending_ r) (net_lost_packets_ r) (slot_busy_drops_ r)
    (queue_full_drops_ r) (job_queue_ r) (job_head_ r) (job_tail_ r) n)
    (sock_fd_ v) (running_ v) (thread_ v) (worker_ v) (hook_ v) (rcvbuf_size_ v) (recv_cpu_ v) (worker_cpu_ v).
Definition set_recv_buf_size (n : Z) v : service :=
  mkService (sv_recv v) (sock_fd_ v) (running_ v) (thread_ v) (worker_ v) (hook_ v) n (recv_cpu_ v) (worker_cpu_ v).
Definition set_recv_cpu (n : Z) v : service :=
  mkService (sv_recv v) (sock_fd_ v) (running_ v) (thread_ v) (worker_ v) (hook_ v) (rcvbuf_size_ v) n (worker_cpu_ v).
Definition set_worker_cpu (n : Z) v : service :=
  mkService (sv_recv v) (sock_fd_ v) (running_ v) (thread_ v) (worker_ v) (hook_ v) (rcvbuf_size_ v) (recv_cpu_ v) n.
Definition set_sock (fd : Z) v : service :=
  mkService (sv_recv v) fd (running_ v) (thread_ v) (worker_ v) (hook_ v) (rcvbuf_size_ v) (recv_cpu_ v) (worker_cpu_ v).
End Setters.

(** The addresses that mean any interface. *)
Definition any_addr (a : text) : bool := bool_decide (a = []) || bool_decide (a = txt "0.0.0.0") || bool_decide (a = txt "*").

Definition buf_calls (v : service) (fd : Z) (ans : answers) : list syscall :=
  if 0 <? rcvbuf_size_ v
  then SysRcvbuf fd (rcvbuf_size_ v) true :: (if an_force ans then [] else [SysRcvbuf fd (rcvbuf_size_ v) false])
  else [].
Definition pin_calls (v : service) : list syscall :=
  (if recv_cpu_ v <? 0 then [] else [PinRecv (recv_cpu_ v)])
  ++ (if worker_cpu_ v <? 0 then [] else [PinWorker (worker_cpu_ v)]).

(** The state once the socket is bound: the packet state is reset, the receiver runs, and
    of the two threads those that were created. *)
Definition launched (fd : Z) (hook thread worker : bool) (v : service) : service :=
  let r := sv_recv v in
  mkService (start (ring_ r) (slab_ r) (job_queue_ r) (jitter_depth_ r)) fd true thread worker hook
    (rcvbuf_size_ v) (recv_cpu_ v) (worker_cpu_ v).

(** [worker_ = std::thread(...)]: the thread is created first, which may throw; assigning it
    to a joinable member terminates. *)
Definition Receiver_start (addr : text) (port : Z) (hook : bool) (ans : answers) (v : service)
    : outcome (start_end * service * list syscall) :=
  if running_ v then Ret (Refused, v, []) else
  let fd := an_socket ans in
  if fd <? 0 then Ret (Refused, set_sock fd v, [SysSocket fd]) else
  let pre := [SysSocket fd; SysReuse fd] ++ buf_calls v fd ans in
  if negb (any_addr addr) && negb (bool_decide (is_Some (an_pton ans addr)))
  then Ret (Refused, set_sock (-1) v, pre ++ [SysClose fd]) else
  let bind := SysBind fd (if any_addr addr then None else an_pton ans addr) port in
  if negb (an_bind ans) then Ret (Refused, set_sock (-1) v, pre ++ [bind; SysClose fd]) else
  if negb (an_worker ans) then Ret (Threw, launched fd hook (thread_ v) (worker_ v) v, pre ++ [bind]) else
  if worker_ v then UB else
  if negb (an_recv ans) then Ret (Threw, launched fd hook (thread_ v) true v, pre ++ [bind; SpawnWorker]) else
  if thread_ v then UB else
  Ret (Started, launched fd hook true true v, pre ++ [bind; SpawnWorker; SpawnRecv] ++ pin_calls v).

Definition Receiver_stop (v : service) : service * list syscall :=
  let close := if 0 <=? sock_fd_ v then [SysShutdown (sock_fd_ v); SysClose (sock_fd_ v)] else [] in
  let fd := if 0 <=? sock_fd_ v then -1 else sock_fd_ v in
  let joins := if running_ v then (if thread_ v then [JoinRecv] else []) ++ [NotifyWorker] ++ (if worker_ v then [JoinWorker] else [])
               else [] in
  (mkService (sv_recv v) fd false (if running_ v then false else thread_ v) (if running_ v then false else worker_ v)
     (hook_ v) (rcvbuf_size_ v) (recv_cpu_ v) (worker_cpu_ v),
   close ++ joins).
(** The destructor. *)
Definition Receiver_destroy (v : service) : list syscall := (Receiver_stop v).2.

(** ** Sequences of calls *)
Inductive call :=
  | CallStart (addr : text) (port : Z) (hook : bool) (ans : answers)
  | CallStop
  | CallJitter (n : Z) | CallBuf (n : Z) | CallRecvCpu (n : Z) | CallWorkerCpu (n : Z).

Definition run_call (c : call) (v : service) : outcome (service * list syscall) :=
  match c with
  | CallStart addr port hook ans =>
      match Receiver_start addr port hook ans v with Ret (_, v', l) => Ret (v', l) | UB => UB | NoFuel => NoFuel end
  | CallStop => Ret (Receiver_stop v)
  | CallJitter n => Ret (set_jitter_depth n v, [])
  | CallBuf n => Ret (set_recv_buf_size n v, [])
  | CallRecvCpu n => Ret (set_recv_cpu n v, [])
  | CallWorkerCpu n => Ret (set_worker_cpu n v, [])
  end.
Fixpoint run_calls (l : list call) (v : service) : outcome (service * list syscall) :=
  match l with
  | [] => Ret (v, [])
  | c :: l =>
      match run_call c v with
      | Ret (v', k) => match run_calls l v' with Ret (v'', k') => Ret (v'', k ++ k') | UB => UB | NoFuel => NoFuel end
      | UB => UB
      | NoFuel => NoFuel
      end
  end.

(** ** Resources

    The descriptors open and the threads running, or [None] when a call uses a closed
    descriptor, opens one that is open, or starts or joins a thread out of turn. *)
Record resources := mkRes_ { open_fds : list Z; recv_up : bool; worker_up : bool }.
Definition use_fd (fd : Z) (s : resources) : option resources := if bool_decide (fd ∈ open_fds s) then Some s else None.
Definition use (s : resources) (c : syscall) : option resources :=
  match c with
  | SysSocket fd =>
      if fd <? 0 then Some s
      else if bool_decide (fd ∈ open_fds s) then None else Some (mkRes_ (fd :: open_fds s) (recv_up s) (worker_up s))
  | SysReuse fd | SysRcvbuf fd _ _ | SysBind fd _ _ | SysShutdown fd => use_fd fd s
  | SysRecv fd => if recv_up s then use_fd fd s else None
  | SysClose fd =>
      if bool_decide (fd ∈ open_fds s) then Some (mkRes_ (filter (λ x, x ≠ fd) (open_fds s)) (recv_up s) (worker_up s)) else None
  | SpawnWorker => if worker_up s then None else Some (mkRes_ (open_fds s) (recv_up s) true)
  | SpawnRecv => if recv_up s then None else Some (mkRes_ (open_fds s) true (worker_up s))
  | JoinRecv => if recv_up s then Some (mkRes_ (open_fds s) false (worker_up s)) else None
  | JoinWorker => if worker_up s then Some (mkRes_ (open_fds s) (recv_up s) false) else None
  | NotifyWorker => Some s
  | PinRecv _ => if recv_up s then Some s else None
  | PinWorker _ => if worker_up s then Some s else None
  end.
Definition uses (l : list syscall) (s : resources) : option resources := foldl (λ o c, o ≫= λ s, use s c) (Some s) l.

Lemma uses_app l l' s s' : uses l s = Some s' → uses (l ++ l') s = uses l' s'.
Proof. unfold uses. rewrite foldl_app. by intros ->. Qed.

(** What the members stand for. *)
Definition held (v : service) : resources := mkRes_ (if 0 <=? sock_fd_ v then [sock_fd_ v] else []) (thread_ v) (worker_ v).
Record service_ok (v : service) : Prop := {
  sk_fd : running_ v = (0 <=? sock_fd_ v);
  sk_threads : (thread_ v = true → running_ v = true) ∧ (worker_ v = true → running_ v = true)
}.
(** Both threads run, or none. *)
Definition whole (v : service) : Prop := thread_ v = running_ v ∧ worker_ v = running_ v.

(** One system call that succeeds. *)
Lemma uses_cons c l s s' : use s c = Some s' → uses (c :: l) s = uses l s'.
Proof. intros E. unfold uses. cbn [foldl]. cbn [mbind option_bind]. by rewrite E. Qed.

Lemma use_open fd s : open_fds s = [fd] → use_fd fd s = Some s.
Proof. intros E. unfold use_fd. rewrite bool_decide_eq_true_2; [done|]. rewrite E. by apply list_elem_of_singleton. Qed.

Lemma use_close fd r w : use (mkRes_ [fd] r w) (SysClose fd) = Some (mkRes_ [] r w).
Proof.
  cbn [use open_fds]. rewrite bool_decide_eq_true_2 by (by apply list_elem_of_singleton).
  by rewrite filter_cons_False by auto.
Qed.

Lemma uses_pre v fd ans l :
  0 ≤ fd → uses (([SysSocket fd; SysReuse fd] ++ buf_calls v fd ans) ++ l) (mkRes_ [] false false)
  = uses l (mkRes_ [fd] false false).
Proof.
  intros Hfd. cbn [app]. rewrite (uses_cons (SysSocket fd) _ _ (mkRes_ [fd] false false)).
  2:{ cbn [use open_fds]. rewrite (proj2 (Z.ltb_ge _ _)), bool_decide_eq_false_2 by (done || apply not_elem_of_nil). done. }
  rewrite (uses_cons (SysReuse fd) _ _ (mkRes_ [fd] false false)) by (by apply use_open).
  unfold buf_calls. destruct (0 <? rcvbuf_size_ v); [|done]. cbn [app].
  rewrite (uses_cons (SysRcvbuf fd _ true) _ _ (mkRes_ [fd] false false)) by (by apply use_open).
  destruct (an_force ans); [done|]. cbn [app].
  by rewrite (uses_cons (SysRcvbuf fd _ false) _ _ (mkRes_ [fd] false false)) by (by apply use_open).
Qed.

Lemma quiet_threads v : service_ok v → running_ v = false → thread_ v = false ∧ worker_ v = false ∧ held v = mkRes_ [] false false.
Proof.
  intros [Hfd [Ht Hw]] Hr. rewrite Hr in *. assert (thread_ v = false) as T by (destruct (thread_ v); [by discriminate Ht|done]).
  assert (worker_ v = false) as W by (destruct (worker_ v); [by discriminate Hw|done]). unfold held. by rewrite T, W, <- Hfd.
Qed.

(** What a launch that got as far as [thread] and [worker] leaves. *)
Lemma launched_ok fd hook thread worker v :
  0 ≤ fd → service_ok (launched fd hook thread worker v) ∧ held (launched fd hook thread worker v) = mkRes_ [fd] thread worker.
Proof.
  intros Hfd. unfold held. cbn [sock_fd_ launched thread_ worker_]. rewrite (proj2 (Z.leb_le _ _)) by done. split; [|done].
  split; [|done]. cbn. symmetry. by apply Z.leb_le.
Qed.

(** The result of [start], when the receiver does not run. *)
Definition listens (addr : text) (ans : answers) : Prop :=
  0 ≤ an_socket ans ∧ (any_addr addr = true ∨ is_Some (an_pton ans addr)) ∧ an_bind ans = true.
Definition threads_ok (ans : answers) : Prop := an_worker ans = true ∧ an_recv ans = true.

Lemma start_refused addr port hook ans v :
  service_ok v → running_ v = false → ¬ listens addr ans →
  ∃ v' l, Receiver_start addr port hook ans v = Ret (Refused, v', l) ∧ service_ok v' ∧ held v' = mkRes_ [] false false
    ∧ uses l (mkRes_ [] false false) = Some (held v') ∧ running_ v' = false ∧ sv_recv v' = sv_recv v.
Proof.
  intros Hok Hr Hn. destruct (quiet_threads v Hok Hr) as (T & W & _). unfold Receiver_start. rewrite Hr.
  assert (∀ fd, fd < 0 → service_ok (set_sock fd v) ∧ held (set_sock fd v) = mkRes_ [] false false) as Hset.
  { intros fd Hneg. unfold held. cbn. rewrite T, W, (proj2 (Z.leb_gt _ _)) by done. split; [|done].
    split; cbn; [rewrite Hr; symmetry; apply Z.leb_gt; lia|by rewrite T, W]. }
  destruct (Z.ltb_spec (an_socket ans) 0) as [Hs|Hs].
  { destruct (Hset _ Hs) as [K1 K2]. eexists _, _. split; [done|]. rewrite K2. split_and!; try done.
    rewrite (uses_cons _ _ _ (mkRes_ [] false false)); [done|]. cbn. by rewrite (proj2 (Z.ltb_lt _ _)). }
  destruct (Hset (-1) ltac:(lia)) as [K1 K2]. set (fd := an_socket ans) in *.
  destruct (negb (any_addr addr) && _) eqn:Ea.
  { eexists _, _. split; [done|]. rewrite K2, uses_pre by done. split_and!; try done. by rewrite (uses_cons _ _ _ _ (use_close _ _ _)). }
  destruct (an_bind ans) eqn:Eb; cbn [negb].
  - destruct Hn. split; [done|]. split; [|done]. apply andb_false_iff in Ea as [E|E]; apply negb_false_iff in E; [by left|right].
    by apply bool_decide_eq_true in E.
  - eexists _, _. split; [done|]. rewrite K2, uses_pre by done. split_and!; try done.
    rewrite (uses_cons _ _ _ (mkRes_ [fd] false false)) by (by apply use_open). by rewrite (uses_cons _ _ _ _ (use_close _ _ _)).
Qed.

(** The calls up to [bind], and the threads after it. *)
Definition bind_calls (addr : text) (port : Z) (ans : answers) (v : service) : list syscall :=
  let fd := an_socket ans in
  ([SysSocket fd; SysReuse fd] ++ buf_calls v fd ans)
  ++ [SysBind fd (if any_addr addr then None else an_pton ans addr) port].

Lemma uses_bind addr port ans v l :
  0 ≤ an_socket ans →
  uses (bind_calls addr port ans v ++ l) (mkRes_ [] false false) = uses l (mkRes_ [an_socket ans] false false).
Proof.
  intros Hfd. unfold bind_calls. rewrite <- app_assoc, uses_pre by done. cbn [app].
  by rewrite (uses_cons _ _ _ (mkRes_ [an_socket ans] false false)) by (by apply use_open).
Qed.

Lemma start_launches addr port hook ans v :
  service_ok v → running_ v = false → listens addr ans →
  Receiver_start addr port hook ans v
  = let fd := an_socket ans in
    let pre := bind_calls addr port ans v in
    if negb (an_worker ans) then Ret (Threw, launched fd hook false false v, pre)
    else if negb (an_recv ans) then Ret (Threw, launched fd hook false true v, pre ++ [SpawnWorker])
    else Ret (Started, launched fd hook true true v, pre ++ [SpawnWorker; SpawnRecv] ++ pin_calls v).
Proof.
  intros Hok Hr (Hs & Ha & Hb). destruct (quiet_threads v Hok Hr) as (T & W & _). unfold Receiver_start.
  rewrite Hr, (proj2 (Z.ltb_ge _ _)), Hb, T, W by done. cbn [negb]. unfold bind_calls. cbn zeta.
  assert (negb (any_addr addr) && negb (bool_decide (is_Some (an_pton ans addr))) = false) as ->.
  { destruct Ha as [-> |Hp]; [done|]. rewrite bool_decide_eq_true_2 by done. apply andb_false_r. }
  rewrite <- !app_assoc. done.
Qed.

Lemma start_keeps addr port hook ans v :
  service_ok v →
  ∃ b v' l, Receiver_start addr port hook ans v = Ret (b, v', l) ∧ service_ok v' ∧ uses l (held v) = Some (held v')
    ∧ (threads_ok ans → whole v → whole v').
Proof.
  intros Hok. destruct (running_ v) eqn:Hr.
  { exists Refused, v, []. unfold Receiver_start. by rewrite Hr. }
  destruct (quiet_threads v Hok Hr) as (_ & _ & Eh). rewrite Eh.
  assert (listens addr ans ∨ ¬ listens addr ans) as [Hl|Hn].
  { destruct (decide (listens addr ans)); auto. }
  2:{ destruct (start_refused addr port hook ans v Hok Hr Hn) as (v' & l & E & H1 & H2 & H3 & H4 & _).
      exists Refused, v', l. split_and!; try done. intros _ _. destruct (quiet_threads v' H1 H4) as (T & W & _). by split; rewrite H4. }
  pose proof (start_launches addr port hook ans v Hok Hr Hl) as E. cbn zeta in E. pose proof Hl as (Hs & _).
  destruct (an_worker ans) eqn:Ew, (an_recv ans) eqn:Er; cbn [negb] in E; (eexists _, _, _; split; [exact E|]).
  - destruct (launched_ok (an_socket ans) hook true true v Hs) as [K1 ->]. split; [done|]. split; [|done].
    rewrite uses_bind by done. cbn [app]. rewrite (uses_cons _ _ _ (mkRes_ [an_socket ans] false true)) by done.
    rewrite (uses_cons _ _ _ (mkRes_ [an_socket ans] true true)) by done. unfold pin_calls. by destruct (_ <? 0), (_ <? 0).
  - destruct (launched_ok (an_socket ans) hook false true v Hs) as [K1 ->]. split; [done|].
    rewrite uses_bind by done. by split; [|intros [_ ?]; congruence].
  - destruct (launched_ok (an_socket ans) hook false false v Hs) as [K1 ->]. split; [done|].
    rewrite <- (app_nil_r (bind_calls _ _ _ _)), uses_bind by done. by split; [|intros [? _]; congruence].
  - destruct (launched_ok (an_socket ans) hook false false v Hs) as [K1 ->]. split; [done|].
    rewrite <- (app_nil_r (bind_calls _ _ _ _)), uses_bind by done. by split; [|intros [? _]; congruence].
Qed.

Lemma stop_ok v :
  service_ok v → let '(v', l) := Receiver_stop v in
  service_ok v' ∧ running_ v' = false ∧ uses l (held v) = Some (held v') ∧ held v' = mkRes_ [] false false.
Proof.
  intros Hok. pose proof Hok as [Hfd _]. destruct (running_ v) eqn:Er.
  - unfold Receiver_stop, held. rewrite Er, <- Hfd. cbn [sock_fd_ thread_ worker_ Z.leb Z.compare].
    split_and!; [by split|done| |done]. cbn [app].
    rewrite (uses_cons _ _ _ (mkRes_ [sock_fd_ v] (thread_ v) (worker_ v))) by (by apply use_open).
    rewrite (uses_cons _ _ _ _ (use_close _ _ _)). by destruct (thread_ v), (worker_ v).
  - destruct (quiet_threads v Hok Er) as (T & W & Eh). rewrite Eh. unfold Receiver_stop, held.
    rewrite Er, <- Hfd, T, W. cbn [sock_fd_ thread_ worker_]. rewrite <- Hfd. by split_and!; [split; cbn|..].
Qed.

(** The calls whose threads can all be created. *)
Definition threads_granted (calls : list call) : Prop :=
  Forall (λ c, match c with CallStart _ _ _ ans => threads_ok ans | _ => True end) calls.

Lemma stop_whole v : service_ok v → whole (Receiver_stop v).1.
Proof.
  intros Hok. pose proof (stop_ok v Hok) as H. destruct (Receiver_stop v) as [v' l]. destruct H as (H1 & H2 & _).
  destruct (quiet_threads v' H1 H2) as (T & W & _). unfold whole. cbn [fst]. by rewrite T, W, H2.
Qed.

Lemma run_call_ok c v :
  service_ok v → ∃ v' l, run_call c v = Ret (v', l) ∧ service_ok v' ∧ uses l (held v) = Some (held v')
    ∧ (threads_granted [c] → whole v → whole v').
Proof.
  intros Hok. destruct c as [addr port hook ans| | | | |]; cbn [run_call]; try (by destruct Hok; eexists _, _; split_and!).
  - destruct (start_keeps addr port hook ans v Hok) as (b & v' & l & -> & H1 & H2 & H3). exists v', l.
    split_and!; try done. intros [Ht _]%Forall_cons. by apply H3.
  - pose proof (stop_ok v Hok) as H. pose proof (stop_whole v Hok) as Hw. destruct (Receiver_stop v) as [v' l].
    destruct H as (H1 & _ & H2 & _). by exists v', l.
Qed.

Lemma run_calls_ok cs v :
  service_ok v → ∃ v' l, run_calls cs v = Ret (v', l) ∧ service_ok v' ∧ uses l (held v) = Some (held v')
    ∧ (threads_granted cs → whole v → whole v').
Proof.
  revert v. induction cs as [|c cs IH]; intros v Hok; cbn [run_calls]; [by exists v, []|].
  destruct (run_call_ok c v Hok) as (v1 & l1 & -> & H1 & U1 & W1). destruct (IH v1 H1) as (v2 & l2 & -> & H2 & U2 & W2).
  exists v2, (l1 ++ l2). rewrite (uses_app _ _ _ _ U1). split_and!; try done.
  intros [Ha Hb]%Forall_cons Hw. apply W2; [done|]. apply W1; [|done]. by constructor.
Qed.

Lemma new_service_ok ring0 slab0 queue0 : service_ok (new_service ring0 slab0 queue0).
Proof. done. Qed.

(** ** main *)

(** The receiver as [main] configures and starts it. *)
Definition main_service (c : config) (ring0 : Z → Slot) (slab0 : memory) (queue0 : Z → Job) : service :=
  set_recv_buf_size (recv_buf_size c) (set_worker_cpu (worker_cpu c) (set_recv_cpu (recv_cpu c) (new_service ring0 slab0 queue0))).
Definition main_start (c : config) (ans : answers) (v : service) : outcome (start_end * service * list syscall) :=
  Receiver_start (LOCAL_ADDRESS c) (LOCAL_PORT c) true ans v.

(** ** Properties *)

(** C34: sockets and threads are never leaked or misused.  Whatever sequence of [start], [stop]
    and setter calls one thread makes on a new receiver, and whatever the operating system
    answers, no call terminates the program (a caller that catches the [std::system_error] of a
    thread that cannot be created may go on); every descriptor the calls use is open, none is
    opened twice or closed twice, threads are started only when none runs and joined exactly
    once; what is open and running is what the members say, and is nothing once the receiver
    is destroyed.  When every thread can be created both run or none does.  Between the calls
    a [recv] of the receive thread is on an open socket; inside [stop] it may not be
    ([recv_after_close]). *)
Theorem receiver_lifecycle calls ring0 slab0 queue0 :
  let none := mkRes_ [] false false in
  ∃ v l, run_calls calls (new_service ring0 slab0 queue0) = Ret (v, l)
    ∧ uses l none = Some (held v)
    ∧ running_ v = (0 <=? sock_fd_ v)
    ∧ (thread_ v = true → running_ v = true ∧ uses (l ++ [SysRecv (sock_fd_ v)]) none = Some (held v))
    ∧ (worker_ v = true → running_ v = true)
    ∧ (threads_granted calls → thread_ v = running_ v ∧ worker_ v = running_ v)
    ∧ uses (l ++ Receiver_destroy v) none = Some none.
Proof.
  cbn zeta. destruct (run_calls_ok calls _ (new_service_ok ring0 slab0 queue0)) as (v & l & E & Hok & U & Hw).
  change (held (new_service ring0 slab0 queue0)) with (mkRes_ [] false false) in U.
  exists v, l. split_and!; [done|done|apply Hok| |apply Hok|intros Ht; by apply Hw|].
  - intros Ht. pose proof Hok as [Hfd [Hr _]]. specialize (Hr Ht). split; [done|]. rewrite (uses_app _ _ _ _ U).
    unfold held. rewrite <- Hfd, Hr, Ht. rewrite (uses_cons _ _ _ (mkRes_ [sock_fd_ v] true (worker_ v))); [done|].
    cbn [use recv_up]. by apply use_open.
  - rewrite (uses_app _ _ _ _ U). unfold Receiver_destroy.
    pose proof (stop_ok v Hok) as H. destruct (Receiver_stop v) as [v' l']. destruct H as (_ & _ & U' & Eh).
    cbn [snd]. by rewrite U', Eh.
Qed.

(** The receive thread may use the closed socket (finding).  [stop] closes the socket before it
    joins the receive thread, which reads [sock_fd_] without synchronisation: a [recv] that
    passed its [running_] test is then made on a descriptor no longer open. *)
Theorem recv_after_close v :
  service_ok v → thread_ v = true →
  ∃ before after, (Receiver_stop v).2 = before ++ after ∧ JoinRecv ∈ after
    ∧ uses before (held v) = Some (mkRes_ [] true (worker_ v))
    ∧ uses (before ++ [SysRecv (sock_fd_ v)]) (held v) = None.
Proof.
  intros [Hfd [Hr _]] Ht. specialize (Hr Ht). unfold Receiver_stop, held. rewrite Ht, Hr, <- Hfd, Hr. cbn [snd].
  exists [SysShutdown (sock_fd_ v); SysClose (sock_fd_ v)]. eexists. split; [done|]. split; [left|].
  cbn [app]. rewrite !(uses_cons (SysShutdown _) _ _ (mkRes_ [sock_fd_ v] true (worker_ v))) by (by apply use_open).
  by rewrite !(uses_cons _ _ _ _ (use_close _ _ _)).
Qed.

(** What [start] returns.  [start] on a running receiver returns false and changes
    nothing.  Otherwise it returns false exactly when the socket cannot be created, the
    address is no wildcard and cannot be parsed, or the socket cannot be bound: then no
    descriptor stays open, no thread runs, and the packet state is untouched.  Else the
    packet state starts anew and it returns true with both threads running, or throws when
    one of them cannot be created: then the socket stays open, [running_] set, and the
    worker, if it was created first, running. *)
Lemma start_result addr port hook ans v :
  service_ok v →
  (running_ v = true → Receiver_start addr port hook ans v = Ret (Refused, v, []))
  ∧ (running_ v = false → ¬ listens addr ans →
       ∃ v' l, Receiver_start addr port hook ans v = Ret (Refused, v', l)
         ∧ held v' = mkRes_ [] false false ∧ running_ v' = false ∧ sv_recv v' = sv_recv v)
  ∧ (running_ v = false → listens addr ans →
       ∃ b v' l, Receiver_start addr port hook ans v = Ret (b, v', l)
         ∧ v' = launched (an_socket ans) hook (an_worker ans && an_recv ans) (an_worker ans) v
         ∧ (b = Started ↔ threads_ok ans) ∧ (b = Threw ↔ ¬ threads_ok ans)).
Proof.
  intros Hok. split_and!.
  - intros Hr. unfold Receiver_start. by rewrite Hr.
  - intros Hr Hn. destruct (start_refused addr port hook ans v Hok Hr Hn) as (v' & l & E & _ & H & _ & H1 & H2). by exists v', l.
  - intros Hr Hl. rewrite (start_launches addr port hook ans v Hok Hr Hl). cbn zeta. unfold threads_ok.
    destruct (an_worker ans), (an_recv ans); cbn [negb andb]; (eexists _, _, _; split; [done|]; split; [done|]); intuition congruence.
Qed.

(** ** Witness *)
Definition demo_service : service :=
  launched 3 true true true (new_service (λ _, mkSlot false 0 0 0 0) (λ _, 0) (λ _, mkJob 0 0 0 0)).
Lemma recv_after_close_witness :
  ∃ before after, (Receiver_stop demo_service).2 = before ++ after ∧ JoinRecv ∈ after
    ∧ uses before (held demo_service) = Some (mkRes_ [] true true)
    ∧ uses (before ++ [SysRecv 3]) (held demo_service) = None.
Proof. apply (recv_after_close demo_service); [apply launched_ok; lia|reflexivity]. Defined.
