(* ===== verification/Instr.v ===== *)
(** * Instr: the parser built with PARSER_OVERSHOOT_INSTR

    The instrumented [parse], [flush] and [try_recover] of tile_handler.hpp keep counters of
    precincts, failures and recoveries.  Here they run on the parser's state paired with
    the counters; erasing the counters gives the uninstrumented functions, and the
    counters balance.  The codestream of such a build also keeps the furthest offset read
    ([codestream_i]), which nothing else looks at. *)
From S2P Require Import Prelude Codestream BitReader Markers Structs MainHeader HeaderSpec PacketHeader.
From S2P Require Import PacketSpec Progression Geometry TileHandler TileSpec.

Record OvershootStats := mkOs {
  precincts_parsed : Z; sum_precinct_bytes : Z;
  snaps_with_drift : Z; max_drift_bytes : Z; sum_drift_bytes : Z;
  failed_parses : Z; recoveries : Z; skipped_precincts : Z;
  recover_no_signal : Z; recover_bad_pid : Z; recover_backward : Z;
  last_fail_c : Z; last_fail_r : Z; last_fail_p : Z; last_fail_crp_idx : Z; last_fail_src_pos : Z
}.
Definition ostats0 : OvershootStats := mkOs 0 0 0 0 0 0 0 0 0 0 0 0 0 0 0 0.
Definition reset_overshoot_stats (o : OvershootStats) : OvershootStats := ostats0.

Section Record_.
Implicit Types o : OvershootStats.
Definition record_precinct (before after : Z) o : OvershootStats :=
  mkOs (u64 (precincts_parsed o + 1)) (u64 (sum_precinct_bytes o + (after - before))) (snaps_with_drift o) (max_drift_bytes o)
    (sum_drift_bytes o) (failed_parses o) (recoveries o) (skipped_precincts o) (recover_no_signal o) (recover_bad_pid o)
    (recover_backward o) (last_fail_c o) (last_fail_r o) (last_fail_p o) (last_fail_crp_idx o) (last_fail_src_pos o).
Definition record_failure (pos : Z) (ct : crp_status) (idx : Z) o : OvershootStats :=
  mkOs (precincts_parsed o) (sum_precinct_bytes o) (snaps_with_drift o) (max_drift_bytes o) (sum_drift_bytes o)
    (u64 (failed_parses o + 1)) (recoveries o) (skipped_precincts o) (recover_no_signal o) (recover_bad_pid o)
    (recover_backward o) (crp_c ct) (crp_r ct) (crp_p ct) (u32 idx) (u32 pos).
(** The counters of [try_recover]. *)
Definition count_recover (no_signal bad_pid backward recovered skipped : Z) o : OvershootStats :=
  mkOs (precincts_parsed o) (sum_precinct_bytes o) (snaps_with_drift o) (max_drift_bytes o) (sum_drift_bytes o)
    (failed_parses o) (u64 (recoveries o + recovered)) (u64 (skipped_precincts o + skipped))
    (u64 (recover_no_signal o + no_signal)) (u64 (recover_bad_pid o + bad_pid)) (u64 (recover_backward o + backward))
    (last_fail_c o) (last_fail_r o) (last_fail_p o) (last_fail_crp_idx o) (last_fail_src_pos o).
End Record_.

(** The parser's state and the counters. *)
Definition ist : Type := pst * OvershootStats.
Definition plain {A} (m : M pst A) : M ist A := λ '(s, o),
  match m s with Ret (a, s') => Ret (a, (s', o)) | UB => UB | NoFuel => NoFuel end.
Definition count (f : pst → OvershootStats → OvershootStats) : M ist () := modify (λ '(s, o), (s, f s o)).

(** [tile->buf->get_pos()] *)
Definition cur_pos : M pst Z := s ← get_st; mret (get_pos (ps_cs s)).

Definition try_recover_i : M ist bool :=
  pos ← plain cur_pos;
  tile ← plain tile0;
  q ← plain (s ← get_st; mret (pop_passed pos (signal_queue_ (ps_th s))));
  plain (modify (set_pth (set_signals q))) ;;
  match q with
  | [] => count (λ _, count_recover 1 0 0 0 0) ;; mret false
  | sig :: q' =>
      nc ← plain (s ← get_st; mret (Csiz (h_siz (tabs (ps_th s)))));
      if nc =? 0 then mret false else
      by_pid ← plain (s ← get_st; mret (crp_idx_by_pid_ (ps_th s)));
      match by_pid !! Z.to_nat (pid sig mod nc) ≫= λ l, l !! Z.to_nat (pid sig / nc) with
      | None => count (λ _, count_recover 0 1 0 0 0) ;; mret false
      | Some i =>
          if i <? u32 (crp_idx tile) then count (λ _, count_recover 0 0 1 0 0) ;; mret false else
          count (λ _, count_recover 0 0 0 1 (u32 (i - crp_idx tile))) ;;
          plain (modify (λ s, set_pcs (reset (byte_offset sig) (ps_cs s)) s)) ;;
          plain (put_tile0 (set_crp_idx (i32 i) tile)) ;;
          plain (modify (set_pth (set_signals q'))) ;;
          mret true
      end
  end.

Section Walks.
Context (mem : memory).

Definition parse_round_i : M ist (option Z) :=
  back ← plain (s ← get_st; mret (last (signal_queue_ (ps_th s))));
  match back with
  | None => mret (Some EXIT_SUCCESS)
  | Some back =>
      tile ← plain tile0;
      pos ← plain cur_pos;
      if byte_offset back <=? pos then mret (Some EXIT_SUCCESS) else
      ct ← plain (at_ (crp tile) (crp_idx tile));
      ret ← plain (parse_one_precinct mem);
      plain bump_crp_idx ;;
      if negb (ret =? 0) then
        count (λ s, record_failure (get_pos (ps_cs s)) ct (crp_idx tile)) ;;
        ok ← try_recover_i;
        mret (if ok : bool then None else Some ret)
      else
        count (λ s, record_precinct pos (get_pos (ps_cs s))) ;;
        plain (precinct_callback ct) ;; mret None
  end.

Definition flush_round_i : M ist (option Z) :=
  tile ← plain tile0;
  if Z.of_nat (length (crp tile)) <=? crp_idx tile then mret (Some EXIT_SUCCESS) else
  ct ← plain (at_ (crp tile) (crp_idx tile));
  pos ← plain cur_pos;
  ret ← plain (parse_one_precinct mem);
  if negb (ret =? 0) then
    count (λ s, record_failure (get_pos (ps_cs s)) ct (crp_idx tile)) ;;
    ok ← try_recover_i;
    mret (if ok : bool then None else Some ret)
  else
    count (λ s, record_precinct pos (get_pos (ps_cs s))) ;;
    plain (precinct_callback ct) ;; plain bump_crp_idx ;; mret None.

Fixpoint rounds_i (round : M ist (option Z)) (fuel : nat) : M ist Z :=
  match fuel with
  | O => out_of_fuel
  | S fuel' => r ← round; match r with Some ret => mret ret | None => rounds_i round fuel' end
  end.
Definition parse_i : M ist Z := fuel ← plain (s ← get_st; mret (parse_fuel s)); rounds_i parse_round_i fuel.
Definition flush_i : M ist Z := fuel ← plain (s ← get_st; mret (flush_fuel s)); rounds_i flush_round_i fuel.
End Walks.

(** ** Erasure *)
Definition erased {A} (o : outcome (A * ist)) : outcome (A * pst) := outcome_map (λ r, (r.1, r.2.1)) o.
(** [m] is [n] with counters. *)
Definition erases {A} (m : M ist A) (n : M pst A) : Prop := ∀ s o, erased (m (s, o)) = n s.

Lemma erases_plain {A} (m : M pst A) : erases (plain m) m.
Proof. intros s o. unfold erased, plain. by destruct (m s) as [[a s']| |]. Qed.
Lemma erases_ret {A} (a : A) : erases (mret a) (mret a).
Proof. done. Qed.
Lemma erases_bind {A B} (m : M ist A) n (k : A → M ist B) k' :
  erases m n → (∀ a, erases (k a) (k' a)) → erases (m ≫= k) (n ≫= k').
Proof.
  intros Hm Hk s o. specialize (Hm s o). unfold mbind, M_bind, erased in *. rewrite <- Hm.
  destruct (m (s, o)) as [[a [s' o']]| |]; cbn; [apply Hk|done|done].
Qed.
Lemma erases_count {B} f (k : () → M ist B) n : erases (k ()) n → erases (count f ≫= k) n.
Proof. intros Hk s o. apply Hk. Qed.
#[local] Hint Resolve erases_plain erases_ret : erase.
Ltac erase_step := first [apply erases_count|apply erases_bind; [by auto with erase|intros ?]|by auto with erase].

Lemma erases_rounds round_i round fuel : erases round_i round → erases (rounds_i round_i fuel) (rounds round fuel).
Proof.
  intros Hr. induction fuel as [|n IH]; [done|]. cbn. apply erases_bind; [done|]. intros [r|]; [apply erases_ret|apply IH].
Qed.

Lemma bind_plain {A B} (m : M pst A) (k : A → M ist B) s o :
  (plain m ≫= k) (s, o) = match m s with Ret (a, s') => k a (s', o) | UB => UB | NoFuel => NoFuel end.
Proof. unfold mbind, M_bind, plain. by destruct (m s) as [[a s']| |]. Qed.

(** What [try_recover_i] does to the counters. *)
Definition recover_effect (s : pst) (o o' : OvershootStats) (ok : bool) : Prop :=
  if ok then ∃ n, o' = count_recover 0 0 0 1 n o
  else o' = count_recover 1 0 0 0 0 o ∨ o' = count_recover 0 1 0 0 0 o ∨ o' = count_recover 0 0 1 0 0 o
       ∨ (o' = o ∧ Csiz (h_siz (tabs (ps_th s))) = 0).

(** Finish a branch of [try_recover_i]. *)
Ltac branch := unfold count, mbind, M_bind, modify; cbn; unfold recover_effect; eauto 10.

Lemma try_recover_i_run s o :
  match try_recover_i (s, o), try_recover s with
  | Ret (ok, (s', o')), Ret (ok', s'') => ok = ok' ∧ s' = s'' ∧ recover_effect s o o' ok
  | UB, UB => True
  | _, _ => False
  end.
Proof.
  unfold try_recover_i, try_recover, cur_pos. rewrite bind_get, bind_tile0, bind_plain, bind_get. cbn [mret M_ret].
  rewrite bind_plain, tile0_run. destruct (head (tiles (ps_th s))) as [tile|]; [|done].
  rewrite bind_plain, bind_get. cbn [mret M_ret]. rewrite bind_plain. cbn zeta. rewrite bind_modify. cbn [modify].
  destruct (pop_passed _ _) as [|sig q']; [branch|].
  rewrite bind_plain, bind_get. cbn [mret M_ret ps_th set_pth tabs set_signals].
  destruct (Z.eqb_spec (Csiz (h_siz (tabs (ps_th s)))) 0) as [E0|_]; [branch|].
  rewrite bind_plain, bind_get. cbn [mret M_ret ps_th set_pth crp_idx_by_pid_ set_signals].
  destruct (crp_idx_by_pid_ (ps_th s) !! _) as [l|]; cbn [mbind option_bind]; [|branch].
  destruct (l !! _) as [i|]; [|branch]. destruct (i <? _); branch.
Qed.

Lemma erases_recover : erases try_recover_i try_recover.
Proof.
  intros s o. pose proof (try_recover_i_run s o) as H. unfold erased.
  destruct (try_recover_i (s, o)) as [[ok [s' o']]| |], (try_recover s) as [[ok' s'']| |]; try done.
  destruct H as (-> & -> & _). done.
Qed.

Section Erase.
Context (mem : memory).
#[local] Hint Resolve erases_plain erases_ret erases_recover : erase.

Lemma erases_parse_round : erases (parse_round_i mem) (parse_round mem).
Proof.
  intros s o. unfold parse_round_i, parse_round, cur_pos. rewrite bind_plain, !bind_get. cbn [mret M_ret].
  destruct (last _) as [back|]; [|done]. rewrite bind_plain, tile0_run, bind_tile0.
  destruct (head (tiles (ps_th s))) as [tile|]; [|done]. rewrite bind_plain, bind_get. cbn [mret M_ret].
  destruct (_ <=? _); [done|]. refine (erases_bind _ _ _ _ (erases_plain _) _ s o). intros ct. repeat erase_step.
  destruct (negb _); repeat erase_step.
Qed.
Lemma erases_flush_round : erases (flush_round_i mem) (flush_round mem).
Proof.
  apply erases_bind; [apply erases_plain|intros tile]. destruct (_ <=? _); [apply erases_ret|].
  apply erases_bind; [apply erases_plain|intros ct]. intros s o. unfold cur_pos. rewrite bind_plain, bind_get. cbn [mret M_ret].
  refine (erases_bind _ _ _ _ (erases_plain _) _ s o). intros ret. destruct (negb _); repeat erase_step.
Qed.
Lemma erases_parse : erases (parse_i mem) (parse mem).
Proof.
  intros s o. unfold parse_i, parse. rewrite bind_plain, bind_get. cbn [mret M_ret].
  apply (erases_rounds _ _ _ erases_parse_round).
Qed.
Lemma erases_flush : erases (flush_i mem) (flush mem).
Proof.
  intros s o. unfold flush_i, flush. rewrite bind_plain, bind_get. cbn [mret M_ret].
  apply (erases_rounds _ _ _ erases_flush_round).
Qed.
End Erase.

(** ** The counters balance *)

(** No callback fires and the tables stay. *)
Definition quiet {A} (m : M pst A) : Prop :=
  ∀ s, match m s with Ret (_, s') => ps_ev s' = ps_ev s ∧ tabs (ps_th s') = tabs (ps_th s) | _ => True end.

Lemma quiet_one mem : quiet (parse_one_precinct mem).
Proof.
  intros s. rewrite one_run. destruct (head _) as [tile|]; [|done]. destruct (entry tile) as [ct|]; [|done].
  destruct (get_prec tile ct); [|done]. destruct (h_cocs _ !! _); [|done]. by destruct (read_packet _ _ _ _) as [[[? ?] ?]| |].
Qed.
Lemma quiet_bump : quiet bump_crp_idx.
Proof. intros s. unfold bump_crp_idx. rewrite bind_tile0. by destruct (head _). Qed.
Lemma quiet_recover : quiet try_recover.
Proof.
  intros s. unfold try_recover. rewrite bind_get, bind_tile0. destruct (head _) as [tile|]; [|done]. cbn zeta. rewrite bind_modify.
  destruct (pop_passed _ _) as [|g q]; [done|]. destruct (_ =? 0); [done|]. destruct (_ !! _) as [lst|]; [|done].
  destruct (lst !! _); [|done]. by destruct (_ <? _).
Qed.

Definition outcomes (o : OvershootStats) : Z := recoveries o + recover_no_signal o + recover_bad_pid o + recover_backward o.

(** From one state and its counters to another: precincts counted are callbacks fired,
    failures counted are recoveries and reasons against one, and no drift is recorded. *)
Record balanced (s : pst) (o : OvershootStats) (s' : pst) (o' : OvershootStats) : Prop := {
  ba_parsed : u64 (precincts_parsed o' - zlength (ps_ev s')) = u64 (precincts_parsed o - zlength (ps_ev s));
  ba_failed : Csiz (h_siz (tabs (ps_th s))) ≠ 0 → u64 (failed_parses o' - outcomes o') = u64 (failed_parses o - outcomes o);
  ba_drift : snaps_with_drift o' = snaps_with_drift o ∧ max_drift_bytes o' = max_drift_bytes o
             ∧ sum_drift_bytes o' = sum_drift_bytes o;
  ba_tabs : tabs (ps_th s') = tabs (ps_th s)
}.

Lemma balanced_refl s o : balanced s o s o.
Proof. by split. Qed.
Lemma balanced_trans s o s1 o1 s2 o2 : balanced s o s1 o1 → balanced s1 o1 s2 o2 → balanced s o s2 o2.
Proof.
  intros [A1 A2 (A3 & A4 & A5) A6] [B1 B2 (B3 & B4 & B5) B6]. split; [congruence| |split_and!; congruence|congruence].
  intros Hc. rewrite B2, A2; [done|done|by rewrite A6].
Qed.
Lemma balanced_quiet s o s' : ps_ev s' = ps_ev s → tabs (ps_th s') = tabs (ps_th s) → balanced s o s' o.
Proof. intros E1 E2. split; [by rewrite E1|done|done|done]. Qed.

Lemma balanced_precinct a b s o s' e :
  ps_ev s' = ps_ev s ++ [e] → tabs (ps_th s') = tabs (ps_th s) → balanced s o s' (record_precinct a b o).
Proof.
  intros E1 E2. split; [|done|done|done]. rewrite E1, zlength_app. cbn [precincts_parsed record_precinct].
  change (zlength [e]) with 1. unfold u64. rewrite Zminus_mod_idemp_l. f_equal. lia.
Qed.

Lemma counters_balance f r n p w a b c d :
  a + b + c + d = 1 →
  u64 (u64 (f + 1) - (u64 (r + a) + u64 (n + b) + u64 (p + c) + u64 (w + d))) = u64 (f - (r + n + p + w)).
Proof.
  intros H. unfold u64. set (m := 18446744073709551616).
  assert (∀ x, x mod m = x - m * (x / m)) as E by (intros x; apply Z.mod_eq; done). rewrite !(E (_ + _)).
  replace (_ - _) with (f - (r + n + p + w) + ((r + a) / m + (n + b) / m + (p + c) / m + (w + d) / m - (f + 1) / m) * m) at 1 by lia.
  by rewrite Z.mod_add.
Qed.

Lemma balanced_failure pos ct idx s o s' ok o' :
  recover_effect s (record_failure pos ct idx o) o' ok → ps_ev s' = ps_ev s → tabs (ps_th s') = tabs (ps_th s) →
  balanced s o s' o'.
Proof.
  intros He E1 E2.
  assert ((∃ a b c d n, a + b + c + d = 1 ∧ o' = count_recover b c d a n (record_failure pos ct idx o))
    ∨ (o' = record_failure pos ct idx o ∧ Csiz (h_siz (tabs (ps_th s))) = 0)) as [(a & b & c & d & n & H & ->)|[-> H]].
  { destruct ok; cbn in He; [destruct He as [n ->]; left; by exists 1, 0, 0, 0, n|].
    destruct He as [-> |[-> |[-> |[-> H]]]]; [left; by exists 0, 1, 0, 0, 0|left; by exists 0, 0, 1, 0, 0
      |left; by exists 0, 0, 0, 1, 0|by right]. }
  - split; [by rewrite E1| |done|done]. intros _. cbn. by apply counters_balance.
  - split; [by rewrite E1|done|done|done].
Qed.

Definition balances {A} (m : M ist A) : Prop :=
  ∀ s o, match m (s, o) with Ret (_, (s', o')) => balanced s o s' o' | _ => True end.

(** A failed precinct, in both walks. *)
Lemma failure_balances s o f (g : bool → M ist (option Z)) pos ct idx :
  f = record_failure pos ct idx → (∀ ok, ∃ r, g ok = mret r) →
  match (count (λ _, f) ≫= λ _, try_recover_i ≫= g) (s, o) with Ret (_, (s', o')) => balanced s o s' o' | _ => True end.
Proof.
  intros -> Hg. unfold count. rewrite bind_modify. unfold mbind, M_bind.
  pose proof (try_recover_i_run s (record_failure pos ct idx o)) as H. pose proof (quiet_recover s) as Hq.
  destruct (try_recover_i _) as [[ok [s' o']]| |], (try_recover s) as [[ok' s'']| |]; try done.
  destruct H as (-> & -> & He), Hq as [Q1 Q2]. destruct (Hg ok') as [r ->]. by eapply balanced_failure.
Qed.

(** A delivered precinct, in both walks. *)
Lemma success_balances s o a b ct (k : () → M ist (option Z)) :
  (∀ u s o, match k u (s, o) with
            | Ret (_, (s', o')) => o' = o ∧ ps_ev s' = ps_ev s ∧ tabs (ps_th s') = tabs (ps_th s) | _ => True end) →
  match (count (λ _, record_precinct a b) ≫= λ _, plain (precinct_callback ct) ≫= k) (s, o) with
  | Ret (_, (s', o')) => balanced s o s' o' | _ => True end.
Proof.
  intros Hk. unfold count. rewrite bind_modify, bind_plain. unfold precinct_callback. rewrite bind_tile0.
  destruct (head _) as [tile|]; [|done]. destruct (get_prec tile ct) as [pr|]; [|done]. cbn [modify].
  specialize (Hk () (fire (ct, pr) s) (record_precinct a b o)).
  destruct (k () _) as [[r [s' o']]| |]; [|done|done]. destruct Hk as (-> & E1 & E2).
  by eapply (balanced_precinct _ _ _ _ _ (ct, pr)).
Qed.

(** The counters of a step see the state the step is in. *)
Lemma count_here {B} f (k : () → M ist B) s o : (count f ≫= k) (s, o) = (count (λ _, f s) ≫= k) (s, o).
Proof. done. Qed.

(** What a quiet part does before the counted part. *)
Lemma quiet_balances {A B} (m : M pst A) (k : A → M ist B) :
  quiet m → (∀ a, balances (k a)) → balances (plain m ≫= k).
Proof.
  intros Hm Hk s o. rewrite bind_plain. specialize (Hm s). destruct (m s) as [[a s']| |]; [|done|done].
  specialize (Hk a s' o). destruct (k a (s', o)) as [[b [s2 o2]]| |]; [|done|done].
  eapply balanced_trans; [|done]. destruct Hm. by apply balanced_quiet.
Qed.
Lemma balances_ret {A} (a : A) : balances (mret a).
Proof. intros s o. apply balanced_refl. Qed.

Lemma quiet_at {A} (l : list A) i : quiet (at_ l i).
Proof. intros s. unfold at_. destruct (0 <=? i); [|done]. by destruct (l !! _). Qed.
Lemma quiet_tile0 : quiet tile0.
Proof. intros s. rewrite tile0_run. by destruct (head _). Qed.
Lemma quiet_get {A} (f : pst → A) : quiet (s ← get_st; mret (f s)).
Proof. by intros s. Qed.
#[local] Hint Resolve quiet_at quiet_tile0 quiet_get quiet_one quiet_bump balances_ret : quiet.

Section Balance.
Context (mem : memory).

Lemma balances_parse_round : balances (parse_round_i mem).
Proof.
  apply quiet_balances; [apply quiet_get|]. intros [back|]; [|apply balances_ret].
  apply quiet_balances; [apply quiet_tile0|intros tile]. apply quiet_balances; [apply quiet_get|intros pos].
  destruct (_ <=? _); [apply balances_ret|]. do 3 (apply quiet_balances; [by auto with quiet|intros ?]).
  destruct (negb _); intros s o; rewrite count_here.
  - eapply failure_balances; [done|]. intros []; eauto.
  - apply success_balances. intros. by split_and!.
Qed.
Lemma balances_flush_round : balances (flush_round_i mem).
Proof.
  apply quiet_balances; [apply quiet_tile0|intros tile]. destruct (_ <=? _); [apply balances_ret|].
  apply quiet_balances; [apply quiet_at|intros ct]. apply quiet_balances; [apply quiet_get|intros pos].
  apply quiet_balances; [apply quiet_one|intros ret]. destruct (negb _); intros s o; rewrite count_here.
  - eapply failure_balances; [done|]. intros []; eauto.
  - apply success_balances. intros u s1 o1. rewrite bind_plain. pose proof (quiet_bump s1) as Q.
    destruct (bump_crp_idx s1) as [[v s2]| |]; [|done|done]. by destruct Q.
Qed.

Lemma balances_rounds round fuel : balances round → balances (rounds_i round fuel).
Proof.
  intros Hr. induction fuel as [|n IH]; [done|]. intros s o. cbn [rounds_i]. unfold mbind, M_bind. specialize (Hr s o).
  destruct (round (s, o)) as [[r [s1 o1]]| |]; [|done|done]. destruct r as [ret|]; [exact Hr|].
  specialize (IH s1 o1). destruct (rounds_i round n (s1, o1)) as [[v [s2 o2]]| |]; [|done|done]. by eapply balanced_trans.
Qed.
Lemma balances_parse : balances (parse_i mem).
Proof. apply quiet_balances; [apply quiet_get|intros fuel]. apply balances_rounds, balances_parse_round. Qed.
Lemma balances_flush : balances (flush_i mem).
Proof. apply quiet_balances; [apply quiet_get|intros fuel]. apply balances_rounds, balances_flush_round. Qed.
End Balance.

(** The counters tell the run (modulo 2^64): the precincts counted are the callbacks fired,
    and on a stream with components every counted failure is a recovery or one of the
    three reasons against one. *)
Record counted (s : pst) (o : OvershootStats) (s' : pst) (o' : OvershootStats) : Prop := {
  ct_parsed : u64 (precincts_parsed o' - precincts_parsed o) = u64 (zlength (ps_ev s') - zlength (ps_ev s));
  ct_failed : Csiz (h_siz (tabs (ps_th s))) ≠ 0 →
    u64 (failed_parses o' - failed_parses o)
    = u64 ((recoveries o' - recoveries o) + (recover_no_signal o' - recover_no_signal o)
           + (recover_bad_pid o' - recover_bad_pid o) + (recover_backward o' - recover_backward o))
}.
Definition counts {A} (m : M ist A) : Prop :=
  ∀ s o, match m (s, o) with Ret (_, (s', o')) => counted s o s' o' | _ => True end.

Lemma u64_diff a b c d : u64 (a - b) = u64 (c - d) → u64 (a - c) = u64 (b - d).
Proof.
  unfold u64. intros H. replace (a - c) with (a - b + (b - c)) by lia. rewrite Zplus_mod, H, <- Zplus_mod. f_equal. lia.
Qed.
Lemma balanced_counted s o s' o' : balanced s o s' o' → counted s o s' o'.
Proof.
  intros [B1 B2 _ _]. split; [by apply u64_diff|]. intros Hc. apply B2, u64_diff in Hc. rewrite Hc. f_equal. unfold outcomes. lia.
Qed.
Lemma balances_counts {A} (m : M ist A) : balances m → counts m.
Proof. intros Hm s o. specialize (Hm s o). destruct (m (s, o)) as [[a [s' o']]| |]; [by apply balanced_counted|done|done]. Qed.

(** C36: the instrumented build parses exactly as the plain one: from any state and any
    counters, [parse] and [flush] with the counters erased are the functions without
    PARSER_OVERSHOOT_INSTR, with the same result, callbacks and undefined behaviour.  And
    the counters tell the run (modulo 2^64): [precincts_parsed] grows by the callbacks
    fired and, on a stream whose component count is not 0, [failed_parses] by the
    recoveries and the three reasons against one ([no_components_unexplained] is the
    exception). *)
Theorem instrumentation_faithful (mem : memory) :
  (erases (parse_i mem) (parse mem) ∧ erases (flush_i mem) (flush mem) ∧ erases try_recover_i try_recover)
  ∧ counts (parse_i mem) ∧ counts (flush_i mem).
Proof.
  split_and!; [apply erases_parse|apply erases_flush|apply erases_recover|apply balances_counts, balances_parse
    |apply balances_counts, balances_flush].
Qed.

(** Drift is not recorded (finding).  Whatever [parse] and [flush] meet, the three drift
    counters keep the values they had, although the comment on the statistics says that a
    precinct's end is compared with the signalled byte and a mismatch recorded. *)
Theorem drift_never_recorded (mem : memory) s o :
  let still r := match r : outcome (Z * ist) with
    | Ret (_, (_, o')) => (snaps_with_drift o', max_drift_bytes o', sum_drift_bytes o')
                          = (snaps_with_drift o, max_drift_bytes o, sum_drift_bytes o)
    | _ => True
    end in
  still (parse_i mem (s, o)) ∧ still (flush_i mem (s, o)).
Proof.
  cbn zeta. split; [pose proof (balances_parse mem s o) as H|pose proof (balances_flush mem s o) as H].
  - destruct (parse_i mem (s, o)) as [[a [s' o']]| |]; [|done|done]. by destruct H as [_ _ (-> & -> & ->) _].
  - destruct (flush_i mem (s, o)) as [[a [s' o']]| |]; [|done|done]. by destruct H as [_ _ (-> & -> & ->) _].
Qed.

(** The component-count guard of [try_recover] is the one failure no counter explains. *)
Remark no_components_unexplained s o tile sig q :
  head (tiles (ps_th s)) = Some tile →
  pop_passed (get_pos (ps_cs s)) (signal_queue_ (ps_th s)) = sig :: q →
  Csiz (h_siz (tabs (ps_th s))) = 0 →
  ∃ s', try_recover_i (s, o) = Ret (false, (s', o)).
Proof.
  intros Ht Hq Hc. unfold try_recover_i, cur_pos. rewrite bind_plain, bind_get. cbn [mret M_ret].
  rewrite bind_plain, tile0_run, Ht, bind_plain, bind_get. cbn [mret M_ret]. rewrite Hq, bind_plain. cbn [modify].
  rewrite bind_plain, bind_get. cbn [mret M_ret ps_th set_pth tabs set_signals]. rewrite Hc. by eexists.
Qed.

(** ** The furthest byte read

    The instrumented codestream also keeps the highest offset [get_byte] has read.  The
    parser resets it before every precinct and nothing uses it; here it is the codestream
    paired with that offset. *)
Record codestream_i := mkCsi { ci_cs : codestream; max_offset_read_ : Z }.
Definition raise_max (off : Z) (c : codestream_i) : codestream_i :=
  if max_offset_read_ c <? off then mkCsi (ci_cs c) off else c.

Section Furthest.
Context (mem : memory).

Definition get_byte_i (c : codestream_i) : Z * codestream_i :=
  match chunks_ (ci_cs c) !! cur_chunk_ (ci_cs c) with
  | None => (0, c)
  | Some _ =>
      let '(byte, cs) := get_byte mem (ci_cs c) in
      let off := u64 (consumed_before_cur_chunk_ cs + cur_offset_ cs) in
      let c := mkCsi cs (max_offset_read_ c) in
      (byte, if 0 <? off then raise_max (off - 1) c else c)
  end.
Definition reset_max_offset_read (c : codestream_i) : codestream_i :=
  mkCsi (ci_cs c) (u64 (consumed_before_cur_chunk_ (ci_cs c) + cur_offset_ (ci_cs c))).
Definition clear_i (c : codestream_i) : codestream_i := mkCsi (clear (ci_cs c)) 0.

(** The search of [note_external_read]; [before] is the length of the chunks passed. *)
Fixpoint chunk_offset (addr : Z) (l : list Chunk) (before : Z) : option Z :=
  match l with
  | [] => None
  | c :: l =>
      if (base c <=? addr) && (addr <? base c + len c) then Some (before + (addr - base c))
      else chunk_offset addr l (before + len c)
  end.
Definition note_external_read (addr : Z) (c : codestream_i) : codestream_i :=
  match chunk_offset addr (chunks_ (ci_cs c)) 0 with
  | Some off => raise_max off c
  | None => c
  end.

Fixpoint get_bytes_i (n : nat) (c : codestream_i) : list Z * codestream_i :=
  match n with
  | O => ([], c)
  | S n => let '(b, c) := get_byte_i c in let '(l, c) := get_bytes_i n c in (b :: l, c)
  end.

Lemma get_byte_i_run c :
  wf (ci_cs c) → pos (ci_cs c) < total_len (chunks_ (ci_cs c)) →
  let r := get_byte_i c in
  r.1 = flat_bytes mem (chunks_ (ci_cs c)) !!! Z.to_nat (pos (ci_cs c))
  ∧ wf (ci_cs r.2) ∧ chunks_ (ci_cs r.2) = chunks_ (ci_cs c) ∧ pos (ci_cs r.2) = pos (ci_cs c) + 1
  ∧ max_offset_read_ r.2 = Z.max (max_offset_read_ c) (pos (ci_cs c)).
Proof.
  intros Hw Hp. destruct (get_byte_spec mem (ci_cs c) Hw) as (W & [Hch _ _ _ _] & E).
  unfold f_get_byte in E. rewrite (f_size_abs _ _ (wf_cur _ Hw)) in E. cbn [f_pos abs] in E.
  rewrite (proj2 (Z.ltb_lt _ _) Hp) in E. unfold get_byte_i.
  destruct (chunks_ (ci_cs c) !! _) as [ch|] eqn:Ek; [|pose proof (pos_at_end _ Hw Ek); lia].
  destruct (get_byte mem (ci_cs c)) as [b cs'] eqn:Eg. cbn [fst snd] in *. pose proof (f_equal fst E) as Eb.
  pose proof (f_equal (f_pos ∘ snd) E) as Epos. cbn in Eb, Epos. pose proof (wf_total _ (wf_cur _ Hw)) as Ht.
  destruct (pos_inside _ _ Hw Ek) as ([H0 _] & _).
  fold (pos cs'). rewrite u64_small by lia. rewrite (proj2 (Z.ltb_lt 0 (pos cs'))) by lia.
  unfold raise_max. cbn [max_offset_read_]. destruct (Z.ltb_spec (max_offset_read_ c) (pos cs' - 1)); cbn; split_and!; try done; lia.
Qed.

Lemma chunk_offset_flat addr l before off :
  Forall (λ c, 0 < len c) l → chunk_offset addr l before = Some off →
  before ≤ off ∧ flat_bytes mem l !! Z.to_nat (off - before) = Some (mem addr).
Proof.
  intros Hl. revert before. induction Hl as [|c l Hc _ IH]; intros before; cbn [chunk_offset]; [done|].
  rewrite flat_bytes_cons. unfold chunk_bytes. destruct (_ && _) eqn:E.
  - apply andb_true_iff in E as [E1%Z.leb_le E2%Z.ltb_lt]. intros [= <-]. split; [lia|].
    replace (before + (addr - base c) - before) with (addr - base c) by lia.
    rewrite lookup_app_l by (rewrite length_mem_bytes; lia). rewrite lookup_mem_bytes by lia. do 2 f_equal. lia.
  - intros Ho. destruct (IH _ Ho) as [H1 H2]. split; [lia|]. rewrite lookup_app_r by (rewrite length_mem_bytes; lia).
    rewrite length_mem_bytes, <- H2. f_equal. lia.
Qed.

Lemma get_bytes_i_run k c :
  wf (ci_cs c) → 0 ≤ pos (ci_cs c) → pos (ci_cs c) + Z.of_nat k ≤ total_len (chunks_ (ci_cs c)) →
  let '(l, c') := get_bytes_i k c in
  l = take k (drop (Z.to_nat (pos (ci_cs c))) (flat_bytes mem (chunks_ (ci_cs c))))
  ∧ wf (ci_cs c') ∧ chunks_ (ci_cs c') = chunks_ (ci_cs c)
  ∧ max_offset_read_ c' = (if (k =? 0)%nat then max_offset_read_ c else Z.max (max_offset_read_ c) (pos (ci_cs c) + Z.of_nat k - 1)).
Proof.
  revert c. induction k as [|k IH]; intros c0 W0 P0 T0; [done|]. cbn [get_bytes_i].
  destruct (get_byte_i_run c0 W0 ltac:(lia)) as (G1 & G2 & G3 & G4 & G5). destruct (get_byte_i c0) as [b c1]. cbn [fst snd] in *.
  specialize (IH c1 G2 ltac:(lia)). rewrite G3, G4 in IH. specialize (IH ltac:(lia)). destruct (get_bytes_i k c1) as [l c2].
  destruct IH as (-> & I2 & I3 & I4). split_and!; [|done|congruence|].
  - rewrite G1. set (fl := flat_bytes _ _). pose proof (length_flat_bytes mem _ (wf_nonempty _ (wf_cur _ W0))) as Hlen. fold fl in Hlen.
    destruct (lookup_lt_is_Some_2 fl (Z.to_nat (pos (ci_cs c0)))) as [x Hx]; [lia|].
    rewrite (list_lookup_total_correct _ _ _ Hx), (drop_S _ _ _ Hx). cbn [take]. do 3 f_equal. lia.
  - rewrite I4. destruct k as [|k]; cbn [Nat.eqb]; lia.
Qed.

(** [max_offset_read_] is the offset of the furthest byte read: reset and then [n] bytes
    on, it is the offset of the last of them; and [note_external_read] of an address in
    the chain raises it to the offset at which that byte stands. *)
Theorem max_offset_exact c n :
  wf (ci_cs c) → (0 < n)%nat → pos (ci_cs c) + Z.of_nat n ≤ total_len (chunks_ (ci_cs c)) →
  let '(l, c') := get_bytes_i n (reset_max_offset_read c) in
  l = take n (drop (Z.to_nat (pos (ci_cs c))) (flat_bytes mem (chunks_ (ci_cs c))))
  ∧ max_offset_read_ c' = pos (ci_cs c) + Z.of_nat n - 1
  ∧ ∀ addr off, chunk_offset addr (chunks_ (ci_cs c')) 0 = Some off →
      flat_bytes mem (chunks_ (ci_cs c')) !! Z.to_nat off = Some (mem addr)
      ∧ max_offset_read_ (note_external_read addr c') = Z.max (max_offset_read_ c') off.
Proof.
  intros Hw Hn Hp. assert (0 ≤ pos (ci_cs c)) as H0.
  { destruct (chunks_ (ci_cs c) !! cur_chunk_ (ci_cs c)) as [ch|] eqn:Ek; [by destruct (pos_inside _ _ Hw Ek) as ([? _] & _)|].
    pose proof (pos_at_end _ Hw Ek). lia. }
  pose proof (get_bytes_i_run n (reset_max_offset_read c) Hw H0 Hp) as Hrun. destruct (get_bytes_i n _) as [l c'].
  destruct Hrun as (-> & W' & C' & M'). cbn [reset_max_offset_read ci_cs max_offset_read_] in *. split; [done|].
  pose proof (wf_total _ (wf_cur _ Hw)). fold (pos (ci_cs c)) in M'. rewrite u64_small in M' by lia.
  destruct n as [|n]; [lia|]. cbn [Nat.eqb] in M'. split; [lia|]. intros addr off Ho.
  destruct (chunk_offset_flat addr _ 0 off (wf_nonempty _ (wf_cur _ W')) Ho) as [F1 F2]. rewrite Z.sub_0_r in F2. split; [done|].
  unfold note_external_read, raise_max. rewrite Ho. destruct (Z.ltb_spec (max_offset_read_ c') off); cbn; lia.
Qed.
End Furthest.
