(* ===== verification/Program.v ===== *)
(** * Program: main, from its arguments to its exit status

    The composition of [CommandLine], [Affinity], [Lifecycle] and [Main] as [main] makes it:
    the arguments, the receiver and its settings, the frame handler with its hold-back and
    its release callback, the IRQ report, [start], the wait, [stop] and the destructor.  The
    operating system is a parameter. *)
From Stdlib Require Import Ascii String.
From stdpp Require Import strings.
From S2P Require Import Prelude Markers Receiver TileHandler FrameHandler Main.
From S2P Require Import Text Affinity CommandLine Console Lifecycle.
#[local] Close Scope string_scope.

(** What the operating system answers during one run. *)
Record os := mkOs_ {
  os_pton : text → option Z;
  os_ifaddrs : option (list ifaddr);
  os_interrupts : option (list text);
  os_smp_affinity : Z → option text;
  os_socket : Z;
  os_force : bool;
  os_bind : bool;
  os_worker : bool;                     (* the worker thread can be created *)
  os_thread : bool                      (* the receive thread can be created *)
}.
Definition start_answers (o : os) : answers :=
  mkAnswers (os_socket o) (os_force o) (os_pton o) (os_bind o) (os_worker o) (os_thread o).

(** How the program ends: a status returned by [main], or an exception nobody catches, from
    the conversions of the arguments or the [std::system_error] of a thread. *)
Inductive main_end := Exit (status : Z) | Terminated (e : exn) | ThreadError.

(** What the threads run with while [main] sleeps. *)
Record session := mkSession {
  se_receiver : service;
  se_handler : frame_handler tile_handler;
  se_callbacks : callbacks;
  se_params : params_t
}.

Record run := mkRun {
  rn_end : main_end;
  rn_banner : option banner;            (* the IRQ line printed *)
  rn_session : option session;          (* while [main] sleeps *)
  rn_calls : list syscall;
  rn_usage : list text                  (* the usage printed *)
}.

Section Main.
Context (ring0 : Z → Slot) (slab0 : memory) (queue0 : Z → Job).

(** The frame handler, its hold-back set when the argument is given. *)
Definition main_handler (c : config) : frame_handler tile_handler :=
  new_frame_handler (match HOLDBACK c with Some n => set_parse_holdback n new_tile_handler | None => new_tile_handler end).

Definition main_configured (o : os) (c : config) : outcome run :=
  match check_nic_irq_affinity (os_pton o) (os_ifaddrs o) (os_interrupts o) (os_smp_affinity o)
          (LOCAL_ADDRESS c) (recv_cpu c) (worker_cpu c) with
  | Ret b =>
      match main_start c (start_answers o) (main_service c ring0 slab0 queue0) with
      | Ret (Started, v, l) =>
          let '(v', l') := Receiver_stop v in
          Ret (mkRun (Exit EXIT_SUCCESS) b (Some (mkSession v (main_handler c) main_callbacks main_params))
                 (l ++ l' ++ Receiver_destroy v') [])
      | Ret (Refused, v, l) => Ret (mkRun (Exit EXIT_FAILURE) b None (l ++ Receiver_destroy v) [])
      | Ret (Threw, v, l) => Ret (mkRun ThreadError b None l [])
      | UB => UB
      | NoFuel => NoFuel
      end
  | UB => UB
  | NoFuel => NoFuel
  end.
Definition program_main (argv : list text) (o : os) : outcome run :=
  match main_args argv with
  | Ret Usage =>
      match argv with
      | cmd :: _ => Ret (mkRun (Exit EXIT_FAILURE) None None [] (print_help cmd))
      | [] => UB   (* argv[0] is a null pointer *)
      end
  | Ret (Uncaught e) => Ret (mkRun (Terminated e) None None [] [])
  | Ret (Configured c) => main_configured o c
  | UB => UB
  | NoFuel => NoFuel
  end.

(** ** The report never fails for CPU numbers the mask can hold *)
Lemma irq_total lines iface : iface ≠ [] → ∃ irq, irq_of_lines lines iface = Ret irq.
Proof.
  intros Hi. induction lines as [|line lines IH]; cbn [irq_of_lines]; [by eexists|].
  destruct (mentions_spec line iface Hi) as (b & -> & _). destruct b; [|done]. destruct (irq_of_line line); [by eexists|done].
Qed.
Lemma report_total pton ifs irqs smp bind recv worker :
  recv < 64 → worker < 64 → ∃ b, check_nic_irq_affinity pton ifs irqs smp bind recv worker = Ret b.
Proof.
  intros Hr Hw. unfold check_nic_irq_affinity. case_bool_decide as Hi; [by eexists|]. unfold find_irq_for_iface.
  destruct irqs as [lines|]; [|by eexists]. destruct (irq_total lines _ Hi) as [irq ->].
  destruct (irq <? 0); [by eexists|]. destruct (_ =? 0); [by eexists|]. rewrite !conflict_spec by done. by eexists.
Qed.

Lemma main_service_ok c : service_ok (main_service c ring0 slab0 queue0).
Proof. done. Qed.

(** The addresses that mean every interface. *)
Definition wildcards : list text := [[]; txt "0.0.0.0"; txt "*"].
Lemma any_addr_spec a : any_addr a = bool_decide (a ∈ wildcards).
Proof.
  unfold any_addr, wildcards. apply Bool.eq_iff_eq_true. rewrite !orb_true_iff, !bool_decide_eq_true, !elem_of_cons, elem_of_nil. tauto.
Qed.

(** The socket is created, the address means something, the socket can be bound. *)
Definition can_listen (o : os) (addr : text) : Prop :=
  0 ≤ os_socket o ∧ (addr ∈ wildcards ∨ is_Some (os_pton o addr)) ∧ os_bind o = true.
Lemma can_listen_spec o addr : can_listen o addr ↔ listens addr (start_answers o).
Proof. unfold can_listen, listens. cbn [start_answers an_socket an_pton an_bind]. by rewrite any_addr_spec, bool_decide_eq_true. Qed.

(** A run that leaves nothing open and no thread behind. *)
Definition leaves_nothing (l : list syscall) : Prop := uses l (mkRes_ [] false false) = Some (mkRes_ [] false false).

(** The system calls up to [bind], those of the threads, and those of [stop], as the
    configuration asks for them. *)
Definition setup_calls (o : os) (c : config) : list syscall :=
  let fd := os_socket o in
  [SysSocket fd; SysReuse fd]
  ++ (if 0 <? recv_buf_size c
      then [SysRcvbuf fd (recv_buf_size c) true] ++ (if os_force o then [] else [SysRcvbuf fd (recv_buf_size c) false])
      else [])
  ++ [SysBind fd (if bool_decide (LOCAL_ADDRESS c ∈ wildcards) then None else os_pton o (LOCAL_ADDRESS c)) (LOCAL_PORT c)].
Definition thread_calls (c : config) : list syscall :=
  [SpawnWorker; SpawnRecv]
  ++ (if recv_cpu c <? 0 then [] else [PinRecv (recv_cpu c)]) ++ (if worker_cpu c <? 0 then [] else [PinWorker (worker_cpu c)]).
Definition stop_calls (o : os) : list syscall :=
  [SysShutdown (os_socket o); SysClose (os_socket o); JoinRecv; NotifyWorker; JoinWorker].

(** The receiver, the frame handler and the parameters as the configuration asks for them. *)
Record session_of (o : os) (c : config) (s : session) : Prop := {
  sn_packets : sv_recv (se_receiver s) = start ring0 slab0 queue0 64;
  sn_running : running_ (se_receiver s) = true ∧ thread_ (se_receiver s) = true ∧ worker_ (se_receiver s) = true;
  sn_socket : sock_fd_ (se_receiver s) = os_socket o;
  sn_hook : hook_ (se_receiver s) = true;
  sn_settings : rcvbuf_size_ (se_receiver s) = recv_buf_size c ∧ recv_cpu_ (se_receiver s) = recv_cpu c
                ∧ worker_cpu_ (se_receiver s) = worker_cpu c;
  sn_handler : ∃ t, se_handler s = new_frame_handler t ∧ parse_holdback_ t = default 0 (HOLDBACK c)
                ∧ ready t = false ∧ tiles t = [] ∧ signal_queue_ t = [];
  sn_callbacks : se_callbacks s = mkCb true false false false false false false false;
  sn_params : pm_total_frames (se_params s) = 0 ∧ last_timetamp (se_params s) = 0
}.

Lemma main_refused o c :
  ¬ can_listen o (LOCAL_ADDRESS c) →
  ∃ v l, main_start c (start_answers o) (main_service c ring0 slab0 queue0) = Ret (Refused, v, l)
    ∧ leaves_nothing (l ++ Receiver_destroy v).
Proof.
  intros Hn. rewrite can_listen_spec in Hn.
  destruct (start_refused (LOCAL_ADDRESS c) (LOCAL_PORT c) true (start_answers o) _ (main_service_ok c) eq_refl Hn)
    as (v & l & E & Hok & Eh & U & _). exists v, l. split; [exact E|]. unfold leaves_nothing.
  rewrite (uses_app _ _ _ _ U). unfold Receiver_destroy. pose proof (stop_ok v Hok) as H.
  destruct (Receiver_stop v) as [v' k]. destruct H as (_ & _ & U' & <-). done.
Qed.

Lemma main_launches o c :
  can_listen o (LOCAL_ADDRESS c) →
  let v := main_service c ring0 slab0 queue0 in
  let fd := os_socket o in
  main_start c (start_answers o) v
  = if negb (os_worker o) then Ret (Threw, launched fd true false false v, setup_calls o c)
    else if negb (os_thread o) then Ret (Threw, launched fd true false true v, setup_calls o c ++ [SpawnWorker])
    else Ret (Started, launched fd true true true v, setup_calls o c ++ thread_calls c).
Proof.
  intros Hl%can_listen_spec. unfold main_start. cbn zeta.
  rewrite (start_launches _ (LOCAL_PORT c) true _ _ (main_service_ok c) eq_refl Hl). cbn zeta.
  assert (bind_calls (LOCAL_ADDRESS c) (LOCAL_PORT c) (start_answers o) (main_service c ring0 slab0 queue0) = setup_calls o c) as ->.
  { unfold bind_calls, setup_calls, buf_calls. rewrite any_addr_spec, <- app_assoc. done. }
  done.
Qed.

(** [stop] after a launch, then the destructor. *)
Lemma main_stop o c :
  can_listen o (LOCAL_ADDRESS c) →
  let '(v', l) := Receiver_stop (launched (os_socket o) true true true (main_service c ring0 slab0 queue0)) in
  l = stop_calls o ∧ Receiver_destroy v' = [].
Proof.
  intros (Hs & _). unfold Receiver_stop. cbn [sock_fd_ launched running_ thread_ worker_].
  by rewrite (proj2 (Z.leb_le _ _)) by done.
Qed.
Lemma main_session o c :
  session_of o c (mkSession (launched (os_socket o) true true true (main_service c ring0 slab0 queue0)) (main_handler c)
    main_callbacks main_params).
Proof.
  split; try done. unfold main_handler. cbn [se_handler]. eexists. split; [done|]. by destruct (HOLDBACK c).
Qed.

Lemma session_uses o c :
  can_listen o (LOCAL_ADDRESS c) → leaves_nothing (setup_calls o c ++ thread_calls c ++ stop_calls o).
Proof.
  intros Hc. pose proof Hc as (Hs & _). pose proof (main_launches (mkOs_ (os_pton o) (os_ifaddrs o) (os_interrupts o)
    (os_smp_affinity o) (os_socket o) (os_force o) (os_bind o) true true) c Hc) as E. cbn zeta in E. cbn [os_worker os_thread negb os_socket] in E.
  destruct (start_keeps (LOCAL_ADDRESS c) (LOCAL_PORT c) true (start_answers (mkOs_ (os_pton o) (os_ifaddrs o) (os_interrupts o)
    (os_smp_affinity o) (os_socket o) (os_force o) (os_bind o) true true)) _ (main_service_ok c)) as (b & v & l & E' & Hok & U & _).
  unfold main_start in E. rewrite E in E'. injection E' as _ <- <-. unfold leaves_nothing. rewrite app_assoc.
  rewrite (uses_app _ _ _ _ U). pose proof (stop_ok _ Hok) as H. destruct (Receiver_stop _) as [v' k] eqn:Ek.
  destruct H as (_ & _ & U' & Eh). pose proof (main_stop o c Hc) as Es. rewrite Ek in Es. destruct Es as [-> _].
  by rewrite U', Eh.
Qed.

(** C35: [main] from its arguments to its exit.  With too few arguments it prints the usage and
    fails, with a number that cannot be read it ends in the exception; neither touches the
    system.  With a configuration (the buffer size did not overflow [int]) whose CPU numbers
    are below 64 the run is the one the configuration asks for: the system calls are exactly
    the socket, its buffer of the configured size, [bind] to the configured address and port,
    the two threads pinned to the configured CPUs, and the calls of [stop]; while [main]
    sleeps the receiver runs on freshly started packet state with a jitter window of 64 and
    the hook registered, the frame handler is new with the configured hold-back, and the
    release callback is the only one registered.  It returns success exactly when the socket
    can be created, the address is a wildcard or parses, the port can be bound and both
    threads can be created, and failure when it cannot listen; in both cases nothing is left
    open or running.  When a thread cannot be created it ends in the uncaught exception. *)
Theorem program_exit argv o e :
  main_args argv = Ret e → argv ≠ [] →
  (∀ c, e = Configured c → recv_cpu c < 64 ∧ worker_cpu c < 64) →
  ∃ r, program_main argv o = Ret r
    ∧ (rn_end r ≠ ThreadError → leaves_nothing (rn_calls r))
    ∧ match e with
      | Usage => r = mkRun (Exit EXIT_FAILURE) None None [] (print_help (default [] (head argv)))
      | Uncaught x => r = mkRun (Terminated x) None None [] []
      | Configured c =>
          (¬ can_listen o (LOCAL_ADDRESS c) → rn_end r = Exit EXIT_FAILURE ∧ rn_session r = None)
          ∧ (can_listen o (LOCAL_ADDRESS c) → os_worker o && os_thread o = false →
              rn_end r = ThreadError ∧ rn_session r = None
              ∧ rn_calls r = setup_calls o c ++ (if os_worker o then [SpawnWorker] else []))
          ∧ (can_listen o (LOCAL_ADDRESS c) → os_worker o && os_thread o = true →
              rn_end r = Exit EXIT_SUCCESS
              ∧ rn_calls r = setup_calls o c ++ thread_calls c ++ stop_calls o
              ∧ ∃ s, rn_session r = Some s ∧ session_of o c s)
      end.
Proof.
  intros E Hne Hc. unfold program_main. rewrite E. destruct e as [|x|c]; [destruct argv; [done|by eexists]|by eexists|].
  destruct (Hc c eq_refl) as [H1 H2]. unfold main_configured.
  destruct (report_total (os_pton o) (os_ifaddrs o) (os_interrupts o) (os_smp_affinity o) (LOCAL_ADDRESS c) _ _ H1 H2) as [bn ->].
  assert (can_listen o (LOCAL_ADDRESS c) ∨ ¬ can_listen o (LOCAL_ADDRESS c)) as [Hl|Hn] by (destruct (decide (can_listen o (LOCAL_ADDRESS c))); auto).
  2:{ destruct (main_refused o c Hn) as (v & l & -> & L). by eexists. }
  rewrite (main_launches o c Hl). cbn zeta. destruct (os_worker o), (os_thread o); cbn [negb andb].
  2-4: eexists; split; [done|]; cbn [rn_calls rn_end rn_session]; rewrite ?app_nil_r; by split_and!.
  pose proof (main_stop o c Hl) as Es. destruct (Receiver_stop _) as [v' l']. destruct Es as [-> Ed]. rewrite Ed, app_nil_r.
  eexists. split; [done|]. cbn [rn_calls rn_end rn_session]. rewrite <- app_assoc.
  split; [intros _; by apply session_uses|]. split_and!; [done|done|]. intros _ _. split_and!; [done|done|].
  eexists. split; [done|]. by apply main_session.
Qed.
End Main.

(** ** Witness *)
Definition quiet_ring (_ : Z) : Slot := mkSlot false 0 0 0 0.
Definition no_jobs (_ : Z) : Job := mkJob 0 0 0 0.
Definition wit_os : os := mkOs_ (λ _, None) None None (λ _, None) 3 false true true true.
Lemma program_exit_witness :
  ∃ r, program_main quiet_ring (λ _, 0) no_jobs (map txt ["rtp"; "*"; "6000"]%string) wit_os = Ret r
    ∧ rn_end r = Exit EXIT_SUCCESS
    ∧ rn_calls r = [SysSocket 3; SysReuse 3; SysRcvbuf 3 16777216 true; SysRcvbuf 3 16777216 false; SysBind 3 None 6000;
                    SpawnWorker; SpawnRecv; PinRecv 2; PinWorker 3;
                    SysShutdown 3; SysClose 3; JoinRecv; NotifyWorker; JoinWorker].
Proof.
  destruct (program_exit quiet_ring (λ _, 0) no_jobs (map txt ["rtp"; "*"; "6000"]%string) wit_os
    (Configured (mkConfig (txt "*") 6000 INT64_MAX 45 2 3 16777216 None))) as (r & E & _ & _ & _ & H).
  - vm_compute. reflexivity.
  - discriminate.
  - intros c [= <-]. cbn. split; lia.
  - destruct H as (H1 & H2 & _).
    + split; [cbn; lia|]. split; [left; vm_compute; right; right; left|reflexivity].
    + reflexivity.
    + exists r. split; [exact E|]. split; [exact H1|]. rewrite H2. vm_compute. reflexivity.
Defined.
