(* ===== verification/HandlerMap.v ===== *)
(** * HandlerMap: the frame handler over related tile handlers

    The frame handler is written against the interface of the tile handler.  A map between
    two implementations that commutes with the operations of the interface, from the states
    of an invariant the operations keep, carries every run of the frame handler over one to
    a run over the other: the same results, the same events, the same undefined behaviour.
    [Clock] uses it to compare the handler that is timed with one that counts calls. *)
From S2P Require Import Prelude Codestream Structs FrameHandler.

Section Along.
Context {T1 T2 : Type} {H1 : TileHandler T1} {H2 : TileHandler T2} (φ : T1 → T2) (I : T1 → Prop).

(** The state over the other tile handler. *)
Definition along (s : frame_handler T1) : frame_handler T2 :=
  mkFh (held_slabs_ s) (chain_total_bytes_ s) (total_frames s) (trunc_frames s) (start_SOD s) (is_parsing_failure s)
    (is_passed_header s) (φ (tile_hndr s)) (cs s) (geom_sig_ s) (relatch_k_ s) (parse_fail_streak_ s)
    (frame_parse_failed_ s) (relatches_ s) (resync_armed_ s) (resync_soft_ s) (abort_armed_ s) (trace s).

(** One operation: what the first does, the second does on the images. *)
Definition carried {R1 R2} (o1 : outcome R1) (o2 : outcome R2) (f : R1 → R2) (tile : R1 → T1) : Prop :=
  match o1 with Ret r => o2 = Ret (f r) ∧ I (tile r) | UB => o2 = UB | NoFuel => o2 = NoFuel end.

Definition walks (op1 : memory → T1 → codestream → outcome (Z * T1 * codestream * list crp_status))
    (op2 : memory → T2 → codestream → outcome (Z * T2 * codestream * list crp_status)) : Prop :=
  ∀ mem t c, I t → carried (op1 mem t c) (op2 mem (φ t) c) (λ '(r, t', c', evs), (r, φ t', c', evs)) (λ r, r.1.1.2).

Record handler_map : Prop := {
  hm_ready t : I t → is_ready (φ t) = is_ready t;
  hm_invalidate t : I t → φ (invalidate t) = invalidate (φ t) ∧ I (invalidate t);
  hm_restart t : I t → carried (th_restart t) (th_restart (φ t)) φ (λ t', t');
  hm_signal off p t : I t → φ (th_append_signal off p t) = th_append_signal off p (φ t) ∧ I (th_append_signal off p t);
  hm_header mem t c : I t → carried (th_header mem t c) (th_header mem (φ t) c) (λ '(n, t', c'), (n, φ t', c')) (λ r, r.1.2);
  hm_create t : I t → carried (th_create t) (th_create (φ t)) (λ '(b, t'), (b, φ t')) snd;
  hm_parse : walks th_parse th_parse;
  hm_flush : walks th_flush th_flush
}.

Context (Hφ : handler_map) (cb : callbacks) (mem : memory).
Notation S1 := (frame_handler T1).
Notation S2 := (frame_handler T2).

Definition simulates {A} (m : M S1 A) (n : M S2 A) : Prop := ∀ s, I (tile_hndr s) →
  match m s with
  | Ret (a, s') => n (along s) = Ret (a, along s') ∧ I (tile_hndr s')
  | UB => n (along s) = UB
  | NoFuel => n (along s) = NoFuel
  end.

Lemma along_ret {A} (a : A) : simulates (mret a) (mret a).
Proof. done. Qed.
Lemma sim_undefined {A} : simulates (A := A) undefined undefined.
Proof. done. Qed.
Lemma sim_no_fuel {A} : simulates (A := A) out_of_fuel out_of_fuel.
Proof. done. Qed.
Lemma along_bind {A B} (m : M S1 A) n (k : A → M S1 B) k' :
  simulates m n → (∀ a, simulates (k a) (k' a)) → simulates (m ≫= k) (n ≫= k').
Proof.
  intros Hm Hk s Hs. specialize (Hm s Hs). unfold mbind, M_bind. destruct (m s) as [[a s1]| |]; [|by rewrite Hm..].
  destruct Hm as [-> H1s]. exact (Hk a s1 H1s).
Qed.
Lemma along_get {A} (k : S1 → M S1 A) k' :
  (∀ s, I (tile_hndr s) → simulates (k s) (k' (along s))) → simulates (get_st ≫= k) (get_st ≫= k').
Proof. intros Hk s Hs. exact (Hk s Hs s Hs). Qed.
Lemma along_modify f g :
  (∀ s, I (tile_hndr s) → along (f s) = g (along s) ∧ I (tile_hndr (f s))) → simulates (modify f) (modify g).
Proof. intros Hf s Hs. destruct (Hf s Hs) as [E HI]. unfold modify. by rewrite <- E. Qed.
Lemma sim_restart : simulates restart restart.
Proof.
  intros s Hs. unfold restart. pose proof (hm_restart Hφ _ Hs) as H. unfold carried in H. cbn [along tile_hndr].
  destruct (th_restart (tile_hndr s)) as [t| |]; [|by rewrite H..]. by destruct H as [-> H].
Qed.
Lemma sim_header : simulates (lift_header mem) (lift_header mem).
Proof.
  intros s Hs. unfold lift_header. pose proof (hm_header Hφ mem _ (cs s) Hs) as H. unfold carried in H. cbn [along tile_hndr cs].
  destruct (th_header mem (tile_hndr s) (cs s)) as [[[n t] c]| |]; [|by rewrite H..]. by destruct H as [-> H].
Qed.
Lemma sim_create : simulates lift_create lift_create.
Proof.
  intros s Hs. unfold lift_create. pose proof (hm_create Hφ _ Hs) as H. unfold carried in H. cbn [along tile_hndr].
  destruct (th_create (tile_hndr s)) as [[b t]| |]; [|by rewrite H..]. by destruct H as [-> H].
Qed.
Lemma sim_action op1 op2 : walks op1 op2 → simulates (action cb mem op1) (action cb mem op2).
Proof.
  intros Hw s Hs. unfold action. pose proof (Hw mem _ (cs s) Hs) as H. unfold carried in H. cbn [along tile_hndr cs].
  destruct (op1 mem (tile_hndr s) (cs s)) as [[[[r t] c] evs]| |]; [|by rewrite H..]. destruct H as [-> H].
  by destruct (r =? 0).
Qed.

Ltac sim_step :=
  match goal with
  | |- simulates restart restart => apply sim_restart
  | |- simulates (lift_header _) _ => apply sim_header
  | |- simulates lift_create _ => apply sim_create
  | |- simulates (action _ _ _) _ => apply sim_action; first [apply (hm_parse Hφ)|apply (hm_flush Hφ)]
  | |- simulates (mret _) _ => apply along_ret
  | |- simulates undefined _ => apply sim_undefined
  | |- simulates out_of_fuel _ => apply sim_no_fuel
  | |- simulates (modify _) _ => apply along_modify; intros ? ?; split; [reflexivity|assumption]
  | |- simulates (get_st ≫= _) _ => apply along_get; intros ? ?
  | |- simulates (_ ≫= _) _ => apply along_bind; [|intros ?]
  | |- simulates (if ?b then _ else _) _ =>
      lazymatch goal with |- simulates _ (if ?c then _ else _) => change c with b; destruct b end
  | |- simulates (match ?b with _ => _ end) _ =>
      lazymatch goal with |- simulates _ (match ?c with _ => _ end) => change c with b; destruct b as [[]| |] end
  end.
Lemma sim_emit on e : simulates (emit on e) (emit on e).
Proof. unfold emit. repeat sim_step. Qed.
Lemma sim_abort r : simulates (fire_abort cb r) (fire_abort cb r).
Proof. unfold fire_abort. repeat sim_step. apply sim_emit. Qed.
Lemma sim_streak b : simulates (end_frame_streak b) (end_frame_streak b).
Proof. unfold end_frame_streak. apply along_modify. intros s Hs. split; [reflexivity|exact Hs]. Qed.
Lemma sim_release : simulates (release_held_slabs cb) (release_held_slabs cb).
Proof. unfold release_held_slabs. repeat sim_step. Qed.
Lemma sim_invalidate :
  simulates (modify (λ s : S1, set_tile (invalidate (tile_hndr s)) (cs s) s)) (modify (λ s : S2, set_tile (invalidate (tile_hndr s)) (cs s) s)).
Proof.
  apply along_modify. intros s Hs. destruct (hm_invalidate Hφ _ Hs) as [E HI]. split; [|exact HI].
  unfold set_tile, along. cbn. by rewrite E.
Qed.
Lemma sim_signal off p :
  simulates (modify (λ s : S1, set_tile (th_append_signal off p (tile_hndr s)) (cs s) s))
    (modify (λ s : S2, set_tile (th_append_signal off p (tile_hndr s)) (cs s) s)).
Proof.
  apply along_modify. intros s Hs. destruct (hm_signal Hφ off p _ Hs) as [E HI]. split; [|exact HI].
  unfold set_tile, along. cbn. by rewrite E.
Qed.
#[local] Hint Resolve sim_emit sim_abort sim_streak sim_release sim_invalidate sim_signal : sim.
Ltac ready := cbn [along tile_hndr]; rewrite ?(hm_ready Hφ) by assumption.
Ltac sim_all := repeat first [solve [auto with sim] | progress ready; sim_step | sim_step].
Lemma sim_gap p : simulates (on_gap cb p) (on_gap cb p).
Proof. unfold on_gap. sim_all. Qed.
Lemma sim_cap : simulates (slab_cap cb) (slab_cap cb).
Proof. unfold slab_cap. sim_all. Qed.
Lemma sim_skip p : simulates (skip_body cb p) (skip_body cb p).
Proof. unfold skip_body. sim_all. Qed.
Lemma sim_missed : simulates (missed_eoc cb) (missed_eoc cb).
Proof. unfold missed_eoc. sim_all. Qed.
Lemma sim_append p : simulates (append_payload cb p) (append_payload cb p).
Proof. unfold append_payload, deliver_chunk. sim_all. Qed.
Lemma sim_fail : simulates (fail_header cb) (fail_header cb).
Proof. unfold fail_header. sim_all. Qed.
Lemma sim_check sig : simulates (check_latch sig) (check_latch sig).
Proof. unfold check_latch. sim_all. Qed.
#[local] Hint Resolve sim_gap sim_cap sim_skip sim_missed sim_append sim_fail sim_check : sim.
Lemma sim_latch sig r : simulates (latch_stream cb mem sig r) (latch_stream cb mem sig r).
Proof. unfold latch_stream. sim_all. Qed.
#[local] Hint Resolve sim_latch : sim.
Lemma sim_main p MH : simulates (main_packet cb mem p MH) (main_packet cb mem p MH).
Proof.
  unfold main_packet. sim_all; cbn zeta; sim_all.
  destruct o as [n|]; [destruct (n =? 0)|]; sim_step.
Qed.
Lemma sim_body p : simulates (body_packet cb mem p) (body_packet cb mem p).
Proof. unfold body_packet. sim_all. Qed.
Lemma sim_end : simulates (end_of_frame cb mem) (end_of_frame cb mem).
Proof. unfold end_of_frame. sim_all. Qed.
#[local] Hint Resolve sim_main sim_body sim_end : sim.
Lemma sim_pull p : simulates (pull_data cb mem p) (pull_data cb mem p).
Proof. unfold pull_data. sim_all. Qed.
End Along.

Lemma sim_pull_all {T1 T2} `{TileHandler T1, TileHandler T2} (φ : T1 → T2) I (Hφ : handler_map φ I) cb l :
  simulates φ I (pull_all cb l) (pull_all cb l).
Proof.
  induction l as [|[mem p] l IH]; [apply along_ret|]. cbn [pull_all]. apply along_bind; [by apply sim_pull|intros; apply IH].
Qed.
