(* ===== verification/Clock.v ===== *)
(** * Clock: the timing and the statistics line

    [ACTION] of frame_handler.hpp measures each call into the tile handler and adds the
    microseconds to [cumlative_time]; the hook of main.cpp prints them per frame every
    half second of stream time.  The clock is a parameter: [now k] is its [k]-th reading
    in nanoseconds.  The timed handler is the frame handler over a tile handler that
    carries the figures along ([timed_tile]), so that [pull_data] is the same code; its
    figures never change what it does, and the time it reports is the sum over the calls
    of [parse] and [flush], which a second handler counts ([counted_tile]). *)
From Stdlib Require Import SpecFloat Ascii String.
From stdpp Require Import strings.
From S2P Require Import Prelude Codestream Receiver FrameHandler System Main Text Double.
From S2P Require Import Structs Instr TileHandler HandlerMap.

#[local] Close Scope string_scope.

(** The fields [start_time], [cumlative_time] and [lost_frames] of the frame handler, and
    the number of clock readings so far. *)
Record figures := mkFigures { start_time : Z; cumlative_time : double; lost_frames : Z; readings : nat }.

Section Figures.
Variable now : nat → Z.
Implicit Types w : figures.

(** [duration_cast<microseconds>] of nanoseconds. *)
Definition micros (ns : Z) : Z := Z.quot ns 1000.

(** The constructor's part. *)
Definition figures_init (k : nat) : figures := mkFigures (now k) (dint 0) 0 (S k).

(** The clock lines of [ACTION]. *)
Definition tick w : figures :=
  let st := now (readings w) in
  let dr := now (S (readings w)) - st in
  mkFigures (start_time w) (dadd (cumlative_time w) (dint (micros dr))) (lost_frames w) (S (S (readings w))).

Definition get_cumlative_time_then_reset w : double * figures :=
  (cumlative_time w, mkFigures (start_time w) (dint 0) (lost_frames w) (readings w)).

Definition get_duration w : double * figures :=
  let duration := now (readings w) - start_time w in
  (ddiv (dint (micros duration)) (dint 1000),
   mkFigures (now (S (readings w))) (cumlative_time w) (lost_frames w) (S (S (readings w)))).

Definition countup_lost_frames w : figures :=
  mkFigures (start_time w) (cumlative_time w) (u64 (lost_frames w + 1)) (readings w).
Definition get_lost_frames w : Z := lost_frames w.

(** A walk with the clock around it. *)
Definition timed_op {T} (op : memory → T → codestream → outcome (Z * T * codestream * list crp_status))
    (mem : memory) (t : T * figures) (c : codestream) : outcome (Z * (T * figures) * codestream * list crp_status) :=
  outcome_map (λ '(r, t', c', evs), (r, (t', tick t.2), c', evs)) (op mem t.1 c).

Definition timed_tile `{TileHandler T} : TileHandler (T * figures) := {|
  is_ready t := is_ready t.1;
  invalidate t := (invalidate t.1, t.2);
  th_restart t := outcome_map (λ t', (t', t.2)) (th_restart t.1);
  th_append_signal off id t := (th_append_signal off id t.1, t.2);
  th_header mem t c := outcome_map (λ '(n, t', c'), (n, (t', t.2), c')) (th_header mem t.1 c);
  th_create t := outcome_map (λ '(b, t'), (b, (t', t.2))) (th_create t.1);
  th_parse := timed_op th_parse;
  th_flush := timed_op th_flush
|}.

(** ** The statistics line of the hook *)

(** The counters of the receiver the line reads. *)
Record drops := mkDrops { net_lost_packets : Z; slot_busy_drops : Z; queue_full_drops : Z }.

Definition num (w : nat) (v : Z) : text := setw w (dec 20 v).

Definition report_line (nan : text) (total frames trunc : Z) (d : drops) (cumulative duration : double) : text :=
  txt "Elapsed time: " ++ setw 8 (fixed nan 3 (ddiv (ddiv cumulative (dint 1000)) (dint frames))) ++ txt " [ms/frame], "
  ++ txt "Processed frames: " ++ num 7 total ++ txt ", "
  ++ setw 7 (fixed nan 4 (ddiv (dmul (dint 1000) (dint frames)) duration)) ++ txt " fps, "
  ++ txt "trunc J2K frames = " ++ num 5 trunc ++ txt ", "
  ++ txt "RTP drops: net=" ++ num 5 (net_lost_packets d)
  ++ txt " busy=" ++ num 5 (slot_busy_drops d)
  ++ txt " qfull=" ++ num 5 (queue_full_drops d).

(** The statistics block of the hook: the line, if the window is over, and the figures
    after it. *)
Definition report (nan : text) (d : drops) (total trunc ts : Z) (p : params_t) w : option text * params_t * figures :=
  let '(r, p') := hook_stats total ts p in
  match r with
  | None => (None, p', w)
  | Some frames =>
      let '(cumulative, w) := get_cumlative_time_then_reset w in
      let '(duration, w) := get_duration w in
      (Some (report_line nan total frames trunc d cumulative duration), p', w)
  end.

Definition set_figures {T} w (s : frame_handler (T * figures)) : frame_handler (T * figures) :=
  set_tile ((tile_hndr s).1, w) (cs s) s.

(** [rtp_receive_hook], with what it prints. *)
Definition rtp_receive_hook_t `{TileHandler T} (nan : text) (cb : callbacks) (mem : memory) (d : drops) (f : Frame)
    : M (params_t * frame_handler (T * figures)) (option text) := λ '(p, s),
  match pull_data (H := timed_tile) cb mem (hook_packet f) s with
  | Ret (_, s') =>
      let '(line, p', w) := report nan d (total_frames s') (trunc_frames s') (f_timestamp f) p (tile_hndr s').2 in
      Ret (line, (p', set_figures w s'))
  | UB => UB
  | NoFuel => NoFuel
  end.
End Figures.

(** The lines added with PARSER_OVERSHOOT_INSTR; the counters are reset after them. *)
Definition average (sum n : Z) : double := if n =? 0 then dint 0 else ddiv (dint sum) (dint n).
Definition overshoot_lines (nan : text) (o : OvershootStats) : list text :=
  let dec := dec 20 in
  [txt "  Parser: precincts=" ++ dec (precincts_parsed o)
   ++ txt " avg_prec_bytes=" ++ fixed nan 1 (average (sum_precinct_bytes o) (precincts_parsed o))
   ++ txt " drift_snaps=" ++ dec (snaps_with_drift o) ++ txt " max_drift_bytes=" ++ dec (max_drift_bytes o)
   ++ txt " mean_drift=" ++ fixed nan 1 (average (sum_drift_bytes o) (snaps_with_drift o))
   ++ txt " recoveries=" ++ dec (recoveries o) ++ txt " skipped_precincts=" ++ dec (skipped_precincts o)]
  ++ if failed_parses o =? 0 then [] else
  [txt "  Failures: count=" ++ dec (failed_parses o)
   ++ txt " recover_fail: no_sig=" ++ dec (recover_no_signal o)
   ++ txt " bad_pid=" ++ dec (recover_bad_pid o) ++ txt " backward=" ++ dec (recover_backward o)
   ++ txt " last={c=" ++ dec (last_fail_c o) ++ txt " r=" ++ dec (last_fail_r o) ++ txt " p=" ++ dec (last_fail_p o)
   ++ txt " crp_idx=" ++ dec (last_fail_crp_idx o) ++ txt " src=" ++ dec (last_fail_src_pos o) ++ txt "}"].
Definition report_overshoot (nan : text) (o : OvershootStats) : list text * OvershootStats :=
  (overshoot_lines nan o, reset_overshoot_stats o).

(** ** Timing does not change what the handler does *)
Definition ticks (now : nat → Z) (k : nat) (w : figures) : figures := Nat.iter k (tick now) w.
Definition untimed {T} : frame_handler (T * figures) → frame_handler T := along fst.

(** A handler that counts the calls of [parse] and [flush], those that return. *)
Definition counted_tile `{TileHandler T} : TileHandler (T * nat) := {|
  is_ready t := is_ready t.1;
  invalidate t := (invalidate t.1, t.2);
  th_restart t := outcome_map (λ t', (t', t.2)) (th_restart t.1);
  th_append_signal off id t := (th_append_signal off id t.1, t.2);
  th_header mem t c := outcome_map (λ '(n, t', c'), (n, (t', t.2), c')) (th_header mem t.1 c);
  th_create t := outcome_map (λ '(b, t'), (b, (t', t.2))) (th_create t.1);
  th_parse mem t c := outcome_map (λ '(r, t', c', evs), (r, (t', S t.2), c', evs)) (th_parse mem t.1 c);
  th_flush mem t c := outcome_map (λ '(r, t', c', evs), (r, (t', S t.2), c', evs)) (th_flush mem t.1 c)
|}.
Definition counting {T} (s : frame_handler T) : frame_handler (T * nat) := along (λ t, (t, 0%nat)) s.

Section Erase.
Context `{TileHandler T} (now : nat → Z).

(** The operations of a decorated handler, those of the handler below known. *)
Ltac decorated := intros; cbn in *; unfold timed_op; cbn; try done;
  match goal with
  | |- context [outcome_map _ ?o] => lazymatch o with outcome_map _ _ => fail | _ => destruct o as [?| |]; [|done..] end
  end;
  repeat match goal with p : _ * _ |- _ => destruct p end; cbn in *; try done.

Lemma untimed_map : handler_map (H1 := timed_tile now) fst (λ _ : T * figures, True).
Proof. split; try (intros; done); unfold walks, carried; decorated. Qed.

(** Timed and counted at once: the figures have ticked once a call. *)
Definition in_step (w0 : figures) (t : T * figures * nat) : Prop := t.1.2 = ticks now t.2 w0.
Definition only_count (t : T * figures * nat) : T * nat := (t.1.1, t.2).

Lemma timed_map w0 :
  handler_map (H1 := counted_tile (H := timed_tile now)) (H2 := timed_tile now) fst (in_step w0).
Proof. split; try (intros; done); unfold walks, carried; unfold in_step; decorated; split; try done; by f_equal. Qed.
Lemma count_map w0 :
  handler_map (H1 := counted_tile (H := timed_tile now)) (H2 := counted_tile) only_count (in_step w0).
Proof. split; try (intros; done); unfold walks, carried; unfold in_step; decorated; split; try done; by f_equal. Qed.
End Erase.

(** ** The time reported is exact *)

(** The microseconds of the [k] measurements that start at the clock's reading [r]. *)
Fixpoint spent (now : nat → Z) (r k : nat) : Z :=
  match k with O => 0 | S k => micros (now (S r) - now r) + spent now (S (S r)) k end.

Lemma micros_bounds d : 0 ≤ d → 0 ≤ micros d ∧ 1000 * micros d ≤ d.
Proof. intros Hd. unfold micros. pose proof (Z.quot_rem' d 1000). pose proof (Z.rem_bound_pos d 1000 ltac:(lia) ltac:(lia)). lia. Qed.

(** Readings [r], …, [r + n] in order. *)
Definition steady (now : nat → Z) (r n : nat) : Prop := ∀ i, (r ≤ i < r + n)%nat → now i ≤ now (S i).

Lemma steady_le now r n : steady now r n → now r ≤ now (r + n)%nat.
Proof.
  intros Hs. induction n as [|n IH]; [by rewrite Nat.add_0_r|]. etrans; [apply IH; intros i Hi; apply Hs; lia|].
  rewrite Nat.add_succ_r. apply Hs. lia.
Qed.

Lemma spent_bounds now k r : steady now r (2 * k) → 0 ≤ spent now r k ∧ 1000 * spent now r k ≤ now (r + 2 * k)%nat - now r.
Proof.
  revert r. induction k as [|k IH]; intros r Hs; [cbn [spent]; rewrite Nat.add_0_r; lia|]. cbn [spent].
  destruct (IH (S (S r))) as [H1 H2]; [intros i Hi; apply Hs; lia|].
  pose proof (Hs r ltac:(lia)). pose proof (Hs (S r) ltac:(lia)). destruct (micros_bounds (now (S r) - now r)); [lia|].
  replace (r + 2 * S k)%nat with (S (S r) + 2 * k)%nat by lia. lia.
Qed.

Lemma ticks_exact now k w c :
  steady now (readings w) (2 * k) → cumlative_time w = dint c → 0 ≤ c → c + spent now (readings w) k < 2 ^ 53 →
  cumlative_time (ticks now k w) = dint (c + spent now (readings w) k)
  ∧ readings (ticks now k w) = (readings w + 2 * k)%nat ∧ start_time (ticks now k w) = start_time w.
Proof.
  unfold ticks. revert w c. induction k as [|k IH]; intros w c Hs Hw Hc Hb; [cbn [spent Nat.iter]; rewrite Z.add_0_r, Nat.add_0_r; done|].
  rewrite Nat.iter_succ_r. cbn [spent] in *.
  pose proof (Hs (readings w) ltac:(lia)). destruct (micros_bounds (now (S (readings w)) - now (readings w))) as [M1 _]; [lia|].
  assert (steady now (S (S (readings w))) (2 * k)) as Hs' by (intros i Hi; apply Hs; lia).
  pose proof (spent_bounds _ _ _ Hs') as [S1 _].
  destruct (IH (tick now w) (c + micros (now (S (readings w)) - now (readings w)))) as (E1 & E2 & E3).
  - done.
  - cbn [tick cumlative_time]. rewrite Hw. apply dadd_exact; lia.
  - lia.
  - cbn [tick readings]. lia.
  - rewrite E1, E2, E3. cbn [tick readings start_time]. split; [f_equal; lia|]. split; [lia|done].
Qed.

Section Reports.
Context `{TileHandler T} (now : nat → Z) (cb : callbacks).
#[local] Instance timed_there : TileHandler (T * figures) := timed_tile now.

Lemma untimed_all l s :
  outcome_map (λ r, (r.1, untimed r.2)) (pull_all cb l s) = pull_all cb l (untimed s).
Proof.
  pose proof (sim_pull_all fst _ (untimed_map now) cb l s Logic.I) as Hs. unfold untimed.
  destruct (pull_all cb l s) as [[a s1]| |]; cbn [outcome_map]; [by destruct Hs as [-> _]|done..].
Qed.

(** A timed run and the run that counts: as many ticks as calls. *)
Lemma timed_counted l s s' :
  pull_all cb l s = Ret ((), s') →
  ∃ sc, pull_all (H := counted_tile) cb l (counting (untimed s)) = Ret ((), sc)
    ∧ along fst sc = untimed s' ∧ (tile_hndr s').2 = ticks now (tile_hndr sc).2 (tile_hndr s).2.
Proof.
  intros E. set (s0 := along (λ t, (t, 0%nat)) s).
  assert (in_step now (tile_hndr s).2 (tile_hndr s0)) as H0 by done.
  pose proof (sim_pull_all _ _ (timed_map now (tile_hndr s).2) cb l s0 H0) as Ht.
  pose proof (sim_pull_all _ _ (count_map now (tile_hndr s).2) cb l s0 H0) as Hc.
  change (along fst s0) with (along (λ t : T * figures, t) s) in Ht.
  assert (along (λ t : T * figures, t) s = s) as Es by (by destruct s). rewrite Es in Ht. unfold timed_there in E. rewrite E in Ht.
  destruct (pull_all (H := counted_tile) cb l s0) as [[[] s1]| |]; [|done..].
  destruct Ht as [[= ->] Hi]. destruct Hc as [Hc _]. exists (along only_count s1). split; [exact Hc|]. by split.
Qed.

Lemma readings_ticks k w : readings (ticks now k w) = (readings w + 2 * k)%nat.
Proof. unfold ticks. induction k as [|k IH]; [cbn; lia|]. rewrite Nat.iter_succ. cbn [tick readings]. rewrite IH. lia. Qed.

End Reports.

(** ** The hook with its printing is the hook of [Main] *)
Theorem hook_prints `{TileHandler T} now nan cb mem d f p (s : frame_handler (T * figures)) :
  outcome_map (λ '(line, (p', s')), (bool_decide (is_Some line), (p', untimed s'))) (rtp_receive_hook_t now nan cb mem d f (p, s))
  = outcome_map (λ '(n, (p', s')), (bool_decide (is_Some n), (p', s'))) (rtp_receive_hook cb mem f (p, untimed s)).
Proof.
  pose proof (sim_pull fst _ (untimed_map now) cb mem (hook_packet f) s Logic.I) as Ht. fold (untimed s) in Ht.
  unfold rtp_receive_hook_t, rtp_receive_hook.
  destruct (pull_data cb mem (hook_packet f) s) as [[[] s1]| |]; [|by rewrite Ht..]. destruct Ht as [-> _].
  change (total_frames (along fst s1)) with (total_frames s1).
  unfold report. destruct (hook_stats _ _ _) as [[n|] p1]; reflexivity.
Qed.

(** ** What is printed *)

(** Thirty frames in half a second, two milliseconds each. *)
Example report_example :
  report_line (txt "-nan") 90 30 1 (mkDrops 4 0 0) (dint 60000) (ddiv (dint 500000) (dint 1000))
  = txt "Elapsed time:    2.000 [ms/frame], Processed frames:      90, 60.0000 fps, trunc J2K frames =     1, RTP drops: net=    4 busy=    0 qfull=    0".
Proof. vm_compute. reflexivity. Qed.

(** A window in which no frame was completed has no time per frame: the division by zero
    prints [nan] or [inf] (finding). *)
Theorem idle_window_prints_no_number nan total trunc d cumulative duration :
  ∃ word rest, report_line nan total 0 trunc d cumulative duration = txt "Elapsed time: " ++ setw 8 word ++ rest
    ∧ (word = nan ∨ ∃ s, word = sign_text s ++ txt "inf").
Proof.
  unfold report_line. change (dint 0) with (S754_zero false). eexists _, _. split; [reflexivity|].
  destruct (ddiv cumulative (dint 1000)); cbn [ddiv SFdiv xorb fixed]; eauto.
Qed.

(** ** Witness: one frame, a clock that reads 1.5 ms more each time *)
Definition slow_clock (k : nat) : Z := 1500000 * Z.of_nat k.
Definition timed_start : frame_handler (tile_handler * figures) := started (new_tile_handler, figures_init slow_clock 0) 4.

Lemma returned {A} (o : outcome (() * A)) (f : A → bool) :
  match o with Ret (_, s) => f s | _ => false end = true → ∃ s, o = Ret ((), s) ∧ f s = true.
Proof. destruct o as [[[] s]| |]; [by exists s|done|done]. Qed.

