(* ===== verification/Logs.v ===== *)
(** * Logs: the log file and the frame dumps

    utils.cpp of a build with ENABLE_LOGGING and ENABLE_SAVEJ2C: the global [log_file],
    [log_init], [log_put], [log_close] and [save_j2c], over the C library's streams.  A
    stream is its file and its position; a write reaches the file at once (buffering is
    not modelled).  Whether [fopen] succeeds is a parameter. *)
From Stdlib Require Import Ascii String.
From stdpp Require Import strings gmap.
From S2P Require Import Prelude Codestream Text.

#[local] Close Scope string_scope.

(** ** Streams *)
Record stream := mkStream { st_name : text; st_pos : nat }.
Record stdio := mkStdio { disk : gmap text (list Z); streams : gmap nat stream; log_file : option nat }.
Definition set_log_file (h : option nat) (s : stdio) : stdio := mkStdio (disk s) (streams s) h.

(** Writing at a position: a gap left behind the end is filled with zeros. *)
Definition write_at (old : list Z) (pos : nat) (bytes : list Z) : list Z :=
  take pos (old ++ replicate (pos - length old) 0) ++ bytes ++ drop (pos + length bytes) old.

Section Stdio.
(** [fopen] may fail, for instance when too many streams are open. *)
Context (can_open : stdio → text → bool).

(** A stream pointer not in use. *)
Definition next_stream (s : stdio) : nat := fresh (elements (dom (streams s) : gset nat)).
(** [fopen(name, "w")]: a new stream on the emptied file, or a null pointer. *)
Definition fopen (name : text) : M stdio (option nat) :=
  s ← get_st;
  if can_open s name then
    let h := next_stream s in
    modify (λ s, mkStdio (<[name := []]> (disk s)) (<[h := mkStream name 0]> (streams s)) (log_file s)) ;; mret (Some h)
  else mret None.
Definition fwrite (bytes : list Z) (h : nat) : M stdio () :=
  s ← get_st;
  match streams s !! h with
  | None => undefined
  | Some f =>
      let old := default [] (disk s !! st_name f) in
      modify (λ s, mkStdio (<[st_name f := write_at old (st_pos f) bytes]> (disk s))
                     (<[h := mkStream (st_name f) (st_pos f + length bytes)]> (streams s)) (log_file s))
  end.
Definition fclose (h : nat) : M stdio () :=
  s ← get_st;
  match streams s !! h with
  | None => undefined
  | Some _ => modify (λ s, mkStdio (disk s) (delete h (streams s)) (log_file s))
  end.

(** ** File names: ["%05lu"] *)
(** A [size_t] has at most 20 digits. *)
Definition pad5 (n : Z) : text := let d := dec 20 n in replicate (5 - length d) "0"%char ++ d.
Definition log_name (n : Z) : text := txt "log_" ++ pad5 n ++ txt ".log".
Definition dump_name (n : Z) : text := txt "out_" ++ pad5 n ++ txt ".j2c".

(** ** utils.cpp *)
Definition get_log_file_fp : M stdio (option nat) := s ← get_st; mret (log_file s).
Definition log_init (num_frame : Z) : M stdio () :=
  h ← fopen (log_name num_frame); modify (set_log_file h).
(** [fprintf(log_file, "%s\n", msg)]; a null [log_file] is undefined behaviour. *)
Definition log_put (msg : text) : M stdio () :=
  f ← get_log_file_fp;
  match f with Some h => fwrite (map code msg ++ [10]) h | None => undefined end.
Definition log_close : M stdio () :=
  f ← get_log_file_fp;
  match f with Some h => fclose h ;; modify (set_log_file None) | None => mret () end.

Section Dump.
Context (mem : memory).
Definition save_j2c (num_frame : Z) (cs : codestream) : M stdio () :=
  fp ← fopen (dump_name num_frame);
  match fp with
  | None => mret ()
  | Some h =>
      for_each_chunk (λ (m : M stdio ()) b l, m ;; fwrite (mem_bytes mem b l) h) cs (mret ()) ;;
      fclose h
  end.
End Dump.
End Stdio.

(** ** Appending to a fresh stream *)

(** [s] with a stream [h] standing at the end of file [name]. *)
Definition at_end (s : stdio) (h : nat) (name : text) (content : list Z) : stdio :=
  mkStdio (<[name := content]> (disk s)) (<[h := mkStream name (length content)]> (streams s)) (log_file s).
(** [s] with [name] written and closed. *)
Definition with_file (s : stdio) (name : text) (content : list Z) : stdio :=
  mkStdio (<[name := content]> (disk s)) (streams s) (log_file s).

Lemma write_at_end old bytes : write_at old (length old) bytes = old ++ bytes.
Proof.
  unfold write_at. rewrite Nat.sub_diag. cbn [replicate]. rewrite app_nil_r, take_ge, drop_ge by lia. by rewrite app_nil_r.
Qed.
Lemma fwrite_at_end s h name old bytes : fwrite bytes h (at_end s h name old) = Ret ((), at_end s h name (old ++ bytes)).
Proof.
  unfold fwrite, mbind, M_bind, get_st, modify, at_end. cbn -[write_at]. rewrite lookup_insert_eq. cbn -[write_at].
  rewrite lookup_insert_eq. cbn -[write_at].
  by rewrite !insert_insert_eq, write_at_end, length_app.
Qed.
Lemma fclose_at_end s h name old : streams s !! h = None → fclose h (at_end s h name old) = Ret ((), with_file s name old).
Proof.
  intros H. unfold fclose, mbind, M_bind, get_st, modify, at_end. cbn. rewrite lookup_insert_eq. cbn.
  by rewrite delete_insert_id.
Qed.
Lemma next_stream_new s : streams s !! next_stream s = None.
Proof. apply (not_elem_of_dom (D := gset nat)). rewrite <- elem_of_elements. apply infinite_is_fresh. Qed.

(** ** Names *)
Lemma scan_zeros k rest : scan_digits (replicate k "0"%char ++ rest) 0 = scan_digits rest 0.
Proof. induction k as [|k IH]; [done|exact IH]. Qed.

Definition is_size (n : Z) : Prop := 0 ≤ n < 18446744073709551616.
(** The number can be read back from the name. *)
Lemma scan_pad5 n rest : is_size n → scan_digits (pad5 n ++ rest) 0 = scan_digits rest n.
Proof.
  unfold is_size. intros Hn. unfold pad5. rewrite <- app_assoc, scan_zeros. apply scan_dec; [lia|cbn; lia|done].
Qed.
Lemma names_differ pre post n m :
  is_size n → is_size m → (∀ k, scan_digits post k = (k, post)) → pre ++ pad5 n ++ post = pre ++ pad5 m ++ post → n = m.
Proof.
  intros Hn Hm Hp E%app_inv_head. apply (f_equal (λ l, scan_digits l 0)) in E. rewrite !scan_pad5, !Hp in E by done. congruence.
Qed.
Lemma dump_names_differ n m : is_size n → is_size m → dump_name n = dump_name m → n = m.
Proof. intros Hn Hm. by apply names_differ. Qed.
Lemma log_names_differ n m : is_size n → is_size m → log_name n = log_name m → n = m.
Proof. intros Hn Hm. by apply names_differ. Qed.
Lemma dump_not_log n m : dump_name n ≠ log_name m.
Proof. done. Qed.

Lemma dec_length fuel n : (length (dec fuel n) ≤ fuel)%nat.
Proof.
  revert n. induction fuel as [|f IH]; intros n; cbn [dec]; [done|]. rewrite length_app. cbn [length].
  destruct (_ <? _); [cbn; lia|]. specialize (IH (n / 10)). lia.
Qed.
(** The name and its terminating zero fit [char buf[128]]. *)
Lemma names_fit n : (length (dump_name n) < 128)%nat ∧ (length (log_name n) < 128)%nat.
Proof.
  unfold dump_name, log_name, pad5. rewrite !length_app, length_replicate. pose proof (dec_length 20 n).
  cbn [txt length list_ascii_of_string] in *. lia.
Qed.

Section Runs.
Context (can_open : stdio → text → bool) (mem : memory).
Implicit Types s : stdio.

Lemma fopen_run s name :
  fopen can_open name s
  = if can_open s name then Ret (Some (next_stream s), at_end s (next_stream s) name []) else Ret (None, s).
Proof. unfold fopen. rewrite bind_get. by destruct (can_open s name). Qed.

Lemma write_chunks s h name old l (m : M stdio ()) s0 :
  m s0 = Ret ((), at_end s h name old) →
  fold_left (λ (m : M stdio ()) c, m ;; fwrite (mem_bytes mem (base c) (len c)) h) l m s0
  = Ret ((), at_end s h name (old ++ flat_bytes mem l)).
Proof.
  revert old m. induction l as [|c l IH]; intros old m Hm; cbn [fold_left]; [by rewrite Hm, app_nil_r|].
  rewrite flat_bytes_cons, app_assoc. apply IH. rewrite (bind_run _ _ _ _ _ Hm). apply fwrite_at_end.
Qed.

Lemma save_run n cs s :
  save_j2c can_open mem n cs s
  = Ret ((), if can_open s (dump_name n) then with_file s (dump_name n) (flat_bytes mem (chunks_ cs)) else s).
Proof.
  unfold save_j2c. pose proof (fopen_run s (dump_name n)) as E. destruct (can_open s (dump_name n)).
  - rewrite (bind_run _ _ _ _ _ E). unfold for_each_chunk.
    rewrite (bind_run _ _ _ _ _ (write_chunks s (next_stream s) (dump_name n) [] (chunks_ cs) (mret ()) _ eq_refl)).
    apply fclose_at_end, next_stream_new.
  - by rewrite (bind_run _ _ _ _ _ E).
Qed.

(** A frame dump is the frame.  [save_j2c] never misuses a stream and leaves none
    open; when the file cannot be opened nothing changes; otherwise the file of this
    frame number holds exactly the bytes of the chain in order, whatever the chunks, and
    every log and the dump of every other frame number are as they were. *)
Theorem dump_is_frame n cs s :
  ∃ s', save_j2c can_open mem n cs s = Ret ((), s') ∧ streams s' = streams s ∧ log_file s' = log_file s
    ∧ (if can_open s (dump_name n) then disk s' !! dump_name n = Some (flat_bytes mem (chunks_ cs)) else s' = s)
    ∧ (∀ m, disk s' !! log_name m = disk s !! log_name m)
    ∧ (∀ m, is_size n → is_size m → m ≠ n → disk s' !! dump_name m = disk s !! dump_name m)
    ∧ (length (dump_name n) < 128)%nat.
Proof.
  eexists. split; [apply save_run|]. pose proof (names_fit n) as [Hf _]. destruct (can_open s (dump_name n)); [|done]. cbn.
  split_and!; [done|done|by rewrite lookup_insert_eq| | |done].
  - intros m. rewrite lookup_insert_ne; [done|apply dump_not_log].
  - intros m Hn Hm Hne. rewrite lookup_insert_ne; [done|]. intros E. by apply Hne, dump_names_differ.
Qed.

(** ** A log session *)
Definition log_puts (msgs : list text) : M stdio () := foldr (λ m k, log_put m ;; k) (mret ()) msgs.
Definition lines (msgs : list text) : list Z := msgs ≫= λ m, map code m ++ [10].

Lemma log_puts_run s h name old msgs :
  log_file s = Some h → log_puts msgs (at_end s h name old) = Ret ((), at_end s h name (old ++ lines msgs)).
Proof.
  intros Hl. revert old. induction msgs as [|m msgs IH]; intros old; [by rewrite app_nil_r|].
  change (lines (m :: msgs)) with ((map code m ++ [10]) ++ lines msgs). rewrite app_assoc, <- IH.
  change (log_puts (m :: msgs)) with (log_put m ;; log_puts msgs). apply (bind_run _ (λ _, log_puts msgs) _ ()). unfold log_put, get_log_file_fp.
  rewrite (bind_run _ _ _ (Some h) (at_end s h name old)); [apply fwrite_at_end|].
  unfold mbind, M_bind, get_st, mret, M_ret. cbn [at_end log_file]. by rewrite Hl.
Qed.

Lemma log_init_run n s :
  log_init can_open n s
  = if can_open s (log_name n) then Ret ((), set_log_file (Some (next_stream s)) (at_end s (next_stream s) (log_name n) []))
    else Ret ((), set_log_file None s).
Proof.
  unfold log_init. pose proof (fopen_run s (log_name n)) as E.
  by destruct (can_open s (log_name n)); rewrite (bind_run _ _ _ _ _ E).
Qed.

(** A frame's log, opened, written and closed, holds the messages as lines. *)
Lemma log_session n msgs s :
  can_open s (log_name n) = true →
  (log_init can_open n ;; log_puts msgs ;; log_close) s = Ret ((), set_log_file None (with_file s (log_name n) (lines msgs))).
Proof.
  intros Ho. pose proof (log_init_run n s) as E. rewrite Ho in E. rewrite (bind_run _ _ _ _ _ E).
  pose proof (log_puts_run (set_log_file (Some (next_stream s)) s) _ (log_name n) [] msgs eq_refl) as E2.
  rewrite (bind_run _ _ _ _ _ E2). cbn beta. unfold log_close, get_log_file_fp.
  set (s1 := at_end _ _ _ _). rewrite (bind_run _ _ _ (Some (next_stream s)) s1) by done. subst s1.
  rewrite (bind_run _ _ _ _ _ (fclose_at_end _ _ _ _ (next_stream_new s : streams (set_log_file _ s) !! _ = None))). done.
Qed.

(** A log that could not be opened makes the next message undefined behaviour: [log_put]
    does not test [log_file]. *)
Remark log_put_null n msg s : can_open s (log_name n) = false → (log_init can_open n ;; log_put msg) s = UB.
Proof. intros Ho. pose proof (log_init_run n s) as E. rewrite Ho in E. by rewrite (bind_run _ _ _ _ _ E). Qed.

(** [log_init] does not close the log of a frame whose end was never seen: its stream
    stays open for good. *)
Remark log_reinit_leaks n m s :
  (∀ s name, can_open s name = true) →
  ∃ s', (log_init can_open n ;; log_init can_open m ;; log_close) s = Ret ((), s')
    ∧ log_file s' = None ∧ streams s' = <[next_stream s := mkStream (log_name n) 0]> (streams s).
Proof.
  intros Ho. pose proof (log_init_run n s) as E. rewrite Ho in E. rewrite (bind_run _ _ _ _ _ E).
  set (s1 := set_log_file _ _). pose proof (log_session m [] s1 (Ho _ _)) as E2. unfold log_puts in E2. cbn [foldr] in E2.
  eexists. split; [exact E2|]. by split.
Qed.
End Runs.
