(* ===== verification/FrameLog.v ===== *)
(** * FrameLog: the frame handler of a build that logs and dumps

    With ENABLE_LOGGING and ENABLE_SAVEJ2C the frame handler opens a log at every main
    packet, the precinct walk and [ACTION] write lines to it, and every completed frame is
    dumped and its log closed.  Here these calls run on the handler's state paired with
    the C library's streams ([stdio] of Logs): the walk of tile_handler.hpp with the lines
    the packet parser writes (one per code-block, or EMPTY), then [pull_data] over the
    interface [LoggedTile].  [fopen] may fail on any name ([can_open]).  Unless a log that
    could not be opened is written to, erasing the streams gives the handler without them,
    and the directory holds the completed frames, each under its own number. *)
From Stdlib Require Import Ascii String.
From stdpp Require Import strings gmap sorting.
From S2P Require Import Prelude Codestream BitReader Markers Structs MainHeader HeaderSpec Signature.
From S2P Require Import PacketHeader PacketSpec Progression Geometry GeometrySpec TileHandler TileSpec FrameHandler.
From S2P Require Import System Text Console Logs.

#[local] Close Scope string_scope.

(** ** A state paired with the streams *)
Definition bare {S A} (m : M S A) : M (S * stdio) A := λ '(s, io),
  match m s with Ret (a, s') => Ret (a, (s', io)) | UB => UB | NoFuel => NoFuel end.
Definition on_io {S A} (m : M stdio A) : M (S * stdio) A := λ '(s, io),
  match m io with Ret (a, io') => Ret (a, (s, io')) | UB => UB | NoFuel => NoFuel end.

Definition msg_EMPTY : text := txt "EMPTY****************************".
Definition msg_FAILURE : text := txt "**************** FAILURE".
(** ["%d,%d,%d"]: resolution, band and length of a code-block. *)
Definition msg_block (res_num b length : Z) : text :=
  let bnum := if res_num =? 0 then 0 else u8 (b + 1) in
  fmt_d res_num ++ txt "," ++ fmt_d bnum ++ txt "," ++ fmt_d length.

Example msg_block_example : msg_block 1 2 300 = txt "1,3,300".
Proof. vm_compute. reflexivity. Qed.

(** ** The precinct walk, with its log lines *)
Definition io_pure {A} (o : outcome A) : M stdio A := λ io, outcome_map (λ r, (r, io)) o.

Section Walk.
Context (mem : memory).

(** [if (get_log_file_fp() != nullptr) fprintf(log_file, ...)] *)
Definition put_block (res_num b length : Z) : M stdio () :=
  f ← get_log_file_fp;
  match f with
  | Some h => fwrite (map code (msg_block res_num b length) ++ [10]) h
  | None => mret ()
  end.

Fixpoint body_blocks_l (res_num b : Z) (n i : nat) (c : codestream) (pb : pband_) : M stdio (codestream * pband_) :=
  match n with
  | O => mret (c, pb)
  | S n' =>
      match pb_blk pb !! i with
      | None => undefined
      | Some k =>
          r ← io_pure (blk_body mem c k);
          let '(c, k) := r in
          put_block res_num b (blk_length k) ;;
          body_blocks_l res_num b n' (S i) c (mkPband (pb_incl pb) (pb_zbp pb) (<[i := k]> (pb_blk pb)))
      end
  end.

Fixpoint body_bands_l (n b : nat) (c : codestream) (pr : prec_) : M stdio (codestream * prec_) :=
  match n with
  | O => mret (c, pr)
  | S n' =>
      match pr_pband pr !! b with
      | None => undefined
      | Some pb =>
          r ← body_blocks_l (res_num pr) (Z.of_nat b) (nb_code_blocks pr) 0 c pb;
          let '(c, pb) := r in
          body_bands_l n' (S b) c (set_pbands (<[b := pb]> (pr_pband pr)) pr)
      end
  end.

Definition parse_packet_header_l (c : codestream) (pr : prec_) (coc : coc_marker) : M stdio (Z * codestream * prec_) :=
  r ← io_pure (header_bands mem (Z.to_nat (pr_num_bands pr)) 0 (coc_cbs coc) c pr);
  let '(ret, c, pr) := r in
  if ret =? EXIT_SUCCESS then
    r ← body_bands_l (Z.to_nat (pr_num_bands pr)) 0 (packetheader_flush_bits c) pr;
    let '(c, pr) := r in
    mret (EXIT_SUCCESS, c, pr)
  else mret (ret, c, pr).

Definition read_packet_l (c : codestream) (pr : prec_) (coc : coc_marker) : M stdio (Z * codestream * prec_) :=
  let '(b, c) := get_bit mem c in
  if b =? 0 then
    let c := packetheader_flush_bits c in
    log_put msg_EMPTY ;; mret (EXIT_SUCCESS, c, pr)
  else parse_packet_header_l c pr coc.

Definition parse_one_precinct_l : M (pst * stdio) Z :=
  tile ← bare tile0;
  s ← bare get_st;
  ct ← bare (at_ (crp tile) (crp_idx tile));
  match get_prec tile ct, h_cocs (tabs (ps_th s)) !! Z.to_nat (crp_c ct) with
  | Some pr, Some coc =>
      r ← on_io (read_packet_l (ps_cs s) pr coc);
      let '(ret, c, pr) := r in
      bare (modify (set_pcs c)) ;; bare (put_tile0 (put_prec ct pr tile)) ;; mret ret
  | _, _ => undefined
  end.

Definition parse_round_l : M (pst * stdio) (option Z) :=
  s ← bare get_st;
  match last (signal_queue_ (ps_th s)) with
  | None => mret (Some EXIT_SUCCESS)
  | Some back =>
      tile ← bare tile0;
      if byte_offset back <=? get_pos (ps_cs s) then mret (Some EXIT_SUCCESS) else
      ct ← bare (at_ (crp tile) (crp_idx tile));
      ret ← parse_one_precinct_l;
      bare bump_crp_idx ;;
      if negb (ret =? 0) then
        ok ← bare try_recover;
        mret (if ok : bool then None else Some ret)
      else bare (precinct_callback ct) ;; mret None
  end.

Definition flush_round_l : M (pst * stdio) (option Z) :=
  tile ← bare tile0;
  if Z.of_nat (length (crp tile)) <=? crp_idx tile then mret (Some EXIT_SUCCESS) else
  ct ← bare (at_ (crp tile) (crp_idx tile));
  ret ← parse_one_precinct_l;
  if negb (ret =? 0) then
    ok ← bare try_recover;
    mret (if ok : bool then None else Some ret)
  else bare (precinct_callback ct) ;; bare bump_crp_idx ;; mret None.

Fixpoint rounds_l (round : M (pst * stdio) (option Z)) (fuel : nat) : M (pst * stdio) Z :=
  match fuel with
  | O => out_of_fuel
  | S fuel' => r ← round; match r with Some ret => mret ret | None => rounds_l round fuel' end
  end.
Definition parse_l : M (pst * stdio) Z := s ← bare get_st; rounds_l parse_round_l (parse_fuel s).
Definition flush_l : M (pst * stdio) Z := s ← bare get_st; rounds_l flush_round_l (flush_fuel s).
End Walk.

Definition run_walk_l (m : M (pst * stdio) Z) (t : tile_handler) (c : codestream)
    : M stdio (Z * tile_handler * codestream * list crp_status) := λ io,
  match m (mkPst t c [], io) with
  | Ret (r, (s, io')) => Ret ((r, ps_th s, ps_cs s, fst <$> ps_ev s), io')
  | UB => UB
  | NoFuel => NoFuel
  end.

(** ** What the logging frame handler needs of the tile handler *)
Class LoggedTile (T : Type) := {
  lg_parse : memory → T → codestream → M stdio (Z * T * codestream * list crp_status);
  lg_flush : memory → T → codestream → M stdio (Z * T * codestream * list crp_status)
}.

#[global] Instance tile_logged : LoggedTile tile_handler := {|
  lg_parse := λ mem, run_walk_l (parse_l mem);
  lg_flush := λ mem, run_walk_l (flush_l mem)
|}.

(** ** The frame handler, with its logs and dumps *)
Section Code.
Context `{TileHandler T} `{LoggedTile T} (cb : callbacks) (can_open : stdio → text → bool) (mem : memory).
Notation St := (frame_handler T * stdio)%type.

(** [ACTION(func, ...)] *)
Definition action_l (op : memory → T → codestream → M stdio (Z * T * codestream * list crp_status)) : M St () :=
  s ← bare get_st;
  r ← on_io (op mem (tile_hndr s) (cs s));
  let '(ret, t, c, evs) := r in
  bare (modify (λ s, add_events (if prec_cb_ cb then EvPrecinct <$> evs else []) (set_tile t c s))) ;;
  if ret =? 0 then mret ()
  else on_io (log_put msg_FAILURE) ;; bare (modify (set_flags true false)).

Definition body_packet_l (p : packet) : M St () :=
  let ORDB := Z.land (Z.shiftr (mem (p_payload p + 1)) 7) 1 in
  let POS_PID := load_be32 mem (p_payload p + 4) in
  let PID := Z.land POS_PID 0x000FFFFF in
  let POS := Z.shiftr POS_PID 20 in
  s ← bare get_st;
  let resync_byte := u32 (u32 (chain_total_bytes_ s) + POS) in
  bare (append_payload cb p) ;;
  s ← bare get_st;
  if negb (ORDB =? 0) && is_passed_header s then
    bare (modify (λ s, set_tile (th_append_signal resync_byte PID (tile_hndr s)) (cs s) s)) ;;
    s ← bare get_st;
    bare (if resync_armed_ s && resync_point_cb_ cb then
            modify (add_events [EvPoint resync_byte PID (p_point_answer p)]) ;;
            if p_point_answer p then modify (λ s, set_resync false (resync_soft_ s) s) else mret ()
          else mret ()) ;;
    s ← bare get_st;
    if negb (is_parsing_failure s) && negb (resync_soft_ s) then
      action_l lg_parse ;;
      s ← bare get_st;
      bare (if is_parsing_failure s then fire_abort cb kAbortParse else mret ())
    else mret ()
  else mret ().

(** [if (marker)]: up to the dump, and from the dump on. *)
Definition judge_frame_l : M St bool :=
  bare (modify (set_armed false)) ;;
  s ← bare get_st;
  let frame_intact := negb (is_parsing_failure s) && is_passed_header s && negb (resync_soft_ s) in
  bare (modify (set_resync false false)) ;;
  (if frame_intact then
     action_l lg_flush ;;
     s ← bare get_st;
     bare (if is_parsing_failure s then modify (set_parse_failed true) else mret ())
   else mret ()) ;;
  s ← bare get_st;
  bare (end_frame_streak (frame_intact && negb (is_parsing_failure s))) ;;
  mret frame_intact.

Definition finish_frame_l (frame_intact : bool) : M St () :=
  s ← bare get_st;
  on_io (save_j2c can_open mem (total_frames s) (cs s)) ;;
  bare (emit (frame_ready_cb_ cb) (EvReady (chunks_ (cs s)) frame_intact)) ;;
  bare (modify (λ s, set_counts (total_frames s + 1) (trunc_frames s + Z.b2z (is_parsing_failure s)) s)) ;;
  on_io log_close ;;
  bare (modify (set_flags false false)) ;;
  bare (release_held_slabs cb) ;;
  bare restart.
Definition end_of_frame_l : M St () := frame_intact ← judge_frame_l; finish_frame_l frame_intact.

(** A main packet opens the log of the frame count, before a missed EOC is noticed. *)
Definition main_packet_l (p : packet) (MH : Z) : M St bool :=
  s ← bare get_st;
  on_io (log_init can_open (total_frames s)) ;;
  bare (main_packet cb mem p MH).

Definition pull_data_l (p : packet) : M St () :=
  bare (on_gap cb p) ;;
  bare (slab_cap cb) ;;
  s ← bare get_st;
  let MH := Z.shiftr (mem (p_payload p)) 6 in
  if (MH =? 0) && (negb (is_passed_header s) || is_parsing_failure s) then bare (skip_body cb p) else
  go_on ← (if 1 <=? MH then main_packet_l p MH else body_packet_l p ;; mret true);
  if (go_on : bool) && p_marker p then end_of_frame_l else mret ().
End Code.

Fixpoint pull_all_l `{TileHandler T} `{LoggedTile T} (cb : callbacks) (can_open : stdio → text → bool)
    (l : list (memory * packet)) : M (frame_handler T * stdio) () :=
  match l with
  | [] => mret ()
  | (mem, p) :: l => pull_data_l cb can_open mem p ;; pull_all_l cb can_open l
  end.

Lemma lines_app l1 l2 : lines (l1 ++ l2) = lines l1 ++ lines l2.
Proof. apply bind_app. Qed.

(** What is ever written to a log. *)
Definition log_line (x : text) : Prop := x = msg_EMPTY ∨ x = msg_FAILURE ∨ ∃ r b n, x = msg_block r b n.

(** ** Erasure

    A log that is open stands at the end of its file; a log that could not be opened is a
    null pointer.  [m] does what [n] does and appends lines to the open log; with a null log
    it does what [n] does and writes nothing, or is undefined where a line is put. *)
Definition opened (io : stdio) (h : nat) (n : Z) (l : list Z) : Prop :=
  log_file io = Some h ∧ streams io !! h = Some (mkStream (log_name n) (length l)) ∧ disk io !! log_name n = Some l.
Definition log_is_open (io : stdio) : Prop := ∃ h n l, opened io h n l.
Definition logged (io : stdio) : Prop := log_file io = None ∨ log_is_open io.

(** The streams after some lines. *)
Definition kept (io io' : stdio) : Prop :=
  (log_file io = None ∧ io' = io)
  ∨ ∃ h n l msgs, opened io h n l ∧ Forall log_line msgs ∧ io' = at_end io h (log_name n) (l ++ lines msgs).

Lemma opened_at_end io h n l l' : opened io h n l → opened (at_end io h (log_name n) l') h n l'.
Proof. intros (H1 & _ & _). split; [done|]. cbn. by rewrite !lookup_insert_eq. Qed.
Lemma at_end_again io h name l l' : at_end (at_end io h name l) h name l' = at_end io h name l'.
Proof. unfold at_end. cbn. by rewrite !insert_insert_eq. Qed.
Lemma at_end_same io h n l : opened io h n l → at_end io h (log_name n) l = io.
Proof. intros (_ & H2 & H3). unfold at_end. rewrite !insert_id by done. by destruct io. Qed.

Lemma kept_refl io : logged io → kept io io.
Proof.
  intros [Hn|(h & n & l & Ho)]; [by left|]. right. exists h, n, l, []. split; [done|]. split; [constructor|].
  change (lines []) with (@nil Z). rewrite app_nil_r. symmetry. by apply at_end_same.
Qed.
Lemma kept_logged io io' : kept io io' → logged io'.
Proof. intros [[Hn ->]|(h & n & l & msgs & Ho & _ & ->)]; [by left|]. right. eexists _, _, _. by eapply opened_at_end. Qed.
Lemma kept_trans io io1 io2 : kept io io1 → kept io1 io2 → kept io io2.
Proof.
  intros [[Hn ->]|(h & n & l & msgs & Ho & F & ->)]; [done|]. pose proof Ho as (HL & _ & _).
  pose proof (opened_at_end _ _ _ _ (l ++ lines msgs) Ho) as (_ & HS & HD).
  intros [[Hn _]|(h' & n' & l' & msgs' & (HL' & HS' & HD') & F' & ->)]; [cbn in Hn; congruence|]. cbn [at_end log_file] in HL'.
  assert (h' = h) as -> by congruence. 
  assert (log_name n' = log_name n) as En by (rewrite HS in HS'; by apply (f_equal (from_option st_name [])) in HS').
  rewrite En in HD' |- *. rewrite HD in HD'. injection HD' as <-.
  right. exists h, n, l, (msgs ++ msgs'). split; [done|]. split; [by apply Forall_app|].
  by rewrite at_end_again, lines_app, app_assoc.
Qed.
Lemma kept_null io io' : kept io io' → log_file io' = None → log_file io = None.
Proof. intros [[Hn ->]|(h & n & l & msgs & (HL & _) & _ & ->)] H; [done|]. cbn in H. congruence. Qed.

Section Erase.
(** On the streams alone. *)
Definition writes {A} (m : M stdio A) (n : outcome A) : Prop := ∀ io, logged io →
  (log_file io = None ∧ m io = UB) ∨ ∃ io', kept io io' ∧ m io = outcome_map (λ r, (r, io')) n.

Lemma writes_ret {A} (a : A) : writes (mret a) (Ret a).
Proof. intros io Hl. right. exists io. split; [by apply kept_refl|done]. Qed.
Lemma writes_undefined {A} : writes (A := A) undefined UB.
Proof. intros io Hl. right. exists io. split; [by apply kept_refl|done]. Qed.
Lemma writes_pure {A} (o : outcome A) : writes (io_pure o) o.
Proof. intros io Hl. right. exists io. split; [by apply kept_refl|done]. Qed.
Lemma writes_bind {A B} (m : M stdio A) n (k : A → M stdio B) k' :
  writes m n → (∀ a, writes (k a) (k' a)) →
  writes (m ≫= k) (match n with Ret a => k' a | UB => UB | NoFuel => NoFuel end).
Proof.
  intros Hm Hk io Hl. unfold mbind, M_bind. destruct (Hm io Hl) as [[Hn ->]|(io1 & K1 & ->)]; [by left|].
  destruct n as [a| |]; [|by right; exists io1..]. cbn. destruct (Hk a io1 (kept_logged _ _ K1)) as [[Hn ->]|(io2 & K2 & ->)].
  - left. split; [by eapply kept_null|done].
  - right. exists io2. split; [by eapply kept_trans|done].
Qed.

Definition logs {S A} (m : M (S * stdio) A) (n : M S A) : Prop := ∀ s io, logged io →
  (log_file io = None ∧ m (s, io) = UB) ∨ ∃ io', kept io io' ∧ m (s, io) = outcome_map (λ r, (r.1, (r.2, io'))) (n s).

Lemma logs_bare {S A} (m : M S A) : logs (bare m) m.
Proof. intros s io Hl. right. exists io. split; [by apply kept_refl|]. unfold bare. by destruct (m s) as [[a s']| |]. Qed.
Lemma logs_ret {S A} (a : A) : logs (S := S) (mret a) (mret a).
Proof. intros s io Hl. right. exists io. split; [by apply kept_refl|done]. Qed.
Lemma logs_undefined {S A} : logs (S := S) (A := A) undefined undefined.
Proof. intros s io Hl. right. exists io. split; [by apply kept_refl|done]. Qed.
Lemma logs_bind {S A B} (m : M (S * stdio) A) n (k : A → M (S * stdio) B) k' :
  logs m n → (∀ a, logs (k a) (k' a)) → logs (m ≫= k) (n ≫= k').
Proof.
  intros Hm Hk s io Hl. unfold mbind, M_bind. destruct (Hm s io Hl) as [[Hn ->]|(io1 & K1 & ->)]; [by left|].
  destruct (n s) as [[a s']| |]; [|by right; exists io1..]. cbn.
  destruct (Hk a s' io1 (kept_logged _ _ K1)) as [[Hn ->]|(io2 & K2 & ->)].
  - left. split; [by eapply kept_null|done].
  - right. exists io2. split; [by eapply kept_trans|done].
Qed.
Lemma logs_bare_bind {S A B} (m : M S A) (k : A → M (S * stdio) B) k' :
  (∀ a, logs (k a) (k' a)) → logs (bare m ≫= k) (m ≫= k').
Proof. intros Hk. apply logs_bind; [apply logs_bare|done]. Qed.

Lemma log_put_open io h n l msg :
  opened io h n l → log_put msg io = Ret ((), at_end io h (log_name n) (l ++ lines [msg])).
Proof.
  intros Ho. pose proof Ho as (HL & _ & _). unfold log_put, get_log_file_fp, lines. cbn [mbind list_bind]. rewrite app_nil_r.
  rewrite (bind_run _ _ _ (Some h) io) by (unfold mbind, M_bind, get_st, mret, M_ret; by rewrite HL).
  rewrite <- (at_end_same io h n l Ho) at 1. apply fwrite_at_end.
Qed.
Lemma writes_put msg : log_line msg → writes (log_put msg) (Ret ()).
Proof.
  intros Hm io [Hn|(h & n & l & Ho)].
  - left. split; [done|]. unfold log_put, get_log_file_fp, mbind, M_bind, get_st, mret, M_ret. by rewrite Hn.
  - right. eexists. split; [|by apply log_put_open]. right. exists h, n, l, [msg]. split; [done|]. by split; [apply Forall_singleton|].
Qed.
Lemma writes_block r bn n : writes (put_block r bn n) (Ret ()).
Proof.
  intros io Hl. pose proof Hl as [Hn|(h & k & l & Ho)].
  - right. exists io. split; [by left|]. unfold put_block, get_log_file_fp, mbind, M_bind, get_st, mret, M_ret. by rewrite Hn.
  - right. eexists. split.
    { right. exists h, k, l, [msg_block r bn n]. split; [done|]. split; [|done]. apply Forall_singleton. right. right. eauto. }
    transitivity (log_put (msg_block r bn n) io); [|by apply log_put_open]. pose proof Ho as (HL & _ & _).
    unfold put_block, log_put, get_log_file_fp, mbind, M_bind, get_st, mret, M_ret. by rewrite HL.
Qed.
(** A step on the streams alone. *)
Lemma logs_io {S A B} (m : M stdio A) n (k : A → M (S * stdio) B) k' :
  writes m n → (∀ a, logs (k a) (k' a)) →
  logs (on_io m ≫= k) (λ s, match n with Ret a => k' a s | UB => UB | NoFuel => NoFuel end).
Proof.
  intros Hm Hk s io Hl. unfold mbind, M_bind, on_io. destruct (Hm io Hl) as [[Hn ->]|(io1 & K1 & ->)]; [by left|].
  destruct n as [a| |]; [|by right; exists io1..]. cbn. destruct (Hk a s io1 (kept_logged _ _ K1)) as [[Hn ->]|(io2 & K2 & ->)].
  - left. split; [by eapply kept_null|done].
  - right. exists io2. split; [by eapply kept_trans|done].
Qed.
End Erase.

(** ** The walk's interface law

    [parse] and [flush] of the logging build are those of the plain one, and only append
    lines to the log; with a null log they may be undefined. *)
Class LoggedLaws (T : Type) `{TileHandler T} `{LoggedTile T} : Prop := {
  lg_parse_logs mem t c : writes (lg_parse mem t c) (th_parse mem t c);
  lg_flush_logs mem t c : writes (lg_flush mem t c) (th_flush mem t c)
}.

Section Laws.
Context (mem : memory).

Lemma writes_blocks r bn n i c pb : writes (body_blocks_l mem r bn n i c pb) (body_blocks mem n i c pb).
Proof.
  revert i c pb. induction n as [|n IH]; intros i c pb; [apply writes_ret|]. cbn [body_blocks_l body_blocks].
  destruct (pb_blk pb !! i) as [k|]; [|apply writes_undefined]. apply writes_bind; [apply writes_pure|].
  intros [c' k']. apply (writes_bind _ (Ret ()) _ (λ _, _)); [apply writes_block|]. intros _. apply IH.
Qed.
Lemma writes_bands n i c pr : writes (body_bands_l mem n i c pr) (body_bands mem n i c pr).
Proof.
  revert i c pr. induction n as [|n IH]; intros i c pr; [apply writes_ret|]. cbn [body_bands_l body_bands].
  destruct (pr_pband pr !! i) as [pb|]; [|apply writes_undefined]. apply writes_bind; [apply writes_blocks|].
  intros [c' pb']. apply IH.
Qed.
Lemma writes_read c pr coc : writes (read_packet_l mem c pr coc) (read_packet mem c pr coc).
Proof.
  unfold read_packet_l, read_packet. destruct (get_bit mem c) as [bit c1]. destruct (bit =? 0).
  - apply (writes_bind _ (Ret ()) _ (λ _, _)); [apply writes_put; by left|]. intros _. apply writes_ret.
  - unfold parse_packet_header_l, parse_packet_header. apply writes_bind; [apply writes_pure|].
    intros [[ret c2] pr2]. destruct (ret =? EXIT_SUCCESS); [|apply writes_ret].
    apply writes_bind; [apply writes_bands|]. intros [c3 pr3]. apply writes_ret.
Qed.
Lemma logs_one : logs (parse_one_precinct_l mem) (parse_one_precinct mem).
Proof.
  apply logs_bare_bind. intros tile. apply logs_bare_bind. intros s. apply logs_bare_bind. intros ct.
  destruct (get_prec tile ct) as [pr|]; [|apply logs_undefined].
  destruct (h_cocs _ !! _) as [coc|]; [|apply logs_undefined].
  intros s1 io Hl.
  destruct (logs_io _ _ (λ r, let '(ret, c, pr) := r in
      bare (modify (set_pcs c)) ;; bare (put_tile0 (put_prec ct pr tile)) ;; mret ret)
    (λ r, let '(ret, c, pr) := r in modify (set_pcs c) ;; put_tile0 (put_prec ct pr tile) ;; mret ret)
    (writes_read (ps_cs s) pr coc)) with (s := s1) (io := io) as [H|(io' & K & E)]; [|done|by left|].
  { intros [[ret c] pr']. apply logs_bare_bind. intros _. apply logs_bare_bind. intros _. apply logs_ret. }
  right. exists io'. split; [done|]. rewrite E. by destruct (read_packet mem (ps_cs s) pr coc) as [[[ret c] pr']| |].
Qed.

#[local] Hint Resolve logs_ret logs_bare logs_one logs_undefined : logs.
Ltac logs_step := first [apply logs_bare_bind; intros ?|apply logs_bind; [by auto with logs|intros ?]|by auto with logs].

Lemma logs_parse_round : logs (parse_round_l mem) (parse_round mem).
Proof.
  apply logs_bare_bind. intros s. destruct (last _) as [back|]; [|apply logs_ret]. apply logs_bare_bind. intros tile.
  destruct (_ <=? _); [apply logs_ret|]. repeat logs_step. destruct (negb _); repeat logs_step.
Qed.
Lemma logs_flush_round : logs (flush_round_l mem) (flush_round mem).
Proof.
  apply logs_bare_bind. intros tile. destruct (_ <=? _); [apply logs_ret|]. repeat logs_step.
  destruct (negb _); repeat logs_step.
Qed.
Lemma logs_rounds round_l round fuel : logs round_l round → logs (rounds_l round_l fuel) (rounds round fuel).
Proof.
  intros Hr. induction fuel as [|n IH]; [intros s io Hl; right; exists io; split; [by apply kept_refl|done]|]. cbn. apply logs_bind; [done|].
  intros [r|]; [apply logs_ret|apply IH].
Qed.
Lemma logs_walk m n t c : logs m n → writes (run_walk_l m t c) (run_walk n t c).
Proof.
  intros Hm io Hl. unfold run_walk_l, run_walk. destruct (Hm (mkPst t c []) io Hl) as [[Hn ->]|(io' & K & ->)]; [by left|].
  right. exists io'. split; [done|]. by destruct (n _) as [[a s]| |].
Qed.
Lemma logs_parse : logs (parse_l mem) (parse mem).
Proof. apply logs_bare_bind. intros s. apply logs_rounds, logs_parse_round. Qed.
Lemma logs_flush : logs (flush_l mem) (flush mem).
Proof. apply logs_bare_bind. intros s. apply logs_rounds, logs_flush_round. Qed.
End Laws.

#[global] Instance tile_logged_laws uninit stale : LoggedLaws (H := tile_ops uninit stale) tile_handler.
Proof.
  split; intros mem t c.
  - exact (logs_walk _ _ t c (logs_parse mem)).
  - exact (logs_walk _ _ t c (logs_flush mem)).
Qed.

(** ** The frame handler *)
Section Handler.
Context `{TileHandler T} `{!LoggedTile T} `{!LoggedLaws T} (cb : callbacks) (mem : memory).
Implicit Types s : frame_handler T.

Lemma action_l_run (lop : memory → T → codestream → M stdio (Z * T * codestream * list crp_status)) s io :
  action_l cb mem lop (s, io)
  = match lop mem (tile_hndr s) (cs s) io with
    | Ret ((ret, t, c, evs), io1) =>
        let s1 := add_events (if prec_cb_ cb then EvPrecinct <$> evs else []) (set_tile t c s) in
        if ret =? 0 then Ret ((), (s1, io1))
        else match log_put msg_FAILURE io1 with Ret (_, io2) => Ret ((), (set_flags true false s1, io2)) | UB => UB | NoFuel => NoFuel end
    | UB => UB
    | NoFuel => NoFuel
    end.
Proof.
  unfold action_l. unfold mbind at 1, M_bind at 1, bare at 1, get_st. unfold mbind at 1, M_bind at 1, on_io at 1.
  destruct (lop _ _ _ io) as [[[[[ret t] c] evs] io1]| |]; [|done|done]. unfold mbind at 1, M_bind at 1, bare at 1. cbn [modify].
  destruct (ret =? 0); [done|]. unfold mbind, M_bind, on_io, bare. by destruct (log_put _ io1) as [[[] io2]| |].
Qed.
Lemma logs_action (op : memory → T → codestream → outcome (Z * T * codestream * list crp_status))
    (lop : memory → T → codestream → M stdio (Z * T * codestream * list crp_status)) :
  (∀ t c, writes (lop mem t c) (op mem t c)) → logs (action_l cb mem lop) (action cb mem op).
Proof.
  intros Hop s io Hl. rewrite action_l_run. unfold action.
  destruct (Hop (tile_hndr s) (cs s) io Hl) as [[Hn ->]|(io1 & K1 & ->)]; [by left|].
  destruct (op mem (tile_hndr s) (cs s)) as [[[[ret t] c] evs]| |]; cbn [outcome_map]; [|right; exists io1; by split..].
  destruct (ret =? 0); [right; exists io1; by split|].
  destruct (writes_put msg_FAILURE ltac:(by right; left) io1 (kept_logged _ _ K1)) as [[Hn ->]|(io2 & K2 & ->)].
  - left. split; [by eapply kept_null|done].
  - right. exists io2. split; [by eapply kept_trans|done].
Qed.

#[local] Hint Resolve logs_ret logs_bare logs_undefined : logs.
Ltac logs_step := first [apply logs_bare_bind; intros ?|apply logs_bind; [by auto with logs|intros ?]|by auto with logs].

Lemma logs_body p : logs (body_packet_l cb mem p) (body_packet cb mem p).
Proof.
  unfold body_packet_l, body_packet. repeat logs_step. destruct (_ && _); [|apply logs_ret].
  repeat logs_step. destruct (_ && _); [|apply logs_ret].
  apply logs_bind; [apply logs_action; intros; by apply lg_parse_logs|intros ?]. repeat logs_step.
Qed.

(** The last stage without its dump. *)
Definition judge_frame : M (frame_handler T) bool :=
  modify (set_armed false) ;;
  s ← get_st;
  let frame_intact := negb (is_parsing_failure s) && is_passed_header s && negb (resync_soft_ s) in
  modify (set_resync false false) ;;
  (if frame_intact then
     action cb mem th_flush ;;
     s ← get_st;
     if is_parsing_failure s then modify (set_parse_failed true) else mret ()
   else mret ()) ;;
  s ← get_st;
  end_frame_streak (frame_intact && negb (is_parsing_failure s)) ;;
  mret frame_intact.
Definition finish_frame (frame_intact : bool) : M (frame_handler T) () :=
  s ← get_st;
  emit (frame_ready_cb_ cb) (EvReady (chunks_ (cs s)) frame_intact) ;;
  modify (λ s, set_counts (total_frames s + 1) (trunc_frames s + Z.b2z (is_parsing_failure s)) s) ;;
  modify (set_flags false false) ;;
  release_held_slabs cb ;;
  restart.

Lemma end_split s : end_of_frame cb mem s = (judge_frame ≫= finish_frame) s.
Proof.
  unfold end_of_frame, judge_frame, finish_frame, mbind, M_bind, get_st, end_frame_streak. cbn [modify].
  destruct (negb _ && _ && _); [|reflexivity]. destruct (action cb mem th_flush _) as [[[] s1]| |]; [|done|done].
  by destruct (is_parsing_failure s1).
Qed.

Lemma logs_judge : logs (judge_frame_l cb mem) judge_frame.
Proof.
  unfold judge_frame_l, judge_frame. repeat logs_step.
  apply logs_bind; [|intros ?; repeat logs_step]. destruct (_ && _); [|apply logs_ret].
  apply logs_bind; [apply logs_action; intros; by apply lg_flush_logs|intros ?]. repeat logs_step.
Qed.

(** ** What the parts of [pull_data] other than the last stage leave alone *)
Definition ready_of (e : event) : option (list Chunk) := match e with EvReady ch _ => Some ch | _ => None end.
Definition readies (l : list event) : list (list Chunk) := omap ready_of l.

(** No frame is completed, and the count does not fall. *)
Definition muted s s' : Prop :=
  (∃ evs, trace s' = trace s ++ evs ∧ readies evs = []) ∧ total_frames s ≤ total_frames s'.
(** No frame is taken up. *)
Definition lowers s s' : Prop := is_passed_header s' = true → is_passed_header s = true.

#[local] Instance muted_preorder : PreOrder muted.
Proof.
  split; [intros s; split; [exists []; by rewrite app_nil_r|lia]|].
  intros s1 s2 s3 [(e1 & T1 & R1) L1] [(e2 & T2 & R2) L2]. split; [|lia].
  exists (e1 ++ e2). unfold readies in *. by rewrite T2, T1, app_assoc, omap_app, R1, R2.
Qed.
#[local] Instance lowers_preorder : PreOrder lowers.
Proof. unfold lowers. split; [by intros s Hs|]. intros s1 s2 s3 H1 H2 Hs. by apply H1, H2. Qed.

Section Steps.
Context (R : relation (frame_handler T)) `{!PreOrder R}.
Definition steps {A} (m : M (frame_handler T) A) : Prop := ∀ s, match m s with Ret (_, s') => R s s' | _ => True end.
Lemma steps_ret {A} (a : A) : steps (mret a).
Proof. intros s. cbn. reflexivity. Qed.
Lemma steps_undefined {A} : steps (undefined (A := A)).
Proof. done. Qed.
Lemma steps_no_fuel {A} : steps (out_of_fuel (A := A)).
Proof. done. Qed.
Lemma steps_bind {A B} (m : M (frame_handler T) A) (k : A → M (frame_handler T) B) :
  steps m → (∀ a, steps (k a)) → steps (m ≫= k).
Proof.
  intros Hm Hk s. unfold mbind, M_bind. specialize (Hm s). destruct (m s) as [[a s1]| |]; [|done|done].
  specialize (Hk a s1). destruct (k a s1) as [[b s2]| |]; [|done|done]. by transitivity s1.
Qed.
Lemma steps_get {A} (k : frame_handler T → M (frame_handler T) A) : (∀ s, steps (k s)) → steps (get_st ≫= k).
Proof. intros Hk s. apply Hk. Qed.
Lemma steps_modify f : (∀ s, R s (f s)) → steps (modify f).
Proof. intros Hf s. apply Hf. Qed.
End Steps.

Lemma muted_same s s' : trace s' = trace s → total_frames s' = total_frames s → muted s s'.
Proof. intros E1 E2. split; [exists []; by rewrite app_nil_r|lia]. Qed.
Lemma muted_events evs s s' : trace s' = trace s ++ evs → readies evs = [] → total_frames s' = total_frames s → muted s s'.
Proof. intros E1 E2 E3. split; [by exists evs|lia]. Qed.
Lemma readies_precincts l : readies (EvPrecinct <$> l) = [].
Proof. by induction l. Qed.
Lemma readies_releases l : readies (EvRelease <$> l) = [].
Proof. by induction l. Qed.

(** Go through a computation, closing each modification with [close]. *)
Ltac steps_by close :=
  repeat first
    [ match goal with |- steps _ (mret _) => apply steps_ret; exact _ end | apply steps_undefined | apply steps_no_fuel
    | match goal with |- steps _ (mbind _ get_st) => apply steps_get; intros ? end
    | match goal with |- steps _ (mbind _ _) => apply steps_bind; [exact _| |intros ?] end
    | apply steps_modify; intros ?; solve [close]
    | match goal with |- steps _ (if ?b then _ else _) => destruct b end
    | match goal with |- steps _ (match ?b with _ => _ end) => destruct b end
    | by auto with steps ].
Ltac mute := steps_by ltac:(repeat case_match; first [by apply muted_same|by eapply muted_events|split; [exists []; by rewrite app_nil_r|cbn; lia]]).
Ltac lower := steps_by ltac:(unfold lowers; cbn; tauto).

Lemma mute_emit on e : ready_of e = None → steps muted (emit on e).
Proof. intros He. unfold emit. destruct on; [|by apply steps_ret, _]. apply steps_modify. intros s.
  eapply muted_events; [reflexivity|unfold readies; cbn; by rewrite He|done]. Qed.
Lemma mute_release : steps muted (release_held_slabs cb).
Proof.
  intros s. apply (muted_events (if release_slab_cb_ cb then EvRelease <$> held_slabs_ s else [])); [done| |done].
  destruct (release_slab_cb_ cb); [apply readies_releases|done].
Qed.
Lemma mute_restart : steps muted restart.
Proof. intros s. unfold restart. destruct (th_restart _); [|done|done]. by apply muted_same. Qed.
Lemma mute_action op : steps muted (action cb mem op).
Proof.
  intros s. unfold action. destruct (op _ _ _) as [[[[r t] c] evs]| |]; [|done|done].
  apply (muted_events (if prec_cb_ cb then EvPrecinct <$> evs else [])); [by destruct (r =? 0)| |by destruct (r =? 0)].
  destruct (prec_cb_ cb); [apply readies_precincts|done].
Qed.
Lemma mute_lift_header : steps muted (lift_header mem).
Proof. intros s. unfold lift_header. destruct (th_header _ _ _) as [[[n t] c]| |]; [|done|done]. by apply muted_same. Qed.
Lemma mute_lift_create : steps muted lift_create.
Proof. intros s. unfold lift_create. destruct (th_create _) as [[b t]| |]; [|done|done]. by apply muted_same. Qed.
#[local] Hint Resolve mute_emit mute_release mute_restart mute_action mute_lift_header mute_lift_create : steps.
Lemma mute_abort r : steps muted (fire_abort cb r).
Proof. unfold fire_abort. mute. Qed.
Lemma mute_streak b : steps muted (end_frame_streak b).
Proof. unfold end_frame_streak. mute. Qed.
#[local] Hint Resolve mute_abort mute_streak : steps.
Lemma mute_gap p : steps muted (on_gap cb p).
Proof. unfold on_gap. mute. Qed.
Lemma mute_cap : steps muted (slab_cap cb).
Proof. unfold slab_cap. mute. Qed.
Lemma mute_skip p : steps muted (skip_body cb p).
Proof. unfold skip_body. mute. Qed.
Lemma mute_missed : steps muted (missed_eoc cb).
Proof. unfold missed_eoc. mute. Qed.
Lemma mute_append p : steps muted (append_payload cb p).
Proof. unfold append_payload, deliver_chunk. mute. Qed.
Lemma mute_fail_header : steps muted (fail_header cb).
Proof. unfold fail_header. mute. Qed.
Lemma mute_check_latch sig : steps muted (check_latch sig).
Proof. unfold check_latch. mute. Qed.
#[local] Hint Resolve mute_missed mute_append mute_fail_header mute_check_latch : steps.
Lemma mute_latch sig r : steps muted (latch_stream cb mem sig r).
Proof. unfold latch_stream. mute. Qed.
#[local] Hint Resolve mute_latch : steps.
Lemma mute_main p MH : steps muted (main_packet cb mem p MH).
Proof. unfold main_packet. mute. Qed.
Lemma mute_body p : steps muted (body_packet cb mem p).
Proof. unfold body_packet. mute. Qed.
Lemma mute_judge : steps muted judge_frame.
Proof. unfold judge_frame. mute. Qed.

Lemma lower_same s s' : is_passed_header s' = is_passed_header s → lowers s s'.
Proof. by intros E ?; rewrite <- E. Qed.
Lemma lower_emit on e : steps lowers (emit on e).
Proof. unfold emit. lower. Qed.
Lemma lower_restart : steps lowers restart.
Proof. intros s. unfold restart. destruct (th_restart _); [|done|done]. by apply lower_same. Qed.
Lemma lower_release : steps lowers (release_held_slabs cb).
Proof. unfold release_held_slabs. lower. Qed.
#[local] Hint Resolve lower_emit lower_restart lower_release : steps.
Lemma lower_abort r : steps lowers (fire_abort cb r).
Proof. unfold fire_abort. lower. Qed.
Lemma lower_streak b : steps lowers (end_frame_streak b).
Proof. unfold end_frame_streak. lower. Qed.
#[local] Hint Resolve lower_abort lower_streak : steps.
Lemma lower_gap p : steps lowers (on_gap cb p).
Proof. unfold on_gap. lower. Qed.
Lemma lower_cap : steps lowers (slab_cap cb).
Proof. unfold slab_cap. lower. Qed.
Lemma lower_skip p : steps lowers (skip_body cb p).
Proof. unfold skip_body. lower. Qed.

(** A gap and the slab cap count no frame. *)
Definition same_count s s' : Prop := total_frames s' = total_frames s.
#[local] Instance same_count_preorder : PreOrder same_count.
Proof. unfold same_count. split; [done|]. intros s1 s2 s3 H1 H2. congruence. Qed.
Ltac count := steps_by ltac:(done).
Lemma count_emit on e : steps same_count (emit on e).
Proof. unfold emit. count. Qed.
Lemma count_restart : steps same_count restart.
Proof. intros s. unfold restart. by destruct (th_restart _). Qed.
Lemma count_release : steps same_count (release_held_slabs cb).
Proof. unfold release_held_slabs. count. Qed.
#[local] Hint Resolve count_emit count_restart count_release : steps.
Lemma count_abort r : steps same_count (fire_abort cb r).
Proof. unfold fire_abort. count. Qed.
Lemma count_streak b : steps same_count (end_frame_streak b).
Proof. unfold end_frame_streak. steps_by ltac:(repeat case_match; done). Qed.
#[local] Hint Resolve count_abort count_streak : steps.
Lemma count_gap p : steps same_count (on_gap cb p).
Proof. unfold on_gap. count. Qed.
Lemma count_cap : steps same_count (slab_cap cb).
Proof. unfold slab_cap. count. Qed.

(** ** Simulation: the streams added

    [fails] stands for a log that could not be opened earlier in the run: [m] does what [n]
    does, or [fails] and a line is put to the null log. *)
Context (fails : Prop).
Definition sim {A} (Q : A → frame_handler T → stdio → Prop)
    (m : M (frame_handler T * stdio) A) (n : M (frame_handler T) A) s io : Prop :=
  (fails ∧ m (s, io) = UB) ∨
  match n s with
  | Ret (a, s') => ∃ io', m (s, io) = Ret (a, (s', io')) ∧ Q a s' io'
  | UB => m (s, io) = UB
  | NoFuel => m (s, io) = NoFuel
  end.

Lemma simulates_bind {A B} (m : M (frame_handler T * stdio) A) n (k : A → M (frame_handler T * stdio) B) k' P Q s io :
  sim P m n s io → (∀ a s' io', P a s' io' → sim Q (k a) (k' a) s' io') → sim Q (m ≫= k) (n ≫= k') s io.
Proof.
  unfold sim, mbind, M_bind. intros [[F ->]|Hm] Hk; [by left|]. destruct (n s) as [[a s1]| |]; [|right; by rewrite Hm..].
  destruct Hm as (io1 & -> & HP). by apply Hk.
Qed.
Lemma simulates_ret {A} (a : A) (Q : A → frame_handler T → stdio → Prop) s io : Q a s io → sim Q (mret a) (mret a) s io.
Proof. intros HQ. right. by exists io. Qed.
Lemma simulates_get {B} (k : frame_handler T → M (frame_handler T * stdio) B) k' Q s io :
  sim Q (k s) (k' s) s io → sim Q (bare get_st ≫= k) (get_st ≫= k') s io.
Proof. done. Qed.
Lemma sim_mono {A} (P Q : A → frame_handler T → stdio → Prop) m n s io :
  sim P m n s io → (∀ a s' io', P a s' io' → Q a s' io') → sim Q m n s io.
Proof.
  unfold sim. intros [HF|Hm] HQ; [by left|]. right. destruct (n s) as [[a s']| |]; [|done|done].
  destruct Hm as (io' & E & HP). exists io'. auto.
Qed.
(** A part without logs. *)
Lemma sim_bare {A} (n : M (frame_handler T) A) (R : relation (frame_handler T)) s io :
  steps R n → sim (λ _ s' io', R s s' ∧ io' = io) (bare n) n s io.
Proof.
  intros Hn. specialize (Hn s). right. unfold bare. destruct (n s) as [[a s']| |]; [|done|done]. by exists io.
Qed.

(** While a frame is tracked its log is open, or could not be opened. *)
Definition live (io : stdio) : Prop := (log_file io = None ∧ fails) ∨ log_is_open io.
Definition tracked s io : Prop := (log_file io = None ∧ is_passed_header s = false) ∨ live io.
Definition same_dumps (io io' : stdio) : Prop := ∀ n, disk io' !! dump_name n = disk io !! dump_name n.

Lemma kept_live io io' : kept io io' → live io → live io'.
Proof.
  intros [[Hn ->]|(h & n & l & msgs & Ho & _ & ->)] Hl; [done|]. right. eexists _, _, _. by eapply opened_at_end.
Qed.
Lemma kept_dumps io io' : kept io io' → same_dumps io io'.
Proof.
  intros [[Hn ->]|(h & n & l & msgs & Ho & _ & ->)] k; [done|]. cbn. by rewrite lookup_insert_ne by (symmetry; apply dump_not_log).
Qed.
(** A part that logs. *)
Lemma sim_logs {A} (m : M (frame_handler T * stdio) A) n (R : relation (frame_handler T)) s io :
  logs m n → steps R n → live io → sim (λ _ s' io', R s s' ∧ live io' ∧ same_dumps io io') m n s io.
Proof.
  intros Hm Hn Hl. specialize (Hn s). destruct (Hm s io) as [[Hf E]|(io' & K & E)].
  { destruct Hl as [[Hf _]|Hl]; [by left|by right]. }
  - left. split; [|done]. destruct Hl as [[_ F]|(h & k & l & (HL & _))]; [done|congruence].
  - right. rewrite E. destruct (n s) as [[a s']| |]; [|done|done]. exists io'. split; [done|].
    split_and!; [done|by eapply kept_live|by apply kept_dumps].
Qed.

(** ** One packet *)
Context (can_open : stdio → text → bool).

(** What the file of frame [k] holds after its dump: the frame's bytes, or what it held if
    it cannot be opened. *)
Definition dumped_as (k : Z) (bytes : list Z) (io io' : stdio) : Prop :=
  disk io' !! dump_name k = Some bytes
  ∨ disk io' !! dump_name k = disk io !! dump_name k ∧ ∃ io1, can_open io1 (dump_name k) = false.

(** From [s] to [s'] either no frame is completed and no dump changes, or one is and its
    bytes are the dump of its number. *)
Definition stepped s s' io io' : Prop :=
  ∃ evs, trace s' = trace s ++ evs ∧ total_frames s ≤ total_frames s' ∧
    match readies evs with
    | [] => same_dumps io io'
    | [ch] => total_frames s < total_frames s'
        ∧ dumped_as (total_frames s' - 1) (flat_bytes mem ch) io io'
        ∧ ∀ n, dump_name n ≠ dump_name (total_frames s' - 1) → disk io' !! dump_name n = disk io !! dump_name n
    | _ => False
    end.

Lemma stepped_muted s s' io io' : muted s s' → same_dumps io io' → stepped s s' io io'.
Proof. intros [(evs & Ht & Hr) Hn] Hd. exists evs. by rewrite Hr. Qed.
Lemma muted_stepped s s1 s' io io1 io' : muted s s1 → same_dumps io io1 → stepped s1 s' io1 io' → stepped s s' io io'.
Proof.
  intros [(e1 & T1 & R1) N1] Hd (e2 & T2 & N2 & Hm). exists (e1 ++ e2).
  unfold readies in *. rewrite T2, T1, app_assoc, omap_app, R1. split; [done|]. split; [lia|].
  change ([] ++ omap ready_of e2) with (omap ready_of e2). destruct (omap ready_of e2) as [|ch [|? ?]]; [|destruct Hm as (N & Hch & Ho)|done].
  - intros n. rewrite Hm. apply Hd.
  - split_and!; [lia| |].
    + destruct Hch as [Hch|[Hch Hc]]; [by left|right]. by rewrite Hch, Hd.
    + intros n Hne. rewrite Ho by done. apply Hd.
Qed.

(** The dump, whatever the log's state. *)
Lemma save_live k c io :
  live io →
  ∃ io1, save_j2c can_open mem k c io = Ret ((), io1) ∧ live io1 ∧ dumped_as k (flat_bytes mem (chunks_ c)) io io1
    ∧ ∀ n, dump_name n ≠ dump_name k → disk io1 !! dump_name n = disk io !! dump_name n.
Proof.
  intros Hl. rewrite save_run. eexists. split; [reflexivity|]. destruct (can_open io (dump_name k)) eqn:E.
  - split; [|split; [left; cbn; by rewrite lookup_insert_eq|intros n Hn; cbn; rewrite lookup_insert_ne; [done|by symmetry]]].
    destruct Hl as [Hf|(h & n & l & H1 & H2 & H3)]; [by left|]. right. exists h, n, l. split_and!; [done|done|].
    cbn. by rewrite lookup_insert_ne by apply dump_not_log.
  - split; [done|]. split; [|done]. right. eauto.
Qed.
Lemma close_live io : live io → ∃ io1, log_close io = Ret ((), io1) ∧ log_file io1 = None ∧ disk io1 = disk io.
Proof.
  intros Hl. unfold log_close, get_log_file_fp, mbind, M_bind, get_st, mret, M_ret.
  destruct Hl as [[Hn _]|(h & n & l & H1 & H2 & H3)]; [rewrite Hn; by exists io|].
  rewrite H1. unfold fclose, mbind, M_bind, get_st. rewrite H2. eexists. split; [reflexivity|]. done.
Qed.

Lemma finish_sim intact s io :
  frame_ready_cb_ cb = true → live io →
  sim (λ _ s' io', tracked s' io' ∧ stepped s s' io io') (finish_frame_l cb can_open mem intact) (finish_frame intact) s io.
Proof.
  intros Hr Hl. destruct (save_live (total_frames s) (cs s) io Hl) as (io1 & Es & Hl1 & Hd & Ho).
  destruct (close_live io1 Hl1) as (io2 & Ec & Hn & Ed). right.
  unfold finish_frame_l, finish_frame, emit. rewrite Hr.
  unfold on_io, bare, release_held_slabs, restart, get_st, mbind, M_bind. rewrite Es. cbn [modify]. rewrite Ec.
  cbn [tile_hndr set_chain add_events set_flags set_counts]. destruct (th_restart (tile_hndr s)) as [t| |]; [|done|done].
  exists io2. split; [reflexivity|]. split; [by left|].
  set (rel := if release_slab_cb_ cb then EvRelease <$> held_slabs_ s else []).
  exists ([EvReady (chunks_ (cs s)) intact] ++ rel). split; [by rewrite app_assoc|]. split; [cbn; lia|].
  assert (readies ([EvReady (chunks_ (cs s)) intact] ++ rel) = [chunks_ (cs s)]) as ->.
  { unfold readies. rewrite omap_app. subst rel. cbn. destruct (release_slab_cb_ cb); [|done]. f_equal. apply readies_releases. }
  cbn [total_frames set_tile set_chain add_events set_flags set_counts]. replace (total_frames s + 1 - 1) with (total_frames s) by lia.
  unfold dumped_as. rewrite Ed. split; [lia|done].
Qed.

Lemma steps_and {A} (R Q : relation (frame_handler T)) (m : M (frame_handler T) A) :
  steps R m → steps Q m → steps (λ s s', R s s' ∧ Q s s') m.
Proof. intros H1 H2 s. specialize (H1 s). specialize (H2 s). by destruct (m s) as [[a s']| |]. Qed.

Lemma end_sim s io :
  frame_ready_cb_ cb = true → live io →
  sim (λ _ s' io', tracked s' io' ∧ stepped s s' io io') (end_of_frame_l cb can_open mem) (end_of_frame cb mem) s io.
Proof.
  intros Hr Hl.
  enough (sim (λ _ s' io', tracked s' io' ∧ stepped s s' io io')
            (end_of_frame_l cb can_open mem) (judge_frame ≫= finish_frame) s io) as Hs.
  { unfold sim in *. by rewrite end_split. }
  eapply simulates_bind; [exact (sim_logs _ _ muted _ _ logs_judge mute_judge Hl)|].
  intros intact s1 io1 (M1 & Hl1 & Hd). eapply sim_mono; [by apply finish_sim|]. intros [] s2 io2 [Ht Hs]. split; [done|].
  by eapply muted_stepped.
Qed.

(** The log [p] opens, if it is a main packet, cannot be opened. *)
Definition refuses (p : packet) s io : Prop :=
  1 ≤ Z.shiftr (mem (p_payload p)) 6 ∧ can_open io (log_name (total_frames s)) = false.

Lemma main_sim p MH s io :
  (can_open io (log_name (total_frames s)) = false → fails) →
  sim (λ _ s' io', muted s s' ∧ live io' ∧ same_dumps io io') (main_packet_l cb can_open mem p MH) (main_packet cb mem p MH) s io.
Proof.
  intros HF.
  assert (∃ io1, log_init can_open (total_frames s) io = Ret ((), io1) ∧ live io1 ∧ same_dumps io io1) as (io1 & E & Hl & Hd).
  { rewrite log_init_run. destruct (can_open io _); eexists; (split; [reflexivity|]); [|by split; [left; auto|]]. split.
    - right. exists (next_stream io), (total_frames s), []. split; [done|]. cbn. by rewrite !lookup_insert_eq.
    - intros n. cbn. by rewrite lookup_insert_ne by (symmetry; apply dump_not_log). }
  destruct (sim_bare _ muted s io1 (mute_main p MH)) as [[F Hu]|Hb].
  { left. split; [done|]. unfold main_packet_l. by rewrite (bind_run _ _ (s, io) s (s, io)) by done;
      rewrite (bind_run _ _ _ () (s, io1)) by (unfold on_io; by rewrite E). }
  right. unfold main_packet_l. rewrite (bind_run _ _ (s, io) s (s, io)) by done.
  rewrite (bind_run _ _ _ () (s, io1)) by (unfold on_io; by rewrite E).
  destruct (main_packet cb mem p MH s) as [[go s']| |]; [|done|done]. destruct Hb as (io' & -> & HM & ->).
  by exists io1.
Qed.

Lemma pull_sim p s io :
  frame_ready_cb_ cb = true → byte_memory mem → (refuses p s io → fails) → tracked s io →
  sim (λ _ s' io', tracked s' io' ∧ stepped s s' io io') (pull_data_l cb can_open mem p) (pull_data cb mem p) s io.
Proof.
  intros Hr Hb HF Ht. unfold pull_data_l, pull_data.
  eapply simulates_bind; [apply (sim_bare _ _ s io (steps_and _ _ _ (mute_gap p) (steps_and _ _ _ (lower_gap p) (count_gap p))))|intros [] s1 io1 [(M1 & L1 & C1) ->]].
  eapply simulates_bind; [apply (sim_bare _ _ s1 io (steps_and _ _ _ mute_cap (steps_and _ _ _ lower_cap count_cap)))|intros [] s2 io2 [(M2 & L2 & C2) ->]].
  assert (muted s s2) as M by (by transitivity s1). assert (lowers s s2) as L by (by transitivity s1).
  assert (tracked s2 io) as Ht2.
  { destruct Ht as [[H1 H2]|]; [left|by right]. split; [done|]. apply not_true_is_false. intros E. apply L in E. congruence. }
  apply simulates_get. set (MH := Z.shiftr _ 6). assert (0 ≤ MH) as HM by (apply Z.shiftr_nonneg, Hb).
  destruct (_ && _) eqn:Eskip.
  - eapply sim_mono; [apply (sim_bare _ _ s2 io (steps_and _ _ _ (mute_skip p) (lower_skip p)))|].
    intros [] s' io' [[M' L'] ->]. split; [|apply stepped_muted; [by transitivity s2|done]].
    destruct Ht2 as [[H1 H2]|]; [left|by right]. split; [done|]. apply not_true_is_false. intros E. apply L' in E. congruence.
  - apply (simulates_bind _ _ _ _ (λ (_ : bool) s' io', muted s2 s' ∧ live io' ∧ same_dumps io io')).
    { destruct (1 <=? MH) eqn:E1.
      { apply Z.leb_le in E1. apply main_sim. intros Ho. apply HF. split; [done|]. by rewrite <- C1, <- C2. }
      apply Z.leb_gt in E1. assert (MH = 0) as E0 by lia.
      rewrite E0 in Eskip. apply orb_false_iff in Eskip as [Ep _]. apply negb_false_iff in Ep.
      destruct Ht2 as [[_ H2]|Hl]; [congruence|].
      eapply simulates_bind; [exact (sim_logs _ _ muted _ _ (logs_body p) (mute_body p) Hl)|]. intros [] s' io' HQ. by apply simulates_ret. }
    intros go s3 io3 (M3 & Hl & Hd). assert (muted s s3) as M' by (by transitivity s2). destruct (go && p_marker p).
    + eapply sim_mono; [by apply end_sim|]. intros [] s' io' [H1 H2]. split; [done|]. by eapply muted_stepped.
    + apply simulates_ret. split; [by right|by apply stepped_muted].
Qed.
End Handler.

(** ** A stream of packets *)
Section Stream.
Context `{TileHandler T} (can_open : stdio → text → bool).

(** The frame a packet completes, under the number it is counted with. *)
Definition dump_of (mem : memory) (s s' : frame_handler T) : list (Z * list Z) :=
  (λ ch, (total_frames s' - 1, flat_bytes mem ch)) <$> readies (drop (length (trace s)) (trace s')).
(** The frames a run completes: what [frame_ready_cb_] is handed, read in the memory of the
    packet that completes it. *)
Fixpoint dumps_of (cb : callbacks) (l : list (memory * packet)) (s : frame_handler T) : list (Z * list Z) :=
  match l with
  | [] => []
  | (mem, p) :: l =>
      match pull_data cb mem p s with
      | Ret (_, s') => dump_of mem s s' ++ dumps_of cb l s'
      | _ => []
      end
  end.

(** The directory after the dumps [d]: each file holds its frame, and is otherwise
    untouched; so is the file of a frame that cannot be opened. *)
Definition dumped (d : list (Z * list Z)) (io io' : stdio) : Prop :=
  ∀ n, is_size n →
    disk io' !! dump_name n = (list_to_map d : gmap Z (list Z)) !! n ∪ disk io !! dump_name n
    ∨ disk io' !! dump_name n = disk io !! dump_name n ∧ ∃ io1, can_open io1 (dump_name n) = false.
(** The numbers [d] uses: increasing, from [lo] and below [hi]. *)
Definition numbered (lo hi : Z) (d : list (Z * list Z)) : Prop :=
  StronglySorted Z.lt d.*1 ∧ Forall (λ k, lo ≤ k < hi) d.*1 ∧ lo ≤ hi.

Lemma numbered_app lo mid hi d1 d2 : numbered lo mid d1 → numbered mid hi d2 → numbered lo hi (d1 ++ d2).
Proof.
  intros (S1 & F1 & L1) (S2 & F2 & L2). unfold numbered. rewrite fmap_app. split_and!; [|apply Forall_app; split|lia].
  - apply StronglySorted_app_2; [|done|done]. intros x y Hx Hy. rewrite Forall_forall in F1, F2.
    specialize (F1 x Hx). specialize (F2 y Hy). lia.
  - eapply Forall_impl; [exact F1|]. cbn. lia.
  - eapply Forall_impl; [exact F2|]. cbn. lia.
Qed.
Lemma dumped_same d io io' n :
  (list_to_map d : gmap Z (list Z)) !! n = None → is_size n → dumped d io io' → disk io' !! dump_name n = disk io !! dump_name n.
Proof. intros E Hn D. destruct (D n Hn) as [->|[-> _]]; [|done]. rewrite E. by destruct (disk io !! _). Qed.
Lemma dumped_app lo mid hi d1 d2 io io1 io2 :
  numbered lo mid d1 → numbered mid hi d2 → dumped d1 io io1 → dumped d2 io1 io2 → dumped (d1 ++ d2) io io2.
Proof.
  intros (_ & F1 & _) (_ & F2 & _) D1 D2 n Hn. rewrite list_to_map_app, lookup_union.
  destruct (list_to_map d2 !! n) as [b2|] eqn:E2.
  - destruct (list_to_map d1 !! n) as [b1|] eqn:E1.
    { apply elem_of_list_to_map_2, (list_elem_of_fmap_2 fst) in E1, E2. rewrite Forall_forall in F1, F2.
      specialize (F1 _ E1). specialize (F2 _ E2). cbn in *. lia. }
    specialize (D2 n Hn). rewrite (dumped_same d1 io io1 n E1 Hn D1) in D2. by rewrite E2 in D2.
  - rewrite (dumped_same d2 io1 io2 n E2 Hn D2). specialize (D1 n Hn). by destruct (list_to_map d1 !! n).
Qed.

Lemma dumped_nil io : dumped [] io io.
Proof. intros n _. left. change (list_to_map [] : gmap Z (list Z)) with (∅ : gmap Z (list Z)). rewrite lookup_empty. by destruct (disk io !! _). Qed.

Lemma stepped_dumped mem (s s' : frame_handler T) io io' :
  0 ≤ total_frames s → stepped mem can_open s s' io io' →
  numbered (total_frames s) (total_frames s') (dump_of mem s s')
  ∧ (total_frames s' ≤ 18446744073709551616 → dumped (dump_of mem s s') io io').
Proof.
  intros H0 (evs & Ht & Hn & Hm). unfold dump_of. rewrite Ht, drop_app_length. destruct (readies evs) as [|ch [|? ?]]; [| |done].
  - split; [by split_and!; [constructor|constructor|]|]. intros _ n Hs. rewrite (Hm n). by apply dumped_nil.
  - destruct Hm as (Hlt & Hd & Ho). split; [split_and!; [by repeat constructor|by repeat constructor; cbn; lia|lia]|].
    intros Hmax n Hs. cbn [fmap list_fmap]. rewrite list_to_map_cons. destruct (decide (n = total_frames s' - 1)) as [-> |Hne].
    + destruct Hd as [Hd|Hd]; [left|by right]. rewrite lookup_insert_eq, Hd. by destruct (disk io !! _).
    + rewrite lookup_insert_ne by done. rewrite Ho; [by apply dumped_nil|]. intros E. apply Hne, dump_names_differ; [done| |done].
      unfold is_size. lia.
Qed.

Context `{!LoggedTile T}.
(** Somewhere in the run a main packet cannot open its log. *)
Fixpoint log_refused (cb : callbacks) (l : list (memory * packet)) (s : frame_handler T) (io : stdio) : Prop :=
  match l with
  | [] => False
  | (mem, p) :: l =>
      refuses mem can_open p s io
      ∨ match pull_data_l cb can_open mem p (s, io) with Ret (_, (s', io')) => log_refused cb l s' io' | _ => False end
  end.

Context `{!LoggedLaws T}.
Lemma pull_all_sim cb l : frame_ready_cb_ cb = true →
  Forall (λ x, byte_memory x.1) l → ∀ (fails : Prop) (s : frame_handler T) io,
  (log_refused cb l s io → fails) → tracked fails s io → 0 ≤ total_frames s →
  sim fails (λ _ s' io', numbered (total_frames s) (total_frames s') (dumps_of cb l s)
         ∧ (total_frames s' ≤ 18446744073709551616 → dumped (dumps_of cb l s) io io'))
    (pull_all_l cb can_open l) (pull_all cb l) s io.
Proof.
  intros Hr. induction 1 as [|[mem p] l Hb _ IH]; intros fails s io HF Ht Hz.
  - apply simulates_ret. split; [split_and!; [constructor|constructor|lia]|]. intros _. apply dumped_nil.
  - cbn [log_refused] in HF.
    pose proof (pull_sim cb mem fails can_open p s io Hr Hb (λ h, HF (or_introl h)) Ht) as Hp. cbn [pull_all pull_all_l dumps_of].
    unfold sim at 1, mbind, M_bind. destruct Hp as [[F ->]|Hp]; [by left|].
    destruct (pull_data cb mem p s) as [[[] s1]| |]; [|right; by rewrite Hp..].
    destruct Hp as (io1 & E1 & Ht1 & Hs1). rewrite E1 in HF |- *. destruct (stepped_dumped mem s s1 io io1 Hz Hs1) as [N1 D1].
    pose proof N1 as (_ & _ & L1). destruct (IH fails s1 io1 (λ h, HF (or_intror h)) Ht1 ltac:(lia)) as [HU|IH1]; [by left|right].
    destruct (pull_all cb l s1) as [[[] s2]| |]; [|done|done]. destruct IH1 as (io2 & E2 & N2 & D2).
    exists io2. split; [done|]. split; [by eapply numbered_app|]. intros Hmax. pose proof N2 as (_ & _ & L2).
    eapply dumped_app; [done|done|apply D1; lia|by apply D2].
Qed.
End Stream.


(** ** Witness: a frame, one whose last packet never comes, and a frame *)
Definition log_packets : list (memory * packet) := sys_frame ++ [(sys_mem, main_pkt)] ++ sys_frame.
Definition sys_bytes : list Z := sys_header 32 16 ++ replicate 6 0.
Definition no_files : stdio := mkStdio ∅ ∅ None.
Definition always (io : stdio) (name : text) : bool := true.

Lemma log_packets_run :
  ∃ s', pull_all (H := sys_ops) all_cb log_packets (started new_tile_handler 4) = Ret ((), s') ∧ total_frames s' = 3
    ∧ dumps_of (H := sys_ops) all_cb log_packets (started new_tile_handler 4) = [(0, sys_bytes); (2, sys_bytes)].
Proof. vm_compute. eexists. split; [reflexivity|]. split; reflexivity. Qed.

Lemma always_opens `{TileHandler T} `{!LoggedTile T} cb l (s : frame_handler T) io : ~ log_refused always cb l s io.
Proof.
  revert s io. induction l as [|[mem p] l IH]; intros s io; [by intros []|]. intros [[_ Ho]|Hl]; [done|].
  destruct (pull_data_l _ _ _ _ _) as [[[] [s' io']]| |]; [by eapply IH|done|done].
Qed.


(** The log of a frame that follows a missed EOC has the number before (finding): [log_init]
    takes the count before the abandoned frame is added to it, so that frame 2 is dumped
    as out_00002.j2c while its log is log_00001.log, which replaces the log of frame 1. *)
Theorem log_number_lags :
  ∃ s' io', pull_all_l (H := sys_ops) all_cb always log_packets (started new_tile_handler 4, no_files) = Ret ((), (s', io'))
    ∧ is_Some (disk io' !! dump_name 2) ∧ disk io' !! log_name 2 = None
    ∧ disk io' !! log_name 1 = Some (lines (replicate 6 msg_EMPTY)).
Proof.
  assert (match pull_all_l (H := sys_ops) all_cb always log_packets (started new_tile_handler 4, no_files) with
    | Ret (_, (s', io')) => bool_decide (is_Some (disk io' !! dump_name 2) ∧ disk io' !! log_name 2 = None
         ∧ disk io' !! log_name 1 = Some (lines (replicate 6 msg_EMPTY)))
    | _ => false end = true) as H by (vm_compute; reflexivity).
  destruct (pull_all_l _ _ _ _) as [[[] [s' io']]| |]; [|done|done]. exists s', io'. split; [done|].
  exact (bool_decide_eq_true_1 _ H).
Qed.
